(** * Offline emergency mesh chat: envelope codec, duplicate cache and
      message engine, embedded from the TypeScript sources.

    Sources embedded here:
    - [src/utils/messageEnvelope.ts]   (createEnvelope, serializeEnvelope,
      deserializeEnvelope, validateEnvelope)
    - [src/utils/duplicateDetection.ts] (DuplicateDetector)
    - [src/services/MessageService.ts]  (sendMessage, handleIncomingMessage,
      relayMessage, transmitToAllPeers, queueMessageForRetry,
      processRetryQueue, generateUUID, deriveSenderId)
    - [src/services/StorageService.ts]  (storeMessage)
    - [src/utils/constants.ts]

    Conventions of the embedding:
    - a JavaScript string is the list of its UTF-16 code units ([jsstring]);
    - a [Uint8Array] is a [list Byte.byte];
    - a JavaScript number that holds an integral value is a [Z]; the
      conversion [Number(bigint)] rounds to 53 significant bits as
      IEEE-754 binary64 does;
    - [Date.now()], [Math.random()], the BLE link and the storage medium
      are inputs of each operation (record [Env]);
    - the injected [CryptoService] is a record of functions. *)

From Stdlib Require Import ZArith NArith List Bool Lia String Ascii.
From Stdlib Require Strings.Byte.
From stdpp Require Import base option list gmap fin_maps.
Import ListNotations.

Local Open Scope Z_scope.

(* ===================================================================== *)
(** ** JavaScript values used by the sources                              *)
(* ===================================================================== *)

Module JS.

(** UTF-16 code unit. *)
Definition code_unit := N.
Definition jsstring := list code_unit.
Definition bytes := list Byte.byte.

(** String literals of the sources, written with Rocq strings. *)
Definition js (s : string) : jsstring :=
  map N_of_ascii (list_ascii_of_string s).

(** [Uint8Array] element store: ToUint8, i.e. reduction modulo 256. *)
Definition u8 (z : Z) : Byte.byte :=
  match Byte.of_N (Z.to_N (z mod 256)) with
  | Some b => b
  | None => Byte.x00
  end.

Definition byteZ (b : Byte.byte) : Z := Z.of_N (Byte.to_N b).

(** [String.prototype.substr(start, len)] for non-negative arguments. *)
Definition substr {A} (s : list A) (start len : nat) : list A :=
  firstn len (skipn start s).

(** [String.prototype.substring(0, n)]. *)
Definition substring0 {A} (s : list A) (n : nat) : list A := firstn n s.

(** [Uint8Array.prototype.slice(a, b)] for [0 <= a]. *)
Definition slice {A} (data : list A) (a b : Z) : list A :=
  firstn (Z.to_nat (b - a)) (skipn (Z.to_nat a) data).

(** [s.replace(/-/g, '')]. *)
Definition remove_hyphens (s : jsstring) : jsstring :=
  List.filter (fun c => negb (N.eqb c 45)) s.

(** WhiteSpace and LineTerminator code units skipped by [parseInt]. *)
Definition is_js_whitespace (c : code_unit) : bool :=
  existsb (N.eqb c)
    [9; 10; 11; 12; 13; 32; 160; 5760; 8192; 8193; 8194; 8195; 8196; 8197;
     8198; 8199; 8200; 8201; 8202; 8232; 8233; 8239; 8287; 12288; 65279]%N.

Fixpoint skip_whitespace (s : jsstring) : jsstring :=
  match s with
  | c :: s' => if is_js_whitespace c then skip_whitespace s' else s
  | [] => []
  end.

(** Value of a hexadecimal digit, either case. *)
Definition hex_digit_value (c : code_unit) : option Z :=
  if (48 <=? c)%N && (c <=? 57)%N then Some (Z.of_N c - 48)
  else if (97 <=? c)%N && (c <=? 102)%N then Some (Z.of_N c - 87)
  else if (65 <=? c)%N && (c <=? 70)%N then Some (Z.of_N c - 55)
  else None.

(** Longest prefix of hexadecimal digits, accumulated left to right;
    the flag records whether at least one digit was read. *)
Fixpoint hex_prefix (s : jsstring) (acc : Z) (seen : bool) : option Z :=
  match s with
  | c :: s' =>
      match hex_digit_value c with
      | Some d => hex_prefix s' (16 * acc + d) true
      | None => if seen then Some acc else None
      end
  | [] => if seen then Some acc else None
  end.

(** [parseInt(s, 16)]; [None] is NaN. *)
Definition parseInt16 (s : jsstring) : option Z :=
  let s1 := skip_whitespace s in
  let '(sign, s2) :=
    match s1 with
    | 45%N :: r => (-1, r)
    | 43%N :: r => (1, r)
    | _ => (1, s1)
    end in
  let s3 :=
    match s2 with
    | 48%N :: 120%N :: r => r
    | 48%N :: 88%N :: r => r
    | _ => s2
    end in
  match hex_prefix s3 0 false with
  | Some v => Some (sign * v)
  | None => None
  end.

(** Storing the result of [parseInt] in a [Uint8Array]: NaN becomes 0. *)
Definition u8_of_parse (r : option Z) : Byte.byte :=
  match r with
  | Some z => u8 z
  | None => Byte.x00
  end.

(** The loop [for (i = 0; i < n; i++) out[i] = parseInt(hex.substr(i*2, 2), 16)]. *)
Definition hex_to_bytes (hex : jsstring) (n : nat) : bytes :=
  map (fun i => u8_of_parse (parseInt16 (substr hex (i * 2) 2))) (seq 0 n).

(** Lower-case hexadecimal digit of a value below 16. *)
Definition hex_char (d : Z) : code_unit :=
  if d <? 10 then Z.to_N (48 + d) else Z.to_N (87 + d).

(** [b.toString(16).padStart(2, '0')]. *)
Definition hex2 (b : Byte.byte) : jsstring :=
  [hex_char (byteZ b / 16); hex_char (byteZ b mod 16)].

(** [Array.from(bs).map(b => b.toString(16).padStart(2, '0')).join('')]. *)
Definition bytes_to_hex (bs : bytes) : jsstring :=
  concat (map hex2 bs).

(** The template literal that inserts the four hyphens of a UUID. *)
Definition format_uuid (hex : jsstring) : jsstring :=
  substr hex 0 8 ++ [45%N] ++ substr hex 8 4 ++ [45%N] ++ substr hex 12 4
    ++ [45%N] ++ substr hex 16 4 ++ [45%N] ++ substr hex 20 12.

(** Big-endian writers of [DataView] ([setUint16], [setUint32],
    [setBigUint64] with [littleEndian = false]); values wrap modulo
    the field width. *)
Fixpoint be_bytes (width : nat) (z : Z) : bytes :=
  match width with
  | O => []
  | S w => u8 (Z.shiftr z (8 * Z.of_nat w)) :: be_bytes w z
  end.

(** Big-endian readers of [DataView]. *)
Definition be_value (bs : bytes) : Z :=
  fold_left (fun acc b => 256 * acc + byteZ b) bs 0.

(** [view.getUintN(offset)]: a [RangeError] (here [None]) when the read
    leaves the buffer. *)
Definition getUint (width : nat) (data : bytes) (offset : Z) : option Z :=
  if (offset <? 0) || (Z.of_nat (length data) <? offset + Z.of_nat width)
  then None
  else Some (be_value (firstn width (skipn (Z.to_nat offset) data))).

(** [Number(b)] for a non-negative BigInt [b]: nearest binary64 value,
    ties to even. *)
Definition Number_of_BigInt (z : Z) : Z :=
  if z <? 2 ^ 53 then z
  else
    let sh := Z.log2 z - 52 in
    let q := Z.shiftr z sh in
    let r := Z.land z (2 ^ sh - 1) in
    let half := 2 ^ (sh - 1) in
    let q' := if (half <? r) || ((r =? half) && Z.odd q) then q + 1 else q in
    Z.shiftl q' sh.

(** An integral value that a JavaScript number can hold exactly. *)
Definition is_js_integer (z : Z) : Prop :=
  Number_of_BigInt (Z.abs z) = Z.abs z.

(** Number of Unicode code points of a UTF-16 string: a high surrogate
    followed by a low surrogate is one code point. *)
Fixpoint code_point_count (s : jsstring) : nat :=
  match s with
  | [] => O
  | c :: s' =>
      match s' with
      | d :: s'' =>
          if (55296 <=? c)%N && (c <=? 56319)%N
             && (56320 <=? d)%N && (d <=? 57343)%N
          then S (code_point_count s'')
          else S (code_point_count s')
      | [] => 1%nat
      end
  end.

End JS.

(* ===================================================================== *)
(** ** src/utils/constants.ts                                             *)
(* ===================================================================== *)

Module Constants.
Definition MAX_MESSAGE_LENGTH : Z := 500.
Definition INITIAL_MESSAGE_TTL : Z := 10.
Definition CACHE_EXPIRATION_MS : Z := 300000.
Definition MAX_CACHE_ENTRIES : Z := 1000.
Definition MESSAGE_ENVELOPE_VERSION : Z := 1.
Definition MAX_SEND_RETRIES : Z := 3.
Definition RETRY_BASE_DELAY_MS : Z := 1000.
End Constants.

(* ===================================================================== *)
(** ** src/context/types.ts and src/utils/messageEnvelope.ts              *)
(* ===================================================================== *)

Module Envelope.
Import JS Constants.

Record EncryptedMessage := mkEncrypted {
  ciphertext : bytes;
  enc_nonce : bytes;
  enc_tag : bytes
}.

Record MessageEnvelope := mkEnvelope {
  version : Z;
  messageId : jsstring;
  senderId : jsstring;
  recipientId : jsstring;
  timestamp : Z;
  ttl : Z;
  encryptedPayload : bytes;
  nonce : bytes;
  tag : bytes
}.

(** The object spread [{...envelope, ttl: t}]. *)
Definition with_ttl (e : MessageEnvelope) (t : Z) : MessageEnvelope :=
  {| version := version e; messageId := messageId e; senderId := senderId e;
     recipientId := recipientId e; timestamp := timestamp e; ttl := t;
     encryptedPayload := encryptedPayload e; nonce := nonce e; tag := tag e |}.

(** One constructor per [throw new EnvelopeError(...)] site. *)
Inductive EnvelopeError :=
  (* createEnvelope *)
  | CreateInvalidMessageId | CreateInvalidSenderId | CreateInvalidRecipientId
  | CreateInvalidTimestamp | CreateInvalidTTL
  (* validateEnvelope *)
  | InvalidVersion | InvalidTTL | MissingMessageId | MissingSenderId
  | MissingRecipientId | InvalidTimestamp | EmptyNonce | EmptyTag
  | EmptyPayload
  (* serializeEnvelope *)
  | InvalidMessageIdFormat | InvalidSenderIdLength | InvalidRecipientIdLength
  | SerializationFailed
  (* deserializeEnvelope *)
  | TooShort | UnsupportedVersion | NonceTooLarge | NonceOverrun
  | MissingTagLength | TagTooLarge | TagOverrun | MissingPayloadLength
  | PayloadTooLarge | PayloadLengthMismatch | DeserializationFailed.

Inductive result (A : Type) :=
  | Ok (a : A)
  | Err (e : EnvelopeError).
Arguments Ok {A} a.
Arguments Err {A} e.

Definition rbind {A B} (r : result A) (k : A -> result B) : result B :=
  match r with
  | Ok a => k a
  | Err e => Err e
  end.

Notation "'check' c 'else' e ; k" :=
  (if c then k else Err e)
  (at level 10, c at level 0, e at level 0, k at level 200, only parsing).
Notation "x <-r m ; k" := (rbind m (fun x => k))
  (at level 200, m at level 100, k at level 200, right associativity,
   only parsing).

(** A [DataView] read inside the [try] block of [deserializeEnvelope]:
    a [RangeError] is rethrown as "Deserialization failed". *)
Definition view_read (r : option Z) : result Z :=
  match r with
  | Some z => Ok z
  | None => Err DeserializationFailed
  end.

Definition is_empty {A} (l : list A) : bool :=
  match l with [] => true | _ => false end.

Definition len {A} (l : list A) : Z := Z.of_nat (length l).

(** [createEnvelope]: the members of [encrypted] are typed arrays and so
    always truthy; the remaining guards are those of the source. *)
Definition createEnvelope (encrypted : EncryptedMessage)
    (messageId senderId recipientId : jsstring) (timestamp ttl : Z)
    : result MessageEnvelope :=
  check (negb (is_empty messageId)) else CreateInvalidMessageId;
  check (len senderId =? 16) else CreateInvalidSenderId;
  check (len recipientId =? 16) else CreateInvalidRecipientId;
  check (0 <? timestamp) else CreateInvalidTimestamp;
  check ((0 <=? ttl) && (ttl <=? 255)) else CreateInvalidTTL;
  Ok {| version := MESSAGE_ENVELOPE_VERSION; messageId := messageId;
        senderId := senderId; recipientId := recipientId;
        timestamp := timestamp; ttl := ttl;
        encryptedPayload := ciphertext encrypted;
        nonce := enc_nonce encrypted; tag := enc_tag encrypted |}.

(** [validateEnvelope]: returns [true] or throws. *)
Definition validateEnvelope (e : MessageEnvelope) : result bool :=
  check (version e =? MESSAGE_ENVELOPE_VERSION) else InvalidVersion;
  check ((0 <=? ttl e) && (ttl e <=? 255)) else InvalidTTL;
  check (negb (is_empty (messageId e))) else MissingMessageId;
  check (negb (is_empty (senderId e))) else MissingSenderId;
  check (negb (is_empty (recipientId e))) else MissingRecipientId;
  check (0 <? timestamp e) else InvalidTimestamp;
  check (negb (is_empty (nonce e))) else EmptyNonce;
  check (negb (is_empty (tag e))) else EmptyTag;
  check (negb (is_empty (encryptedPayload e))) else EmptyPayload;
  Ok true.

(** [serializeEnvelope]. The buffer is written front to back, so the
    result is the concatenation of the fields in writing order. *)
Definition serializeEnvelope (e : MessageEnvelope) : result bytes :=
  _ <-r validateEnvelope e;
  let messageIdHex := remove_hyphens (messageId e) in
  check (len messageIdHex =? 32) else InvalidMessageIdFormat;
  let messageIdBytes := hex_to_bytes messageIdHex 16 in
  check (len (senderId e) =? 16) else InvalidSenderIdLength;
  let senderIdBytes := hex_to_bytes (senderId e) 8 in
  check (len (recipientId e) =? 16) else InvalidRecipientIdLength;
  let recipientIdBytes := hex_to_bytes (recipientId e) 8 in
  Ok ([u8 (version e)]
        ++ messageIdBytes
        ++ senderIdBytes
        ++ recipientIdBytes
        ++ be_bytes 8 (timestamp e)
        ++ [u8 (ttl e)]
        ++ be_bytes 2 (len (nonce e))
        ++ nonce e
        ++ be_bytes 2 (len (tag e))
        ++ tag e
        ++ be_bytes 4 (len (encryptedPayload e))
        ++ encryptedPayload e).

(** [deserializeEnvelope]. *)
Definition deserializeEnvelope (data : bytes) : result MessageEnvelope :=
  check (negb (len data <? 50)) else TooShort;
  let offset := 0 in
  version <-r view_read (getUint 1 data offset);
  let offset := offset + 1 in
  check (version =? MESSAGE_ENVELOPE_VERSION) else UnsupportedVersion;
  let messageIdBytes := slice data offset (offset + 16) in
  let offset := offset + 16 in
  let messageIdHex := bytes_to_hex messageIdBytes in
  let messageId := format_uuid messageIdHex in
  let senderIdBytes := slice data offset (offset + 8) in
  let offset := offset + 8 in
  let senderId := bytes_to_hex senderIdBytes in
  let recipientIdBytes := slice data offset (offset + 8) in
  let offset := offset + 8 in
  let recipientId := bytes_to_hex recipientIdBytes in
  big <-r view_read (getUint 8 data offset);
  let timestamp := Number_of_BigInt big in
  let offset := offset + 8 in
  ttl <-r view_read (getUint 1 data offset);
  let offset := offset + 1 in
  nonceLength <-r view_read (getUint 2 data offset);
  let offset := offset + 2 in
  check (negb (1024 <? nonceLength)) else NonceTooLarge;
  check (negb (len data <? offset + nonceLength)) else NonceOverrun;
  let nonce := slice data offset (offset + nonceLength) in
  let offset := offset + nonceLength in
  check (negb (len data <? offset + 2)) else MissingTagLength;
  tagLength <-r view_read (getUint 2 data offset);
  let offset := offset + 2 in
  check (negb (1024 <? tagLength)) else TagTooLarge;
  check (negb (len data <? offset + tagLength)) else TagOverrun;
  let tag := slice data offset (offset + tagLength) in
  let offset := offset + tagLength in
  check (negb (len data <? offset + 4)) else MissingPayloadLength;
  payloadLength <-r view_read (getUint 4 data offset);
  let offset := offset + 4 in
  check (negb (10 * 1024 * 1024 <? payloadLength)) else PayloadTooLarge;
  check (offset + payloadLength =? len data) else PayloadLengthMismatch;
  let encryptedPayload := slice data offset (offset + payloadLength) in
  let envelope :=
    {| version := version; messageId := messageId; senderId := senderId;
       recipientId := recipientId; timestamp := timestamp; ttl := ttl;
       encryptedPayload := encryptedPayload; nonce := nonce; tag := tag |} in
  _ <-r validateEnvelope envelope;
  Ok envelope.

(** The canonical textual forms the decoder produces: sixteen lower-case
    hexadecimal digits, and the 8-4-4-4-12 hyphenated lower-case UUID. *)
Definition is_lower_hex (c : code_unit) : bool :=
  ((48 <=? c)%N && (c <=? 57)%N) || ((97 <=? c)%N && (c <=? 102)%N).

Definition is_lower_hex_id (s : jsstring) : bool :=
  (length s =? 16)%nat && forallb is_lower_hex s.

Definition is_canonical_uuid (s : jsstring) : bool :=
  (length s =? 36)%nat
  && forallb is_lower_hex (substr s 0 8)
  && forallb (N.eqb 45) (substr s 8 1)
  && forallb is_lower_hex (substr s 9 4)
  && forallb (N.eqb 45) (substr s 13 1)
  && forallb is_lower_hex (substr s 14 4)
  && forallb (N.eqb 45) (substr s 18 1)
  && forallb is_lower_hex (substr s 19 4)
  && forallb (N.eqb 45) (substr s 23 1)
  && forallb is_lower_hex (substr s 24 12).

End Envelope.

(* ===================================================================== *)
(** ** src/utils/duplicateDetection.ts                                    *)
(* ===================================================================== *)

Module DuplicateDetector.
Import JS Constants.

(** The private [Map<string, number>] of the class: message id to the
    [Date.now()] reading at which it was marked. *)
Abbreviation Cache := (gmap (list N) Z).

Definition isDuplicate (cache : Cache) (messageId : jsstring) : bool :=
  bool_decide (is_Some (cache !! messageId)).

(** [pruneCache]: deletes every entry with
    [timestamp < Date.now() - CACHE_EXPIRATION_MS]. *)
Definition pruneCache (now : Z) (cache : Cache) : Cache :=
  filter (fun kv => ¬ (kv.2 < now - CACHE_EXPIRATION_MS)) cache.

(** [markAsProcessed]: [cache.set(messageId, Date.now())] followed by
    [pruneCache()]; both clock readings of the synchronous call are the
    instant [now]. *)
Definition markAsProcessed (now : Z) (messageId : jsstring) (cache : Cache)
    : Cache :=
  pruneCache now (<[messageId := now]> cache).

Definition getCacheSize (cache : Cache) : nat := size cache.

Definition clearCache (cache : Cache) : Cache := ∅.

End DuplicateDetector.

(* ===================================================================== *)
(** ** src/services/MessageService.ts (with the collaborators it calls)   *)
(* ===================================================================== *)

Module MessageService.
Import JS Constants Envelope DuplicateDetector.

(** [Peer] of types.ts; [null] keys are [None]. *)
Record Peer := mkPeer {
  peer_id : jsstring;
  publicKey : option bytes;
  sharedSecret : option bytes;
  peer_name : jsstring;
  connected : bool;
  verified : bool;
  rssi : Z;
  lastSeen : Z
}.

(** [Message] of types.ts. *)
Record Message := mkMessage {
  id : jsstring;
  peerId : jsstring;
  text : jsstring;
  msg_timestamp : Z;
  sent : bool;
  delivered : bool;
  failed : bool
}.

Record QueuedMessage := mkQueued {
  q_messageId : jsstring;
  q_peerId : jsstring;
  q_envelope : MessageEnvelope;
  serialized : bytes;
  attempts : Z;
  nextRetryTime : Z
}.

Inductive Status := StatusDelivered | StatusFailed.

(** What a call can throw. *)
Inductive Exn :=
  | ExnEnvelope (e : EnvelopeError)
  | ExnMessageTooLong
  | ExnMessageEmpty
  | ExnRecipientNotFound
  | ExnNoSharedSecret
  | ExnCrypto
  | ExnStorage.

Inductive Outcome (A : Type) :=
  | Returned (a : A)
  | Thrown (x : Exn).
Arguments Returned {A} a.
Arguments Thrown {A} x.

(** The injected [CryptoService]; each method may throw (service not
    initialised, bad key length, hashing failure). [decryptMessage]
    returns [null] ([None]) on authentication failure. *)
Record CryptoService := mkCrypto {
  getPublicKey : Outcome bytes;
  encryptMessage : jsstring -> bytes -> Outcome EncryptedMessage;
  decryptMessage : EncryptedMessage -> bytes -> Outcome (option jsstring);
  generateTrustFingerprint : bytes -> Outcome jsstring
}.

(** The [console.error] lines of the service and of [storeMessage]. *)
Inductive ErrorLog :=
  | LogSendMessageFailed
  | LogInvalidEnvelope (e : EnvelopeError)
  | LogEnvelopeValidationFailed (e : EnvelopeError)
  | LogCannotDecrypt
  | LogDecryptionFailed (messageId : jsstring)
  | LogHandleIncomingFailed (x : Exn)
  | LogRelayFailed (x : Exn)
  | LogSendFailedToPeer (deviceId : jsstring)
  | LogFailedToStoreMessage.

Inductive RelayResult := RelaySuccess | RelayFailed | RelayError.

(** Observable effects, in the order the code performs them. *)
Inductive Event :=
  | EvEncrypt (plaintext : jsstring) (key : bytes)
  | EvDecrypt (enc : EncryptedMessage) (key : bytes)
  | EvStore (m : Message)
  | EvSend (deviceId : jsstring) (data : bytes)
  | EvMessageReceived (m : Message)
  | EvMessageStatus (messageId : jsstring) (st : Status)
  | EvRelayTrace (idPrefix : jsstring) (newTtl : Z)
  | EvRelayResult (messageIdPrefix : jsstring) (r : RelayResult)
  | EvError (l : ErrorLog).

(** State owned by the service and its collaborators: the duplicate
    cache, the retry queue (a [Map], in insertion order), whether each
    callback is registered, and the stored message arrays by peer. *)
Record Service := mkService {
  cache : Cache;
  messageQueue : list (jsstring * QueuedMessage);
  messageReceivedCallback : bool;
  messageStatusCallback : bool;
  storage : gmap (list N) (list Message)
}.

(** What the surroundings answer during one call. *)
Record Env := mkEnv {
  now : Z;                                 (* Date.now() *)
  random : nat -> Byte.byte;               (* Math.floor(Math.random()*256) *)
  connectedDevices : list jsstring;        (* bleService.getConnectedDevices() *)
  sendData : jsstring -> bytes -> bool;    (* does bleService.sendData resolve *)
  settleTime : jsstring -> bytes -> nat;   (* when that write settles *)
  storageWritable : bool                   (* does AsyncStorage accept the write *)
}.

(** State, trace and exception monad. State changes and effects made
    before a throw persist, as mutations do in the source. *)
Definition M (A : Type) : Type := Service -> Outcome A * Service * list Event.

Definition ret {A} (a : A) : M A := fun s => (Returned a, s, []).
Definition throw {A} (x : Exn) : M A := fun s => (Thrown x, s, []).
Definition bind {A B} (m : M A) (k : A -> M B) : M B :=
  fun s =>
    match m s with
    | (Returned a, s1, t1) =>
        match k a s1 with (o, s2, t2) => (o, s2, t1 ++ t2) end
    | (Thrown x, s1, t1) => (Thrown x, s1, t1)
    end.
Definition try_catch {A} (m : M A) (h : Exn -> M A) : M A :=
  fun s =>
    match m s with
    | (Thrown x, s1, t1) =>
        match h x s1 with (o, s2, t2) => (o, s2, t1 ++ t2) end
    | r => r
    end.
Definition emit (ev : Event) : M unit := fun s => (Returned tt, s, [ev]).
Definition get : M Service := fun s => (Returned s, s, []).
Definition modify (f : Service -> Service) : M unit :=
  fun s => (Returned tt, f s, []).
Definition lift_outcome {A} (o : Outcome A) : M A := fun s => (o, s, []).
Definition lift_result {A} (r : result A) : M A :=
  match r with
  | Ok a => ret a
  | Err e => throw (ExnEnvelope e)
  end.

Declare Scope svc_scope.
Delimit Scope svc_scope with svc.
Bind Scope svc_scope with M.
Notation "x <- m ;; k" := (bind m (fun x => k))
  (at level 20, m at level 99, k at level 200, only parsing) : svc_scope.
Notation "m ;; k" := (bind m (fun _ => k))
  (at level 100, k at level 200, right associativity, only parsing)
  : svc_scope.
Local Open Scope svc_scope.

Definition set_cache (c : Cache) (s : Service) : Service :=
  {| cache := c; messageQueue := messageQueue s;
     messageReceivedCallback := messageReceivedCallback s;
     messageStatusCallback := messageStatusCallback s;
     storage := storage s |}.
Definition set_queue (q : list (jsstring * QueuedMessage)) (s : Service)
    : Service :=
  {| cache := cache s; messageQueue := q;
     messageReceivedCallback := messageReceivedCallback s;
     messageStatusCallback := messageStatusCallback s;
     storage := storage s |}.
Definition set_storage (st : gmap (list N) (list Message)) (s : Service)
    : Service :=
  {| cache := cache s; messageQueue := messageQueue s;
     messageReceivedCallback := messageReceivedCallback s;
     messageStatusCallback := messageStatusCallback s;
     storage := st |}.

(** [Map.prototype.get], [set] and [delete] on an insertion-ordered map. *)
Fixpoint map_get {V} (m : list (jsstring * V)) (k : jsstring) : option V :=
  match m with
  | [] => None
  | (k', v) :: m' => if bool_decide (k' = k) then Some v else map_get m' k
  end.
Fixpoint map_set {V} (m : list (jsstring * V)) (k : jsstring) (v : V)
    : list (jsstring * V) :=
  match m with
  | [] => [(k, v)]
  | (k', v') :: m' =>
      if bool_decide (k' = k) then (k, v) :: m' else (k', v') :: map_set m' k v
  end.
Definition map_delete {V} (m : list (jsstring * V)) (k : jsstring)
    : list (jsstring * V) :=
  List.filter (fun kv => negb (bool_decide (kv.1 = k))) m.

(** [StorageService.storeMessage]: appends to the array stored under the
    peer's key, or logs and throws when the medium fails. *)
Definition storeMessage (env : Env) (m : Message) : M unit :=
  emit (EvStore m) ;;
  if storageWritable env then
    modify (fun s =>
      set_storage (<[peerId m := default [] (storage s !! peerId m) ++ [m]]>
                     (storage s)) s)
  else
    emit (EvError LogFailedToStoreMessage) ;;
    throw ExnStorage.

(** [generateUUID]: sixteen random bytes with the version and variant
    bits forced, printed as a hyphenated lower-case UUID. *)
Definition generateUUID (env : Env) : jsstring :=
  let bytes := map (random env) (seq 0 16) in
  let bytes :=
    alter (fun b => u8 (Z.lor (Z.land (byteZ b) 15) 64)) 6%nat bytes in
  let bytes :=
    alter (fun b => u8 (Z.lor (Z.land (byteZ b) 63) 128)) 8%nat bytes in
  format_uuid (bytes_to_hex bytes).

(** [deriveSenderId]: first 16 characters of the trust fingerprint. *)
Definition deriveSenderId (crypto : CryptoService) (publicKey : bytes)
    : M jsstring :=
  fingerprint <- lift_outcome (generateTrustFingerprint crypto publicKey) ;;
  ret (substring0 fingerprint 16).

(** [devicesToSend.map(async deviceId => ...)] runs each callback up to
    its [await]: every write is started, in list order, before any of
    them settles. *)
Fixpoint startWrites (data : bytes) (devices : list jsstring) : M unit :=
  match devices with
  | [] => ret tt
  | deviceId :: rest => emit (EvSend deviceId data) ;; startWrites data rest
  end.

(** The order in which the started writes settle: by settling time,
    writes that settle together in the order they were started. *)
Fixpoint insertSettled (env : Env) (data : bytes) (d : jsstring)
    (settled : list jsstring) : list jsstring :=
  match settled with
  | [] => [d]
  | x :: rest =>
      if (settleTime env d data <=? settleTime env x data)%nat
      then d :: x :: rest
      else x :: insertSettled env data d rest
  end.
Definition settleOrder (env : Env) (data : bytes) (devices : list jsstring)
    : list jsstring :=
  fold_right (insertSettled env data) [] devices.

(** The rest of a callback runs when its write settles: the [catch]
    block logs a rejected write. *)
Fixpoint settleWrites (env : Env) (data : bytes) (settled : list jsstring)
    : M unit :=
  match settled with
  | [] => ret tt
  | deviceId :: rest =>
      (if sendData env deviceId data then ret tt
       else emit (EvError (LogSendFailedToPeer deviceId))) ;;
      settleWrites env data rest
  end.

(** [transmitToAllPeers]; the exclusion applies when [excludePeerId] is
    truthy, i.e. neither [null] nor the empty string.  [Promise.all]
    gives the results in the order of the devices. *)
Definition transmitToAllPeers (env : Env) (data : bytes)
    (excludePeerId : option jsstring) : M bool :=
  let connectedDevices := connectedDevices env in
  let devicesToSend :=
    match excludePeerId with
    | Some x =>
        if is_empty x then connectedDevices
        else List.filter (fun id => negb (bool_decide (id = x))) connectedDevices
    | None => connectedDevices
    end in
  if is_empty devicesToSend then ret false
  else
    startWrites data devicesToSend ;;
    settleWrites env data (settleOrder env data devicesToSend) ;;
    let results := map (fun deviceId => sendData env deviceId data)
                     devicesToSend in
    let successCount := length (List.filter (fun b : bool => b) results) in
    ret (0 <? Z.of_nat successCount).

(** [queueMessageForRetry]. *)
Definition queueMessageForRetry (env : Env) (messageId peerId : jsstring)
    (envelope : MessageEnvelope) (serialized : bytes) : M unit :=
  let queuedMessage :=
    {| q_messageId := messageId; q_peerId := peerId; q_envelope := envelope;
       serialized := serialized; attempts := 0;
       nextRetryTime := now env + RETRY_BASE_DELAY_MS |} in
  modify (fun s => set_queue (map_set (messageQueue s) messageId queuedMessage) s).

(** Invocation of a callback that may not be registered. *)
Definition notifyStatus (messageId : jsstring) (st : Status) : M unit :=
  s <- get ;;
  if messageStatusCallback s then emit (EvMessageStatus messageId st)
  else ret tt.
Definition notifyReceived (m : Message) : M unit :=
  s <- get ;;
  if messageReceivedCallback s then emit (EvMessageReceived m)
  else ret tt.

(** [relayMessage]. The two [console.log('[RELAY]', ...)] lines are the
    relay trace; nothing thrown inside leaves the procedure. *)
Definition relayMessage (env : Env) (envelope : MessageEnvelope)
    (excludePeerId : jsstring) : M unit :=
  try_catch
    (let relayEnvelope := with_ttl envelope (ttl envelope - 1) in
     emit (EvRelayTrace (substring0 (messageId relayEnvelope) 8)
                        (ttl relayEnvelope)) ;;
     serialized <- lift_result (serializeEnvelope relayEnvelope) ;;
     success <- transmitToAllPeers env serialized (Some excludePeerId) ;;
     emit (EvRelayResult (substring0 (messageId relayEnvelope) 8)
                         (if success then RelaySuccess else RelayFailed)))
    (fun error =>
     emit (EvError (LogRelayFailed error)) ;;
     emit (EvRelayResult (substring0 (messageId envelope) 8) RelayError)).

(** [sendMessage]. *)
Definition sendMessage (crypto : CryptoService) (env : Env)
    (recipientId text : jsstring) (peers : list (jsstring * Peer))
    : M Message :=
  try_catch
    (if MAX_MESSAGE_LENGTH <? len text then throw ExnMessageTooLong
     else if len text =? 0 then throw ExnMessageEmpty
     else
       match map_get peers recipientId with
       | None => throw ExnRecipientNotFound
       | Some recipient =>
       match sharedSecret recipient with
       | None => throw ExnNoSharedSecret
       | Some secret =>
         let messageId := generateUUID env in
         let timestamp := now env in
         ownPublicKey <- lift_outcome (getPublicKey crypto) ;;
         senderId <- deriveSenderId crypto ownPublicKey ;;
         recipientIdHash <-
           match publicKey recipient with
           | Some pk => deriveSenderId crypto pk
           | None => ret (substring0 recipientId 16)
           end ;;
         emit (EvEncrypt text secret) ;;
         encrypted <- lift_outcome (encryptMessage crypto text secret) ;;
         envelope <-
           lift_result (createEnvelope encrypted messageId senderId
                          recipientIdHash timestamp INITIAL_MESSAGE_TTL) ;;
         serialized <- lift_result (serializeEnvelope envelope) ;;
         let message :=
           {| id := messageId; peerId := recipientId; text := text;
              msg_timestamp := timestamp; sent := true; delivered := false;
              failed := false |} in
         storeMessage env message ;;
         transmitSuccess <- transmitToAllPeers env serialized None ;;
         if negb transmitSuccess then
           queueMessageForRetry env messageId recipientId envelope serialized ;;
           ret message
         else
           notifyStatus messageId StatusDelivered ;;
           ret {| id := messageId; peerId := recipientId; text := text;
                  msg_timestamp := timestamp; sent := true;
                  delivered := true; failed := false |}
       end end)
    (fun error =>
     emit (EvError LogSendMessageFailed) ;;
     throw error).

(** The [for (const peer of peers.values())] loop of
    [handleIncomingMessage]: first peer whose derived id equals the
    envelope's sender id. *)
Fixpoint findSenderPeer (crypto : CryptoService)
    (peers : list (jsstring * Peer)) (senderIdHash : jsstring)
    : M (option Peer) :=
  match peers with
  | [] => ret None
  | (_, peer) :: rest =>
      match publicKey peer with
      | Some pk =>
          peerIdHash <- deriveSenderId crypto pk ;;
          if bool_decide (peerIdHash = senderIdHash) then ret (Some peer)
          else findSenderPeer crypto rest senderIdHash
      | None => findSenderPeer crypto rest senderIdHash
      end
  end.

(** [handleIncomingMessage]. Only an [EnvelopeError] is handled by the
    two inner [try] blocks; everything else reaches the outer [catch],
    which logs and returns. *)
Definition handleIncomingMessage (crypto : CryptoService) (env : Env)
    (senderId : jsstring) (data : bytes) (peers : list (jsstring * Peer))
    : M unit :=
  try_catch
    (match deserializeEnvelope data with
     | Err e => emit (EvError (LogInvalidEnvelope e))
     | Ok envelope =>
     match validateEnvelope envelope with
     | Err e => emit (EvError (LogEnvelopeValidationFailed e))
     | Ok _ =>
       s <- get ;;
       if isDuplicate (cache s) (messageId envelope) then ret tt
       else
         modify (fun s =>
           set_cache (markAsProcessed (now env) (messageId envelope) (cache s)) s) ;;
         found <- findSenderPeer crypto peers (Envelope.senderId envelope) ;;
         let senderPeer :=
           match found with
           | Some p => Some p
           | None => map_get peers senderId
           end in
         match senderPeer with
         | None =>
             emit (EvError LogCannotDecrypt) ;;
             if 0 <? ttl envelope then relayMessage env envelope senderId
             else ret tt
         | Some senderPeer =>
         match sharedSecret senderPeer with
         | None =>
             emit (EvError LogCannotDecrypt) ;;
             if 0 <? ttl envelope then relayMessage env envelope senderId
             else ret tt
         | Some secret =>
             let enc :=
               {| ciphertext := encryptedPayload envelope;
                  enc_nonce := nonce envelope; enc_tag := tag envelope |} in
             emit (EvDecrypt enc secret) ;;
             plaintext <- lift_outcome (decryptMessage crypto enc secret) ;;
             match plaintext with
             | None =>
                 emit (EvError (LogDecryptionFailed (messageId envelope))) ;;
                 if 0 <? ttl envelope then relayMessage env envelope senderId
                 else ret tt
             | Some plaintext =>
                 let message :=
                   {| id := messageId envelope; peerId := peer_id senderPeer;
                      text := plaintext; msg_timestamp := timestamp envelope;
                      sent := false; delivered := true; failed := false |} in
                 storeMessage env message ;;
                 notifyReceived message ;;
                 if 0 <? ttl envelope then relayMessage env envelope senderId
                 else ret tt
             end
         end end
     end end)
    (fun error => emit (EvError (LogHandleIncomingFailed error))).

(** Body of the loop of [processRetryQueue] for one entry of the queue. *)
Definition retryEntry (env : Env) (messageId : jsstring)
    (queuedMessage : QueuedMessage) : M unit :=
  if nextRetryTime queuedMessage <=? now env then
    let attempts := attempts queuedMessage + 1 in
    let queuedMessage :=
      {| q_messageId := q_messageId queuedMessage;
         q_peerId := q_peerId queuedMessage;
         q_envelope := q_envelope queuedMessage;
         serialized := serialized queuedMessage;
         attempts := attempts;
         nextRetryTime := nextRetryTime queuedMessage |} in
    modify (fun s => set_queue (map_set (messageQueue s) messageId queuedMessage) s) ;;
    success <- transmitToAllPeers env (serialized queuedMessage) None ;;
    if success then
      modify (fun s => set_queue (map_delete (messageQueue s) messageId) s) ;;
      notifyStatus messageId StatusDelivered
    else if MAX_SEND_RETRIES <=? attempts then
      modify (fun s => set_queue (map_delete (messageQueue s) messageId) s) ;;
      notifyStatus messageId StatusFailed
    else
      let backoffDelay := RETRY_BASE_DELAY_MS * 2 ^ attempts in
      let queuedMessage :=
        {| q_messageId := q_messageId queuedMessage;
           q_peerId := q_peerId queuedMessage;
           q_envelope := q_envelope queuedMessage;
           serialized := serialized queuedMessage;
           attempts := attempts;
           nextRetryTime := now env + backoffDelay |} in
      modify (fun s => set_queue (map_set (messageQueue s) messageId queuedMessage) s)
  else ret tt.

Fixpoint forEntries (env : Env) (entries : list (jsstring * QueuedMessage))
    : M unit :=
  match entries with
  | [] => ret tt
  | (messageId, queuedMessage) :: rest =>
      retryEntry env messageId queuedMessage ;;
      forEntries env rest
  end.

(** [processRetryQueue], as one call during which nothing else runs:
    every write it awaits settles before the timer fires again and
    before any other method of the service is called.  It visits the
    entries present when the call starts.  [setInterval] does not wait
    for the call, so calls can overlap; [RetryTimer] below models the
    call await by await. *)
Definition processRetryQueue (env : Env) : M unit :=
  s <- get ;;
  forEntries env (messageQueue s).

(** Period of [setInterval] in [startRetryTimer]. *)
Definition RETRY_TICK_MS : Z := 1000.

(** [onMessageReceived] and [onMessageStatus]. *)
Definition onMessageReceived (s : Service) : Service :=
  {| cache := cache s; messageQueue := messageQueue s;
     messageReceivedCallback := true;
     messageStatusCallback := messageStatusCallback s;
     storage := storage s |}.
Definition onMessageStatus (s : Service) : Service :=
  {| cache := cache s; messageQueue := messageQueue s;
     messageReceivedCallback := messageReceivedCallback s;
     messageStatusCallback := true;
     storage := storage s |}.

(** A freshly constructed service with both callbacks registered. *)
Definition initialService : Service :=
  {| cache := ∅; messageQueue := []; messageReceivedCallback := true;
     messageStatusCallback := true; storage := ∅ |}.

End MessageService.

(* ===================================================================== *)
(** ** Observations on calls: traces, closed forms, sequences of calls   *)
(* ===================================================================== *)

Module Observations.
Import JS Constants Envelope DuplicateDetector MessageService.

(** [deserializeEnvelope(serializeEnvelope(e))]. *)
Definition roundtrip (e : MessageEnvelope) : result MessageEnvelope :=
  rbind (serializeEnvelope e) deserializeEnvelope.

Definition is_hex_digit (c : code_unit) : bool :=
  match hex_digit_value c with Some _ => true | None => false end.

(** "Passes validation" as the specification lists it: accepted by
    [validateEnvelope], a message id of 32 hexadecimal digits (hyphens
    apart) and sender and recipient ids of 16 hexadecimal characters. *)
Definition passes_validation (e : MessageEnvelope) : Prop :=
  validateEnvelope e = Ok true
  /\ len (remove_hyphens (messageId e)) = 32
  /\ forallb is_hex_digit (remove_hyphens (messageId e)) = true
  /\ len (senderId e) = 16
  /\ forallb is_hex_digit (senderId e) = true
  /\ len (recipientId e) = 16
  /\ forallb is_hex_digit (recipientId e) = true.

(** The devices [transmitToAllPeers] writes to. *)
Definition devicesToSend (env : Env) (excludePeerId : option jsstring)
    : list jsstring :=
  match excludePeerId with
  | Some x =>
      if is_empty x then connectedDevices env
      else List.filter (fun id => negb (bool_decide (id = x)))
             (connectedDevices env)
  | None => connectedDevices env
  end.

(** The devices whose write is rejected, in the order the rejections
    are logged. *)
Definition rejected (env : Env) (data : bytes) (devices : list jsstring)
    : list jsstring :=
  List.filter (fun d => negb (sendData env d data))
    (settleOrder env data devices).

(** Effects of writing [data] to each device of a list: the writes, in
    the order of the list, then the log lines of the rejected ones. *)
Definition send_events (env : Env) (data : bytes) (devices : list jsstring)
    : list Event :=
  map (fun d => EvSend d data) devices
  ++ map (fun d => EvError (LogSendFailedToPeer d)) (rejected env data devices).

(** At least one write succeeded. *)
Definition transmit_ok (env : Env) (data : bytes) (devices : list jsstring)
    : bool :=
  existsb (fun d => sendData env d data) devices.

(** Effects of [relayMessage]. *)
Definition relay_events (env : Env) (e : MessageEnvelope)
    (excludePeerId : jsstring) : list Event :=
  let relayEnvelope := with_ttl e (ttl e - 1) in
  EvRelayTrace (substring0 (messageId e) 8) (ttl e - 1)
  :: match serializeEnvelope relayEnvelope with
     | Ok data =>
         send_events env data (devicesToSend env (Some excludePeerId))
         ++ [EvRelayResult (substring0 (messageId e) 8)
               (if transmit_ok env data (devicesToSend env (Some excludePeerId))
                then RelaySuccess else RelayFailed)]
     | Err err =>
         [EvError (LogRelayFailed (ExnEnvelope err));
          EvRelayResult (substring0 (messageId e) 8) RelayError]
     end.

(** Projections of a trace. *)
Definition sends_of (t : list Event) : list (jsstring * bytes) :=
  flat_map (fun ev => match ev with EvSend d data => [(d, data)] | _ => [] end) t.
Definition stores_of (t : list Event) : list Message :=
  flat_map (fun ev => match ev with EvStore m => [m] | _ => [] end) t.
Definition received_of (t : list Event) : list Message :=
  flat_map (fun ev => match ev with EvMessageReceived m => [m] | _ => [] end) t.
Definition statuses_of (t : list Event) : list (jsstring * Status) :=
  flat_map
    (fun ev => match ev with EvMessageStatus i st => [(i, st)] | _ => [] end) t.
Definition relays_of (t : list Event) : list (jsstring * Z) :=
  flat_map
    (fun ev => match ev with EvRelayTrace i n => [(i, n)] | _ => [] end) t.
Definition decrypts_of (t : list Event) : list EncryptedMessage :=
  flat_map (fun ev => match ev with EvDecrypt enc _ => [enc] | _ => [] end) t.
Definition encrypts_of (t : list Event) : list jsstring :=
  flat_map (fun ev => match ev with EvEncrypt p _ => [p] | _ => [] end) t.

(** The record [sendMessage] creates for local storage, and the record
    it returns after a successful transmission. *)
Definition outgoing (env : Env) (recipientId text : jsstring) : Message :=
  {| id := generateUUID env; peerId := recipientId; text := text;
     msg_timestamp := now env; sent := true; delivered := false;
     failed := false |}.
Definition mark_delivered (m : Message) : Message :=
  {| id := id m; peerId := peerId m; text := text m;
     msg_timestamp := msg_timestamp m; sent := sent m; delivered := true;
     failed := failed m |}.

(** The record [handleIncomingMessage] creates for a decrypted message. *)
Definition incoming (e : MessageEnvelope) (senderPeer : Peer)
    (plaintext : jsstring) : Message :=
  {| id := messageId e; peerId := peer_id senderPeer; text := plaintext;
     msg_timestamp := timestamp e; sent := false; delivered := true;
     failed := false |}.

(** State after a successful [storeMessage], and after
    [queueMessageForRetry]. *)
Definition stored (m : Message) (s : Service) : Service :=
  set_storage (<[peerId m := default [] (storage s !! peerId m) ++ [m]]>
                 (storage s)) s.
Definition queued (env : Env) (recipientId : jsstring)
    (envelope : MessageEnvelope) (data : bytes) (s : Service) : Service :=
  set_queue
    (map_set (messageQueue s) (generateUUID env)
       {| q_messageId := generateUUID env; q_peerId := recipientId;
          q_envelope := envelope; serialized := data; attempts := 0;
          nextRetryTime := now env + RETRY_BASE_DELAY_MS |}) s.

(** The status callback's effect, when one is registered. *)
Definition status_events (s : Service) (messageId : jsstring) (st : Status)
    : list Event :=
  if messageStatusCallback s then [EvMessageStatus messageId st] else [].
Definition received_events (s : Service) (m : Message) : list Event :=
  if messageReceivedCallback s then [EvMessageReceived m] else [].

(** What [sendMessage] returns once the envelope is serialized. *)
Definition send_result (env : Env) (recipientId text : jsstring)
   (secret : bytes) (envelope : MessageEnvelope) (data : bytes) (s : Service) :=
      let m := outgoing env recipientId text in
      let pre := [EvEncrypt text secret; EvStore m] in
      if storageWritable env then
        if transmit_ok env data (connectedDevices env) then
          (Returned (mark_delivered m), stored m s,
            pre ++ send_events env data (connectedDevices env)
                ++ status_events s (id m) StatusDelivered)
        else
          (Returned m, queued env recipientId envelope data (stored m s),
            pre ++ send_events env data (connectedDevices env))
      else
        (Thrown ExnStorage, s,
              pre ++ [EvError LogFailedToStoreMessage;
                      EvError LogSendMessageFailed]).

(** The order of the peer scan of [handleIncomingMessage] and its
    fallback to the transport id. *)
Definition senderLookup (crypto : CryptoService)
    (peers : list (jsstring * Peer)) (senderIdHash : jsstring)
    : Outcome (option Peer) :=
  (findSenderPeer crypto peers senderIdHash initialService).1.1.

Definition resolveSender (crypto : CryptoService)
    (peers : list (jsstring * Peer)) (senderId : jsstring)
    (e : MessageEnvelope) : Outcome (option Peer) :=
  match senderLookup crypto peers (Envelope.senderId e) with
  | Returned (Some p) => Returned (Some p)
  | Returned None => Returned (map_get peers senderId)
  | Thrown x => Thrown x
  end.

Definition encrypted_part (e : MessageEnvelope) : EncryptedMessage :=
  {| ciphertext := encryptedPayload e; enc_nonce := nonce e;
     enc_tag := tag e |}.

(** The relay step at the end of each branch of the receive path. *)
Definition relay_if (env : Env) (e : MessageEnvelope) (senderId : jsstring)
    : list Event :=
  if 0 <? ttl e then relay_events env e senderId else [].

(** What [handleIncomingMessage] does with an envelope that is not a
    duplicate, from the state in which its id has been marked. *)
Definition handle_fresh (crypto : CryptoService) (env : Env)
    (senderId : jsstring) (e : MessageEnvelope)
    (peers : list (jsstring * Peer)) (s1 : Service)
    : Outcome unit * Service * list Event :=
  match resolveSender crypto peers senderId e with
  | Thrown x => (Returned tt, s1, [EvError (LogHandleIncomingFailed x)])
  | Returned None =>
      (Returned tt, s1, EvError LogCannotDecrypt :: relay_if env e senderId)
  | Returned (Some senderPeer) =>
      match sharedSecret senderPeer with
      | None =>
          (Returned tt, s1,
           EvError LogCannotDecrypt :: relay_if env e senderId)
      | Some secret =>
          match decryptMessage crypto (encrypted_part e) secret with
          | Thrown x =>
              (Returned tt, s1,
               [EvDecrypt (encrypted_part e) secret;
                EvError (LogHandleIncomingFailed x)])
          | Returned None =>
              (Returned tt, s1,
               [EvDecrypt (encrypted_part e) secret;
                EvError (LogDecryptionFailed (messageId e))]
                 ++ relay_if env e senderId)
          | Returned (Some plaintext) =>
              let m := incoming e senderPeer plaintext in
              if storageWritable env then
                (Returned tt, stored m s1,
                 [EvDecrypt (encrypted_part e) secret; EvStore m]
                   ++ received_events s1 m ++ relay_if env e senderId)
              else
                (Returned tt, s1,
                 [EvDecrypt (encrypted_part e) secret; EvStore m;
                  EvError LogFailedToStoreMessage;
                  EvError (LogHandleIncomingFailed ExnStorage)])
          end
      end
  end.

Definition handle_result (crypto : CryptoService) (env : Env)
    (senderId : jsstring) (data : bytes) (peers : list (jsstring * Peer))
    (s : Service) : Outcome unit * Service * list Event :=
  match deserializeEnvelope data with
  | Err err => (Returned tt, s, [EvError (LogInvalidEnvelope err)])
  | Ok e =>
      if isDuplicate (cache s) (messageId e) then (Returned tt, s, [])
      else
        handle_fresh crypto env senderId e peers
          (set_cache (markAsProcessed (now env) (messageId e) (cache s)) s)
  end.

(** Arrivals of raw bytes at a node, handled one after the other. *)
Record Arrival := mkArrival {
  arr_env : Env;
  arr_sender : jsstring;
  arr_data : bytes;
  arr_peers : list (jsstring * Peer)
}.

Fixpoint receiveAll (crypto : CryptoService) (arrivals : list Arrival)
    (s : Service) : Service * list Event :=
  match arrivals with
  | [] => (s, [])
  | a :: rest =>
      match handleIncomingMessage crypto (arr_env a) (arr_sender a)
              (arr_data a) (arr_peers a) s with
      | (_, s1, t1) =>
          match receiveAll crypto rest s1 with
          | (s2, t2) => (s2, t1 ++ t2)
          end
      end
  end.

(** The crypto service answers: hashing and decryption return instead
    of throwing (the service has been initialised). *)
Definition crypto_answers (crypto : CryptoService) : Prop :=
  (forall pk, exists fp, generateTrustFingerprint crypto pk = Returned fp)
  /\ (forall enc key, exists r, decryptMessage crypto enc key = Returned r).

(** The loop body of [processRetryQueue] on one queue entry: what
    becomes of the entry ([None]: deleted) and which effects occur. *)
Definition retry_step (env : Env) (q : QueuedMessage) : option QueuedMessage :=
  if nextRetryTime q <=? now env then
    if transmit_ok env (serialized q) (connectedDevices env) then None
    else if MAX_SEND_RETRIES <=? attempts q + 1 then None
    else Some {| q_messageId := q_messageId q; q_peerId := q_peerId q;
                 q_envelope := q_envelope q; serialized := serialized q;
                 attempts := attempts q + 1;
                 nextRetryTime :=
                   now env + RETRY_BASE_DELAY_MS * 2 ^ (attempts q + 1) |}
  else Some q.

Definition retry_events (env : Env) (s : Service) (messageId : jsstring)
    (q : QueuedMessage) : list Event :=
  if nextRetryTime q <=? now env then
    send_events env (serialized q) (connectedDevices env)
    ++ (if transmit_ok env (serialized q) (connectedDevices env)
        then status_events s messageId StatusDelivered
        else if MAX_SEND_RETRIES <=? attempts q + 1
             then status_events s messageId StatusFailed
             else [])
  else [].

(** Successive ticks of the retry timer. *)
Fixpoint tickAll (envs : list Env) (s : Service) : Service * list Event :=
  match envs with
  | [] => (s, [])
  | env :: rest =>
      match processRetryQueue env s with
      | (_, s1, t1) =>
          match tickAll rest s1 with
          | (s2, t2) => (s2, t1 ++ t2)
          end
      end
  end.

(** Result, final state and trace of a call. *)
Definition outcome_of {A} (r : Outcome A * Service * list Event) : Outcome A :=
  r.1.1.
Definition state_of {A} (r : Outcome A * Service * list Event) : Service :=
  r.1.2.
Definition trace_of {A} (r : Outcome A * Service * list Event) : list Event :=
  r.2.

End Observations.

(* ===================================================================== *)
(** ** src/services/CryptoService.ts                                      *)
(* ===================================================================== *)

Module CryptoImpl.
Import JS Constants Envelope MessageService.

(** [FINGERPRINT_LENGTH] of constants.ts. *)
Definition FINGERPRINT_LENGTH : Z := 32.

(** [String.fromCharCode(x)]: the code unit ToUint16(x). *)
Definition fromCharCode (x : Z) : code_unit := Z.to_N (x mod 65536).

(** [stringToUint8Array]: the hand-written UTF-8 encoder.  A code unit in
    the surrogate range starts the four-byte branch, which consumes the
    next code unit whatever it is ([charCodeAt] past the end is NaN, and
    [NaN & 0x3ff] is 0).  The pushed numbers go through [new Uint8Array]. *)
Fixpoint stringToUint8Array (str : jsstring) : bytes :=
  match str with
  | [] => []
  | c :: rest =>
      let charcode := Z.of_N c in
      if charcode <? 128 then
        u8 charcode :: stringToUint8Array rest
      else if charcode <? 2048 then
        u8 (Z.lor 192 (Z.shiftr charcode 6))
        :: u8 (Z.lor 128 (Z.land charcode 63))
        :: stringToUint8Array rest
      else if (charcode <? 55296) || (57344 <=? charcode) then
        u8 (Z.lor 224 (Z.shiftr charcode 12))
        :: u8 (Z.lor 128 (Z.land (Z.shiftr charcode 6) 63))
        :: u8 (Z.lor 128 (Z.land charcode 63))
        :: stringToUint8Array rest
      else
        match rest with
        | d :: rest' =>
            let charcode :=
              65536 + Z.lor (Z.shiftl (Z.land charcode 1023) 10)
                            (Z.land (Z.of_N d) 1023) in
            u8 (Z.lor 240 (Z.shiftr charcode 18))
            :: u8 (Z.lor 128 (Z.land (Z.shiftr charcode 12) 63))
            :: u8 (Z.lor 128 (Z.land (Z.shiftr charcode 6) 63))
            :: u8 (Z.lor 128 (Z.land charcode 63))
            :: stringToUint8Array rest'
        | [] =>
            let charcode :=
              65536 + Z.lor (Z.shiftl (Z.land charcode 1023) 10) 0 in
            [u8 (Z.lor 240 (Z.shiftr charcode 18));
             u8 (Z.lor 128 (Z.land (Z.shiftr charcode 12) 63));
             u8 (Z.lor 128 (Z.land (Z.shiftr charcode 6) 63));
             u8 (Z.lor 128 (Z.land charcode 63))]
        end
  end.

(** The code units the decoder pushes for one sequence. *)
Definition decode2 (byte1 byte2 : Z) : code_unit :=
  fromCharCode (Z.lor (Z.shiftl (Z.land byte1 31) 6) (Z.land byte2 63)).
Definition decode3 (byte1 byte2 byte3 : Z) : code_unit :=
  fromCharCode
    (Z.lor (Z.lor (Z.shiftl (Z.land byte1 15) 12)
                  (Z.shiftl (Z.land byte2 63) 6))
           (Z.land byte3 63)).
Definition decode4 (byte1 byte2 byte3 byte4 : Z) : list code_unit :=
  let codepoint :=
    Z.lor (Z.lor (Z.lor (Z.shiftl (Z.land byte1 7) 18)
                        (Z.shiftl (Z.land byte2 63) 12))
                 (Z.shiftl (Z.land byte3 63) 6))
          (Z.land byte4 63) in
  let codepoint := codepoint - 65536 in
  [fromCharCode (55296 + Z.shiftr codepoint 10);
   fromCharCode (56320 + Z.land codepoint 1023)].

(** [uint8ArrayToString]: the hand-written UTF-8 decoder.  A read past
    the end of the array gives [undefined], and [undefined & 0x3f] is 0. *)
Fixpoint uint8ArrayToString (data : bytes) : jsstring :=
  match data with
  | [] => []
  | b1 :: r1 =>
      let byte1 := byteZ b1 in
      if byte1 <? 128 then
        fromCharCode byte1 :: uint8ArrayToString r1
      else if byte1 <? 224 then
        match r1 with
        | b2 :: r2 => decode2 byte1 (byteZ b2) :: uint8ArrayToString r2
        | [] => [decode2 byte1 0]
        end
      else if byte1 <? 240 then
        match r1 with
        | b2 :: b3 :: r3 =>
            decode3 byte1 (byteZ b2) (byteZ b3) :: uint8ArrayToString r3
        | [b2] => [decode3 byte1 (byteZ b2) 0]
        | [] => [decode3 byte1 0 0]
        end
      else
        match r1 with
        | b2 :: b3 :: b4 :: r4 =>
            decode4 byte1 (byteZ b2) (byteZ b3) (byteZ b4)
              ++ uint8ArrayToString r4
        | [b2; b3] => decode4 byte1 (byteZ b2) (byteZ b3) 0
        | [b2] => decode4 byte1 (byteZ b2) 0 0
        | [] => decode4 byte1 0 0 0
        end
  end.

(** [uint8ArrayToHex]. *)
Definition uint8ArrayToHex (data : bytes) : jsstring := bytes_to_hex data.

(** [Uint8Array.prototype.slice(start, end)] with relative indices. *)
Definition relative_index (n i : Z) : Z :=
  if i <? 0 then Z.max (n + i) 0 else Z.min i n.
Definition slice_rel {A} (data : list A) (start end_ : Z) : list A :=
  let from := relative_index (len data) start in
  let to := relative_index (len data) end_ in
  firstn (Z.to_nat (to - from)) (skipn (Z.to_nat from) data).

(** The members of libsodium the service calls; [None] is a throw. *)
Record Sodium := mkSodium {
  crypto_box_PUBLICKEYBYTES : Z;
  crypto_aead_xchacha20poly1305_ietf_KEYBYTES : Z;
  crypto_aead_xchacha20poly1305_ietf_NPUBBYTES : Z;
  crypto_aead_xchacha20poly1305_ietf_ABYTES : Z;
  crypto_scalarmult : bytes -> bytes -> option bytes;
  randombytes_buf : Z -> bytes;
  (* message, nonce, key *)
  crypto_aead_xchacha20poly1305_ietf_encrypt :
    bytes -> bytes -> bytes -> option bytes;
  (* ciphertext with tag, nonce, key *)
  crypto_aead_xchacha20poly1305_ietf_decrypt :
    bytes -> bytes -> bytes -> option bytes;
  crypto_hash : bytes -> option bytes
}.

(** The private fields of the class. *)
Record State := mkState {
  sodium : option Sodium;
  publicKey : option bytes;
  privateKey : option bytes;
  initialized : bool
}.

Definition getPublicKey (c : State) : Outcome bytes :=
  match initialized c, publicKey c with
  | true, Some pk => Returned pk
  | _, _ => Thrown ExnCrypto
  end.

Definition performKeyExchange (c : State) (peerPublicKey : bytes)
    : Outcome bytes :=
  match initialized c, sodium c, privateKey c with
  | true, Some sodium, Some privateKey =>
      if negb (len peerPublicKey =? crypto_box_PUBLICKEYBYTES sodium)
      then Thrown ExnCrypto
      else
        match crypto_scalarmult sodium privateKey peerPublicKey with
        | Some sharedSecret => Returned sharedSecret
        | None => Thrown ExnCrypto
        end
  | _, _, _ => Thrown ExnCrypto
  end.

Definition encryptMessage (c : State) (plaintext : jsstring)
    (sharedSecret : bytes) : Outcome EncryptedMessage :=
  match initialized c, sodium c with
  | true, Some sodium =>
      if negb (len sharedSecret
               =? crypto_aead_xchacha20poly1305_ietf_KEYBYTES sodium)
      then Thrown ExnCrypto
      else
        let plaintextBytes := stringToUint8Array plaintext in
        let nonce :=
          randombytes_buf sodium
            (crypto_aead_xchacha20poly1305_ietf_NPUBBYTES sodium) in
        match crypto_aead_xchacha20poly1305_ietf_encrypt sodium
                plaintextBytes nonce sharedSecret with
        | Some ciphertextWithTag =>
            let tagLength := crypto_aead_xchacha20poly1305_ietf_ABYTES sodium in
            let ciphertext := slice_rel ciphertextWithTag 0 (- tagLength) in
            let tag :=
              slice_rel ciphertextWithTag (- tagLength)
                (len ciphertextWithTag) in
            Returned {| ciphertext := ciphertext; enc_nonce := nonce;
                        enc_tag := tag |}
        | None => Thrown ExnCrypto
        end
  | _, _ => Thrown ExnCrypto
  end.

Definition decryptMessage (c : State) (encrypted : EncryptedMessage)
    (sharedSecret : bytes) : Outcome (option jsstring) :=
  match initialized c, sodium c with
  | true, Some sodium =>
      if negb (len sharedSecret
               =? crypto_aead_xchacha20poly1305_ietf_KEYBYTES sodium)
      then Returned None
      else if negb (len (enc_nonce encrypted)
                    =? crypto_aead_xchacha20poly1305_ietf_NPUBBYTES sodium)
      then Returned None
      else if negb (len (enc_tag encrypted)
                    =? crypto_aead_xchacha20poly1305_ietf_ABYTES sodium)
      then Returned None
      else
        let ciphertextWithTag := ciphertext encrypted ++ enc_tag encrypted in
        match crypto_aead_xchacha20poly1305_ietf_decrypt sodium
                ciphertextWithTag (enc_nonce encrypted) sharedSecret with
        | Some plaintextBytes =>
            Returned (Some (uint8ArrayToString plaintextBytes))
        | None => Returned None
        end
  | _, _ => Thrown ExnCrypto
  end.

Definition generateTrustFingerprint (c : State) (publicKey : bytes)
    : Outcome jsstring :=
  match initialized c, sodium c with
  | true, Some sodium =>
      match crypto_hash sodium publicKey with
      | Some hash =>
          let hexHash := uint8ArrayToHex hash in
          Returned (substring0 hexHash (Z.to_nat FINGERPRINT_LENGTH))
      | None => Thrown ExnCrypto
      end
  | _, _ => Thrown ExnCrypto
  end.

(** The instance as [MessageService] sees it. *)
Definition service (c : State) : CryptoService :=
  {| MessageService.getPublicKey := getPublicKey c;
     MessageService.encryptMessage := encryptMessage c;
     MessageService.decryptMessage := decryptMessage c;
     MessageService.generateTrustFingerprint := generateTrustFingerprint c |}.

(** Well-formed UTF-16: code units below 2^16, every high surrogate
    followed by a low surrogate, no other low surrogate. *)
Fixpoint well_formed_utf16 (s : jsstring) : bool :=
  match s with
  | [] => true
  | c :: rest =>
      if (c <? 55296)%N || ((57344 <=? c)%N && (c <? 65536)%N) then
        well_formed_utf16 rest
      else if (c <? 56320)%N then
        match rest with
        | d :: rest' =>
            (56320 <=? d)%N && (d <? 57344)%N && well_formed_utf16 rest'
        | [] => false
        end
      else false
  end.

End CryptoImpl.

(* ===================================================================== *)
(** ** ExpoCryptoService (performKeyExchange)                             *)
(* ===================================================================== *)

Module ExpoCrypto.
Import JS Envelope MessageService.

Record State := mkState {
  publicKey : option bytes;
  privateKey : option bytes;
  initialized : bool
}.

(** A typed-array read [a[i]]; [undefined] past the end, which [^]
    converts to 0. *)
Definition at_index (a : bytes) (i : nat) : Z :=
  match nth_error a i with
  | Some b => byteZ b
  | None => 0
  end.

Definition performKeyExchange (c : State) (peerPublicKey : bytes)
    : Outcome bytes :=
  match initialized c, privateKey c with
  | true, Some privateKey =>
      if negb (len peerPublicKey =? 32) then Thrown ExnCrypto
      else
        Returned
          (List.map
             (fun i => u8 (Z.lxor (at_index privateKey i)
                                  (at_index peerPublicKey i)))
             (seq 0 32))
  | _, _ => Thrown ExnCrypto
  end.

End ExpoCrypto.

(* ===================================================================== *)
(** ** src/context/AppContext.tsx: the state updaters behind the
       message service's callbacks                                        *)
(* ===================================================================== *)

Module AppContext.
Import JS Constants Envelope DuplicateDetector MessageService.

(** The [messages] state: [Map<string, Message[]>], in insertion order. *)
Definition Messages := list (jsstring * list Message).

(** The updater of [handleMessageReceived] (and of [addMessage], which
    has the same body). *)
Definition handleMessageReceived (message : Message) (prevMessages : Messages)
    : Messages :=
  let peerMessages := default [] (map_get prevMessages (peerId message)) in
  map_set prevMessages (peerId message) (peerMessages ++ [message]).

Definition addMessage (message : Message) (prevMessages : Messages)
    : Messages :=
  let peerMessages := default [] (map_get prevMessages (peerId message)) in
  map_set prevMessages (peerId message) (peerMessages ++ [message]).

(** [Array.prototype.findIndex]; [None] is -1. *)
Fixpoint findIndex {A} (p : A -> bool) (l : list A) : option nat :=
  match l with
  | [] => None
  | x :: l' => if p x then Some O else option_map S (findIndex p l')
  end.

(** The spread [{...m, delivered: status === 'delivered',
    failed: status === 'failed'}]. *)
Definition with_status (m : Message) (status : Status) : Message :=
  {| id := id m; peerId := peerId m; text := text m;
     msg_timestamp := msg_timestamp m; sent := sent m;
     delivered := match status with StatusDelivered => true | _ => false end;
     failed := match status with StatusFailed => true | _ => false end |}.

(** The loop of [handleMessageStatus] over the conversations: the first
    conversation that holds the message is rewritten, then [break]. *)
Fixpoint statusLoop (entries : Messages) (messageId : jsstring)
    (status : Status) (newMessages : Messages) : Messages :=
  match entries with
  | [] => newMessages
  | (peerId, peerMessages) :: rest =>
      match findIndex (fun m => bool_decide (id m = messageId)) peerMessages with
      | Some messageIndex =>
          let updatedMessages :=
            alter (fun m => with_status m status) messageIndex peerMessages in
          map_set newMessages peerId updatedMessages
      | None => statusLoop rest messageId status newMessages
      end
  end.

Definition handleMessageStatus (messageId : jsstring) (status : Status)
    (prevMessages : Messages) : Messages :=
  statusLoop prevMessages messageId status prevMessages.

(** The callbacks registered by [setupBLECallbacks], applied to the
    effects of a service call in the order they occur. *)
Definition applyEvent (ms : Messages) (ev : Event) : Messages :=
  match ev with
  | EvMessageReceived m => handleMessageReceived m ms
  | EvMessageStatus i st => handleMessageStatus i st ms
  | _ => ms
  end.

Definition applyEvents (t : list Event) (ms : Messages) : Messages :=
  fold_left applyEvent t ms.

(** The [sendMessage] of the context: the service call, then
    [addMessage] of the returned record. *)
Definition sendMessage (crypto : CryptoService) (env : Env)
    (recipientId text : jsstring) (peers : list (jsstring * Peer))
    (s : Service) (ms : Messages)
    : Outcome Message * Service * Messages * list Event :=
  match MessageService.sendMessage crypto env recipientId text peers s with
  | (Returned message, s', t) =>
      (Returned message, s', addMessage message (applyEvents t ms), t)
  | (Thrown x, s', t) => (Thrown x, s', applyEvents t ms, t)
  end.

(** The loop of [initializeApp] that feeds the persisted duplicate
    cache into the detector; [clock i] is the reading of [Date.now()]
    in the i-th iteration. *)
Fixpoint restoreDuplicates (clock : nat -> Z) (i : nat)
    (cachedDuplicates : list (jsstring * Z)) (cache : Cache) : Cache :=
  match cachedDuplicates with
  | [] => cache
  | (messageId, _timestamp) :: rest =>
      restoreDuplicates clock (S i) rest
        (if isDuplicate cache messageId then cache
         else markAsProcessed (clock i) messageId cache)
  end.

End AppContext.

(* ===================================================================== *)
(** ** Further observations                                               *)
(* ===================================================================== *)

Module MoreObservations.
Import JS Constants Envelope DuplicateDetector MessageService Observations.

(** Successive [markAsProcessed] calls, each with its clock reading. *)
Definition markSeq (marks : list (Z * jsstring)) (cache : Cache) : Cache :=
  fold_left (fun c m => markAsProcessed m.1 m.2 c) marks cache.

(** Bytewise exclusive or of two arrays of equal length. *)
Definition xor_bytes (a b : bytes) : bytes :=
  map (fun p => u8 (Z.lxor (byteZ p.1) (byteZ p.2))) (combine a b).

End MoreObservations.

(* ===================================================================== *)
(** ** Assumptions on the loaded libsodium                                *)
(* ===================================================================== *)

Module CryptoObservations.
Import JS Constants Envelope MessageService CryptoImpl.

(** The service has been initialised with the library [sd]. *)
Definition ready (c : State) (sd : Sodium) : Prop :=
  initialized c = true /\ sodium c = Some sd.

(** [crypto_hash] answers for the key [pk] with at least eight bytes
    (the generic hash of libsodium gives 64). *)
Definition hash_answers (sd : Sodium) (pk : bytes) : Prop :=
  exists hash, crypto_hash sd pk = Some hash /\ 8 <= len hash.

(** The AEAD of the library works for [text] under [key]: the key has
    the key length, the random nonce has the nonce length, encryption
    answers with the ciphertext followed by a tag of the tag length,
    and decryption of that answer gives the bytes back. *)
Definition aead_answers (sd : Sodium) (text : jsstring) (key : bytes) : Prop :=
  let nonce :=
    randombytes_buf sd (crypto_aead_xchacha20poly1305_ietf_NPUBBYTES sd) in
  len key = crypto_aead_xchacha20poly1305_ietf_KEYBYTES sd
  /\ len nonce = crypto_aead_xchacha20poly1305_ietf_NPUBBYTES sd
  /\ 1 <= crypto_aead_xchacha20poly1305_ietf_NPUBBYTES sd <= 1024
  /\ 1 <= crypto_aead_xchacha20poly1305_ietf_ABYTES sd <= 1024
  /\ exists cwt,
       crypto_aead_xchacha20poly1305_ietf_encrypt sd
         (stringToUint8Array text) nonce key = Some cwt
       /\ len cwt = len (stringToUint8Array text)
                    + crypto_aead_xchacha20poly1305_ietf_ABYTES sd
       /\ crypto_aead_xchacha20poly1305_ietf_decrypt sd cwt nonce key
          = Some (stringToUint8Array text).

(** A peer of the table that [findSenderPeer] passes over when it
    looks for the sender whose key is [senderKey]: it has no public
    key, or its key hashes, without a throw, to a fingerprint whose
    first 16 characters differ from those of the sender's. *)
Definition passed_over (c : State) (senderKey : bytes) (p : Peer) : Prop :=
  match MessageService.publicKey p with
  | None => True
  | Some pk =>
      exists fp,
        generateTrustFingerprint c pk = Returned fp
        /\ forall fpSender,
             generateTrustFingerprint c senderKey = Returned fpSender ->
             substring0 fp 16 <> substring0 fpSender 16
  end.

End CryptoObservations.

(* ===================================================================== *)
(** ** src/services/MessageService.ts: the retry timer, await by await    *)
(* ===================================================================== *)

(** [startRetryTimer] is [setInterval(() => this.processRetryQueue(),
    1000)]: the timer does not wait for a call of [processRetryQueue]
    to finish before it starts the next one.  A call runs until its
    [await this.transmitToAllPeers(...)], is suspended while the writes
    are in flight, and resumes when they have settled.  Between the
    two, other calls see the queue as the suspended call left it: the
    [attempts] of the entry already incremented, its [nextRetryTime]
    not yet advanced.

    The order in which the timer fires and the writes of the
    suspended calls settle is an input (a list of [Step]s): it depends
    on how long the BLE writes take, and [sendData] has no timeout.  A
    call whose [transmitToAllPeers] has no write in flight resumes
    before the timer can fire again.  The failure logs of a call are
    placed where its last write settles. *)
Module RetryTimer.
Import JS Constants Envelope DuplicateDetector MessageService Observations.

(** A record of the [Map] [this.messageQueue].  [delete] empties a
    record where it stands, and an iterator is a position in the list
    of records.  The value is a reference to a [QueuedMessage]
    object. *)
Record Slot := mkSlot {
  slot_key : jsstring;
  slot_ref : nat;
  slot_live : bool
}.

(** A suspended call of [processRetryQueue]. *)
Record Tick := mkTick {
  tick_now : Z;            (* const now = Date.now() *)
  tick_index : nat;        (* position of the iterator *)
  tick_key : jsstring;     (* messageId *)
  tick_ref : nat;          (* queuedMessage *)
  tick_data : bytes;       (* the bytes being written *)
  tick_env : Env           (* the devices written to and their answers *)
}.

Record Node := mkNode {
  objects : list QueuedMessage;   (* the QueuedMessage objects, by reference *)
  slots : list Slot;              (* this.messageQueue *)
  statusCallback : bool;          (* is this.messageStatusCallback set *)
  suspended : list Tick           (* calls waiting at their await *)
}.

Definition with_attempts (q : QueuedMessage) (a : Z) : QueuedMessage :=
  {| q_messageId := q_messageId q; q_peerId := q_peerId q;
     q_envelope := q_envelope q; serialized := serialized q;
     attempts := a; nextRetryTime := nextRetryTime q |}.
Definition with_nextRetryTime (q : QueuedMessage) (t : Z) : QueuedMessage :=
  {| q_messageId := q_messageId q; q_peerId := q_peerId q;
     q_envelope := q_envelope q; serialized := serialized q;
     attempts := attempts q; nextRetryTime := t |}.

Definition holds (key : jsstring) (slot : Slot) : bool :=
  slot_live slot && bool_decide (slot_key slot = key).

(** [this.messageQueue.delete(messageId)]. *)
Definition deleteKey (key : jsstring) (records : list Slot) : list Slot :=
  map (fun slot =>
         if holds key slot then mkSlot (slot_key slot) (slot_ref slot) false
         else slot)
      records.

(** The loop of [processRetryQueue] from the record at [index] up to
    its next [await]: records that are empty or not yet due are passed
    over; at the first due one, [attempts] is incremented and the
    writes to the connected devices are started. *)
Fixpoint scan (env : Env) (now : Z) (objs : list QueuedMessage)
    (index : nat) (todo : list Slot)
    : list QueuedMessage * list Event * option Tick :=
  match todo with
  | [] => (objs, [], None)
  | slot :: rest =>
      match (if slot_live slot then objs !! slot_ref slot else None) with
      | Some queuedMessage =>
          if nextRetryTime queuedMessage <=? now then
            (alter (fun q => with_attempts q (attempts q + 1))
                   (slot_ref slot) objs,
             map (fun d => EvSend d (serialized queuedMessage))
                 (connectedDevices env),
             Some {| tick_now := now; tick_index := index;
                     tick_key := slot_key slot; tick_ref := slot_ref slot;
                     tick_data := serialized queuedMessage;
                     tick_env := env |})
          else scan env now objs (S index) rest
      | None => scan env now objs (S index) rest
      end
  end.

(** The timer fires: a call of [processRetryQueue] starts. *)
Definition startTick (env : Env) (n : Node) : Node * list Event :=
  match scan env (now env) (objects n) 0 (slots n) with
  | (objs, events, tick) =>
      ({| objects := objs; slots := slots n;
          statusCallback := statusCallback n;
          suspended := suspended n ++ option_list tick |},
       events)
  end.

(** The writes of the [i]-th suspended call have settled: the rejected
    ones are logged, the call resumes after its [await] and runs to its
    next [await] or to the end of the loop.  [env] is what the
    surroundings answer to the writes it starts next. *)
Definition resumeTick (env : Env) (i : nat) (n : Node) : Node * list Event :=
  match suspended n !! i with
  | None => (n, [])
  | Some tick =>
      let devices := connectedDevices (tick_env tick) in
      let logged :=
        map (fun d => EvError (LogSendFailedToPeer d))
            (rejected (tick_env tick) (tick_data tick) devices) in
      let success := transmit_ok (tick_env tick) (tick_data tick) devices in
      let attemptsNow :=
        match objects n !! tick_ref tick with
        | Some queuedMessage => attempts queuedMessage
        | None => 0
        end in
      let status st :=
        if statusCallback n then [EvMessageStatus (tick_key tick) st]
        else [] in
      let '(objs, records, events) :=
        if success then
          (objects n, deleteKey (tick_key tick) (slots n),
           status StatusDelivered)
        else if MAX_SEND_RETRIES <=? attemptsNow then
          (objects n, deleteKey (tick_key tick) (slots n),
           status StatusFailed)
        else
          (alter (fun q =>
                    with_nextRetryTime q
                      (tick_now tick
                       + RETRY_BASE_DELAY_MS * 2 ^ attempts q))
                 (tick_ref tick) (objects n),
           slots n, []) in
      match scan env (tick_now tick) objs (S (tick_index tick))
              (drop (S (tick_index tick)) records) with
      | (objs', events', next) =>
          ({| objects := objs'; slots := records;
              statusCallback := statusCallback n;
              suspended := take i (suspended n) ++ option_list next
                             ++ drop (S i) (suspended n) |},
           logged ++ events ++ events')
      end
  end.

(** What happens at a node, one step after the other. *)
Inductive Step :=
  | TimerFires (env : Env)
  | WritesSettle (i : nat) (env : Env).

Definition step (a : Step) (n : Node) : Node * list Event :=
  match a with
  | TimerFires env => startTick env n
  | WritesSettle i env => resumeTick env i n
  end.

Fixpoint run (steps : list Step) (n : Node) : Node * list Event :=
  match steps with
  | [] => (n, [])
  | a :: rest =>
      match step a n with
      | (n1, t1) =>
          match run rest n1 with
          | (n2, t2) => (n2, t1 ++ t2)
          end
      end
  end.

(** The retry queue of a service with no call of [processRetryQueue]
    in flight, and the entries of a node's queue. *)
Definition load (s : Service) : Node :=
  {| objects := map snd (messageQueue s);
     slots := imap (fun i kv => mkSlot kv.1 i true) (messageQueue s);
     statusCallback := messageStatusCallback s;
     suspended := [] |}.

Definition entries (n : Node) : list (jsstring * QueuedMessage) :=
  omap (fun slot =>
          if slot_live slot
          then option_map (fun q => (slot_key slot, q))
                 (objects n !! slot_ref slot)
          else None)
       (slots n).

(** What a call of [processRetryQueue] that nothing interrupts leaves
    of an entry: the entry in the queue, the object behind it, and
    whether its record is still live. *)
Definition after_retry (env : Env) (kq : jsstring * QueuedMessage)
    : option (jsstring * QueuedMessage) :=
  option_map (pair kq.1) (retry_step env kq.2).
Definition object_after (env : Env) (q : QueuedMessage) : QueuedMessage :=
  if nextRetryTime q <=? now env then
    if transmit_ok env (serialized q) (connectedDevices env)
       || (MAX_SEND_RETRIES <=? attempts q + 1)
    then with_attempts q (attempts q + 1)
    else with_nextRetryTime (with_attempts q (attempts q + 1))
           (now env + RETRY_BASE_DELAY_MS * 2 ^ (attempts q + 1))
  else q.
Definition queued_after (env : Env) (q : QueuedMessage) : bool :=
  negb ((nextRetryTime q <=? now env)
        && (transmit_ok env (serialized q) (connectedDevices env)
            || (MAX_SEND_RETRIES <=? attempts q + 1))).

(** Records numbered from [n] on, for the entries [l]. *)
Definition slotsFrom (n : nat) (live : QueuedMessage -> bool)
    (l : list (jsstring * QueuedMessage)) : list Slot :=
  imap (fun j kv => mkSlot kv.1 (n + j) (live kv.2)) l.

End RetryTimer.

(* ===================================================================== *)
(** ** Concrete values used in examples                                   *)
(* ===================================================================== *)

Module Samples.
Import JS Constants Envelope DuplicateDetector MessageService Observations.

(** The envelope of [__tests__/messageEnvelope.test.ts]. *)
Definition testEnvelope : MessageEnvelope :=
  {| version := 1;
     messageId := js "550e8400-e29b-41d4-a716-446655440000";
     senderId := js "a1b2c3d4e5f67890";
     recipientId := js "9a0b1c2d3e4f5678";
     timestamp := 1234567890123;
     ttl := 10;
     encryptedPayload := [Byte.x01; Byte.x02; Byte.x03; Byte.x04; Byte.x05];
     nonce := [Byte.x0a; Byte.x0b; Byte.x0c; Byte.x0d; Byte.x0e; Byte.x0f;
               Byte.x10; Byte.x11; Byte.x12; Byte.x13; Byte.x14; Byte.x15];
     tag := [Byte.x1e; Byte.x1f; Byte.x20; Byte.x21; Byte.x22; Byte.x23;
             Byte.x24; Byte.x25; Byte.x26; Byte.x27; Byte.x28; Byte.x29;
             Byte.x2a; Byte.x2b; Byte.x2c; Byte.x2d] |}.

(** The same envelope with the sender id written in upper-case
    hexadecimal digits. *)
Definition upperCaseEnvelope : MessageEnvelope :=
  {| version := 1;
     messageId := js "550e8400-e29b-41d4-a716-446655440000";
     senderId := js "A1B2C3D4E5F67890";
     recipientId := js "9a0b1c2d3e4f5678";
     timestamp := 1234567890123;
     ttl := 10;
     encryptedPayload := encryptedPayload testEnvelope;
     nonce := nonce testEnvelope;
     tag := tag testEnvelope |}.

(** The bytes of [testEnvelope] on the wire. *)
Definition testWire : bytes :=
  match serializeEnvelope testEnvelope with
  | Ok data => data
  | Err _ => []
  end.

(** A second envelope, with another message id. *)
Definition otherEnvelope : MessageEnvelope :=
  {| version := 1;
     messageId := js "6ba7b810-9dad-11d1-80b4-00c04fd430c8";
     senderId := senderId testEnvelope;
     recipientId := recipientId testEnvelope;
     timestamp := 1234567890999;
     ttl := 10;
     encryptedPayload := encryptedPayload testEnvelope;
     nonce := nonce testEnvelope;
     tag := tag testEnvelope |}.
Definition otherWire : bytes :=
  match serializeEnvelope otherEnvelope with
  | Ok data => data
  | Err _ => []
  end.

(** An envelope that [validateEnvelope] accepts although its message id
    is not a UUID. *)
Definition nonUuidEnvelope : MessageEnvelope :=
  {| version := 1;
     messageId := js "not-a-uuid";
     senderId := senderId testEnvelope;
     recipientId := recipientId testEnvelope;
     timestamp := 1234567890123;
     ttl := 10;
     encryptedPayload := encryptedPayload testEnvelope;
     nonce := nonce testEnvelope;
     tag := tag testEnvelope |}.

(** A stand-in for the crypto service, of the kind the test suite
    injects: the cipher is the identity on code units below 256, the
    fingerprint is the hexadecimal print of the key. *)
Definition mockCrypto : CryptoService :=
  {| getPublicKey := Returned (repeat Byte.x01 32);
     encryptMessage := fun plaintext _ =>
       Returned {| ciphertext := map (fun c => u8 (Z.of_N c)) plaintext;
                   enc_nonce := repeat Byte.x07 24;
                   enc_tag := repeat Byte.x09 16 |};
     decryptMessage := fun enc _ =>
       Returned (Some (map (fun b => Z.to_N (byteZ b)) (ciphertext enc)));
     generateTrustFingerprint := fun pk =>
       Returned (substring0 (bytes_to_hex pk) 32) |}.

(** A known peer with a completed key exchange; its derived sender id
    is the sender id of [testEnvelope]. *)
Definition peerA : Peer :=
  {| peer_id := js "A";
     publicKey := Some [Byte.xa1; Byte.xb2; Byte.xc3; Byte.xd4; Byte.xe5;
                        Byte.xf6; Byte.x78; Byte.x90; Byte.x00; Byte.x00];
     sharedSecret := Some (repeat Byte.x03 32);
     peer_name := js "a"; connected := true; verified := false;
     rssi := -50; lastSeen := 0 |}.

Definition peerB : Peer :=
  {| peer_id := js "B";
     publicKey := Some (repeat Byte.x02 32);
     sharedSecret := Some (repeat Byte.x04 32);
     peer_name := js "b"; connected := true; verified := false;
     rssi := -60; lastSeen := 0 |}.

Definition peersOfNode : list (jsstring * Peer) :=
  [(js "A", peerA); (js "B", peerB)].

(** Surroundings at clock reading [t]: peers A, B and C connected,
    every write succeeding (or failing), storage accepting writes (or
    not). *)
Definition envAt (t : Z) (linkUp storageUp : bool) : Env :=
  {| now := t;
     random := fun i => u8 (17 * Z.of_nat i);
     connectedDevices := [js "A"; js "B"; js "C"];
     sendData := fun _ _ => linkUp;
     settleTime := fun _ _ => 0%nat;
     storageWritable := storageUp |}.

(** Surroundings in which the transport lists a device whose id is the
    empty string. *)
Definition envWithUnnamedDevice : Env :=
  {| now := 1700000000000;
     random := fun i => u8 (17 * Z.of_nat i);
     connectedDevices := [js ""; js "C"];
     sendData := fun _ _ => true;
     settleTime := fun _ _ => 0%nat;
     storageWritable := true |}.

(** Arrival of given bytes from peer A at clock reading [t]. *)
Definition arrivalAt (t : Z) (data : bytes) (storageUp : bool) : Arrival :=
  {| arr_env := envAt t true storageUp; arr_sender := js "A";
     arr_data := data; arr_peers := peersOfNode |}.

(** A node that has already processed the test envelope. *)
Definition nodeThatSawTestEnvelope : Service :=
  {| cache := {[messageId testEnvelope := 1700000000000]};
     messageQueue := []; messageReceivedCallback := true;
     messageStatusCallback := true; storage := ∅ |}.

(** The specification's retry scenario: a send at time t with every
    link down, then the timer ticks of the next seven seconds; the
    link is down at each tick except possibly the last. *)
Definition sendWhileLinkDown : Outcome Message * Service * list Event :=
  sendMessage mockCrypto (envAt 1700000000000 false true) (js "B")
    (js "help") peersOfNode initialService.

Definition retryTicks (lastLinkUp : bool) : list Env :=
  [envAt 1700000001000 false true; envAt 1700000002000 false true;
   envAt 1700000003000 false true; envAt 1700000004000 false true;
   envAt 1700000005000 false true; envAt 1700000006000 false true;
   envAt 1700000007000 lastLinkUp true].

(** Distinct well-formed message ids: the UUID whose 128-bit value is [n]. *)
Definition sample_uuid (n : nat) : jsstring :=
  format_uuid (bytes_to_hex (be_bytes 16 (Z.of_nat n))).

(** The detector after [markAsProcessed] of each id of the list, all at
    the clock reading [now]. *)
Definition mark_all (now : Z) (ids : list jsstring) (cache : Cache) : Cache :=
  fold_left (fun c messageId => markAsProcessed now messageId c) ids cache.

End Samples.
(* ===================================================================== *)
(** ** Further concrete values                                            *)
(* ===================================================================== *)

Module MoreSamples.
Import JS Constants Envelope DuplicateDetector MessageService Observations.

(** The test envelope addressed to another recipient and with three
    hops left. *)
Definition redirectedEnvelope : MessageEnvelope :=
  {| version := 1;
     messageId := messageId Samples.testEnvelope;
     senderId := senderId Samples.testEnvelope;
     recipientId := js "0000000000000000";
     timestamp := timestamp Samples.testEnvelope;
     ttl := 3;
     encryptedPayload := encryptedPayload Samples.testEnvelope;
     nonce := nonce Samples.testEnvelope;
     tag := tag Samples.testEnvelope |}.
Definition redirectedWire : bytes :=
  match serializeEnvelope redirectedEnvelope with
  | Ok data => data
  | Err _ => []
  end.

(** Bytes received with the largest timestamp the field can hold, the
    envelope they decode to, and the test envelope's bytes with the
    timestamp field zero and ttl 9. *)
Definition farFutureWire : bytes :=
  firstn 33 Samples.testWire ++ repeat Byte.xff 8 ++ skipn 41 Samples.testWire.
Definition farFutureEnvelope : MessageEnvelope :=
  {| version := 1;
     messageId := messageId Samples.testEnvelope;
     senderId := senderId Samples.testEnvelope;
     recipientId := recipientId Samples.testEnvelope;
     timestamp := 18446744073709551616;
     ttl := 10;
     encryptedPayload := encryptedPayload Samples.testEnvelope;
     nonce := nonce Samples.testEnvelope;
     tag := tag Samples.testEnvelope |}.
Definition wrappedWire : bytes :=
  firstn 33 Samples.testWire ++ repeat Byte.x00 8 ++ [Byte.x09]
    ++ skipn 42 Samples.testWire.

(** The message that [Samples.sendWhileLinkDown] queued for retry. *)
Definition queuedId : jsstring :=
  generateUUID (Samples.envAt 1700000000000 false true).
Definition queuedEntry : QueuedMessage :=
  match messageQueue (state_of Samples.sendWhileLinkDown) with
  | (_, q) :: _ => q
  | [] => {| q_messageId := []; q_peerId := [];
             q_envelope := Samples.testEnvelope; serialized := [];
             attempts := 0; nextRetryTime := 0 |}
  end.

(** A stand-in for libsodium: the AEAD appends sixteen fixed bytes as
    tag and strips them again, the hash is the identity, the random
    bytes are constant. *)
Definition toySodium : CryptoImpl.Sodium :=
  {| CryptoImpl.crypto_box_PUBLICKEYBYTES := 32;
     CryptoImpl.crypto_aead_xchacha20poly1305_ietf_KEYBYTES := 32;
     CryptoImpl.crypto_aead_xchacha20poly1305_ietf_NPUBBYTES := 24;
     CryptoImpl.crypto_aead_xchacha20poly1305_ietf_ABYTES := 16;
     CryptoImpl.crypto_scalarmult := fun _ pk => Some pk;
     CryptoImpl.randombytes_buf := fun n => repeat Byte.x07 (Z.to_nat n);
     CryptoImpl.crypto_aead_xchacha20poly1305_ietf_encrypt :=
       fun m _ _ => Some (m ++ repeat Byte.x09 16);
     CryptoImpl.crypto_aead_xchacha20poly1305_ietf_decrypt :=
       fun c _ _ => Some (firstn (length c - 16) c);
     CryptoImpl.crypto_hash := fun pk => Some pk |}.

Definition keyOfA : bytes := repeat Byte.xa1 32.
Definition keyOfB : bytes := repeat Byte.xb2 32.
Definition secretAB : bytes := repeat Byte.x03 32.

Definition cryptoOfA : CryptoImpl.State :=
  {| CryptoImpl.sodium := Some toySodium;
     CryptoImpl.publicKey := Some keyOfA;
     CryptoImpl.privateKey := Some (repeat Byte.x11 32);
     CryptoImpl.initialized := true |}.
Definition cryptoOfB : CryptoImpl.State :=
  {| CryptoImpl.sodium := Some toySodium;
     CryptoImpl.publicKey := Some keyOfB;
     CryptoImpl.privateKey := Some (repeat Byte.x22 32);
     CryptoImpl.initialized := true |}.

(** Node A as node B knows it, and node B as node A knows it. *)
Definition nodeA : Peer :=
  {| peer_id := js "A"; publicKey := Some keyOfA;
     sharedSecret := Some secretAB;
     peer_name := js "a"; connected := true; verified := false;
     rssi := -50; lastSeen := 0 |}.
Definition nodeB : Peer :=
  {| peer_id := js "B"; publicKey := Some keyOfB;
     sharedSecret := Some secretAB;
     peer_name := js "b"; connected := true; verified := false;
     rssi := -60; lastSeen := 0 |}.

(** "He" followed by U+20AC and U+1F600 (a surrogate pair). *)
Definition mixedText : jsstring := [72; 101; 8364; 55357; 56832]%N.

(** Two instances of the fallback crypto service. *)
Definition expoOfA : ExpoCrypto.State :=
  {| ExpoCrypto.publicKey := Some keyOfA;
     ExpoCrypto.privateKey := Some (repeat Byte.x11 32);
     ExpoCrypto.initialized := true |}.
Definition expoOfB : ExpoCrypto.State :=
  {| ExpoCrypto.publicKey := Some keyOfB;
     ExpoCrypto.privateKey := Some (repeat Byte.x22 32);
     ExpoCrypto.initialized := true |}.

(** Messages of two conversations. *)
Definition messageOf (i p : string) (isSent : bool) : Message :=
  {| id := js i; peerId := js p; text := js "help";
     msg_timestamp := 1700000000000; sent := isSent; delivered := false;
     failed := false |}.

Definition conversations : AppContext.Messages :=
  [(js "A", [messageOf "m-1" "A" false; messageOf "m-2" "A" true]);
   (js "B", [messageOf "m-3" "B" true; messageOf "m-4" "B" true])].

End MoreSamples.

(* ===================================================================== *)
(** * Verification                                                         *)
(* ===================================================================== *)

Import JS Constants Envelope DuplicateDetector MessageService Observations.

(* ===================================================================== *)
(** ** Properties of the codec                                            *)
(* ===================================================================== *)


Lemma byteZ_range (b : Byte.byte) : 0 <= byteZ b < 256.
Proof.
  unfold byteZ. pose proof (Byte.to_N_bounded b). lia.
Qed.

Lemma u8_byteZ (b : Byte.byte) : u8 (byteZ b) = b.
Proof.
  unfold u8. pose proof (byteZ_range b) as Hr.
  rewrite Z.mod_small by lia. unfold byteZ.
  rewrite N2Z.id, Byte.of_to_N. reflexivity.
Qed.

Lemma byteZ_u8 (z : Z) : byteZ (u8 z) = z mod 256.
Proof.
  unfold u8, byteZ.
  assert (Hm : 0 <= z mod 256 < 256) by (apply Z.mod_pos_bound; lia).
  destruct (Byte.of_N (Z.to_N (z mod 256))) as [b|] eqn:Hb.
  - apply Byte.to_of_N in Hb. rewrite Hb. lia.
  - apply Byte.of_N_None_iff in Hb. lia.
Qed.

(** *** Hexadecimal text *)

Lemma lower_hex_cases (c : code_unit) :
  is_lower_hex c = true ->
  In c [48; 49; 50; 51; 52; 53; 54; 55; 56; 57; 97; 98; 99; 100; 101; 102]%N.
Proof.
  unfold is_lower_hex. intros H.
  apply orb_true_iff in H.
  assert (Hc : (48 <= c <= 57 \/ 97 <= c <= 102)%N).
  { destruct H as [H|H]; apply andb_true_iff in H; destruct H as [H1 H2];
      apply N.leb_le in H1; apply N.leb_le in H2; lia. }
  simpl.
  assert (c = 48 \/ c = 49 \/ c = 50 \/ c = 51 \/ c = 52 \/ c = 53 \/ c = 54
          \/ c = 55 \/ c = 56 \/ c = 57 \/ c = 97 \/ c = 98 \/ c = 99
          \/ c = 100 \/ c = 101 \/ c = 102)%N as Hd by lia.
  intuition auto.
Qed.

Lemma hex_pair_roundtrip (c0 c1 : code_unit) :
  is_lower_hex c0 = true -> is_lower_hex c1 = true ->
  hex2 (u8_of_parse (parseInt16 [c0; c1])) = [c0; c1].
Proof.
  intros H0 H1.
  apply lower_hex_cases in H0. apply lower_hex_cases in H1.
  simpl in H0, H1.
  repeat (destruct H0 as [H0|H0]; [subst c0|]); try contradiction;
  repeat (destruct H1 as [H1|H1]; [subst c1|]); try contradiction;
  vm_compute; reflexivity.
Qed.

Lemma lower_hex_not_hyphen (c : code_unit) :
  is_lower_hex c = true -> negb (N.eqb c 45) = true.
Proof.
  intros H. apply lower_hex_cases in H. simpl in H.
  repeat (destruct H as [H|H]; [subst c; reflexivity|]). contradiction.
Qed.

Lemma hex_to_bytes_cons (c0 c1 : code_unit) (s : jsstring) (n : nat) :
  hex_to_bytes (c0 :: c1 :: s) (S n)
  = u8_of_parse (parseInt16 [c0; c1]) :: hex_to_bytes s n.
Proof.
  unfold hex_to_bytes. rewrite <- cons_seq, <- seq_shift.
  cbn [map]. f_equal. rewrite map_map. reflexivity.
Qed.

Lemma length_hex_to_bytes (s : jsstring) (n : nat) :
  length (hex_to_bytes s n) = n.
Proof.
  unfold hex_to_bytes. rewrite length_map, length_seq. reflexivity.
Qed.

Lemma hex_text_roundtrip (n : nat) : forall s : jsstring,
  length s = (2 * n)%nat -> forallb is_lower_hex s = true ->
  bytes_to_hex (hex_to_bytes s n) = s.
Proof.
  induction n as [|n IH]; intros s Hlen Hhex.
  - destruct s; [reflexivity | discriminate].
  - destruct s as [|c0 [|c1 s]]; try (simpl in Hlen; lia).
    cbn [forallb] in Hhex.
    apply andb_true_iff in Hhex. destruct Hhex as [H0 Hhex].
    apply andb_true_iff in Hhex. destruct Hhex as [H1 Hhex].
    rewrite hex_to_bytes_cons. unfold bytes_to_hex. cbn [map concat].
    rewrite hex_pair_roundtrip by assumption.
    fold (bytes_to_hex (hex_to_bytes s n)).
    rewrite IH; [reflexivity | simpl in Hlen; lia | assumption].
Qed.

Lemma lower_hex_id_roundtrip (s : jsstring) :
  is_lower_hex_id s = true ->
  len s = 16 /\ bytes_to_hex (hex_to_bytes s 8) = s.
Proof.
  unfold is_lower_hex_id. intros H.
  apply andb_true_iff in H. destruct H as [Hl Hh].
  apply Nat.eqb_eq in Hl. split.
  - unfold len. lia.
  - apply hex_text_roundtrip; [lia | assumption].
Qed.

Ltac split_andb :=
  repeat match goal with
         | H : (_ && _)%bool = true |- _ =>
             apply andb_true_iff in H; destruct H
         end.

Lemma remove_hyphens_hex (c : code_unit) (s : jsstring) :
  is_lower_hex c = true -> remove_hyphens (c :: s) = c :: remove_hyphens s.
Proof.
  intros H. unfold remove_hyphens. cbn [List.filter].
  rewrite lower_hex_not_hyphen by assumption. reflexivity.
Qed.

Lemma remove_hyphens_hyphen (s : jsstring) :
  remove_hyphens (45%N :: s) = remove_hyphens s.
Proof. reflexivity. Qed.

Lemma canonical_uuid_roundtrip (s : jsstring) :
  is_canonical_uuid s = true ->
  len (remove_hyphens s) = 32
  /\ format_uuid (bytes_to_hex (hex_to_bytes (remove_hyphens s) 16)) = s.
Proof.
  unfold is_canonical_uuid. intros H.
  assert (Hl : length s = 36%nat).
  { split_andb. apply Nat.eqb_eq. assumption. }
  do 36 (destruct s as [|? s]; [discriminate Hl|]).
  destruct s; [|discriminate Hl]. clear Hl.
  cbn [substr firstn skipn forallb] in H.
  split_andb.
  repeat match goal with
         | H : N.eqb 45 ?c = true |- _ => apply N.eqb_eq in H; subst c
         end.
  repeat first [ rewrite remove_hyphens_hyphen
               | rewrite remove_hyphens_hex by assumption ].
  change (remove_hyphens []) with (@nil code_unit).
  split; [reflexivity|].
  rewrite hex_text_roundtrip.
  - reflexivity.
  - reflexivity.
  - cbn [forallb].
    repeat match goal with
           | H : is_lower_hex ?c = true |- _ => rewrite H; clear H
           end.
    reflexivity.
Qed.

(** *** Big-endian fields *)

Lemma length_be_bytes (w : nat) (z : Z) : length (be_bytes w z) = w.
Proof. induction w; simpl; congruence. Qed.

Lemma be_fold (w : nat) (z acc : Z) :
  fold_left (fun a b => 256 * a + byteZ b) (be_bytes w z) acc
  = acc * 2 ^ (8 * Z.of_nat w) + z mod 2 ^ (8 * Z.of_nat w).
Proof.
  revert acc. induction w as [|w IH]; intros acc.
  - simpl. rewrite Z.mod_1_r. lia.
  - cbn [be_bytes fold_left]. rewrite IH, byteZ_u8.
    rewrite Z.shiftr_div_pow2 by lia.
    replace (8 * Z.of_nat (S w)) with (8 * Z.of_nat w + 8) by lia.
    rewrite Z.pow_add_r by lia.
    change (2 ^ 8) with 256.
    assert (Hp : 0 < 2 ^ (8 * Z.of_nat w)) by (apply Z.pow_pos_nonneg; lia).
    rewrite (Z.rem_mul_r z (2 ^ (8 * Z.of_nat w)) 256) by lia.
    lia.
Qed.

Lemma be_value_be_bytes (w : nat) (z : Z) :
  0 <= z < 2 ^ (8 * Z.of_nat w) -> be_value (be_bytes w z) = z.
Proof.
  intros Hz. unfold be_value. rewrite be_fold, Z.mod_small by lia. lia.
Qed.

(** *** Reading a field back out of a concatenation *)

Lemma slice_at {A} (data : list A) (a b : Z) (pre x post : list A) :
  data = pre ++ x ++ post -> a = len pre -> b = a + len x ->
  slice data a b = x.
Proof.
  intros -> -> ->. unfold slice, len.
  replace (Z.of_nat (length pre) + Z.of_nat (length x) - Z.of_nat (length pre))
    with (Z.of_nat (length x)) by lia.
  rewrite !Nat2Z.id, drop_app_length, take_app_length. reflexivity.
Qed.

Lemma getUint_at (w : nat) (data : bytes) (off z : Z) (pre post : bytes) :
  data = pre ++ be_bytes w z ++ post -> off = len pre ->
  0 <= z < 2 ^ (8 * Z.of_nat w) ->
  getUint w data off = Some z.
Proof.
  intros -> -> Hz. unfold getUint, len.
  rewrite !length_app, length_be_bytes.
  replace (Z.of_nat (length pre) <? 0) with false
    by (symmetry; apply Z.ltb_ge; lia).
  replace (Z.of_nat (length pre + (w + length post))
             <? Z.of_nat (length pre) + Z.of_nat w) with false
    by (symmetry; apply Z.ltb_ge; lia).
  cbn [orb]. rewrite Nat2Z.id, drop_app_length.
  rewrite <- (length_be_bytes w z) at 1. rewrite take_app_length.
  rewrite be_value_be_bytes by assumption. reflexivity.
Qed.

Lemma be_bytes_1 (z : Z) : be_bytes 1 z = [u8 z].
Proof. reflexivity. Qed.

(** *** Decoding a well-laid-out buffer *)

Ltac layout :=
  match goal with
  | Hdata : ?data = _ |- ?data = _ =>
      rewrite Hdata, <- ?app_assoc; reflexivity
  | Hdata : ?data = _ |- ?data = _ =>
      rewrite Hdata, <- ?app_assoc, ?app_nil_r; reflexivity
  | |- _ = len _ =>
      unfold len; rewrite ?length_app, ?length_be_bytes; cbn [length]; lia
  | |- _ = _ + len _ =>
      unfold len; rewrite ?length_app, ?length_be_bytes; cbn [length]; lia
  | |- _ <= _ < _ => simpl; unfold len in *; lia
  end.

Lemma deserialize_wire (idb sb rb nonce_ tag_ payload : bytes) (ts ttl_ : Z) :
  length idb = 16%nat -> length sb = 8%nat -> length rb = 8%nat ->
  0 <= ts < 2 ^ 64 -> 0 <= ttl_ < 256 ->
  len nonce_ <= 1024 -> len tag_ <= 1024 ->
  len payload <= 10 * 1024 * 1024 ->
  forall e',
  e' = {| version := 1; messageId := format_uuid (bytes_to_hex idb);
          senderId := bytes_to_hex sb; recipientId := bytes_to_hex rb;
          timestamp := Number_of_BigInt ts; ttl := ttl_;
          encryptedPayload := payload; nonce := nonce_; tag := tag_ |} ->
  validateEnvelope e' = Ok true ->
  deserializeEnvelope
    ([u8 1] ++ idb ++ sb ++ rb ++ be_bytes 8 ts ++ [u8 ttl_]
       ++ be_bytes 2 (len nonce_) ++ nonce_
       ++ be_bytes 2 (len tag_) ++ tag_
       ++ be_bytes 4 (len payload) ++ payload) = Ok e'.
Proof.
  intros Hid Hsb Hrb Hts Httl Hn Ht Hp e' He' Hval.
  remember ([u8 1] ++ idb ++ sb ++ rb ++ be_bytes 8 ts ++ [u8 ttl_]
       ++ be_bytes 2 (len nonce_) ++ nonce_
       ++ be_bytes 2 (len tag_) ++ tag_
       ++ be_bytes 4 (len payload) ++ payload) as data eqn:Hdata.
  assert (Hlen : len data = 50 + len nonce_ + len tag_ + len payload).
  { rewrite Hdata. unfold len. rewrite !length_app, !length_be_bytes.
    cbn [length]. lia. }
  assert (Hn0 : 0 <= len nonce_) by (unfold len; lia).
  assert (Ht0 : 0 <= len tag_) by (unfold len; lia).
  assert (Hp0 : 0 <= len payload) by (unfold len; lia).
  unfold deserializeEnvelope. cbv zeta.
  rewrite Hlen.
  replace (50 + len nonce_ + len tag_ + len payload <? 50) with false
    by (symmetry; apply Z.ltb_ge; lia).
  cbn [negb].
  rewrite (getUint_at 1 data 0 1 [] (idb ++ sb ++ rb ++ be_bytes 8 ts
       ++ [u8 ttl_] ++ be_bytes 2 (len nonce_) ++ nonce_
       ++ be_bytes 2 (len tag_) ++ tag_
       ++ be_bytes 4 (len payload) ++ payload)) by layout.
  cbn [view_read rbind].
  change (1 =? MESSAGE_ENVELOPE_VERSION) with true. cbv iota.
  rewrite (getUint_at 8 data _ ts ([u8 1] ++ idb ++ sb ++ rb)
       ([u8 ttl_] ++ be_bytes 2 (len nonce_) ++ nonce_
       ++ be_bytes 2 (len tag_) ++ tag_
       ++ be_bytes 4 (len payload) ++ payload)) by layout.
  cbn [view_read rbind].
  rewrite (getUint_at 1 data _ ttl_
       ([u8 1] ++ idb ++ sb ++ rb ++ be_bytes 8 ts)
       (be_bytes 2 (len nonce_) ++ nonce_
       ++ be_bytes 2 (len tag_) ++ tag_
       ++ be_bytes 4 (len payload) ++ payload)) by layout.
  cbn [view_read rbind].
  rewrite (getUint_at 2 data _ (len nonce_)
       ([u8 1] ++ idb ++ sb ++ rb ++ be_bytes 8 ts ++ [u8 ttl_])
       (nonce_ ++ be_bytes 2 (len tag_) ++ tag_
       ++ be_bytes 4 (len payload) ++ payload)) by layout.
  cbn [view_read rbind].
  rewrite (getUint_at 2 data _ (len tag_)
       ([u8 1] ++ idb ++ sb ++ rb ++ be_bytes 8 ts ++ [u8 ttl_]
          ++ be_bytes 2 (len nonce_) ++ nonce_)
       (tag_ ++ be_bytes 4 (len payload) ++ payload)) by layout.
  cbn [view_read rbind].
  rewrite (getUint_at 4 data _ (len payload)
       ([u8 1] ++ idb ++ sb ++ rb ++ be_bytes 8 ts ++ [u8 ttl_]
          ++ be_bytes 2 (len nonce_) ++ nonce_
          ++ be_bytes 2 (len tag_) ++ tag_)
       payload) by layout.
  cbn [view_read rbind].
  repeat match goal with
         | |- context [negb (?a <? ?b)] =>
             replace (a <? b) with false by (symmetry; apply Z.ltb_ge; lia);
             cbn [negb]
         end.
  cbv iota.
  match goal with
  | |- context [?a =? ?b] =>
      replace (a =? b) with true by (symmetry; apply Z.eqb_eq; lia)
  end.
  rewrite (slice_at data (0 + 1)
       (0 + 1 + 16) [u8 1] idb (sb ++ rb ++ be_bytes 8 ts
       ++ [u8 ttl_] ++ be_bytes 2 (len nonce_) ++ nonce_
       ++ be_bytes 2 (len tag_) ++ tag_
       ++ be_bytes 4 (len payload) ++ payload)) by layout.
  rewrite (slice_at data (0 + 1 + 16)
       (0 + 1 + 16 + 8) ([u8 1] ++ idb) sb (rb ++ be_bytes 8 ts
       ++ [u8 ttl_] ++ be_bytes 2 (len nonce_) ++ nonce_
       ++ be_bytes 2 (len tag_) ++ tag_
       ++ be_bytes 4 (len payload) ++ payload)) by layout.
  rewrite (slice_at data (0 + 1 + 16 + 8)
       (0 + 1 + 16 + 8 + 8) ([u8 1] ++ idb ++ sb) rb (be_bytes 8 ts
       ++ [u8 ttl_] ++ be_bytes 2 (len nonce_) ++ nonce_
       ++ be_bytes 2 (len tag_) ++ tag_
       ++ be_bytes 4 (len payload) ++ payload)) by layout.
  rewrite (slice_at data (0 + 1 + 16 + 8 + 8 + 8 + 1 + 2)
       (0 + 1 + 16 + 8 + 8 + 8 + 1 + 2 + len nonce_)
       ([u8 1] ++ idb ++ sb ++ rb ++ be_bytes 8 ts ++ [u8 ttl_]
          ++ be_bytes 2 (len nonce_))
       nonce_
       (be_bytes 2 (len tag_) ++ tag_
          ++ be_bytes 4 (len payload) ++ payload)) by layout.
  rewrite (slice_at data (0 + 1 + 16 + 8 + 8 + 8 + 1 + 2 + len nonce_ + 2)
       (0 + 1 + 16 + 8 + 8 + 8 + 1 + 2 + len nonce_ + 2 + len tag_)
       ([u8 1] ++ idb ++ sb ++ rb ++ be_bytes 8 ts ++ [u8 ttl_]
          ++ be_bytes 2 (len nonce_) ++ nonce_ ++ be_bytes 2 (len tag_))
       tag_
       (be_bytes 4 (len payload) ++ payload)) by layout.
  rewrite (slice_at data (0 + 1 + 16 + 8 + 8 + 8 + 1 + 2 + len nonce_ + 2 + len tag_ + 4)
       (0 + 1 + 16 + 8 + 8 + 8 + 1 + 2 + len nonce_ + 2 + len tag_ + 4 + len payload)
       ([u8 1] ++ idb ++ sb ++ rb ++ be_bytes 8 ts ++ [u8 ttl_]
          ++ be_bytes 2 (len nonce_) ++ nonce_ ++ be_bytes 2 (len tag_)
          ++ tag_ ++ be_bytes 4 (len payload))
       payload []) by layout.
  rewrite <- He', Hval. reflexivity.
Qed.

Lemma validateEnvelope_inv (e : MessageEnvelope) :
  validateEnvelope e = Ok true ->
  version e = 1 /\ 0 <= ttl e <= 255 /\ 0 < timestamp e
  /\ messageId e <> [] /\ senderId e <> [] /\ recipientId e <> []
  /\ 1 <= len (nonce e) /\ 1 <= len (tag e)
  /\ 1 <= len (encryptedPayload e).
Proof.
  unfold validateEnvelope, MESSAGE_ENVELOPE_VERSION.
  destruct (version e =? 1) eqn:Hv; [|discriminate].
  destruct ((0 <=? ttl e) && (ttl e <=? 255)) eqn:Ht; [|discriminate].
  destruct (messageId e) as [|m ms]; [discriminate|].
  destruct (senderId e) as [|s ss]; [discriminate|].
  destruct (recipientId e) as [|r rs]; [discriminate|].
  destruct (0 <? timestamp e) eqn:Hts; [|discriminate].
  destruct (nonce e) as [|n ns]; [discriminate|].
  destruct (tag e) as [|t ts]; [discriminate|].
  destruct (encryptedPayload e) as [|p ps]; [discriminate|].
  intros _. apply andb_true_iff in Ht. destruct Ht as [Ht1 Ht2].
  unfold len. cbn [length].
  repeat split; try discriminate; try lia.
Qed.


(* ===================================================================== *)
(** ** C1: serialize / deserialize round trip                             *)
(* ===================================================================== *)


Lemma serializeEnvelope_layout (e : MessageEnvelope) :
  validateEnvelope e = Ok true ->
  len (remove_hyphens (messageId e)) = 32 ->
  len (senderId e) = 16 -> len (recipientId e) = 16 ->
  serializeEnvelope e
  = Ok ([u8 1] ++ hex_to_bytes (remove_hyphens (messageId e)) 16
          ++ hex_to_bytes (senderId e) 8
          ++ hex_to_bytes (recipientId e) 8
          ++ be_bytes 8 (timestamp e) ++ [u8 (ttl e)]
          ++ be_bytes 2 (len (nonce e)) ++ nonce e
          ++ be_bytes 2 (len (tag e)) ++ tag e
          ++ be_bytes 4 (len (encryptedPayload e)) ++ encryptedPayload e).
Proof.
  intros Hval Hm Hs Hr.
  pose proof (validateEnvelope_inv e Hval) as (Hv & _).
  unfold serializeEnvelope. rewrite Hval. cbn [rbind].
  rewrite Hm, Hs, Hr, Hv. reflexivity.
Qed.

Lemma js_integer_Number (z : Z) :
  0 <= z -> is_js_integer z -> Number_of_BigInt z = z.
Proof.
  unfold is_js_integer. intros Hz. rewrite Z.abs_eq by assumption. auto.
Qed.

Lemma small_is_js_integer (z : Z) : Z.abs z < 2 ^ 53 -> is_js_integer z.
Proof.
  unfold is_js_integer, Number_of_BigInt. intros H.
  apply Z.ltb_lt in H. rewrite H. reflexivity.
Qed.

(** C1 (amended).  For every envelope accepted by [validateEnvelope]
    whose message id is a lower-case hyphenated 8-4-4-4-12 UUID, whose
    sender and recipient ids are 16 lower-case hexadecimal digits, whose
    timestamp is an integer below 2^64 that a JavaScript number holds
    exactly, and whose nonce, tag and payload are at most 1024, 1024 and
    10 MiB long, serialization succeeds and deserializing its result
    yields the envelope itself. *)
Theorem deserialize_serialize_roundtrip (e : MessageEnvelope) :
  validateEnvelope e = Ok true ->
  is_canonical_uuid (messageId e) = true ->
  is_lower_hex_id (senderId e) = true ->
  is_lower_hex_id (recipientId e) = true ->
  timestamp e < 2 ^ 64 -> is_js_integer (timestamp e) ->
  len (nonce e) <= 1024 -> len (tag e) <= 1024 ->
  len (encryptedPayload e) <= 10 * 1024 * 1024 ->
  roundtrip e = Ok e.
Proof.
  intros Hval Hm Hs Hr Hts Hjs Hn Ht Hp.
  pose proof (validateEnvelope_inv e Hval)
    as (Hv & Httl & Hts0 & _).
  destruct (canonical_uuid_roundtrip _ Hm) as [Hml Hmr].
  destruct (lower_hex_id_roundtrip _ Hs) as [Hsl Hsr].
  destruct (lower_hex_id_roundtrip _ Hr) as [Hrl Hrr].
  unfold roundtrip.
  rewrite serializeEnvelope_layout by assumption. cbn [rbind].
  apply deserialize_wire;
    try (apply length_hex_to_bytes); try assumption; try lia.
  rewrite Hmr, Hsr, Hrr, js_integer_Number by (assumption || lia).
  destruct e; cbn in *. subst. reflexivity.
Qed.

(** Witness for C1: the envelope of the repository's test suite. *)
Lemma deserialize_serialize_roundtrip_witness :
  roundtrip Samples.testEnvelope = Ok Samples.testEnvelope.
Proof.
  apply deserialize_serialize_roundtrip.
  - reflexivity.
  - reflexivity.
  - reflexivity.
  - reflexivity.
  - reflexivity.
  - apply small_is_js_integer. reflexivity.
  - vm_compute. discriminate.
  - vm_compute. discriminate.
  - vm_compute. discriminate.
Defined.

(** C1 as stated fails: an envelope that passes validation and whose
    sender id consists of 16 hexadecimal characters, written in upper
    case, comes back from the round trip with a different sender id. *)
Lemma roundtrip_uppercase_sender_differs :
  passes_validation Samples.upperCaseEnvelope
  /\ roundtrip Samples.upperCaseEnvelope = Ok Samples.testEnvelope
  /\ roundtrip Samples.upperCaseEnvelope <> Ok Samples.upperCaseEnvelope.
Proof.
  split; [|split].
  - unfold passes_validation. repeat split; reflexivity.
  - vm_compute. reflexivity.
  - vm_compute. discriminate.
Qed.


(* ===================================================================== *)
(** ** C5, C6: the duplicate-detection cache                              *)
(* ===================================================================== *)


Lemma pruneCache_lookup (now : Z) (cache : Cache) (k : jsstring) (ts : Z) :
  pruneCache now cache !! k = Some ts
  <-> cache !! k = Some ts /\ now - CACHE_EXPIRATION_MS <= ts.
Proof.
  unfold pruneCache. rewrite map_lookup_filter_Some. cbn. intuition lia.
Qed.

Lemma pruneCache_fresh (now : Z) (cache : Cache) :
  (forall k ts, cache !! k = Some ts -> now - CACHE_EXPIRATION_MS <= ts) ->
  pruneCache now cache = cache.
Proof.
  intros H. unfold pruneCache. apply map_filter_id.
  intros k ts Hk. cbn. specialize (H k ts Hk). lia.
Qed.

Lemma isDuplicate_true (cache : Cache) (k : jsstring) :
  isDuplicate cache k = true <-> exists ts, cache !! k = Some ts.
Proof.
  unfold isDuplicate. rewrite bool_decide_eq_true. reflexivity.
Qed.

Lemma isDuplicate_false (cache : Cache) (k : jsstring) :
  isDuplicate cache k = false <-> cache !! k = None.
Proof.
  unfold isDuplicate. rewrite bool_decide_eq_false.
  rewrite eq_None_not_Some. reflexivity.
Qed.

(** C6.  After [markAsProcessed] at clock reading [now], every entry
    left in the cache has a timestamp no older than
    [CACHE_EXPIRATION_MS] = 300 000 ms before [now]; the entries of the
    cache after the insertion that are older than that are removed, and
    no other entry is. *)
Theorem markAsProcessed_sweeps_expired (now : Z) (messageId : jsstring)
    (cache : Cache) :
  CACHE_EXPIRATION_MS = 300000
  /\ (forall k ts, markAsProcessed now messageId cache !! k = Some ts ->
       ~ ts < now - 300000)
  /\ (forall k ts, <[messageId := now]> cache !! k = Some ts ->
       ts < now - 300000 ->
       markAsProcessed now messageId cache !! k = None)
  /\ (forall k ts, <[messageId := now]> cache !! k = Some ts ->
       ~ ts < now - 300000 ->
       markAsProcessed now messageId cache !! k = Some ts).
Proof.
  unfold markAsProcessed. split; [reflexivity|]. split; [|split].
  - intros k ts H. apply pruneCache_lookup in H.
    unfold CACHE_EXPIRATION_MS in H. lia.
  - intros k ts Hk Hold.
    destruct (pruneCache now (<[messageId:=now]> cache) !! k) as [ts'|] eqn:E;
      [|reflexivity].
    apply pruneCache_lookup in E. destruct E as [E1 E2].
    assert (Heq : Some ts' = Some ts) by exact (eq_trans (eq_sym E1) Hk).
    injection Heq as ->.
    unfold CACHE_EXPIRATION_MS in E2. lia.
  - intros k ts Hk Hnew. apply pruneCache_lookup. split; [assumption|].
    unfold CACHE_EXPIRATION_MS. lia.
Qed.

(** Example for C6: an entry marked at time 0 is gone after another id
    is marked at time 400 000, and an entry marked at 100 000 stays. *)
Lemma markAsProcessed_sweeps_expired_example :
  markAsProcessed 400000 (js "c") (<[js "b" := 100000]> {[js "a" := 0]})
    !! js "a" = None
  /\ markAsProcessed 400000 (js "c") (<[js "b" := 100000]> {[js "a" := 0]})
       !! js "b" = Some 100000.
Proof.
  pose proof (markAsProcessed_sweeps_expired 400000 (js "c")
                (<[js "b" := 100000]> {[js "a" := 0]}))
    as (_ & _ & Hgone & Hkept).
  split.
  - apply (Hgone (js "a") 0); [vm_compute; reflexivity | lia].
  - apply (Hkept (js "b") 100000); [vm_compute; reflexivity | lia].
Defined.

(** Marking ids that are all new, at one clock reading, adds one entry
    per id: nothing in [markAsProcessed] looks at the number of entries. *)
Lemma mark_all_lookup (now : Z) (ids : list jsstring) : forall cache : Cache,
  (forall k ts, cache !! k = Some ts -> now - CACHE_EXPIRATION_MS <= ts) ->
  (forall k ts, Samples.mark_all now ids cache !! k = Some ts ->
     now - CACHE_EXPIRATION_MS <= ts)
  /\ (NoDup ids -> (forall k, In k ids -> cache !! k = None) ->
      getCacheSize (Samples.mark_all now ids cache)
      = (length ids + getCacheSize cache)%nat).
Proof.
  induction ids as [|i ids IH]; intros cache Hfresh.
  - split; [exact Hfresh | reflexivity].
  - unfold Samples.mark_all. cbn [fold_left].
    fold (Samples.mark_all now ids (markAsProcessed now i cache)).
    assert (Hmark : markAsProcessed now i cache = <[i := now]> cache).
    { unfold markAsProcessed. apply pruneCache_fresh.
      intros k ts Hk. destruct (decide (i = k)) as [->|Hne].
      - rewrite lookup_insert_eq in Hk. injection Hk as <-.
        unfold CACHE_EXPIRATION_MS. lia.
      - rewrite lookup_insert_ne in Hk by assumption. eauto. }
    rewrite Hmark.
    assert (Hfresh' : forall k ts, <[i := now]> cache !! k = Some ts ->
                                   now - CACHE_EXPIRATION_MS <= ts).
    { intros k ts Hk. destruct (decide (i = k)) as [->|Hne].
      - rewrite lookup_insert_eq in Hk. injection Hk as <-.
        unfold CACHE_EXPIRATION_MS. lia.
      - rewrite lookup_insert_ne in Hk by assumption. eauto. }
    destruct (IH (<[i := now]> cache) Hfresh') as [IH1 IH2].
    split; [exact IH1|].
    intros Hnd Hnew. apply NoDup_cons in Hnd. destruct Hnd as [Hni Hnd].
    rewrite IH2.
    + unfold getCacheSize. rewrite map_size_insert_None.
      * cbn [length]. lia.
      * apply Hnew. left. reflexivity.
    + assumption.
    + intros k Hk. rewrite lookup_insert_ne.
      * apply Hnew. right. assumption.
      * intros ->. apply Hni. apply list_elem_of_In. assumption.
Qed.

(** C5 (code defect).  [MAX_CACHE_ENTRIES] is never consulted: after
    1001 distinct message ids are marked at one instant the cache holds
    1001 entries, more than the documented maximum of 1000. *)
Theorem cache_exceeds_max_entries :
  getCacheSize
    (Samples.mark_all 1700000000000
       (map Samples.sample_uuid (seq 0 1001)) ∅) = 1001%nat
  /\ MAX_CACHE_ENTRIES
     < Z.of_nat (getCacheSize
         (Samples.mark_all 1700000000000
            (map Samples.sample_uuid (seq 0 1001)) ∅)).
Proof.
  assert (Hsize : getCacheSize
    (Samples.mark_all 1700000000000
       (map Samples.sample_uuid (seq 0 1001)) ∅) = 1001%nat).
  { destruct (mark_all_lookup 1700000000000
                (map Samples.sample_uuid (seq 0 1001)) ∅) as [_ H].
    - intros k ts Hk. rewrite lookup_empty in Hk. discriminate.
    - rewrite H.
      + rewrite length_map, length_seq. unfold getCacheSize.
        rewrite map_size_empty. lia.
      + apply (NoDup_fmap_1
                 (fun s => be_value (hex_to_bytes (remove_hyphens s) 16))).
        replace ((fun s => be_value (hex_to_bytes (remove_hyphens s) 16))
                   <$> map Samples.sample_uuid (seq 0 1001))
          with (Z.of_nat <$> seq 0 1001) by (vm_compute; reflexivity).
        apply (NoDup_fmap_2 Z.of_nat), list.NoDup_seq.
      + intros k _. apply lookup_empty. }
  split; [exact Hsize|]. rewrite Hsize. reflexivity.
Qed.


(* ===================================================================== *)
(** ** Running the service operations                                     *)
(* ===================================================================== *)


Lemma startWrites_run (data : bytes) (devices : list jsstring) (s : Service) :
  startWrites data devices s
  = (Returned tt, s, map (fun d => EvSend d data) devices).
Proof.
  induction devices as [|d ds IH]; [reflexivity|].
  cbn [startWrites map]. unfold bind, emit. rewrite IH. reflexivity.
Qed.

Lemma settleWrites_run (env : Env) (data : bytes) (settled : list jsstring)
    (s : Service) :
  settleWrites env data settled s
  = (Returned tt, s,
     map (fun d => EvError (LogSendFailedToPeer d))
       (List.filter (fun d => negb (sendData env d data)) settled)).
Proof.
  induction settled as [|d ds IH]; [reflexivity|].
  cbn [settleWrites List.filter]. unfold bind.
  destruct (sendData env d data); cbn [negb map].
  - unfold ret. rewrite IH. reflexivity.
  - unfold emit. rewrite IH. reflexivity.
Qed.

Lemma success_count_positive (results : list bool) :
  (0 <? Z.of_nat (length (List.filter (fun b : bool => b) results)))
  = existsb (fun b => b) results.
Proof.
  induction results as [|[] rs IH]; cbn [List.filter existsb length orb].
  - reflexivity.
  - apply Z.ltb_lt. lia.
  - exact IH.
Qed.

Lemma existsb_id_map {A} (f : A -> bool) (l : list A) :
  existsb (fun b => b) (map f l) = existsb f l.
Proof. induction l as [|a l IH]; cbn; [reflexivity | rewrite IH; reflexivity]. Qed.

Lemma transmitToAllPeers_run (env : Env) (data : bytes)
    (excludePeerId : option jsstring) (s : Service) :
  transmitToAllPeers env data excludePeerId s
  = (Returned (transmit_ok env data (devicesToSend env excludePeerId)), s,
     send_events env data (devicesToSend env excludePeerId)).
Proof.
  unfold transmitToAllPeers. fold (devicesToSend env excludePeerId).
  destruct (devicesToSend env excludePeerId) as [|d ds] eqn:Hds.
  - reflexivity.
  - cbn [is_empty]. unfold bind.
    rewrite startWrites_run, settleWrites_run. unfold ret.
    rewrite success_count_positive. unfold transmit_ok, send_events, rejected.
    rewrite existsb_id_map, !app_nil_r. reflexivity.
Qed.

Lemma relayMessage_run (env : Env) (e : MessageEnvelope)
    (excludePeerId : jsstring) (s : Service) :
  relayMessage env e excludePeerId s
  = (Returned tt, s, relay_events env e excludePeerId).
Proof.
  unfold relayMessage, relay_events, try_catch, bind, emit, lift_result.
  cbn [with_ttl messageId ttl].
  destruct (serializeEnvelope (with_ttl e (ttl e - 1))) as [data|err].
  - unfold ret. rewrite transmitToAllPeers_run. reflexivity.
  - unfold throw. reflexivity.
Qed.

Lemma sends_of_app (t1 t2 : list Event) :
  sends_of (t1 ++ t2) = sends_of t1 ++ sends_of t2.
Proof. unfold sends_of. apply flat_map_app. Qed.

(** A projection that ignores writes and log lines sees nothing of a
    transmission. *)
Lemma flat_map_nil_on {A B} (f : A -> list B) (l : list A) :
  (forall a, In a l -> f a = []) -> flat_map f l = [].
Proof.
  induction l as [|a l IH]; intros H; [reflexivity|].
  cbn [flat_map]. rewrite (H a) by (left; reflexivity).
  apply IH. intros b Hb. apply H. right. exact Hb.
Qed.

Lemma sends_of_send_events (env : Env) (data : bytes)
    (devices : list jsstring) :
  sends_of (send_events env data devices)
  = map (fun d => (d, data)) devices.
Proof.
  unfold send_events. rewrite sends_of_app.
  replace (sends_of (map _ (rejected env data devices)))
    with (@nil (jsstring * bytes)).
  - rewrite app_nil_r. induction devices as [|d ds IH]; [reflexivity|].
    cbn [map sends_of flat_map app] in *. f_equal. exact IH.
  - symmetry. apply flat_map_nil_on. intros ev Hev.
    apply in_map_iff in Hev. destruct Hev as (d & <- & _). reflexivity.
Qed.

(** Projections of the traces of the transmission and relay steps. *)
Lemma project_send_events {B} (f : Event -> list B) (env : Env)
    (data : bytes) (devices : list jsstring) :
  (forall d x, f (EvSend d x) = []) -> (forall l, f (EvError l) = []) ->
  flat_map f (send_events env data devices) = [].
Proof.
  intros Hs He. unfold send_events. rewrite flat_map_app.
  rewrite !flat_map_nil_on; [reflexivity| |].
  - intros ev Hev. apply in_map_iff in Hev. destruct Hev as (d & <- & _).
    apply He.
  - intros ev Hev. apply in_map_iff in Hev. destruct Hev as (d & <- & _).
    apply Hs.
Qed.

Lemma storeMessage_run (env : Env) (m : Message) (s : Service) :
  storeMessage env m s
  = if storageWritable env
    then (Returned tt, stored m s, [EvStore m])
    else (Thrown ExnStorage, s, [EvStore m; EvError LogFailedToStoreMessage]).
Proof.
  unfold storeMessage, bind, emit, modify, throw.
  destruct (storageWritable env); reflexivity.
Qed.

Lemma createEnvelope_inv enc mid sid rid ts t e :
  createEnvelope enc mid sid rid ts t = Ok e ->
  e = {| version := 1; messageId := mid; senderId := sid; recipientId := rid;
         timestamp := ts; ttl := t; encryptedPayload := ciphertext enc;
         nonce := enc_nonce enc; tag := enc_tag enc |}.
Proof.
  unfold createEnvelope.
  destruct (negb (is_empty mid)); [|discriminate].
  destruct (len sid =? 16); [|discriminate].
  destruct (len rid =? 16); [|discriminate].
  destruct (0 <? ts); [|discriminate].
  destruct ((0 <=? t) && (t <=? 255)); [|discriminate].
  intros H. injection H as <-. reflexivity.
Qed.

Lemma bind_unfold {A B} (m : M A) (k : A -> M B) (s : Service) :
  bind m k s
  = match m s with
    | (Returned a, s1, t1) =>
        match k a s1 with (o, s2, t2) => (o, s2, t1 ++ t2) end
    | (Thrown x, s1, t1) => (Thrown x, s1, t1)
    end.
Proof. reflexivity. Qed.

Lemma deriveSenderId_run (crypto : CryptoService) (pk : bytes) (s : Service) :
  deriveSenderId crypto pk s
  = (match generateTrustFingerprint crypto pk with
     | Returned fp => Returned (substring0 fp 16)
     | Thrown x => Thrown x
     end, s, []).
Proof.
  unfold deriveSenderId, bind, lift_outcome, ret.
  destruct (generateTrustFingerprint crypto pk); reflexivity.
Qed.

Ltac bind_step :=
  match goal with
  | |- context [bind ?m ?k ?s] => rewrite (bind_unfold m k s)
  end;
  rewrite ?deriveSenderId_run, ?storeMessage_run, ?transmitToAllPeers_run;
  cbn [lift_outcome lift_result emit get modify ret throw].

Ltac thrown_early x pre :=
  left; exists x, pre; split;
  [ cbn [app]; reflexivity | first [ left; reflexivity | right; eauto ] ].

Lemma sendMessage_shape crypto env recipientId text peers s :
  (exists x pre,
      sendMessage crypto env recipientId text peers s
      = (Thrown x, s, pre ++ [EvError LogSendMessageFailed])
      /\ (pre = [] \/ exists secret, pre = [EvEncrypt text secret]))
  \/ (exists secret envelope data,
      serializeEnvelope envelope = Ok data
      /\ messageId envelope = generateUUID env
      /\ ttl envelope = INITIAL_MESSAGE_TTL
      /\ sendMessage crypto env recipientId text peers s
         = send_result env recipientId text secret envelope data s).
Proof.
  unfold sendMessage, try_catch.
  destruct (MAX_MESSAGE_LENGTH <? len text) eqn:Hlong.
  { thrown_early ExnMessageTooLong (@nil Event). }
  destruct (len text =? 0) eqn:Hempty.
  { thrown_early ExnMessageEmpty (@nil Event). }
  destruct (map_get peers recipientId) as [recipient|] eqn:Hpeer.
  2:{ thrown_early ExnRecipientNotFound (@nil Event). }
  destruct (sharedSecret recipient) as [secret|] eqn:Hsecret.
  2:{ thrown_early ExnNoSharedSecret (@nil Event). }
  bind_step.
  destruct (getPublicKey crypto) as [ownPublicKey|x] eqn:Hpk.
  2:{ thrown_early x (@nil Event). }
  bind_step.
  destruct (generateTrustFingerprint crypto ownPublicKey) as [fp|x] eqn:Hfp.
  2:{ thrown_early x (@nil Event). }
  bind_step.
  assert (Hrid : exists o, forall s0, (match publicKey recipient with
           | Some pk => deriveSenderId crypto pk
           | None => ret (substring0 recipientId 16)
           end) s0 = (o, s0, [])).
  { destruct (publicKey recipient) as [pk|].
    - eexists. intros. apply deriveSenderId_run.
    - eexists. intros. reflexivity. }
  destruct Hrid as [o Hrid]. rewrite Hrid.
  destruct o as [recipientIdHash|x].
  2:{ thrown_early x (@nil Event). }
  bind_step. bind_step.
  destruct (encryptMessage crypto text secret) as [encrypted|x] eqn:Henc.
  2:{ thrown_early x [EvEncrypt text secret]. }
  bind_step.
  destruct (createEnvelope encrypted (generateUUID env) (substring0 fp 16)
              recipientIdHash (now env) INITIAL_MESSAGE_TTL)
    as [envelope|err] eqn:Hcreate.
  2:{ thrown_early (ExnEnvelope err) [EvEncrypt text secret]. }
  cbn [lift_result ret].
  bind_step.
  destruct (serializeEnvelope envelope) as [data|err] eqn:Hser.
  2:{ thrown_early (ExnEnvelope err) [EvEncrypt text secret]. }
  cbn [lift_result ret].
  right. exists secret, envelope, data.
  apply createEnvelope_inv in Hcreate.
  split; [assumption|]. split; [subst envelope; reflexivity|].
  split; [subst envelope; reflexivity|].
  unfold send_result.
  bind_step.
  fold (outgoing env recipientId text).
  destruct (storageWritable env) eqn:Hw.
  2:{ reflexivity. }
  bind_step.
  change (devicesToSend env None) with (connectedDevices env).
  destruct (transmit_ok env data (connectedDevices env)) eqn:Hok.
  - cbn [negb]. unfold notifyStatus, status_events.
    bind_step. bind_step.
    change (messageStatusCallback (stored (outgoing env recipientId text) s))
      with (messageStatusCallback s).
    destruct (messageStatusCallback s); cbn [app emit ret];
      rewrite ?app_nil_r; reflexivity.
  - cbn [negb]. unfold queueMessageForRetry. bind_step. cbn [app].
    rewrite ?app_nil_r. reflexivity.
Qed.

Lemma validateEnvelope_true (e : MessageEnvelope) (b : bool) :
  validateEnvelope e = Ok b -> b = true.
Proof.
  unfold validateEnvelope. intros H.
  repeat match type of H with
         | (if ?c then _ else _) = _ => destruct c; [|discriminate H]
         end.
  injection H as <-. reflexivity.
Qed.

Lemma deserializeEnvelope_validates (data : bytes) (e : MessageEnvelope) :
  deserializeEnvelope data = Ok e -> validateEnvelope e = Ok true.
Proof.
  unfold deserializeEnvelope. cbv zeta. intros H.
  repeat match type of H with
         | (if ?c then _ else _) = _ => destruct c; [|discriminate H]
         | rbind ?r _ = _ =>
             let E := fresh "E" in
             destruct r eqn:E; cbn [rbind] in H; [|discriminate H]
         end.
  injection H as <-.
  match goal with
  | E : validateEnvelope _ = Ok ?b |- _ =>
      rewrite E; f_equal; exact (validateEnvelope_true _ _ E)
  end.
Qed.

Lemma findSenderPeer_state (crypto : CryptoService)
    (peers : list (jsstring * Peer)) (sid : jsstring) (s s' : Service) :
  findSenderPeer crypto peers sid s
  = ((findSenderPeer crypto peers sid s').1.1, s, []).
Proof.
  induction peers as [|[k peer] rest IH].
  - reflexivity.
  - cbn [findSenderPeer]. destruct (publicKey peer) as [pk|].
    + rewrite !bind_unfold, !deriveSenderId_run.
      destruct (generateTrustFingerprint crypto pk) as [fp|x].
      * cbv beta iota.
        match goal with
        | |- context [bool_decide ?P] => destruct (bool_decide P)
        end.
        -- reflexivity.
        -- rewrite IH. destruct (findSenderPeer crypto rest sid s') as [[o s2] t2].
           reflexivity.
      * reflexivity.
    + exact IH.
Qed.

Lemma findSenderPeer_run (crypto : CryptoService)
    (peers : list (jsstring * Peer)) (sid : jsstring) (s : Service) :
  findSenderPeer crypto peers sid s = (senderLookup crypto peers sid, s, []).
Proof. apply findSenderPeer_state. Qed.

Lemma handleIncomingMessage_run (crypto : CryptoService) (env : Env)
    (senderId : jsstring) (data : bytes) (peers : list (jsstring * Peer))
    (s : Service) :
  handleIncomingMessage crypto env senderId data peers s
  = handle_result crypto env senderId data peers s.
Proof.
  unfold handleIncomingMessage, handle_result, try_catch.
  destruct (deserializeEnvelope data) as [e|err] eqn:Hde.
  2:{ reflexivity. }
  rewrite (deserializeEnvelope_validates _ _ Hde).
  bind_step.
  destruct (isDuplicate (cache s) (messageId e)) eqn:Hdup.
  { reflexivity. }
  bind_step. bind_step. rewrite findSenderPeer_run.
  unfold handle_fresh, resolveSender.
  set (s1 := set_cache (markAsProcessed (now env) (messageId e) (cache s)) s).
  destruct (senderLookup crypto peers (Envelope.senderId e)) as [found|x].
  2:{ reflexivity. }
  cbv beta iota.
  assert (Hrelay : forall s0,
            (if 0 <? ttl e then relayMessage env e senderId else ret tt) s0
            = (Returned tt, s0, relay_if env e senderId)).
  { intros s0. unfold relay_if. destruct (0 <? ttl e).
    - apply relayMessage_run.
    - reflexivity. }
  assert (Hnone : forall s0,
            bind (emit (EvError LogCannotDecrypt))
              (fun _ => if 0 <? ttl e then relayMessage env e senderId
                        else ret tt) s0
            = (Returned tt, s0,
               EvError LogCannotDecrypt :: relay_if env e senderId)).
  { intros s0. rewrite bind_unfold. cbn [emit]. rewrite Hrelay. reflexivity. }
  set (resolved := match found with
                   | Some p => Some p
                   | None => map_get peers senderId
                   end).
  assert (Hres : match found with
                 | Some p => Returned (Some p)
                 | None => Returned (map_get peers senderId)
                 end = Returned resolved).
  { destruct found; reflexivity. }
  rewrite Hres. clearbody resolved. clear Hres.
  destruct resolved as [senderPeer|].
  2:{ rewrite Hnone. reflexivity. }
  destruct (sharedSecret senderPeer) as [secret|].
  2:{ rewrite Hnone. reflexivity. }
  fold (encrypted_part e).
  bind_step. bind_step.
  destruct (decryptMessage crypto (encrypted_part e) secret) as [[plaintext|]|x].
  3:{ reflexivity. }
  2:{ bind_step. unfold relay_if.
      destruct (0 <? ttl e); [rewrite relayMessage_run|]; reflexivity. }
  fold (incoming e senderPeer plaintext).
  bind_step.
  destruct (storageWritable env).
  2:{ reflexivity. }
  unfold notifyReceived, received_events.
  bind_step. bind_step.
  change (messageReceivedCallback (stored (incoming e senderPeer plaintext) s1))
    with (messageReceivedCallback s1).
  unfold relay_if.
  destruct (messageReceivedCallback s1); destruct (0 <? ttl e);
    cbn [emit ret]; rewrite ?relayMessage_run; cbn [app];
    rewrite ?app_nil_r; reflexivity.
Qed.

(* ===================================================================== *)
(** ** Serialization of a relayed envelope                                *)
(* ===================================================================== *)

Lemma serializeEnvelope_inv (e : MessageEnvelope) (data : bytes) :
  serializeEnvelope e = Ok data ->
  validateEnvelope e = Ok true
  /\ len (remove_hyphens (messageId e)) = 32
  /\ len (senderId e) = 16 /\ len (recipientId e) = 16.
Proof.
  unfold serializeEnvelope. intros H.
  destruct (validateEnvelope e) as [b|] eqn:Hv; [|discriminate H].
  cbn [rbind] in H.
  destruct (len (remove_hyphens (messageId e)) =? 32) eqn:H1;
    [|discriminate H].
  destruct (len (senderId e) =? 16) eqn:H2; [|discriminate H].
  destruct (len (recipientId e) =? 16) eqn:H3; [|discriminate H].
  pose proof (validateEnvelope_true _ _ Hv) as ->.
  repeat split; try reflexivity; apply Z.eqb_eq; assumption.
Qed.

Lemma validateEnvelope_with_ttl (e : MessageEnvelope) (t : Z) :
  validateEnvelope e = Ok true -> 0 <= t <= 255 ->
  validateEnvelope (with_ttl e t) = Ok true.
Proof.
  unfold validateEnvelope. cbn [with_ttl version ttl messageId senderId
    recipientId timestamp nonce tag encryptedPayload].
  intros H Ht.
  destruct (version e =? MESSAGE_ENVELOPE_VERSION); [|discriminate H].
  destruct ((0 <=? ttl e) && (ttl e <=? 255)); [|discriminate H].
  replace ((0 <=? t) && (t <=? 255)) with true; [exact H|].
  symmetry. apply andb_true_iff. split; apply Z.leb_le; lia.
Qed.

Lemma serializeEnvelope_with_ttl (e : MessageEnvelope) (data : bytes) (t : Z) :
  serializeEnvelope e = Ok data -> 0 <= t <= 255 ->
  exists data', serializeEnvelope (with_ttl e t) = Ok data'.
Proof.
  intros H Ht. apply serializeEnvelope_inv in H.
  destruct H as (Hv & Hm & Hs & Hr).
  eexists. apply serializeEnvelope_layout.
  - apply validateEnvelope_with_ttl; assumption.
  - exact Hm.
  - exact Hs.
  - exact Hr.
Qed.

(* ===================================================================== *)
(** ** C7: input errors of the send path                                  *)
(* ===================================================================== *)

Lemma code_point_count_pair (c d : code_unit) (s : jsstring) :
  code_point_count (c :: d :: s)
  = if (55296 <=? c)%N && (c <=? 56319)%N
       && (56320 <=? d)%N && (d <=? 57343)%N
    then S (code_point_count s)
    else S (code_point_count (d :: s)).
Proof. reflexivity. Qed.

Lemma code_point_count_le (s : jsstring) :
  (code_point_count s <= length s)%nat.
Proof.
  assert (H : forall n (s : jsstring), (length s <= n)%nat ->
                (code_point_count s <= length s)%nat).
  { intros n. induction n as [|n IH]; intros s0 Hn.
    - destruct s0; [cbn; lia | cbn in Hn; lia].
    - destruct s0 as [|c [|d s'']].
      + cbn. lia.
      + cbn. lia.
      + rewrite code_point_count_pair. cbn [length] in *.
        destruct ((55296 <=? c)%N && (c <=? 56319)%N
                  && (56320 <=? d)%N && (d <=? 57343)%N).
        * specialize (IH s''). lia.
        * specialize (IH (d :: s'')). cbn [length] in IH. lia. }
  apply (H (length s)). lia.
Qed.

(** C7.  [sendMessage] applies its checks in this order and
    the first that fails decides the error: a text longer than 500
    UTF-16 code units (hence any text of more than 500 Unicode code
    points) fails with the too-long error; an empty text fails with the
    empty-message error; otherwise a recipient absent from the peer
    table fails with the unknown-peer error; otherwise a recipient
    without shared secret fails with the no-shared-secret error.  In
    each of these cases the error is returned to the caller, the state
    is unchanged, and the only effect is the error log line: nothing is
    encrypted, stored or transmitted. *)
Theorem sendMessage_input_errors (crypto : CryptoService) (env : Env)
    (recipientId text : jsstring) (peers : list (jsstring * Peer))
    (s : Service) :
  let r := sendMessage crypto env recipientId text peers s in
  (text = [] -> r = (Thrown ExnMessageEmpty, s, [EvError LogSendMessageFailed]))
  /\ ((500 < code_point_count text)%nat ->
      r = (Thrown ExnMessageTooLong, s, [EvError LogSendMessageFailed]))
  /\ (500 < len text ->
      r = (Thrown ExnMessageTooLong, s, [EvError LogSendMessageFailed]))
  /\ (text <> [] -> len text <= 500 -> map_get peers recipientId = None ->
      r = (Thrown ExnRecipientNotFound, s, [EvError LogSendMessageFailed]))
  /\ (text <> [] -> len text <= 500 ->
      forall recipient, map_get peers recipientId = Some recipient ->
      sharedSecret recipient = None ->
      r = (Thrown ExnNoSharedSecret, s, [EvError LogSendMessageFailed]))
  /\ (text = [] \/ 500 < len text \/ map_get peers recipientId = None
      \/ (exists recipient, map_get peers recipientId = Some recipient
                            /\ sharedSecret recipient = None) ->
      (exists x, outcome_of r = Thrown x)
      /\ state_of r = s
      /\ encrypts_of (trace_of r) = [] /\ stores_of (trace_of r) = []
      /\ sends_of (trace_of r) = []).
Proof.
  intros r.
  assert (Hlong : 500 < len text ->
            r = (Thrown ExnMessageTooLong, s, [EvError LogSendMessageFailed])).
  { intros H. subst r. unfold sendMessage, try_catch, MAX_MESSAGE_LENGTH.
    apply Z.ltb_lt in H. rewrite H. reflexivity. }
  assert (Hempty : text = [] ->
            r = (Thrown ExnMessageEmpty, s, [EvError LogSendMessageFailed])).
  { intros ->. reflexivity. }
  assert (Hpre : text <> [] -> len text <= 500 ->
            (MAX_MESSAGE_LENGTH <? len text) = false
            /\ (len text =? 0) = false).
  { intros Hne Hle. split.
    - apply Z.ltb_ge. exact Hle.
    - apply Z.eqb_neq. unfold len. destruct text; [contradiction|].
      cbn [length]. lia. }
  assert (Hpeer : text <> [] -> len text <= 500 ->
            map_get peers recipientId = None ->
            r = (Thrown ExnRecipientNotFound, s,
                 [EvError LogSendMessageFailed])).
  { intros Hne Hle Hnone. destruct (Hpre Hne Hle) as [H1 H2].
    subst r. unfold sendMessage, try_catch. rewrite H1, H2, Hnone.
    reflexivity. }
  assert (Hsecret : text <> [] -> len text <= 500 ->
            forall recipient, map_get peers recipientId = Some recipient ->
            sharedSecret recipient = None ->
            r = (Thrown ExnNoSharedSecret, s, [EvError LogSendMessageFailed])).
  { intros Hne Hle recipient Hsome Hsec. destruct (Hpre Hne Hle) as [H1 H2].
    subst r. unfold sendMessage, try_catch. rewrite H1, H2, Hsome, Hsec.
    reflexivity. }
  split; [exact Hempty|]. split.
  { intros H. apply Hlong. pose proof (code_point_count_le text).
    unfold len. lia. }
  split; [exact Hlong|]. split; [exact Hpeer|]. split; [exact Hsecret|].
  intros Hcase.
  assert (Hr : exists x, r = (Thrown x, s, [EvError LogSendMessageFailed])).
  { destruct (Z_lt_dec 500 (len text)) as [Hl|Hl];
      [eexists; apply Hlong; assumption|].
    destruct text as [|c text'] eqn:Htext;
      [eexists; apply Hempty; reflexivity|].
    rewrite <- Htext in *.
    assert (Hne : text <> []) by (rewrite Htext; discriminate).
    destruct Hcase as [H|[H|[H|(recipient & H1 & H2)]]].
    - contradiction.
    - contradiction.
    - eexists. apply Hpeer; [assumption | lia | assumption].
    - eexists. apply (Hsecret Hne ltac:(lia) recipient); assumption. }
  destruct Hr as [x Hr]. rewrite Hr.
  split; [exists x; reflexivity|]. repeat split; reflexivity.
Qed.

(** Example for C7: an over-long text sent to an unknown recipient. *)
Lemma sendMessage_input_errors_witness :
  sendMessage Samples.mockCrypto (Samples.envAt 1700000000000 true true)
    (js "nobody") (repeat 97%N 501) Samples.peersOfNode initialService
  = (Thrown ExnMessageTooLong, initialService, [EvError LogSendMessageFailed]).
Proof.
  apply (sendMessage_input_errors Samples.mockCrypto
           (Samples.envAt 1700000000000 true true) (js "nobody")
           (repeat 97%N 501) Samples.peersOfNode initialService).
  vm_compute. reflexivity.
Defined.

(** The order of the checks shows when two of them fail: an empty text
    sent to a recipient that is not in the peer table fails with the
    empty-message error, not with the unknown-peer error. *)
Lemma sendMessage_empty_text_unknown_peer :
  map_get Samples.peersOfNode (js "nobody") = None
  /\ outcome_of
       (sendMessage Samples.mockCrypto (Samples.envAt 1700000000000 true true)
          (js "nobody") (js "") Samples.peersOfNode initialService)
     = Thrown ExnMessageEmpty
  /\ outcome_of
       (sendMessage Samples.mockCrypto (Samples.envAt 1700000000000 true true)
          (js "nobody") (js "") Samples.peersOfNode initialService)
     <> Thrown ExnRecipientNotFound.
Proof.
  split; [reflexivity|]. split; [reflexivity|]. discriminate.
Qed.

(* ===================================================================== *)
(** ** The receive path                                                   *)
(* ===================================================================== *)

Lemma project_relay_events {B} (f : Event -> list B) (env : Env)
    (e : MessageEnvelope) (x : jsstring) :
  (forall d y, f (EvSend d y) = []) -> (forall l, f (EvError l) = []) ->
  (forall i n, f (EvRelayTrace i n) = []) ->
  (forall i r, f (EvRelayResult i r) = []) ->
  flat_map f (relay_events env e x) = [].
Proof.
  intros Hs He Ht Hr. unfold relay_events. cbn [flat_map]. rewrite Ht.
  destruct (serializeEnvelope (with_ttl e (ttl e - 1))) as [data|err].
  - rewrite flat_map_app, project_send_events by assumption.
    cbn [flat_map app]. rewrite Hr. reflexivity.
  - cbn [flat_map app]. rewrite He, Hr. reflexivity.
Qed.

Lemma received_of_relay_if (env : Env) (e : MessageEnvelope) (x : jsstring) :
  received_of (relay_if env e x) = [].
Proof.
  unfold relay_if. destruct (0 <? ttl e); [|reflexivity].
  apply project_relay_events; reflexivity.
Qed.

Lemma relays_of_relay_events (env : Env) (e : MessageEnvelope) (x : jsstring) :
  relays_of (relay_events env e x) = [(substring0 (messageId e) 8, ttl e - 1)].
Proof.
  unfold relay_events, relays_of. cbn [flat_map]. f_equal.
  destruct (serializeEnvelope (with_ttl e (ttl e - 1))) as [data|err].
  - rewrite flat_map_app. rewrite project_send_events by reflexivity.
    reflexivity.
  - reflexivity.
Qed.

Lemma relays_of_relay_if (env : Env) (e : MessageEnvelope) (x : jsstring) :
  relays_of (relay_if env e x)
  = if 0 <? ttl e then [(substring0 (messageId e) 8, ttl e - 1)] else [].
Proof.
  unfold relay_if. destruct (0 <? ttl e); [|reflexivity].
  apply relays_of_relay_events.
Qed.

Lemma sends_of_relay_events (env : Env) (e : MessageEnvelope) (x : jsstring) :
  forall d sent, In (d, sent) (sends_of (relay_events env e x)) ->
  serializeEnvelope (with_ttl e (ttl e - 1)) = Ok sent.
Proof.
  intros d sent. unfold relay_events.
  change (sends_of (?a :: ?l)) with (sends_of [a] ++ sends_of l).
  cbn [sends_of flat_map app].
  destruct (serializeEnvelope (with_ttl e (ttl e - 1))) as [data|err].
  - fold (sends_of (send_events env data (devicesToSend env (Some x))
                      ++ [EvRelayResult (substring0 (messageId e) 8)
                            (if transmit_ok env data (devicesToSend env (Some x))
                             then RelaySuccess else RelayFailed)])).
    rewrite sends_of_app, sends_of_send_events. cbn [sends_of flat_map app].
    rewrite app_nil_r. intros H. apply in_map_iff in H.
    destruct H as (d' & Heq & _). injection Heq as _ <-. reflexivity.
  - cbn. contradiction.
Qed.

Lemma senderLookup_answers (crypto : CryptoService)
    (peers : list (jsstring * Peer)) (sid : jsstring) :
  (forall pk, exists fp, generateTrustFingerprint crypto pk = Returned fp) ->
  exists found, senderLookup crypto peers sid = Returned found.
Proof.
  intros Hfp. unfold senderLookup.
  induction peers as [|[k peer] rest [found IH]].
  - eexists. reflexivity.
  - cbn [findSenderPeer]. destruct (publicKey peer) as [pk|].
    + rewrite bind_unfold, deriveSenderId_run.
      destruct (Hfp pk) as [fp ->]. cbv beta iota.
      match goal with
      | |- context [bool_decide ?P] => destruct (bool_decide P)
      end.
      * eexists. reflexivity.
      * exists found.
        destruct (findSenderPeer crypto rest sid initialService)
          as [[o s2] t2].
        cbn in *. assumption.
    + exists found. assumption.
Qed.

(** Summary of [handle_fresh]: it returns normally, leaves the cache
    and the retry queue as they were, emits at most one
    message-received event, for the envelope's message id, and relays
    either not at all or as [relay_if] says. *)
Lemma handle_fresh_summary (crypto : CryptoService) (env : Env)
    (senderId : jsstring) (e : MessageEnvelope)
    (peers : list (jsstring * Peer)) (s1 : Service) :
  let r := handle_fresh crypto env senderId e peers s1 in
  outcome_of r = Returned tt
  /\ cache (state_of r) = cache s1
  /\ messageQueue (state_of r) = messageQueue s1
  /\ (received_of (trace_of r) = []
      \/ exists p plaintext,
           received_of (trace_of r) = [incoming e p plaintext])
  /\ (relays_of (trace_of r) = []
      \/ relays_of (trace_of r) = relays_of (relay_if env e senderId))
  /\ (forall d sent, In (d, sent) (sends_of (trace_of r)) ->
      In (d, sent) (sends_of (relay_if env e senderId))).
Proof.
  intros r. subst r. unfold handle_fresh.
  assert (Hcons : forall (ev : Event) l,
            (forall m, ev <> EvMessageReceived m) ->
            received_of (ev :: l) = received_of l).
  { intros ev l Hev. destruct ev; try reflexivity.
    exfalso. eapply Hev. reflexivity. }
  destruct (resolveSender crypto peers senderId e) as [[senderPeer|]|x].
  3:{ repeat split; try reflexivity; try (left; reflexivity).
      intros d sent H. cbn in H. contradiction. }
  2:{ unfold trace_of, state_of, outcome_of. cbn [fst snd].
      repeat split; try reflexivity.
      - left. rewrite Hcons by discriminate. apply received_of_relay_if.
      - right. reflexivity.
      - intros d sent H. exact H. }
  destruct (sharedSecret senderPeer) as [secret|].
  2:{ unfold trace_of, state_of, outcome_of. cbn [fst snd].
      repeat split; try reflexivity.
      - left. rewrite Hcons by discriminate. apply received_of_relay_if.
      - right. reflexivity.
      - intros d sent H. exact H. }
  destruct (decryptMessage crypto (encrypted_part e) secret)
    as [[plaintext|]|x].
  3:{ repeat split; try reflexivity; try (left; reflexivity).
      intros d sent H. cbn in H. contradiction. }
  2:{ unfold trace_of, state_of, outcome_of. cbn [fst snd app].
      repeat split; try reflexivity.
      - left. rewrite !Hcons by discriminate. apply received_of_relay_if.
      - right. reflexivity.
      - intros d sent H. exact H. }
  cbv zeta. destruct (storageWritable env).
  2:{ repeat split; try reflexivity; try (left; reflexivity).
      intros d sent H. cbn in H. contradiction. }
  unfold trace_of, state_of, outcome_of. cbn [fst snd app].
  split; [reflexivity|]. split; [reflexivity|]. split; [reflexivity|].
  unfold received_events.
  destruct (messageReceivedCallback s1); cbn [app].
  - split; [|split].
    + right. exists senderPeer, plaintext.
      rewrite !Hcons by discriminate.
      change (received_of (EvMessageReceived ?m :: ?l))
        with (m :: received_of l).
      rewrite received_of_relay_if. reflexivity.
    + right. reflexivity.
    + intros d sent H. exact H.
  - split; [|split].
    + left. rewrite !Hcons by discriminate. apply received_of_relay_if.
    + right. reflexivity.
    + intros d sent H. exact H.
Qed.

Lemma markAsProcessed_self (now : Z) (i : jsstring) (c : Cache) :
  markAsProcessed now i c !! i = Some now.
Proof.
  unfold markAsProcessed. apply pruneCache_lookup. split.
  - apply lookup_insert_eq.
  - unfold CACHE_EXPIRATION_MS. lia.
Qed.

Lemma markAsProcessed_keeps (now t0 ts : Z) (i k : jsstring) (c : Cache) :
  c !! k = Some ts -> t0 <= ts ->
  t0 <= now <= t0 + CACHE_EXPIRATION_MS ->
  exists ts', markAsProcessed now i c !! k = Some ts' /\ t0 <= ts'.
Proof.
  intros Hk Hts Hnow. destruct (decide (i = k)) as [->|Hne].
  - exists now. split; [apply markAsProcessed_self | lia].
  - exists ts. split; [|assumption].
    unfold markAsProcessed. apply pruneCache_lookup. split.
    + rewrite lookup_insert_ne by assumption. assumption.
    + lia.
Qed.

(** What one arrival does to the cache and to the application. *)
Lemma handle_cache_cases (crypto : CryptoService) (env : Env)
    (senderId : jsstring) (data : bytes) (peers : list (jsstring * Peer))
    (s : Service) :
  let r := handleIncomingMessage crypto env senderId data peers s in
  (cache (state_of r) = cache s /\ received_of (trace_of r) = [])
  \/ (exists e,
        deserializeEnvelope data = Ok e
        /\ isDuplicate (cache s) (messageId e) = false
        /\ cache (state_of r)
           = markAsProcessed (now env) (messageId e) (cache s)
        /\ (received_of (trace_of r) = []
            \/ exists p plaintext,
                 received_of (trace_of r) = [incoming e p plaintext])).
Proof.
  intros r. subst r. rewrite handleIncomingMessage_run. unfold handle_result.
  destruct (deserializeEnvelope data) as [e|err].
  2:{ left. split; reflexivity. }
  destruct (isDuplicate (cache s) (messageId e)) eqn:Hdup.
  { left. split; reflexivity. }
  right. exists e. split; [reflexivity|]. split; [exact Hdup|].
  pose proof (handle_fresh_summary crypto env senderId e peers
                (set_cache (markAsProcessed (now env) (messageId e) (cache s)) s))
    as (_ & Hc & _ & Hr & _).
  split; [exact Hc | exact Hr].
Qed.

Lemma received_of_app (t1 t2 : list Event) :
  received_of (t1 ++ t2) = received_of t1 ++ received_of t2.
Proof. unfold received_of. apply flat_map_app. Qed.

Lemma receiveAll_at_most_once (crypto : CryptoService) (t0 : Z)
    (arrivals : list Arrival) : forall (s : Service) (delivered : list jsstring),
  (forall a, In a arrivals ->
     t0 <= now (arr_env a) <= t0 + CACHE_EXPIRATION_MS) ->
  NoDup delivered ->
  (forall i, In i delivered -> exists ts, cache s !! i = Some ts /\ t0 <= ts) ->
  NoDup (delivered
           ++ map id (received_of (receiveAll crypto arrivals s).2)).
Proof.
  induction arrivals as [|a rest IH]; intros s delivered Hwin Hnd Hinv.
  - cbn. rewrite app_nil_r. assumption.
  - cbn [receiveAll].
    pose proof (handle_cache_cases crypto (arr_env a) (arr_sender a)
                  (arr_data a) (arr_peers a) s) as Hcase.
    cbv zeta in Hcase.
    destruct (handleIncomingMessage crypto (arr_env a) (arr_sender a)
                (arr_data a) (arr_peers a) s) as [[o s1] t1] eqn:Hr.
    unfold state_of, trace_of in Hcase. cbn [fst snd] in Hcase.
    assert (Hw : t0 <= now (arr_env a) <= t0 + CACHE_EXPIRATION_MS)
      by (apply Hwin; left; reflexivity).
    assert (Hwin' : forall a', In a' rest ->
              t0 <= now (arr_env a') <= t0 + CACHE_EXPIRATION_MS)
      by (intros a' Ha'; apply Hwin; right; assumption).
    specialize (IH s1).
    destruct (receiveAll crypto rest s1) as [s2 t2] eqn:Hrest.
    cbn [snd] in *. rewrite received_of_app, map_app, app_assoc.
    apply IH; [assumption| |].
    + (* no id is delivered twice up to and including this arrival *)
      destruct Hcase as [[_ Hnone]|(e & _ & Hdup & _ & [Hnone|(p & txt & Hone)])].
      * rewrite Hnone. cbn. rewrite app_nil_r. assumption.
      * rewrite Hnone. cbn. rewrite app_nil_r. assumption.
      * rewrite Hone. cbn [map id incoming].
        apply NoDup_app. split; [assumption|]. split.
        -- intros i Hi Hi'. apply list_elem_of_In in Hi.
           apply list_elem_of_In in Hi'. cbn in Hi'.
           destruct Hi' as [<-|[]].
           destruct (Hinv _ Hi) as (ts & Hts & _).
           apply isDuplicate_false in Hdup. congruence.
        -- apply NoDup_singleton.
    + (* every delivered id is still cached with a timestamp in the window *)
      intros i Hi. apply in_app_or in Hi.
      destruct Hcase as [[Hc Hnone]|(e & _ & Hdup & Hc & Hrecv)].
      * rewrite Hnone in Hi. cbn in Hi. destruct Hi as [Hi|[]].
        rewrite Hc. apply Hinv. assumption.
      * rewrite Hc. destruct Hi as [Hi|Hi].
        -- destruct (Hinv _ Hi) as (ts & Hts & Hge).
           eapply markAsProcessed_keeps; eassumption.
        -- destruct Hrecv as [Hnone|(p & txt & Hone)].
           ++ rewrite Hnone in Hi. destruct Hi.
           ++ rewrite Hone in Hi. cbn in Hi. destruct Hi as [<-|[]].
              exists (now (arr_env a)).
              split; [apply markAsProcessed_self | lia].
Qed.

(* ===================================================================== *)
(** ** C3: duplicate suppression                                          *)
(* ===================================================================== *)

(** C3 (amended).  While a message id is in the duplicate cache, an
    envelope carrying it is discarded before anything else happens: no
    decryption, no storage, no callback, no relay, no change of state.
    Processing an envelope whose id is not cached puts the id in the
    cache.  The cache keeps an id for CACHE_EXPIRATION_MS = 300 000 ms,
    so among arrivals whose clock readings lie within one window of
    that length the message-received callback fires at most once per
    message id. *)
Theorem duplicate_discarded_while_cached (crypto : CryptoService) :
  (forall env senderId data peers s e,
     deserializeEnvelope data = Ok e ->
     isDuplicate (cache s) (messageId e) = true ->
     handleIncomingMessage crypto env senderId data peers s
     = (Returned tt, s, []))
  /\ (forall env senderId data peers s e,
     deserializeEnvelope data = Ok e ->
     isDuplicate (cache s) (messageId e) = false ->
     isDuplicate
       (cache (state_of
                 (handleIncomingMessage crypto env senderId data peers s)))
       (messageId e) = true)
  /\ (forall t0 arrivals s,
     (forall a, In a arrivals -> t0 <= now (arr_env a) <= t0 + 300000) ->
     NoDup (map id (received_of (receiveAll crypto arrivals s).2))).
Proof.
  split; [|split].
  - intros env senderId data peers s e Hde Hdup.
    rewrite handleIncomingMessage_run. unfold handle_result.
    rewrite Hde, Hdup. reflexivity.
  - intros env senderId data peers s e Hde Hdup.
    pose proof (handle_cache_cases crypto env senderId data peers s) as Hc.
    cbv zeta in Hc.
    destruct Hc as [[Hc _]|(e' & He' & _ & Hc & _)].
    + exfalso.
      assert (Hr : handleIncomingMessage crypto env senderId data peers s
                   = handle_result crypto env senderId data peers s)
        by apply handleIncomingMessage_run.
      unfold handle_result in Hr. rewrite Hde, Hdup in Hr.
      pose proof (handle_fresh_summary crypto env senderId e peers
                    (set_cache (markAsProcessed (now env) (messageId e)
                                  (cache s)) s)) as (_ & Hc' & _).
      rewrite <- Hr in Hc'. rewrite Hc in Hc'. cbn [cache set_cache] in Hc'.
      apply isDuplicate_false in Hdup.
      assert (Hs : cache s !! messageId e = Some (now env))
        by (rewrite Hc'; apply markAsProcessed_self).
      congruence.
    + rewrite Hde in He'. injection He' as <-. rewrite Hc.
      apply isDuplicate_true. eexists. apply markAsProcessed_self.
  - intros t0 arrivals s Hwin.
    apply (receiveAll_at_most_once crypto t0 arrivals s []).
    + exact Hwin.
    + apply NoDup_nil_2.
    + intros i [].
Qed.

(** Example for C3: the same bytes arriving twice within a minute
    reach the application once, and a node that already holds the id
    ignores them. *)
Lemma duplicate_discarded_while_cached_example :
  handleIncomingMessage Samples.mockCrypto
    (Samples.envAt 1700000060000 true true) (js "B") Samples.testWire
    Samples.peersOfNode Samples.nodeThatSawTestEnvelope
  = (Returned tt, Samples.nodeThatSawTestEnvelope, [])
  /\ NoDup (map id (received_of
       (receiveAll Samples.mockCrypto
          [Samples.arrivalAt 1700000000000 Samples.testWire true;
           Samples.arrivalAt 1700000060000 Samples.testWire true]
          initialService).2)).
Proof.
  destruct (duplicate_discarded_while_cached Samples.mockCrypto)
    as (Hdrop & _ & Honce).
  split.
  - apply (Hdrop _ _ _ _ _ Samples.testEnvelope).
    + vm_compute. reflexivity.
    + vm_compute. reflexivity.
  - apply (Honce 1700000000000).
    intros a [<-|[<-|[]]]; cbn; lia.
Defined.

(** C3 as stated fails: once the cached id has expired and been swept
    by a later insertion, a further copy of the envelope is delivered
    to the application a second time. *)
Lemma duplicate_delivered_again_after_expiry :
  map id (received_of
    (receiveAll Samples.mockCrypto
       [Samples.arrivalAt 1700000000000 Samples.testWire true;
        Samples.arrivalAt 1700000300001 Samples.otherWire true;
        Samples.arrivalAt 1700000300002 Samples.testWire true]
       initialService).2)
  = [messageId Samples.testEnvelope; messageId Samples.otherEnvelope;
     messageId Samples.testEnvelope].
Proof. vm_compute. reflexivity. Qed.

(* ===================================================================== *)
(** ** The relay decision                                                 *)
(* ===================================================================== *)

(** X25.  The relay decision on the paths of [handleIncomingMessage]
    that do not throw.  For every received envelope: an envelope
    received with ttl = 0 is never relayed; the relay procedure is
    invoked at most once, only when ttl > 0, and then with
    ttl - 1 >= 0, so no envelope with a negative ttl is constructed or
    transmitted.  If the envelope is not a duplicate, the crypto
    service does not throw and the storage accepts writes, the relay
    procedure is invoked exactly when ttl > 0, whether or not the
    sender is known and whether or not decryption succeeds. *)
Theorem relay_exactly_when_ttl_positive (crypto : CryptoService) (env : Env)
    (senderId : jsstring) (data : bytes) (peers : list (jsstring * Peer))
    (s : Service) (e : MessageEnvelope) :
  deserializeEnvelope data = Ok e ->
  let t := trace_of (handleIncomingMessage crypto env senderId data peers s) in
  (ttl e = 0 -> relays_of t = [] /\ sends_of t = [])
  /\ (relays_of t = []
      \/ (0 < ttl e
          /\ relays_of t = [(substring0 (messageId e) 8, ttl e - 1)]))
  /\ (forall i n, In (i, n) (relays_of t) -> 0 <= n)
  /\ (forall d sent, In (d, sent) (sends_of t) ->
      0 <= ttl e - 1
      /\ serializeEnvelope (with_ttl e (ttl e - 1)) = Ok sent)
  /\ (isDuplicate (cache s) (messageId e) = false ->
      crypto_answers crypto -> storageWritable env = true ->
      (0 < ttl e <-> relays_of t <> []))
  /\ 0 <= ttl e.
Proof.
  intros Hde t.
  pose proof (deserializeEnvelope_validates _ _ Hde) as Hval.
  pose proof (validateEnvelope_inv _ Hval) as (_ & Hrange & _).
  assert (Ht : t = trace_of (handle_result crypto env senderId data peers s)).
  { subst t. rewrite handleIncomingMessage_run. reflexivity. }
  unfold handle_result in Ht. rewrite Hde in Ht.
  destruct (isDuplicate (cache s) (messageId e)) eqn:Hdup.
  { (* duplicate: nothing happens *)
    unfold trace_of in Ht. cbn [snd] in Ht. rewrite Ht.
    split; [intros _; split; reflexivity|].
    split; [left; reflexivity|].
    split; [intros i n []|]. split; [intros d sent []|].
    split; [discriminate | lia]. }
  set (s1 := set_cache (markAsProcessed (now env) (messageId e) (cache s)) s)
    in Ht.
  pose proof (handle_fresh_summary crypto env senderId e peers s1)
    as (_ & _ & _ & _ & Hrel & Hsend).
  rewrite <- Ht in Hrel, Hsend. rewrite relays_of_relay_if in Hrel.
  assert (Hsent : forall d sent, In (d, sent) (sends_of t) ->
            0 < ttl e /\ serializeEnvelope (with_ttl e (ttl e - 1)) = Ok sent).
  { intros d sent H. apply Hsend in H. unfold relay_if in H.
    destruct (0 <? ttl e) eqn:Hpos; [|destruct H].
    split; [apply Z.ltb_lt; assumption|].
    eapply sends_of_relay_events. eassumption. }
  split.
  { intros H0. assert (Hn : (0 <? ttl e) = false) by (apply Z.ltb_ge; lia).
    rewrite Hn in Hrel. split; [destruct Hrel; assumption|].
    destruct (sends_of t) as [|[d sent] l] eqn:Hs; [reflexivity|].
    destruct (Hsent d sent) as [Hp _]; [left; reflexivity | lia]. }
  split.
  { destruct Hrel as [Hrel|Hrel]; [left; assumption|].
    destruct (0 <? ttl e) eqn:Hpos; [|left; assumption].
    right. split; [apply Z.ltb_lt|]; assumption. }
  split.
  { intros i n Hin. destruct Hrel as [Hrel|Hrel]; rewrite Hrel in Hin;
      [destruct Hin|].
    destruct (0 <? ttl e) eqn:Hpos; [|destruct Hin].
    apply Z.ltb_lt in Hpos. destruct Hin as [Heq|[]].
    injection Heq as _ <-. lia. }
  split.
  { intros d sent H. destruct (Hsent d sent H) as [Hp Hs].
    split; [lia | assumption]. }
  split; [|lia].
  intros _ [Hfp Hdec] Hstore. split.
  - intros Hpos. apply Z.ltb_lt in Hpos.
    assert (Hall : relays_of t = [(substring0 (messageId e) 8, ttl e - 1)]).
    { rewrite Ht. unfold handle_fresh, resolveSender.
      destruct (senderLookup_answers crypto peers (Envelope.senderId e) Hfp)
        as [found ->].
      assert (Hcons : forall (ev : Event) l,
                (forall i n, ev <> EvRelayTrace i n) ->
                relays_of (ev :: l) = relays_of l).
      { intros ev l Hev. destruct ev; try reflexivity.
        exfalso. eapply Hev. reflexivity. }
      assert (Hrelays : relays_of (relay_if env e senderId)
                        = [(substring0 (messageId e) 8, ttl e - 1)])
        by (rewrite relays_of_relay_if, Hpos; reflexivity).
      set (resolved := match found with
                       | Some p => Returned (Some p)
                       | None => Returned (map_get peers senderId)
                       end).
      assert (Hres : exists q, resolved = Returned q)
        by (subst resolved; destruct found; eexists; reflexivity).
      destruct Hres as [q ->].
      destruct q as [senderPeer|].
      2:{ unfold trace_of. cbn [snd]. rewrite Hcons by discriminate.
          assumption. }
      destruct (sharedSecret senderPeer) as [secret|].
      2:{ unfold trace_of. cbn [snd]. rewrite Hcons by discriminate.
          assumption. }
      destruct (Hdec (encrypted_part e) secret) as [[plaintext|] ->].
      2:{ unfold trace_of. cbn [snd app]. rewrite !Hcons by discriminate.
          assumption. }
      cbv zeta. rewrite Hstore. unfold trace_of. cbn [snd app].
      rewrite !Hcons by discriminate. unfold received_events.
      destruct (messageReceivedCallback s1); cbn [app];
        rewrite ?Hcons by discriminate; assumption. }
    rewrite Hall. discriminate.
  - intros Hne. destruct Hrel as [Hrel|Hrel]; [contradiction|].
    destruct (0 <? ttl e) eqn:Hpos; [apply Z.ltb_lt; assumption|].
    contradiction.
Qed.

(** The test envelope (ttl 10) from peer A is relayed once with ttl 9. *)
Lemma relay_exactly_when_ttl_positive_witness :
  relays_of (trace_of
    (handleIncomingMessage Samples.mockCrypto
       (Samples.envAt 1700000000000 true true) (js "A") Samples.testWire
       Samples.peersOfNode initialService))
  = [] 
  \/ (0 < ttl Samples.testEnvelope
      /\ relays_of (trace_of
           (handleIncomingMessage Samples.mockCrypto
              (Samples.envAt 1700000000000 true true) (js "A")
              Samples.testWire Samples.peersOfNode initialService))
         = [(substring0 (messageId Samples.testEnvelope) 8,
             ttl Samples.testEnvelope - 1)]).
Proof.
  apply (relay_exactly_when_ttl_positive Samples.mockCrypto
           (Samples.envAt 1700000000000 true true) (js "A") Samples.testWire
           Samples.peersOfNode initialService Samples.testEnvelope).
  vm_compute. reflexivity.
Defined.

(** A received envelope with ttl = 10 whose message id is already in
    the duplicate cache is discarded before the relay decision. *)
Lemma duplicate_with_positive_ttl_not_relayed :
  deserializeEnvelope Samples.testWire = Ok Samples.testEnvelope
  /\ 0 < ttl Samples.testEnvelope
  /\ relays_of (trace_of
       (handleIncomingMessage Samples.mockCrypto
          (Samples.envAt 1700000060000 true true) (js "B") Samples.testWire
          Samples.peersOfNode Samples.nodeThatSawTestEnvelope))
     = []
  /\ sends_of (trace_of
       (handleIncomingMessage Samples.mockCrypto
          (Samples.envAt 1700000060000 true true) (js "B") Samples.testWire
          Samples.peersOfNode Samples.nodeThatSawTestEnvelope))
     = [].
Proof.
  split; [vm_compute; reflexivity|]. split; [reflexivity|].
  split; vm_compute; reflexivity.
Qed.

(* ===================================================================== *)
(** ** C4: the relay is skipped when the local store fails                *)
(* ===================================================================== *)

(** C4 (defect in the code).  The documentation of
    [handleIncomingMessage] lists "Relay message if TTL > 0" as the
    last step of every message, and the branches for an unknown sender
    and for a failed decryption say "Still relay".  The code relays a
    received envelope with ttl > 0 that is not a duplicate and whose
    sender is known only if the local processing went through: when
    decryption returns null the envelope is relayed whatever the
    storage does, but when decryption succeeds the envelope is relayed
    if and only if [storeMessage] succeeded.  With a failing storage
    the exception of [storeMessage] reaches the outer catch, and the
    envelope with ttl > 0 is neither relayed nor written to any
    device. *)
Theorem relay_skipped_when_storage_fails (crypto : CryptoService)
    (env : Env) (senderId : jsstring) (data : bytes)
    (peers : list (jsstring * Peer)) (s : Service) (e : MessageEnvelope)
    (senderPeer : Peer) (secret : bytes) (decrypted : option jsstring) :
  deserializeEnvelope data = Ok e ->
  isDuplicate (cache s) (messageId e) = false ->
  resolveSender crypto peers senderId e = Returned (Some senderPeer) ->
  sharedSecret senderPeer = Some secret ->
  decryptMessage crypto (encrypted_part e) secret = Returned decrypted ->
  0 < ttl e ->
  let t := trace_of (handleIncomingMessage crypto env senderId data peers s) in
  let relayed := [(substring0 (messageId e) 8, ttl e - 1)] in
  relays_of t
  = match decrypted with
    | None => relayed
    | Some _ => if storageWritable env then relayed else []
    end
  /\ (decrypted <> None -> storageWritable env = false -> sends_of t = []).
Proof.
  intros Hde Hdup Hres Hsec Hdec Httl t relayed.
  assert (Hpos : (0 <? ttl e) = true) by (apply Z.ltb_lt; exact Httl).
  assert (Hrel : relays_of (relay_if env e senderId) = relayed).
  { rewrite relays_of_relay_if, Hpos. reflexivity. }
  subst t. rewrite handleIncomingMessage_run. unfold handle_result.
  rewrite Hde, Hdup. unfold handle_fresh. rewrite Hres, Hsec, Hdec.
  destruct decrypted as [plaintext|].
  - cbv zeta. destruct (storageWritable env).
    + unfold trace_of. cbn [snd]. split; [|discriminate].
      unfold relays_of in *. rewrite !flat_map_app, Hrel.
      unfold received_events.
      destruct (messageReceivedCallback _); reflexivity.
    + split; [reflexivity|]. intros _ _. reflexivity.
  - unfold trace_of. cbn [snd]. split; [|intros H; contradiction].
    unfold relays_of in *. rewrite flat_map_app, Hrel. reflexivity.
Qed.

(** Witness for C4: the test envelope (ttl 10) arrives from peer A,
    decrypts, and the storage rejects the write: nothing is relayed. *)
Lemma relay_skipped_when_storage_fails_witness :
  0 < ttl Samples.testEnvelope
  /\ relays_of (trace_of
        (handleIncomingMessage Samples.mockCrypto
           (Samples.envAt 1700000000000 true false) (js "A")
           Samples.testWire Samples.peersOfNode initialService))
     = []
  /\ sends_of (trace_of
        (handleIncomingMessage Samples.mockCrypto
           (Samples.envAt 1700000000000 true false) (js "A")
           Samples.testWire Samples.peersOfNode initialService))
     = [].
Proof.
  destruct (relay_skipped_when_storage_fails Samples.mockCrypto
              (Samples.envAt 1700000000000 true false) (js "A")
              Samples.testWire Samples.peersOfNode initialService
              Samples.testEnvelope Samples.peerA (repeat Byte.x03 32)
              (Some [1; 2; 3; 4; 5]%N))
    as [Hr Hs].
  - vm_compute. reflexivity.
  - vm_compute. reflexivity.
  - vm_compute. reflexivity.
  - reflexivity.
  - reflexivity.
  - reflexivity.
  - split; [reflexivity|]. split; [exact Hr|].
    apply Hs; [discriminate | reflexivity].
Defined.

(* ===================================================================== *)
(** ** C9: storage failure on the receive path                            *)
(* ===================================================================== *)

(** C9 (defect in the code).  The documentation of
    [handleIncomingMessage] lists, after "Store message locally",
    "Invoke message received callback" and "Relay message if TTL > 0",
    and its catch-all is there for bad messages.  When storing a
    successfully decrypted message fails, the code logs the error (in
    [storeMessage] and in the handler's outer catch) and returns, but
    processing does not continue: nothing is stored, the
    message-received callback is not invoked and the envelope is not
    relayed.  As the message id was marked in the duplicate cache
    before, every later arrival of the same bytes is discarded while
    the id stays cached: the message is lost to the application. *)
Theorem storage_failure_ends_receive (crypto : CryptoService) (env : Env)
    (senderId : jsstring) (data : bytes) (peers : list (jsstring * Peer))
    (s : Service) (e : MessageEnvelope) (senderPeer : Peer)
    (secret : bytes) (plaintext : jsstring) :
  deserializeEnvelope data = Ok e ->
  isDuplicate (cache s) (messageId e) = false ->
  resolveSender crypto peers senderId e = Returned (Some senderPeer) ->
  sharedSecret senderPeer = Some secret ->
  decryptMessage crypto (encrypted_part e) secret
  = Returned (Some plaintext) ->
  storageWritable env = false ->
  let r := handleIncomingMessage crypto env senderId data peers s in
  r = (Returned tt,
       set_cache (markAsProcessed (now env) (messageId e) (cache s)) s,
       [EvDecrypt (encrypted_part e) secret;
        EvStore (incoming e senderPeer plaintext);
        EvError LogFailedToStoreMessage;
        EvError (LogHandleIncomingFailed ExnStorage)])
  /\ isDuplicate (cache (state_of r)) (messageId e) = true
  /\ storage (state_of r) = storage s
  /\ received_of (trace_of r) = []
  /\ relays_of (trace_of r) = [] /\ sends_of (trace_of r) = []
  /\ (forall crypto' env' senderId' peers',
        handleIncomingMessage crypto' env' senderId' data peers' (state_of r)
        = (Returned tt, state_of r, [])).
Proof.
  intros Hde Hdup Hres Hsec Hdec Hstore r.
  assert (Hr : r = (Returned tt,
       set_cache (markAsProcessed (now env) (messageId e) (cache s)) s,
       [EvDecrypt (encrypted_part e) secret;
        EvStore (incoming e senderPeer plaintext);
        EvError LogFailedToStoreMessage;
        EvError (LogHandleIncomingFailed ExnStorage)])).
  { subst r. rewrite handleIncomingMessage_run. unfold handle_result.
    rewrite Hde, Hdup. unfold handle_fresh.
    rewrite Hres, Hsec, Hdec. cbv zeta. rewrite Hstore. reflexivity. }
  split; [exact Hr|]. rewrite Hr. unfold state_of, trace_of. cbn [fst snd].
  assert (Hmarked : isDuplicate
            (cache (set_cache (markAsProcessed (now env) (messageId e)
                                 (cache s)) s)) (messageId e) = true).
  { cbn [cache set_cache]. apply isDuplicate_true. eexists.
    apply markAsProcessed_self. }
  split; [exact Hmarked|]. do 4 (split; [reflexivity|]).
  intros crypto' env' senderId' peers'.
  rewrite handleIncomingMessage_run. unfold handle_result.
  rewrite Hde, Hmarked. reflexivity.
Qed.

(** Witness for C9: the test envelope arriving from peer A while the
    storage medium rejects writes. *)
Lemma storage_failure_ends_receive_witness :
  received_of (trace_of
    (handleIncomingMessage Samples.mockCrypto
       (Samples.envAt 1700000000000 true false) (js "A") Samples.testWire
       Samples.peersOfNode initialService))
  = [].
Proof.
  apply (storage_failure_ends_receive Samples.mockCrypto
           (Samples.envAt 1700000000000 true false) (js "A")
           Samples.testWire Samples.peersOfNode initialService
           Samples.testEnvelope Samples.peerA (repeat Byte.x03 32)
           [1; 2; 3; 4; 5]%N).
  - vm_compute. reflexivity.
  - vm_compute. reflexivity.
  - vm_compute. reflexivity.
  - reflexivity.
  - reflexivity.
  - reflexivity.
Defined.

(** With a registered callback, a known sender and a message that
    decrypts, a failing storage write leaves the message-received
    callback uninvoked, while the same arrival with a working storage
    invokes it. *)
Lemma storage_failure_suppresses_callback :
  messageReceivedCallback initialService = true
  /\ decrypts_of (trace_of
       (handleIncomingMessage Samples.mockCrypto
          (Samples.envAt 1700000000000 true false) (js "A") Samples.testWire
          Samples.peersOfNode initialService))
     = [encrypted_part Samples.testEnvelope]
  /\ received_of (trace_of
       (handleIncomingMessage Samples.mockCrypto
          (Samples.envAt 1700000000000 true false) (js "A") Samples.testWire
          Samples.peersOfNode initialService))
     = []
  /\ map id (received_of (trace_of
       (handleIncomingMessage Samples.mockCrypto
          (Samples.envAt 1700000000000 true true) (js "A") Samples.testWire
          Samples.peersOfNode initialService)))
     = [messageId Samples.testEnvelope].
Proof.
  split; [reflexivity|]. split; [vm_compute; reflexivity|].
  split; vm_compute; reflexivity.
Qed.

(* ===================================================================== *)
(** ** The retry queue                                                    *)
(* ===================================================================== *)

Lemma map_get_set_eq {V} (m : list (jsstring * V)) (k : jsstring) (v : V) :
  map_get (map_set m k v) k = Some v.
Proof.
  induction m as [|[k' v'] m IH]; cbn [map_set map_get].
  - rewrite bool_decide_eq_true_2 by reflexivity. reflexivity.
  - destruct (bool_decide (k' = k)) eqn:Hk; cbn [map_get].
    + rewrite bool_decide_eq_true_2 by reflexivity. reflexivity.
    + rewrite Hk. exact IH.
Qed.

Lemma map_get_set_ne {V} (m : list (jsstring * V)) (k k0 : jsstring) (v : V) :
  k <> k0 -> map_get (map_set m k v) k0 = map_get m k0.
Proof.
  intros Hne. induction m as [|[k' v'] m IH]; cbn [map_set map_get].
  - rewrite bool_decide_eq_false_2 by assumption. reflexivity.
  - destruct (bool_decide (k' = k)) eqn:Hk; cbn [map_get].
    + apply bool_decide_eq_true_1 in Hk. subst k'.
      rewrite !bool_decide_eq_false_2 by assumption. reflexivity.
    + rewrite IH. reflexivity.
Qed.

Lemma map_get_delete_eq {V} (m : list (jsstring * V)) (k : jsstring) :
  map_get (map_delete m k) k = None.
Proof.
  unfold map_delete. induction m as [|[k' v'] m IH]; [reflexivity|].
  cbn [List.filter fst]. destruct (bool_decide (k' = k)) eqn:Hk; cbn [negb].
  - exact IH.
  - cbn [map_get]. rewrite Hk. exact IH.
Qed.

Lemma map_get_delete_ne {V} (m : list (jsstring * V)) (k k0 : jsstring) :
  k <> k0 -> map_get (map_delete m k) k0 = map_get m k0.
Proof.
  intros Hne. unfold map_delete.
  induction m as [|[k' v'] m IH]; [reflexivity|].
  cbn [List.filter fst map_get].
  destruct (bool_decide (k' = k)) eqn:Hk; cbn [negb map_get].
  - apply bool_decide_eq_true_1 in Hk. subst k'.
    rewrite bool_decide_eq_false_2 by assumption. exact IH.
  - rewrite IH. reflexivity.
Qed.

Lemma map_get_In {V} (m : list (jsstring * V)) (k : jsstring) (v : V) :
  NoDup (map fst m) -> In (k, v) m -> map_get m k = Some v.
Proof.
  induction m as [|[k' v'] m IH]; intros Hnd Hin; [destruct Hin|].
  cbn [map fst] in Hnd. apply NoDup_cons in Hnd. destruct Hnd as [Hni Hnd].
  cbn [map_get]. destruct Hin as [Heq|Hin].
  - injection Heq as -> ->. rewrite bool_decide_eq_true_2 by reflexivity.
    reflexivity.
  - rewrite bool_decide_eq_false_2; [apply IH; assumption|].
    intros ->. apply Hni. apply list_elem_of_In.
    apply in_map_iff. exists (k, v). split; [reflexivity | assumption].
Qed.

Lemma map_get_Some_In {V} (m : list (jsstring * V)) (k : jsstring) (v : V) :
  map_get m k = Some v -> In (k, v) m.
Proof.
  induction m as [|[k' v'] m IH]; [discriminate|].
  cbn [map_get]. destruct (bool_decide (k' = k)) eqn:Hk.
  - apply bool_decide_eq_true_1 in Hk. subst k'. intros H.
    injection H as ->. left. reflexivity.
  - intros H. right. apply IH. assumption.
Qed.

(** One entry of the queue. *)
Lemma retryEntry_run (env : Env) (messageId : jsstring) (q : QueuedMessage)
    (s : Service) :
  exists s',
    retryEntry env messageId q s
    = (Returned tt, s', retry_events env s messageId q)
    /\ cache s' = cache s /\ storage s' = storage s
    /\ messageStatusCallback s' = messageStatusCallback s
    /\ messageReceivedCallback s' = messageReceivedCallback s
    /\ (map_get (messageQueue s) messageId = Some q ->
        map_get (messageQueue s') messageId = retry_step env q)
    /\ (forall k, k <> messageId ->
        map_get (messageQueue s') k = map_get (messageQueue s) k).
Proof.
  unfold retryEntry, retry_events, retry_step.
  destruct (nextRetryTime q <=? now env) eqn:Hdue.
  2:{ exists s. repeat split; try reflexivity. intros H. exact H. }
  cbv beta iota zeta. bind_step. bind_step.
  cbn [serialized attempts q_messageId q_peerId q_envelope nextRetryTime].
  change (devicesToSend env None) with (connectedDevices env).
  destruct (transmit_ok env (serialized q) (connectedDevices env)) eqn:Hok.
  - eexists. unfold notifyStatus, status_events. cbv beta iota.
    bind_step. bind_step.
    cbn [messageStatusCallback set_queue].
    split.
    { destruct (messageStatusCallback s); cbn [emit ret app];
        rewrite ?app_nil_r; reflexivity. }
    cbn [cache storage messageStatusCallback messageReceivedCallback
         messageQueue set_queue].
    repeat split; try reflexivity.
    + intros _. apply map_get_delete_eq.
    + intros k Hk. rewrite map_get_delete_ne by congruence.
      apply map_get_set_ne. congruence.
  - destruct (MAX_SEND_RETRIES <=? attempts q + 1) eqn:Hmax.
    + eexists. unfold notifyStatus, status_events. cbv beta iota.
      bind_step. bind_step.
      cbn [messageStatusCallback set_queue].
      split.
      { destruct (messageStatusCallback s); cbn [emit ret app];
          rewrite ?app_nil_r; reflexivity. }
      cbn [cache storage messageStatusCallback messageReceivedCallback
           messageQueue set_queue].
      repeat split; try reflexivity.
      * intros _. apply map_get_delete_eq.
      * intros k Hk. rewrite map_get_delete_ne by congruence.
        apply map_get_set_ne. congruence.
    + eexists. cbv beta iota. split.
      { cbn [modify app]. rewrite ?app_nil_r. reflexivity. }
      cbn [cache storage messageStatusCallback messageReceivedCallback
           messageQueue set_queue].
      repeat split; try reflexivity.
      * intros _. apply map_get_set_eq.
      * intros k Hk. rewrite !map_get_set_ne by congruence. reflexivity.
Qed.

Lemma retry_events_callback (env : Env) (s s' : Service) (k : jsstring)
    (q : QueuedMessage) :
  messageStatusCallback s' = messageStatusCallback s ->
  retry_events env s' k q = retry_events env s k q.
Proof.
  intros H. unfold retry_events, status_events. rewrite H. reflexivity.
Qed.

(** The whole loop, over entries that are still as they were queued. *)
Lemma forEntries_run (env : Env) (entries : list (jsstring * QueuedMessage)) :
  forall s : Service,
  NoDup (map fst entries) ->
  (forall k q, In (k, q) entries -> map_get (messageQueue s) k = Some q) ->
  exists s',
    forEntries env entries s
    = (Returned tt, s',
       flat_map (fun kq => retry_events env s kq.1 kq.2) entries)
    /\ cache s' = cache s /\ storage s' = storage s
    /\ messageStatusCallback s' = messageStatusCallback s
    /\ messageReceivedCallback s' = messageReceivedCallback s
    /\ (forall k q, In (k, q) entries ->
        map_get (messageQueue s') k = retry_step env q)
    /\ (forall k, ~ In k (map fst entries) ->
        map_get (messageQueue s') k = map_get (messageQueue s) k).
Proof.
  induction entries as [|[k q] rest IH]; intros s Hnd Hq.
  - exists s. repeat split; try reflexivity. intros k q [].
  - cbn [map fst] in Hnd. apply NoDup_cons in Hnd. destruct Hnd as [Hni Hnd].
    assert (Hni' : ~ In k (map fst rest))
      by (intros H; apply Hni, list_elem_of_In; assumption).
    cbn [forEntries]. rewrite bind_unfold.
    destruct (retryEntry_run env k q s)
      as (s1 & -> & Hc1 & Hst1 & Hcb1 & Hrc1 & Hk1 & Hother1).
    destruct (IH s1 Hnd) as (s2 & -> & Hc2 & Hst2 & Hcb2 & Hrc2 & Hk2 & Hother2).
    { intros k' q' Hin. rewrite Hother1.
      - apply Hq. right. assumption.
      - intros ->. apply Hni'. apply in_map_iff.
        exists (k, q'). split; [reflexivity | assumption]. }
    exists s2. split.
    { cbn [flat_map fst snd]. f_equal. f_equal.
      apply flat_map_ext. intros [k' q']. cbn [fst snd].
      apply retry_events_callback. assumption. }
    split; [congruence|]. split; [congruence|]. split; [congruence|].
    split; [congruence|]. split.
    + intros k' q' [Heq|Hin].
      * injection Heq as <- <-. rewrite Hother2 by assumption.
        apply Hk1. apply Hq. left. reflexivity.
      * apply Hk2. assumption.
    + intros k' Hk'. cbn [map fst] in Hk'.
      rewrite Hother2 by (intros H; apply Hk'; right; assumption).
      apply Hother1. intros ->. apply Hk'. left. reflexivity.
Qed.

Lemma processRetryQueue_run (env : Env) (s : Service) :
  NoDup (map fst (messageQueue s)) ->
  exists s',
    processRetryQueue env s
    = (Returned tt, s',
       flat_map (fun kq => retry_events env s kq.1 kq.2) (messageQueue s))
    /\ cache s' = cache s /\ storage s' = storage s
    /\ (forall k q, map_get (messageQueue s) k = Some q ->
        map_get (messageQueue s') k = retry_step env q)
    /\ (forall k, map_get (messageQueue s) k = None ->
        map_get (messageQueue s') k = None).
Proof.
  intros Hnd. unfold processRetryQueue. rewrite bind_unfold. cbn [get].
  destruct (forEntries_run env (messageQueue s) s Hnd)
    as (s' & -> & Hc & Hst & _ & _ & Hk & Hother).
  { intros k q Hin. apply map_get_In; assumption. }
  exists s'. split; [reflexivity|]. split; [assumption|].
  split; [assumption|]. split.
  - intros k q Hkq. apply Hk. apply map_get_Some_In. assumption.
  - intros k Hnone. rewrite Hother; [assumption|].
    intros Hin. apply in_map_iff in Hin. destruct Hin as ([k' q] & <- & Hin).
    cbn [fst] in Hnone.
    rewrite (map_get_In _ _ _ Hnd Hin) in Hnone. discriminate.
Qed.

(** The retry loop never touches storage, whatever the queue holds. *)
Lemma forEntries_frame (env : Env) (entries : list (jsstring * QueuedMessage)) :
  forall s : Service,
  exists s' t,
    forEntries env entries s = (Returned tt, s', t)
    /\ storage s' = storage s /\ cache s' = cache s
    /\ stores_of t = [] /\ received_of t = [].
Proof.
  induction entries as [|[k q] rest IH]; intros s.
  - exists s, []. repeat split; reflexivity.
  - cbn [forEntries]. rewrite bind_unfold.
    destruct (retryEntry_run env k q s) as (s1 & -> & Hc1 & Hst1 & _).
    destruct (IH s1) as (s2 & t2 & -> & Hst2 & Hc2 & Hs2 & Hr2).
    exists s2, (retry_events env s k q ++ t2).
    split; [reflexivity|]. split; [congruence|]. split; [congruence|].
    assert (Hproj : forall {B} (f : Event -> list B),
              (forall d x, f (EvSend d x) = []) ->
              (forall l, f (EvError l) = []) ->
              (forall i st, f (EvMessageStatus i st) = []) ->
              flat_map f (retry_events env s k q) = []).
    { intros B f Hs He Hm. unfold retry_events, status_events.
      destruct (nextRetryTime q <=? now env); [|reflexivity].
      rewrite flat_map_app, project_send_events by assumption.
      destruct (transmit_ok env (serialized q) (connectedDevices env));
        [|destruct (MAX_SEND_RETRIES <=? attempts q + 1)];
        destruct (messageStatusCallback s); cbn [flat_map app];
        rewrite ?Hm; reflexivity. }
    split.
    + unfold stores_of in *. rewrite flat_map_app, Hs2, Hproj by reflexivity.
      reflexivity.
    + unfold received_of in *. rewrite flat_map_app, Hr2, Hproj by reflexivity.
      reflexivity.
Qed.

(* ===================================================================== *)
(** ** Queueing after a failed send; a tick that nothing interrupts       *)
(* ===================================================================== *)





(** One call of [processRetryQueue] during which nothing else runs
    (its writes settle before the timer fires again), at a node with a
    status callback: entries that are not yet due are left untouched
    and the bytes of each due entry are written again; on success the
    entry is deleted and 'delivered' is reported; on failure the
    attempt count grows by one and, when it reaches MAX_SEND_RETRIES =
    3, the entry is deleted and 'failed' is reported, otherwise the
    next retry is due base * 2^attempts after the tick.  Hence three
    due retries that all fail end with 'failed' and an entry
    removed. *)
Lemma uninterrupted_tick :
  (forall env s,
       NoDup (map fst (messageQueue s)) ->
       messageStatusCallback s = true ->
       let r := processRetryQueue env s in
       outcome_of r = Returned tt
       /\ trace_of r
          = flat_map (fun kq => retry_events env s kq.1 kq.2) (messageQueue s)
       /\ (forall k, map_get (messageQueue s) k = None ->
           map_get (messageQueue (state_of r)) k = None)
       /\ (forall k q, map_get (messageQueue s) k = Some q ->
           map_get (messageQueue (state_of r)) k = retry_step env q
           /\ (now env < nextRetryTime q ->
               retry_step env q = Some q /\ retry_events env s k q = [])
           /\ (nextRetryTime q <= now env ->
               sends_of (retry_events env s k q)
               = map (fun d => (d, serialized q)) (connectedDevices env))
           /\ (nextRetryTime q <= now env ->
               transmit_ok env (serialized q) (connectedDevices env) = true ->
               retry_step env q = None
               /\ statuses_of (retry_events env s k q) = [(k, StatusDelivered)])
           /\ (nextRetryTime q <= now env ->
               transmit_ok env (serialized q) (connectedDevices env) = false ->
               3 <= attempts q + 1 ->
               retry_step env q = None
               /\ statuses_of (retry_events env s k q) = [(k, StatusFailed)])
           /\ (nextRetryTime q <= now env ->
               transmit_ok env (serialized q) (connectedDevices env) = false ->
               attempts q + 1 < 3 ->
               statuses_of (retry_events env s k q) = []
               /\ exists q',
                    retry_step env q = Some q'
                    /\ attempts q' = attempts q + 1
                    /\ serialized q' = serialized q
                    /\ nextRetryTime q'
                       = now env + 1000 * 2 ^ (attempts q + 1))))
  /\ (forall env1 env2 env3 q,
       attempts q = 0 ->
       nextRetryTime q <= now env1 ->
       now env1 + 1000 * 2 ^ 1 <= now env2 ->
       now env2 + 1000 * 2 ^ 2 <= now env3 ->
       transmit_ok env1 (serialized q) (connectedDevices env1) = false ->
       transmit_ok env2 (serialized q) (connectedDevices env2) = false ->
       transmit_ok env3 (serialized q) (connectedDevices env3) = false ->
       exists q1 q2,
         retry_step env1 q = Some q1 /\ retry_step env2 q1 = Some q2
         /\ retry_step env3 q2 = None /\ attempts q2 + 1 = 3
         /\ forall s k, messageStatusCallback s = true ->
              statuses_of (retry_events env3 s k q2) = [(k, StatusFailed)]).
Proof.
  assert (Hstat : forall env s k q,
            statuses_of (retry_events env s k q)
            = if nextRetryTime q <=? now env then
                if transmit_ok env (serialized q) (connectedDevices env)
                then statuses_of (status_events s k StatusDelivered)
                else if MAX_SEND_RETRIES <=? attempts q + 1
                     then statuses_of (status_events s k StatusFailed)
                     else []
              else []).
  { intros env s k q. unfold retry_events.
    destruct (nextRetryTime q <=? now env); [|reflexivity].
    unfold statuses_of at 1. rewrite flat_map_app.
    rewrite project_send_events by reflexivity.
    destruct (transmit_ok env (serialized q) (connectedDevices env));
      [reflexivity|].
    destruct (MAX_SEND_RETRIES <=? attempts q + 1); reflexivity. }
  split.
  - (* one tick *)
    intros env s Hnd Hcb r. subst r.
    destruct (processRetryQueue_run env s Hnd)
      as (s' & -> & _ & _ & Hk & Hnone).
    unfold outcome_of, trace_of, state_of. cbn [fst snd].
    split; [reflexivity|]. split; [reflexivity|]. split; [exact Hnone|].
    intros k q Hkq. split; [apply Hk; assumption|].
    split.
    { intros Hnot. assert (Hd : (nextRetryTime q <=? now env) = false)
        by (apply Z.leb_gt; assumption).
      unfold retry_step, retry_events. rewrite Hd. split; reflexivity. }
    split.
    { intros Hdue. apply Z.leb_le in Hdue. unfold retry_events.
      rewrite Hdue, sends_of_app, sends_of_send_events.
      unfold status_events. rewrite Hcb.
      destruct (transmit_ok env (serialized q) (connectedDevices env));
        [|destruct (MAX_SEND_RETRIES <=? attempts q + 1)];
        cbn; rewrite app_nil_r; reflexivity. }
    split.
    { intros Hdue Hok. apply Z.leb_le in Hdue. rewrite Hstat.
      unfold retry_step, status_events. rewrite Hdue, Hok, Hcb.
      split; reflexivity. }
    split.
    { intros Hdue Hok Hmax. apply Z.leb_le in Hdue.
      assert (Hm : (MAX_SEND_RETRIES <=? attempts q + 1) = true)
        by (apply Z.leb_le; unfold MAX_SEND_RETRIES; lia).
      rewrite Hstat. unfold retry_step, status_events.
      rewrite Hdue, Hok, Hm, Hcb. split; reflexivity. }
    intros Hdue Hok Hless. apply Z.leb_le in Hdue.
    assert (Hm : (MAX_SEND_RETRIES <=? attempts q + 1) = false)
      by (apply Z.leb_gt; unfold MAX_SEND_RETRIES; lia).
    rewrite Hstat. unfold retry_step. rewrite Hdue, Hok, Hm.
    split; [reflexivity|]. eexists. split; [reflexivity|].
    cbn [attempts serialized nextRetryTime]. repeat split; reflexivity.
  - (* three failing retries *)
    intros env1 env2 env3 q Ha H1 H2 H3 F1 F2 F3.
    apply Z.leb_le in H1.
    eexists. eexists. unfold retry_step at 1. rewrite H1, F1, Ha.
    change (MAX_SEND_RETRIES <=? 0 + 1) with false. cbv iota.
    split; [reflexivity|].
    unfold retry_step at 1. cbn [nextRetryTime attempts serialized].
    assert (H2' : (now env1 + RETRY_BASE_DELAY_MS * 2 ^ (0 + 1) <=? now env2)
                  = true)
      by (apply Z.leb_le; unfold RETRY_BASE_DELAY_MS; lia).
    rewrite H2', F2.
    change (MAX_SEND_RETRIES <=? 0 + 1 + 1) with false. cbv iota.
    split; [reflexivity|].
    unfold retry_step. cbn [nextRetryTime attempts serialized].
    assert (H3' : (now env2 + RETRY_BASE_DELAY_MS * 2 ^ (0 + 1 + 1)
                     <=? now env3) = true)
      by (apply Z.leb_le; unfold RETRY_BASE_DELAY_MS; lia).
    rewrite H3', F3.
    change (MAX_SEND_RETRIES <=? 0 + 1 + 1 + 1) with true. cbv iota.
    split; [reflexivity|]. split; [reflexivity|].
    intros s k Hcb. rewrite Hstat. cbn [nextRetryTime attempts serialized].
    rewrite H3', F3.
    change (MAX_SEND_RETRIES <=? 0 + 1 + 1 + 1) with true. cbv iota.
    unfold status_events. rewrite Hcb. reflexivity.
Qed.

(** The specification's retry scenario with ticks that do not overlap:
    the retries at t+1 s, t+3 s and t+7 s fail and the message is
    reported failed and evicted; had the third retry succeeded, it
    would have been reported delivered. *)
Lemma uninterrupted_ticks_example :
  statuses_of
    (tickAll (Samples.retryTicks false)
       (state_of Samples.sendWhileLinkDown)).2
  = [(generateUUID (Samples.envAt 1700000000000 false true), StatusFailed)]
  /\ messageQueue
       (tickAll (Samples.retryTicks false)
          (state_of Samples.sendWhileLinkDown)).1 = []
  /\ length (sends_of
       (tickAll (Samples.retryTicks false)
          (state_of Samples.sendWhileLinkDown)).2) = 9%nat
  /\ statuses_of
       (tickAll (Samples.retryTicks true)
          (state_of Samples.sendWhileLinkDown)).2
     = [(generateUUID (Samples.envAt 1700000000000 false true),
         StatusDelivered)]
  /\ messageQueue
       (tickAll (Samples.retryTicks true)
          (state_of Samples.sendWhileLinkDown)).1 = [].
Proof. repeat split; vm_compute; reflexivity. Qed.

(* ===================================================================== *)
(** ** C10: the stored record of an outgoing message                      *)
(* ===================================================================== *)

Lemma stores_of_app (t1 t2 : list Event) :
  stores_of (t1 ++ t2) = stores_of t1 ++ stores_of t2.
Proof. unfold stores_of. apply flat_map_app. Qed.

Lemma statuses_of_app (t1 t2 : list Event) :
  statuses_of (t1 ++ t2) = statuses_of t1 ++ statuses_of t2.
Proof. unfold statuses_of. apply flat_map_app. Qed.

(** C10.  A call of [sendMessage] writes to storage at most once; the
    trace splits into a part without transmissions that holds the
    write and a part without writes that holds the transmissions, so
    the write precedes every transmission attempt.  When the call
    returns a message, exactly one record was written, with delivered
    and failed both false, and storage holds it appended to the peer's
    list; a delivered status shows only in the returned record and in
    the status callback.  A tick of the retry timer writes nothing and
    leaves storage unchanged; it reports its transitions through the
    status callback only. *)
Theorem outgoing_record_stored_once :
  (forall crypto env recipientId text peers s,
     let r := sendMessage crypto env recipientId text peers s in
     let m0 := outgoing env recipientId text in
     (stores_of (trace_of r) = [] \/ stores_of (trace_of r) = [m0])
     /\ delivered m0 = false /\ failed m0 = false
     /\ (exists before after,
           trace_of r = before ++ after
           /\ sends_of before = [] /\ stores_of after = []
           /\ (sends_of after <> [] -> stores_of before = [m0]))
     /\ (forall m, outcome_of r = Returned m ->
           stores_of (trace_of r) = [m0]
           /\ storage (state_of r)
              = <[recipientId := default [] (storage s !! recipientId) ++ [m0]]>
                  (storage s)
           /\ (m = m0 \/ m = mark_delivered m0)
           /\ failed m = false
           /\ statuses_of (trace_of r)
              = (if delivered m
                 then statuses_of (status_events s (id m) StatusDelivered)
                 else []))
     /\ (forall x, outcome_of r = Thrown x -> storage (state_of r) = storage s))
  /\ (forall env s,
     let r := processRetryQueue env s in
     outcome_of r = Returned tt
     /\ stores_of (trace_of r) = []
     /\ storage (state_of r) = storage s).
Proof.
  split.
  - intros crypto env recipientId text peers s r m0.
    split; [|split; [reflexivity|split; [reflexivity|]]].
    + subst r.
      destruct (sendMessage_shape crypto env recipientId text peers s)
        as [(x & pre & -> & Hpre)
           |(secret & envelope & data & _ & _ & _ & ->)].
      * left. unfold trace_of. cbn [snd]. rewrite stores_of_app.
        destruct Hpre as [->|[secret ->]]; reflexivity.
      * right. unfold send_result. fold m0.
        destruct (storageWritable env); [|reflexivity].
        destruct (transmit_ok env data (connectedDevices env));
          unfold trace_of; cbn [snd app];
          change (stores_of (EvEncrypt ?p ?k :: EvStore ?m :: ?l))
            with (m :: stores_of l);
          f_equal; unfold stores_of; rewrite ?flat_map_app;
          rewrite project_send_events by reflexivity;
          [unfold status_events; destruct (messageStatusCallback s)|];
          reflexivity.
    + subst r.
      destruct (sendMessage_shape crypto env recipientId text peers s)
        as [(x & pre & -> & Hpre)
           |(secret & envelope & data & _ & _ & _ & ->)].
      * split.
        { exists (pre ++ [EvError LogSendMessageFailed]), [].
          unfold trace_of. cbn [snd]. rewrite app_nil_r.
          split; [reflexivity|]. split.
          - destruct Hpre as [->|[secret ->]]; reflexivity.
          - split; [reflexivity|]. intros H. exfalso. apply H. reflexivity. }
        split; [intros m Hm; discriminate Hm|].
        intros x' _. reflexivity.
      * unfold send_result. fold m0.
        destruct (storageWritable env) eqn:Hw.
        2:{ split.
            { eexists _, []. unfold trace_of. cbn [snd].
              rewrite app_nil_r. split; [reflexivity|].
              split; [reflexivity|]. split; [reflexivity|].
              intros H. exfalso. apply H. reflexivity. }
            split; [intros m Hm; discriminate Hm|].
            intros x' _. reflexivity. }
        assert (Hnostore : forall l,
                  stores_of (send_events env data (connectedDevices env) ++ l)
                  = stores_of l).
        { intros l. rewrite stores_of_app. unfold stores_of at 1.
          rewrite project_send_events by reflexivity. reflexivity. }
        assert (Hnostat : forall l,
                  statuses_of (EvEncrypt text secret :: EvStore m0
                     :: send_events env data (connectedDevices env) ++ l)
                  = statuses_of l).
        { intros l.
          change (statuses_of (EvEncrypt text secret :: EvStore m0 :: ?t))
            with (statuses_of t).
          rewrite statuses_of_app. unfold statuses_of at 1.
          rewrite project_send_events by reflexivity. reflexivity. }
        destruct (transmit_ok env data (connectedDevices env)) eqn:Hok;
          unfold trace_of, outcome_of, state_of; cbn [fst snd app].
        -- split.
           { exists [EvEncrypt text secret; EvStore m0],
               (send_events env data (connectedDevices env)
                  ++ status_events s (id m0) StatusDelivered).
             split; [reflexivity|]. split; [reflexivity|].
             split; [|intros _; reflexivity].
             rewrite Hnostore. unfold status_events.
             destruct (messageStatusCallback s); reflexivity. }
           split; [|intros x Hx; discriminate Hx].
           intros m Hm. injection Hm as <-.
           split.
           { change (stores_of (EvEncrypt ?p ?k :: EvStore ?m :: ?l))
               with (m :: stores_of l).
             rewrite Hnostore. unfold status_events.
             destruct (messageStatusCallback s); reflexivity. }
           split; [reflexivity|]. split; [right; reflexivity|].
           split; [reflexivity|].
           rewrite Hnostat. cbn [delivered mark_delivered id].
           unfold status_events.
           destruct (messageStatusCallback s); reflexivity.
        -- split.
           { exists [EvEncrypt text secret; EvStore m0],
               (send_events env data (connectedDevices env)).
             split; [reflexivity|]. split; [reflexivity|].
             split; [|intros _; reflexivity].
             rewrite <- (app_nil_r (send_events _ _ _)).
             rewrite Hnostore. reflexivity. }
           split; [|intros x Hx; discriminate Hx].
           intros m Hm. injection Hm as <-.
           split.
           { change (stores_of (EvEncrypt ?p ?k :: EvStore ?m :: ?l))
               with (m :: stores_of l).
             rewrite <- (app_nil_r (send_events _ _ _)).
             rewrite Hnostore. reflexivity. }
           split; [reflexivity|]. split; [left; reflexivity|].
           split; [reflexivity|].
           rewrite <- (app_nil_r (send_events _ _ _)).
           rewrite Hnostat. reflexivity.
  - intros env s r. subst r. unfold processRetryQueue.
    rewrite bind_unfold. cbn [get].
    destruct (forEntries_frame env (messageQueue s) s)
      as (s' & t & -> & Hst & _ & Hs & _).
    unfold outcome_of, trace_of, state_of. cbn [fst snd app].
    repeat split; assumption.
Qed.

(** Example for C10: a successful send stores the record with
    delivered = false once, before the three writes to the peers, and
    returns it with delivered = true. *)
Lemma outgoing_record_stored_once_example :
  let r :=
    sendMessage Samples.mockCrypto (Samples.envAt 1700000000000 true true)
      (js "B") (js "help") Samples.peersOfNode initialService in
  (stores_of (trace_of r) = []
   \/ stores_of (trace_of r)
      = [outgoing (Samples.envAt 1700000000000 true true) (js "B") (js "help")])
  /\ map delivered (stores_of (trace_of r)) = [false]
  /\ (exists m, outcome_of r = Returned m /\ delivered m = true)
  /\ match trace_of r with
     | [EvEncrypt _ _; EvStore _; EvSend _ _; EvSend _ _; EvSend _ _;
        EvMessageStatus _ StatusDelivered] => True
     | _ => False
     end.
Proof.
  intros r. split.
  - destruct outgoing_record_stored_once as [Hsend _].
    apply (Hsend Samples.mockCrypto (Samples.envAt 1700000000000 true true)
             (js "B") (js "help") Samples.peersOfNode initialService).
  - split; [vm_compute; reflexivity|]. split.
    + eexists. split; vm_compute; reflexivity.
    + vm_compute. exact I.
Defined.

(* ===================================================================== *)
(** ** C8: retries of a queued message when ticks overlap                 *)
(* ===================================================================== *)

Import RetryTimer.


Lemma sends_of_started (data : bytes) (devices : list jsstring) :
  sends_of (map (fun d => EvSend d data) devices)
  = map (fun d => (d, data)) devices.
Proof.
  induction devices as [|d ds IH]; [reflexivity|].
  cbn [map sends_of flat_map app] in *. f_equal. exact IH.
Qed.

Lemma sends_of_logged (l : list jsstring) :
  sends_of (map (fun d => EvError (LogSendFailedToPeer d)) l) = [].
Proof. induction l as [|d ds IH]; [reflexivity|exact IH]. Qed.

Lemma statuses_of_started (data : bytes) (devices : list jsstring) :
  statuses_of (map (fun d => EvSend d data) devices) = [].
Proof. induction devices as [|d ds IH]; [reflexivity|exact IH]. Qed.

Lemma statuses_of_logged (l : list jsstring) :
  statuses_of (map (fun d => EvError (LogSendFailedToPeer d)) l) = [].
Proof. induction l as [|d ds IH]; [reflexivity|exact IH]. Qed.

Lemma transmit_ok_none (env : Env) (data : bytes) (devices : list jsstring) :
  (forall d, sendData env d data = false) ->
  transmit_ok env data devices = false.
Proof.
  intros H. unfold transmit_ok. induction devices as [|d ds IH];
    [reflexivity|]. cbn [existsb]. rewrite H, IH. reflexivity.
Qed.

(** Steps of a node whose queue holds one record. *)
Lemma startTick_due (env : Env) (k : jsstring) (q : QueuedMessage)
    (cb : bool) (waiting : list Tick) :
  nextRetryTime q <= now env ->
  startTick env (mkNode [q] [mkSlot k 0 true] cb waiting)
  = (mkNode [with_attempts q (attempts q + 1)] [mkSlot k 0 true] cb
       (waiting ++ [mkTick (now env) 0 k 0 (serialized q) env]),
     map (fun d => EvSend d (serialized q)) (connectedDevices env)).
Proof.
  intros H. apply Z.leb_le in H. unfold startTick. simpl. rewrite H.
  reflexivity.
Qed.

Lemma startTick_not_due (env : Env) (k : jsstring) (q : QueuedMessage)
    (cb : bool) (waiting : list Tick) :
  now env < nextRetryTime q ->
  startTick env (mkNode [q] [mkSlot k 0 true] cb waiting)
  = (mkNode [q] [mkSlot k 0 true] cb waiting, []).
Proof.
  intros H. apply Z.leb_gt in H. unfold startTick. simpl. rewrite H.
  simpl. rewrite app_nil_r. reflexivity.
Qed.

Lemma resumeTick_single (env : Env) (k : jsstring) (q : QueuedMessage)
    (live cb : bool) (tick : Tick) (waiting : list Tick) :
  tick_index tick = 0%nat -> tick_ref tick = 0%nat -> tick_key tick = k ->
  let ok := transmit_ok (tick_env tick) (tick_data tick)
              (connectedDevices (tick_env tick)) in
  resumeTick env 0 (mkNode [q] [mkSlot k 0 live] cb (tick :: waiting))
  = (if ok || (MAX_SEND_RETRIES <=? attempts q)
     then mkNode [q] [mkSlot k 0 false] cb waiting
     else mkNode [with_nextRetryTime q
                    (tick_now tick + RETRY_BASE_DELAY_MS * 2 ^ attempts q)]
            [mkSlot k 0 live] cb waiting,
     map (fun d => EvError (LogSendFailedToPeer d))
       (rejected (tick_env tick) (tick_data tick)
          (connectedDevices (tick_env tick)))
     ++ (if ok then if cb then [EvMessageStatus k StatusDelivered] else []
         else if MAX_SEND_RETRIES <=? attempts q
              then if cb then [EvMessageStatus k StatusFailed] else []
              else [])).
Proof.
  intros Hi Hr Hk ok.
  assert (Hdel : deleteKey k [mkSlot k 0 live] = [mkSlot k 0 false]).
  { unfold deleteKey, holds. simpl.
    rewrite bool_decide_eq_true_2 by reflexivity. destruct live; reflexivity. }
  unfold resumeTick.
  cbn [suspended objects slots statusCallback lookup list_lookup].
  rewrite Hr, Hi, Hk. cbn [lookup list_lookup]. fold ok.
  destruct ok; cbn [orb].
  - rewrite Hdel. cbn [drop scan take app option_list].
    rewrite app_nil_r. reflexivity.
  - destruct (MAX_SEND_RETRIES <=? attempts q).
    + rewrite Hdel. cbn [drop scan take app option_list].
      rewrite app_nil_r. reflexivity.
    + cbn [drop scan take app option_list alter list_alter].
      rewrite !app_nil_r. reflexivity.
Qed.

Lemma startTick_emptied (env : Env) (k : jsstring) (q : QueuedMessage)
    (cb : bool) (waiting : list Tick) :
  startTick env (mkNode [q] [mkSlot k 0 false] cb waiting)
  = (mkNode [q] [mkSlot k 0 false] cb waiting, []).
Proof. unfold startTick. simpl. rewrite app_nil_r. reflexivity. Qed.

(** C8 (defect in the code).  [startRetryTimer] is documented as
    "Uses exponential backoff: 1s, 2s, 4s for successive retries" and
    [queueMessageForRetry] as "retried up to MAX_SEND_RETRIES times".
    That holds only while the writes of one tick settle before the
    timer fires again: for a queued message with no attempt so far, a
    first tick whose writes all fail moves the next retry to
    now + base * 2^1, and a second tick before that time writes
    nothing.  But [setInterval] does not wait for [processRetryQueue],
    which increments [attempts] before its [await] and advances
    [nextRetryTime] only after it.  When the timer fires twice more
    while the writes of the first tick are in flight, each tick finds
    the entry still due and writes the same bytes again, with no
    backoff between the retries; and when the three calls resume, each
    finds [attempts] at MAX_SEND_RETRIES and reports a final status of
    its own: 'delivered' if its own writes succeeded, 'failed'
    otherwise, three reports for one message.  (A call stays
    suspended across a firing of the timer only while one of its
    writes is in flight, hence the connected devices at the first two
    ticks.) *)
Theorem overlapping_ticks_ignore_backoff (s : Service) (k : jsstring)
    (q : QueuedMessage) (env1 env2 env3 : Env) :
  messageQueue s = [(k, q)] -> attempts q = 0 ->
  nextRetryTime q <= now env1 -> now env1 <= now env2 ->
  now env2 <= now env3 ->
  now env2 < now env1 + RETRY_BASE_DELAY_MS * 2 ^ 1 ->
  connectedDevices env1 <> [] -> connectedDevices env2 <> [] ->
  let written env := map (fun d => (d, serialized q)) (connectedDevices env) in
  let final env :=
    if transmit_ok env (serialized q) (connectedDevices env)
    then StatusDelivered else StatusFailed in
  (transmit_ok env1 (serialized q) (connectedDevices env1) = false ->
   sends_of (run [TimerFires env1; WritesSettle 0 env1; TimerFires env2]
               (load s)).2
   = written env1)
  /\ sends_of (run [TimerFires env1; TimerFires env2; TimerFires env3]
                 (load s)).2
     = written env1 ++ written env2 ++ written env3
  /\ statuses_of
       (run [TimerFires env1; TimerFires env2; TimerFires env3;
             WritesSettle 0 env3; WritesSettle 0 env3; WritesSettle 0 env3]
          (load s)).2
     = (if messageStatusCallback s
        then [(k, final env1); (k, final env2); (k, final env3)]
        else []).
Proof.
  intros Hq Ha H1 H12 H23 Hback _ _ written final.
  assert (Hload : load s
                  = mkNode [q] [mkSlot k 0 true] (messageStatusCallback s) [])
    by (unfold load; rewrite Hq; reflexivity).
  rewrite Hload. split; [|split].
  - intros Hfail. cbn [run step].
    rewrite startTick_due by exact H1. cbn [app].
    rewrite resumeTick_single by reflexivity.
    cbn [tick_env tick_data tick_now attempts with_attempts].
    rewrite Hfail, Ha. change (MAX_SEND_RETRIES <=? 0 + 1) with false.
    cbn [orb]. cbv iota.
    rewrite startTick_not_due
      by (cbn [nextRetryTime with_nextRetryTime attempts with_attempts];
          rewrite ?Ha; exact Hback).
    cbn [snd]. rewrite !sends_of_app, sends_of_started, sends_of_logged.
    rewrite !app_nil_r. reflexivity.
  - cbn [run step].
    rewrite startTick_due by exact H1. cbn [app].
    rewrite startTick_due by (cbn [nextRetryTime with_attempts]; lia).
    cbn [app].
    rewrite startTick_due by (cbn [nextRetryTime with_attempts]; lia).
    cbn [snd serialized with_attempts].
    rewrite !sends_of_app, !sends_of_started, !app_nil_r. reflexivity.
  - cbn [run step].
    rewrite startTick_due by exact H1. cbn [app].
    rewrite startTick_due by (cbn [nextRetryTime with_attempts]; lia).
    cbn [app].
    rewrite startTick_due by (cbn [nextRetryTime with_attempts]; lia).
    cbn [app serialized with_attempts attempts].
    rewrite Ha. change (MAX_SEND_RETRIES <=? 0 + 1 + 1 + 1) with true.
    rewrite resumeTick_single by reflexivity.
    cbn [tick_env tick_data tick_now attempts with_attempts].
    change (MAX_SEND_RETRIES <=? 0 + 1 + 1 + 1) with true.
    rewrite orb_true_r. cbv iota.
    rewrite resumeTick_single by reflexivity.
    cbn [tick_env tick_data tick_now attempts with_attempts].
    change (MAX_SEND_RETRIES <=? 0 + 1 + 1 + 1) with true.
    rewrite orb_true_r. cbv iota.
    rewrite resumeTick_single by reflexivity.
    cbn [tick_env tick_data tick_now attempts with_attempts].
    change (MAX_SEND_RETRIES <=? 0 + 1 + 1 + 1) with true.
    rewrite orb_true_r. cbv iota.
    cbn [snd]. unfold final.
    rewrite !statuses_of_app, !statuses_of_started, !statuses_of_logged.
    destruct (messageStatusCallback s);
      destruct (transmit_ok env1 _ _), (transmit_ok env2 _ _),
        (transmit_ok env3 _ _); reflexivity.
Qed.

(** Witness for C8: the message of the retry scenario, queued at time t
    with every link down; the timer fires at t + 1 s, t + 2 s and
    t + 3 s before any write has settled. *)
Lemma overlapping_ticks_ignore_backoff_witness :
  length (sends_of
    (run [TimerFires (Samples.envAt 1700000001000 false true);
          TimerFires (Samples.envAt 1700000002000 false true);
          TimerFires (Samples.envAt 1700000003000 false true)]
       (load (state_of Samples.sendWhileLinkDown))).2) = 9%nat
  /\ statuses_of
       (run [TimerFires (Samples.envAt 1700000001000 false true);
             TimerFires (Samples.envAt 1700000002000 false true);
             TimerFires (Samples.envAt 1700000003000 false true);
             WritesSettle 0 (Samples.envAt 1700000003000 false true);
             WritesSettle 0 (Samples.envAt 1700000003000 false true);
             WritesSettle 0 (Samples.envAt 1700000003000 false true)]
          (load (state_of Samples.sendWhileLinkDown))).2
     = [(MoreSamples.queuedId, StatusFailed);
        (MoreSamples.queuedId, StatusFailed);
        (MoreSamples.queuedId, StatusFailed)].
Proof.
  destruct (overlapping_ticks_ignore_backoff
              (state_of Samples.sendWhileLinkDown) MoreSamples.queuedId
              MoreSamples.queuedEntry
              (Samples.envAt 1700000001000 false true)
              (Samples.envAt 1700000002000 false true)
              (Samples.envAt 1700000003000 false true))
    as (_ & H2 & H3).
  - vm_compute. reflexivity.
  - reflexivity.
  - vm_compute. discriminate.
  - vm_compute. discriminate.
  - vm_compute. discriminate.
  - vm_compute. reflexivity.
  - vm_compute. discriminate.
  - vm_compute. discriminate.
  - split; [rewrite H2; reflexivity | rewrite H3; reflexivity].
Defined.

(* ===================================================================== *)
(** ** Retries of a queued message when ticks do not overlap              *)
(* ===================================================================== *)

Lemma entries_single (k : jsstring) (q : QueuedMessage) (live cb : bool)
    (waiting : list Tick) :
  entries (mkNode [q] [mkSlot k 0 live] cb waiting)
  = if live then [(k, q)] else [].
Proof. destruct live; reflexivity. Qed.

(** X27.  The documented backoff, when the writes of each tick settle
    before the timer fires again.  A queue holds one message with no
    attempt so far; it is retried at a first tick at or after its
    first due time, at a second tick at least base * 2^1 = 2 s after
    the first and at a third tick at least base * 2^2 = 4 s after the
    second, and the first two retries fail.  Then the bytes are
    written to the connected devices at each of the three ticks; after
    the second failure the entry is still queued with two attempts and
    its next retry due 4 s after the second tick; and the third tick
    ends it: 'delivered' is reported if a write succeeds, 'failed' if
    none does, once, and the entry is removed. *)
Theorem retries_back_off_when_ticks_settle (s : Service) (k : jsstring)
    (q : QueuedMessage) (env1 env2 env3 : Env) :
  messageQueue s = [(k, q)] -> attempts q = 0 ->
  nextRetryTime q <= now env1 ->
  now env1 + RETRY_BASE_DELAY_MS * 2 ^ 1 <= now env2 ->
  now env2 + RETRY_BASE_DELAY_MS * 2 ^ 2 <= now env3 ->
  transmit_ok env1 (serialized q) (connectedDevices env1) = false ->
  transmit_ok env2 (serialized q) (connectedDevices env2) = false ->
  let written env := map (fun d => (d, serialized q)) (connectedDevices env) in
  let twice :=
    run [TimerFires env1; WritesSettle 0 env1;
         TimerFires env2; WritesSettle 0 env2] (load s) in
  let thrice :=
    run [TimerFires env1; WritesSettle 0 env1;
         TimerFires env2; WritesSettle 0 env2;
         TimerFires env3; WritesSettle 0 env3] (load s) in
  entries twice.1
  = [(k, with_nextRetryTime (with_attempts q 2)
           (now env2 + RETRY_BASE_DELAY_MS * 2 ^ 2))]
  /\ statuses_of twice.2 = []
  /\ sends_of thrice.2 = written env1 ++ written env2 ++ written env3
  /\ statuses_of thrice.2
     = (if messageStatusCallback s
        then [(k, if transmit_ok env3 (serialized q) (connectedDevices env3)
                  then StatusDelivered else StatusFailed)]
        else [])
  /\ entries thrice.1 = [] /\ suspended thrice.1 = [].
Proof.
  intros Hq Ha H1 H2 H3 F1 F2 written twice thrice.
  assert (Hload : load s
                  = mkNode [q] [mkSlot k 0 true] (messageStatusCallback s) [])
    by (unfold load; rewrite Hq; reflexivity).
  assert (Htwice : twice
            = (mkNode [with_nextRetryTime (with_attempts q 2)
                         (now env2 + RETRY_BASE_DELAY_MS * 2 ^ 2)]
                 [mkSlot k 0 true] (messageStatusCallback s) [],
               (map (fun d => EvSend d (serialized q)) (connectedDevices env1)
                ++ map (fun d => EvError (LogSendFailedToPeer d))
                     (rejected env1 (serialized q) (connectedDevices env1)))
               ++ map (fun d => EvSend d (serialized q)) (connectedDevices env2)
               ++ map (fun d => EvError (LogSendFailedToPeer d))
                    (rejected env2 (serialized q) (connectedDevices env2)))).
  { subst twice. rewrite Hload. cbn [run step].
    rewrite startTick_due by exact H1. cbn [app].
    rewrite resumeTick_single by reflexivity.
    cbn [tick_env tick_data tick_now attempts with_attempts].
    rewrite F1, Ha. change (MAX_SEND_RETRIES <=? 0 + 1) with false.
    cbn [orb]. cbv iota.
    rewrite startTick_due
      by (cbn [nextRetryTime with_nextRetryTime]; exact H2).
    cbn [app serialized with_nextRetryTime with_attempts attempts].
    rewrite resumeTick_single by reflexivity.
    cbn [tick_env tick_data tick_now attempts with_attempts
         with_nextRetryTime].
    rewrite F2. change (MAX_SEND_RETRIES <=? 0 + 1 + 1) with false.
    cbn [orb]. cbv iota. rewrite !app_nil_r, <- !app_assoc.
    reflexivity. }
  assert (Hthrice : thrice
            = (let (n2, t2) := twice in
               let (n3, t3) :=
                 run [TimerFires env3; WritesSettle 0 env3] n2 in
               (n3, t2 ++ t3))).
  { subst thrice twice. cbn [run].
    repeat match goal with
           | |- context [step ?a ?n] => destruct (step a n) as [? ?]
           end.
    rewrite !app_nil_r, <- !app_assoc. reflexivity. }
  rewrite Hthrice, Htwice. cbn [fst snd].
  split; [apply entries_single|].
  split.
  { rewrite !statuses_of_app, !statuses_of_started, !statuses_of_logged.
    reflexivity. }
  cbn [run step].
  rewrite startTick_due
    by (cbn [nextRetryTime with_nextRetryTime]; exact H3).
  cbn [app serialized with_nextRetryTime with_attempts attempts].
  rewrite resumeTick_single by reflexivity.
  cbn [tick_env tick_data tick_now attempts with_attempts with_nextRetryTime].
  change (MAX_SEND_RETRIES <=? 2 + 1) with true. rewrite orb_true_r.
  cbv iota. cbn [fst snd].
  split.
  { rewrite !sends_of_app, !sends_of_started, !sends_of_logged.
    destruct (transmit_ok env3 _ _), (messageStatusCallback s);
      cbn [sends_of flat_map app]; rewrite ?app_nil_r, <- ?app_assoc;
      reflexivity. }
  split.
  { rewrite !statuses_of_app, !statuses_of_started, !statuses_of_logged.
    destruct (transmit_ok env3 _ _), (messageStatusCallback s); reflexivity. }
  split; [apply entries_single | reflexivity].
Qed.

(** The message of the retry scenario, retried at t + 1 s, t + 3 s and
    t + 7 s with every link down. *)
Lemma retries_back_off_when_ticks_settle_witness :
  length (sends_of
    (run [TimerFires (Samples.envAt 1700000001000 false true);
          WritesSettle 0 (Samples.envAt 1700000001000 false true);
          TimerFires (Samples.envAt 1700000003000 false true);
          WritesSettle 0 (Samples.envAt 1700000003000 false true);
          TimerFires (Samples.envAt 1700000007000 false true);
          WritesSettle 0 (Samples.envAt 1700000007000 false true)]
       (load (state_of Samples.sendWhileLinkDown))).2) = 9%nat
  /\ statuses_of
       (run [TimerFires (Samples.envAt 1700000001000 false true);
             WritesSettle 0 (Samples.envAt 1700000001000 false true);
             TimerFires (Samples.envAt 1700000003000 false true);
             WritesSettle 0 (Samples.envAt 1700000003000 false true);
             TimerFires (Samples.envAt 1700000007000 false true);
             WritesSettle 0 (Samples.envAt 1700000007000 false true)]
          (load (state_of Samples.sendWhileLinkDown))).2
     = [(MoreSamples.queuedId, StatusFailed)].
Proof.
  destruct (retries_back_off_when_ticks_settle
              (state_of Samples.sendWhileLinkDown) MoreSamples.queuedId
              MoreSamples.queuedEntry
              (Samples.envAt 1700000001000 false true)
              (Samples.envAt 1700000003000 false true)
              (Samples.envAt 1700000007000 false true))
    as (_ & _ & H3 & H4 & _).
  - vm_compute. reflexivity.
  - reflexivity.
  - vm_compute. discriminate.
  - vm_compute. discriminate.
  - vm_compute. discriminate.
  - reflexivity.
  - reflexivity.
  - split; [rewrite H3; reflexivity | rewrite H4; reflexivity].
Defined.
(* ===================================================================== *)
(** * Further properties of the code                                      *)
(* ===================================================================== *)

Import MoreObservations.

(* ===================================================================== *)
(** ** The wire format: decoding and re-encoding                          *)
(* ===================================================================== *)

Lemma be_value_app (bs : bytes) : forall acc,
  fold_left (fun a b => 256 * a + byteZ b) bs acc
  = acc * 2 ^ (8 * len bs) + be_value bs.
Proof.
  unfold be_value, len.
  induction bs as [|b bs IH] using rev_ind; intros acc.
  - simpl. lia.
  - rewrite !fold_left_app. cbn [fold_left]. rewrite IH, (IH 0).
    rewrite length_app. cbn [length].
    replace (8 * Z.of_nat (length bs + 1)) with (8 * Z.of_nat (length bs) + 8)
      by lia.
    rewrite Z.pow_add_r by lia. change (2 ^ 8) with 256. lia.
Qed.

Lemma be_value_range (bs : bytes) : 0 <= be_value bs < 2 ^ (8 * len bs).
Proof.
  unfold be_value, len.
  induction bs as [|b bs IH] using rev_ind.
  - simpl. lia.
  - rewrite fold_left_app. cbn [fold_left]. rewrite length_app. cbn [length].
    replace (8 * Z.of_nat (length bs + 1)) with (8 * Z.of_nat (length bs) + 8)
      by lia.
    rewrite Z.pow_add_r by lia. change (2 ^ 8) with 256.
    pose proof (byteZ_range b). lia.
Qed.

Lemma be_bytes_snoc (w : nat) : forall z,
  be_bytes (S w) z = be_bytes w (z / 256) ++ [u8 z].
Proof.
  induction w as [|w IH]; intros z.
  - cbn [be_bytes app]. rewrite Z.shiftr_0_r. reflexivity.
  - change (be_bytes (S (S w)) z)
      with (u8 (Z.shiftr z (8 * Z.of_nat (S w))) :: be_bytes (S w) z).
    rewrite IH. cbn [be_bytes app]. f_equal.
    f_equal. rewrite !Z.shiftr_div_pow2 by lia.
    replace (8 * Z.of_nat (S w)) with (8 + 8 * Z.of_nat w) by lia.
    rewrite Z.pow_add_r by lia. change (2 ^ 8) with 256.
    rewrite Z.div_div by lia. reflexivity.
Qed.

Lemma be_bytes_be_value (bs : bytes) :
  be_bytes (length bs) (be_value bs) = bs.
Proof.
  unfold be_value.
  induction bs as [|b bs IH] using rev_ind; [reflexivity|].
  rewrite fold_left_app. cbn [fold_left]. rewrite length_app. cbn [length].
  replace (length bs + 1)%nat with (S (length bs)) by lia.
  rewrite be_bytes_snoc. pose proof (byteZ_range b).
  replace ((256 * fold_left (fun a b0 => 256 * a + byteZ b0) bs 0 + byteZ b) / 256)
    with (fold_left (fun a b0 => 256 * a + byteZ b0) bs 0).
  2:{ symmetry. rewrite Z.mul_comm, Z.div_add_l by lia.
      rewrite Z.div_small by lia. lia. }
  rewrite IH. f_equal. f_equal.
  rewrite <- (u8_byteZ b) at 2. unfold u8.
  rewrite Z.add_comm, Z.mul_comm, Z.mod_add by lia. reflexivity.
Qed.

Lemma getUint_Some (w : nat) (data : bytes) (off z : Z) :
  getUint w data off = Some z ->
  0 <= off /\ off + Z.of_nat w <= len data
  /\ z = be_value (slice data off (off + Z.of_nat w)).
Proof.
  unfold getUint. intros H.
  destruct (off <? 0) eqn:E1; [discriminate|].
  destruct (Z.of_nat (length data) <? off + Z.of_nat w) eqn:E2; [discriminate|].
  cbn [orb] in H. injection H as <-.
  apply Z.ltb_ge in E1, E2. unfold len, slice.
  replace (off + Z.of_nat w - off) with (Z.of_nat w) by lia.
  rewrite Nat2Z.id. repeat split; try lia; reflexivity.
Qed.

Lemma length_slice {A} (data : list A) (a b : Z) :
  0 <= a -> a <= b -> b <= len data -> len (slice data a b) = b - a.
Proof.
  unfold slice, len. intros. rewrite length_firstn, length_skipn. lia.
Qed.

Lemma skipn_slice {A} (data : list A) (a b : Z) :
  0 <= a -> a <= b ->
  skipn (Z.to_nat a) data = slice data a b ++ skipn (Z.to_nat b) data.
Proof.
  intros Ha Hb. unfold slice.
  replace (Z.to_nat b) with (Z.to_nat (b - a) + Z.to_nat a)%nat by lia.
  rewrite <- skipn_skipn. symmetry. apply firstn_skipn.
Qed.

Lemma getUint_slice (w : nat) (data : bytes) (off z : Z) :
  getUint w data off = Some z ->
  0 <= off /\ off + Z.of_nat w <= len data
  /\ slice data off (off + Z.of_nat w) = be_bytes w z
  /\ 0 <= z < 2 ^ (8 * Z.of_nat w).
Proof.
  intros H. apply getUint_Some in H. destruct H as (H0 & H1 & ->).
  assert (Hl : len (slice data off (off + Z.of_nat w)) = Z.of_nat w).
  { rewrite length_slice by lia. lia. }
  split; [assumption|]. split; [assumption|]. split.
  - rewrite <- (be_bytes_be_value (slice data off (off + Z.of_nat w))) at 1.
    f_equal. unfold len in Hl. lia.
  - pose proof (be_value_range (slice data off (off + Z.of_nat w))) as Hr.
    rewrite Hl in Hr. exact Hr.
Qed.

Lemma deserialize_inv (data : bytes) (e : MessageEnvelope) :
  deserializeEnvelope data = Ok e ->
  exists idb sb rb ts,
    length idb = 16%nat /\ length sb = 8%nat /\ length rb = 8%nat
    /\ 0 <= ts < 2 ^ 64 /\ 0 <= ttl e < 256
    /\ len (nonce e) <= 1024 /\ len (tag e) <= 1024
    /\ len (encryptedPayload e) <= 10 * 1024 * 1024
    /\ data = [u8 1] ++ idb ++ sb ++ rb ++ be_bytes 8 ts ++ [u8 (ttl e)]
         ++ be_bytes 2 (len (nonce e)) ++ nonce e
         ++ be_bytes 2 (len (tag e)) ++ tag e
         ++ be_bytes 4 (len (encryptedPayload e)) ++ encryptedPayload e
    /\ e = {| version := 1; messageId := format_uuid (bytes_to_hex idb);
              senderId := bytes_to_hex sb; recipientId := bytes_to_hex rb;
              timestamp := Number_of_BigInt ts; ttl := ttl e;
              encryptedPayload := encryptedPayload e; nonce := nonce e;
              tag := tag e |}.
Proof.
  intros H. unfold deserializeEnvelope in H. cbv zeta in H.
  destruct (len data <? 50) eqn:Hlen; [discriminate|]. cbn [negb] in H.
  apply Z.ltb_ge in Hlen.
  destruct (getUint 1 data 0) as [v|] eqn:Hv; [|discriminate].
  cbn [view_read rbind] in H.
  destruct (v =? MESSAGE_ENVELOPE_VERSION) eqn:Hver; [|discriminate].
  apply Z.eqb_eq in Hver. unfold MESSAGE_ENVELOPE_VERSION in Hver. subst v.
  destruct (getUint 8 data _) as [ts|] eqn:Hts; [|discriminate].
  cbn [view_read rbind] in H.
  destruct (getUint 1 data _) as [t|] eqn:Ht in H; [|discriminate].
  cbn [view_read rbind] in H.
  destruct (getUint 2 data _) as [nl|] eqn:Hnl in H; [|discriminate].
  cbn [view_read rbind] in H.
  destruct (1024 <? nl) eqn:Hn1; [discriminate|]. cbn [negb] in H.
  destruct (len data <? _) eqn:Hn2 in H; [discriminate|]. cbn [negb] in H.
  destruct (len data <? _) eqn:Hn3 in H; [discriminate|]. cbn [negb] in H.
  destruct (getUint 2 data _) as [tl|] eqn:Htl in H; [|discriminate].
  cbn [view_read rbind] in H.
  destruct (1024 <? tl) eqn:Ht1; [discriminate|]. cbn [negb] in H.
  destruct (len data <? _) eqn:Ht2 in H; [discriminate|]. cbn [negb] in H.
  destruct (len data <? _) eqn:Ht3 in H; [discriminate|]. cbn [negb] in H.
  destruct (getUint 4 data _) as [pl|] eqn:Hpl in H; [|discriminate].
  cbn [view_read rbind] in H.
  destruct (_ <? pl) eqn:Hp1 in H; [discriminate|]. cbn [negb] in H.
  destruct (_ =? len data) eqn:Hp2 in H; [|discriminate].
  destruct (validateEnvelope _) as [b|] eqn:Hval in H; [|discriminate].
  cbn [rbind] in H. injection H as <-. cbn [ttl nonce tag encryptedPayload].
  apply Z.ltb_ge in Hn1, Hn2, Hn3, Ht1, Ht2, Ht3, Hp1. apply Z.eqb_eq in Hp2.
  apply getUint_slice in Hv, Hts, Ht, Hnl, Htl, Hpl.
  destruct Hv as (_ & _ & Hv & _). destruct Hts as (_ & _ & Hts & Htsr).
  destruct Ht as (_ & _ & Ht & Htr). destruct Hnl as (_ & _ & Hnl & Hnlr).
  destruct Htl as (_ & _ & Htl & Htlr). destruct Hpl as (_ & _ & Hpl & Hplr).
  exists (slice data (0 + 1) (0 + 1 + 16)),
         (slice data (0 + 1 + 16) (0 + 1 + 16 + 8)),
         (slice data (0 + 1 + 16 + 8) (0 + 1 + 16 + 8 + 8)), ts.
  assert (L1 : forall a b, 0 <= a -> a <= b -> b <= len data ->
                 length (slice data a b) = Z.to_nat (b - a)).
  { intros a b0 H1 H2 H3. pose proof (length_slice data a b0 H1 H2 H3) as Hl.
    unfold len in Hl. lia. }
  split; [rewrite L1 by lia; reflexivity|].
  split; [rewrite L1 by lia; reflexivity|].
  split; [rewrite L1 by lia; reflexivity|].
  split; [exact Htsr|]. split; [simpl in Htr; lia|].
  assert (Hnlen : len (slice data (0 + 1 + 16 + 8 + 8 + 8 + 1 + 2)
                         (0 + 1 + 16 + 8 + 8 + 8 + 1 + 2 + nl)) = nl).
  { rewrite length_slice by lia. lia. }
  assert (Htlen : len (slice data (0 + 1 + 16 + 8 + 8 + 8 + 1 + 2 + nl + 2)
                         (0 + 1 + 16 + 8 + 8 + 8 + 1 + 2 + nl + 2 + tl)) = tl).
  { rewrite length_slice by lia. lia. }
  assert (Hplen : len (slice data
                         (0 + 1 + 16 + 8 + 8 + 8 + 1 + 2 + nl + 2 + tl + 4)
                         (0 + 1 + 16 + 8 + 8 + 8 + 1 + 2 + nl + 2 + tl + 4 + pl))
                  = pl).
  { rewrite length_slice by lia. lia. }
  split; [lia|]. split; [lia|]. split; [lia|].
  split; [|reflexivity].
  rewrite Hnlen, Htlen, Hplen.
  change [u8 1] with (be_bytes 1 1). rewrite <- (be_bytes_1 t).
  rewrite <- Hv, <- Hts, <- Ht, <- Hnl, <- Htl, <- Hpl.
  change (Z.of_nat 1) with 1. change (Z.of_nat 8) with 8.
  change (Z.of_nat 2) with 2. change (Z.of_nat 4) with 4.
  change data with (skipn (Z.to_nat 0) data) at 1.
  rewrite (skipn_slice data 0 (0 + 1)) by lia. f_equal.
  rewrite (skipn_slice data (0 + 1) (0 + 1 + 16)) by lia. f_equal.
  rewrite (skipn_slice data (0 + 1 + 16) (0 + 1 + 16 + 8)) by lia. f_equal.
  rewrite (skipn_slice data (0 + 1 + 16 + 8) (0 + 1 + 16 + 8 + 8)) by lia.
  f_equal.
  rewrite (skipn_slice data (0 + 1 + 16 + 8 + 8) (0 + 1 + 16 + 8 + 8 + 8))
    by lia. f_equal.
  rewrite (skipn_slice data (0 + 1 + 16 + 8 + 8 + 8)
             (0 + 1 + 16 + 8 + 8 + 8 + 1)) by lia. f_equal.
  rewrite (skipn_slice data (0 + 1 + 16 + 8 + 8 + 8 + 1)
             (0 + 1 + 16 + 8 + 8 + 8 + 1 + 2)) by lia. f_equal.
  rewrite (skipn_slice data (0 + 1 + 16 + 8 + 8 + 8 + 1 + 2)
             (0 + 1 + 16 + 8 + 8 + 8 + 1 + 2 + nl)) by lia. f_equal.
  rewrite (skipn_slice data (0 + 1 + 16 + 8 + 8 + 8 + 1 + 2 + nl)
             (0 + 1 + 16 + 8 + 8 + 8 + 1 + 2 + nl + 2)) by lia. f_equal.
  rewrite (skipn_slice data (0 + 1 + 16 + 8 + 8 + 8 + 1 + 2 + nl + 2)
             (0 + 1 + 16 + 8 + 8 + 8 + 1 + 2 + nl + 2 + tl)) by lia. f_equal.
  rewrite (skipn_slice data (0 + 1 + 16 + 8 + 8 + 8 + 1 + 2 + nl + 2 + tl)
             (0 + 1 + 16 + 8 + 8 + 8 + 1 + 2 + nl + 2 + tl + 4)) by lia.
  f_equal.
  rewrite (skipn_slice data (0 + 1 + 16 + 8 + 8 + 8 + 1 + 2 + nl + 2 + tl + 4)
             (0 + 1 + 16 + 8 + 8 + 8 + 1 + 2 + nl + 2 + tl + 4 + pl)) by lia.
  rewrite skipn_all2, app_nil_r; [reflexivity|]. unfold len in *. lia.
Qed.

Lemma hex_char_lower (d : Z) : 0 <= d < 16 -> is_lower_hex (hex_char d) = true.
Proof.
  intros H.
  assert (Hc : d = 0 \/ d = 1 \/ d = 2 \/ d = 3 \/ d = 4 \/ d = 5 \/ d = 6
               \/ d = 7 \/ d = 8 \/ d = 9 \/ d = 10 \/ d = 11 \/ d = 12
               \/ d = 13 \/ d = 14 \/ d = 15) by lia.
  repeat (destruct Hc as [-> | Hc]; [reflexivity|]). subst d. reflexivity.
Qed.

Lemma hex2_lower (b : Byte.byte) : forallb is_lower_hex (hex2 b) = true.
Proof.
  unfold hex2. cbn [forallb]. pose proof (byteZ_range b).
  rewrite !hex_char_lower; [reflexivity| |].
  - apply Z.mod_pos_bound. lia.
  - split; [apply Z.div_pos; lia | apply Z.div_lt_upper_bound; lia].
Qed.

Lemma bytes_to_hex_lower (bs : bytes) :
  forallb is_lower_hex (bytes_to_hex bs) = true.
Proof.
  unfold bytes_to_hex. induction bs as [|b bs IH]; [reflexivity|].
  cbn [map concat]. rewrite forallb_app, hex2_lower, IH. reflexivity.
Qed.

Lemma length_bytes_to_hex (bs : bytes) :
  length (bytes_to_hex bs) = (2 * length bs)%nat.
Proof.
  unfold bytes_to_hex. induction bs as [|b bs IH]; [reflexivity|].
  cbn [map concat]. rewrite length_app, IH. cbn [hex2 length]. lia.
Qed.

Lemma parse_hex2 (b : Byte.byte) : u8_of_parse (parseInt16 (hex2 b)) = b.
Proof. destruct b; vm_compute; reflexivity. Qed.

Lemma hex_to_bytes_bytes_to_hex (bs : bytes) :
  hex_to_bytes (bytes_to_hex bs) (length bs) = bs.
Proof.
  induction bs as [|b bs IH]; [reflexivity|].
  change (bytes_to_hex (b :: bs)) with (hex2 b ++ bytes_to_hex bs).
  unfold hex2 at 1. cbn [app length].
  rewrite hex_to_bytes_cons, IH.
  change [hex_char (byteZ b / 16); hex_char (byteZ b mod 16)] with (hex2 b).
  rewrite parse_hex2. reflexivity.
Qed.

Lemma format_uuid_canonical (hex : jsstring) :
  length hex = 32%nat -> forallb is_lower_hex hex = true ->
  is_canonical_uuid (format_uuid hex) = true
  /\ remove_hyphens (format_uuid hex) = hex.
Proof.
  intros Hl Hh.
  do 32 (destruct hex as [|? hex]; [discriminate Hl|]).
  destruct hex; [|discriminate Hl]. clear Hl.
  cbn [forallb] in Hh. split_andb.
  unfold format_uuid, substr. cbn [skipn firstn app].
  split.
  - unfold is_canonical_uuid, substr. cbn [length Nat.eqb skipn firstn forallb].
    repeat match goal with
           | H : is_lower_hex ?c = true |- _ => rewrite H; clear H
           end.
    reflexivity.
  - repeat first [ rewrite remove_hyphens_hyphen
                 | rewrite remove_hyphens_hex by assumption ].
    reflexivity.
Qed.

Lemma Number_of_BigInt_large (z : Z) :
  2 ^ 53 <= z -> 2 ^ 53 <= Number_of_BigInt z.
Proof.
  intros Hz. unfold Number_of_BigInt.
  replace (z <? 2 ^ 53) with false by (symmetry; apply Z.ltb_ge; assumption).
  cbv zeta.
  assert (Hlog : 53 <= Z.log2 z) by (apply Z.log2_le_pow2; lia).
  set (sh := Z.log2 z - 52).
  assert (Hq : 2 ^ 52 <= Z.shiftr z sh).
  { rewrite Z.shiftr_div_pow2 by lia.
    apply Z.div_le_lower_bound; [apply Z.pow_pos_nonneg; lia|].
    rewrite Z.mul_comm, <- Z.pow_add_r by lia.
    replace (52 + sh) with (Z.log2 z) by lia.
    apply Z.log2_spec. lia. }
  match goal with
  | |- _ <= Z.shiftl ?q _ => assert (Hq' : 2 ^ 52 <= q)
  end.
  { destruct (_ || _); lia. }
  rewrite Z.shiftl_mul_pow2 by lia.
  assert (Hsh : 2 ^ 1 <= 2 ^ sh) by (apply Z.pow_le_mono_r; lia).
  change (2 ^ 53) with (2 ^ 52 * 2 ^ 1). nia.
Qed.

Lemma Number_of_BigInt_small (z : Z) :
  Number_of_BigInt z < 2 ^ 53 -> Number_of_BigInt z = z.
Proof.
  intros H. destruct (Z_lt_dec z (2 ^ 53)) as [Hz|Hz].
  - unfold Number_of_BigInt. apply Z.ltb_lt in Hz. rewrite Hz. reflexivity.
  - pose proof (Number_of_BigInt_large z). lia.
Qed.

(** X1.  Serializing what [deserializeEnvelope] returned gives the
    received bytes back: for every byte array that deserializes to an
    envelope whose timestamp is below 2^53 (so that the JavaScript
    number holds the 64-bit field exactly), [serializeEnvelope] of that
    envelope succeeds and returns exactly those bytes. *)
Theorem reserialize_gives_received_bytes (data : bytes) (e : MessageEnvelope) :
  deserializeEnvelope data = Ok e ->
  timestamp e < 2 ^ 53 ->
  serializeEnvelope e = Ok data.
Proof.
  intros Hde Hts.
  pose proof (deserializeEnvelope_validates _ _ Hde) as Hval.
  destruct (deserialize_inv _ _ Hde)
    as (idb & sb & rb & ts & Hid & Hsb & Hrb & Htsr & Httl & Hn & Ht & Hp
        & Hdata & He).
  assert (Hm : messageId e = format_uuid (bytes_to_hex idb))
    by (rewrite He; reflexivity).
  assert (Hs : senderId e = bytes_to_hex sb) by (rewrite He; reflexivity).
  assert (Hr : recipientId e = bytes_to_hex rb) by (rewrite He; reflexivity).
  assert (Ht' : timestamp e = Number_of_BigInt ts) by (rewrite He; reflexivity).
  destruct (format_uuid_canonical (bytes_to_hex idb)) as [_ Hrm].
  { rewrite length_bytes_to_hex, Hid. reflexivity. }
  { apply bytes_to_hex_lower. }
  rewrite serializeEnvelope_layout.
  - rewrite Hm, Hrm, Hs, Hr.
    rewrite <- Hid at 1. rewrite hex_to_bytes_bytes_to_hex.
    rewrite <- Hsb at 1. rewrite hex_to_bytes_bytes_to_hex.
    rewrite <- Hrb at 1. rewrite hex_to_bytes_bytes_to_hex.
    rewrite Ht', Number_of_BigInt_small by (rewrite <- Ht'; assumption).
    rewrite Hdata. reflexivity.
  - assumption.
  - rewrite Hm, Hrm. unfold len. rewrite length_bytes_to_hex, Hid. reflexivity.
  - rewrite Hs. unfold len. rewrite length_bytes_to_hex, Hsb. reflexivity.
  - rewrite Hr. unfold len. rewrite length_bytes_to_hex, Hrb. reflexivity.
Qed.

Lemma reserialize_gives_received_bytes_witness :
  serializeEnvelope Samples.testEnvelope = Ok Samples.testWire.
Proof.
  apply reserialize_gives_received_bytes.
  - vm_compute. reflexivity.
  - reflexivity.
Defined.

Lemma wire_length (idb sb rb : bytes) (ts ttl_ : Z) (n t p : bytes) :
  length idb = 16%nat -> length sb = 8%nat -> length rb = 8%nat ->
  len ([u8 1] ++ idb ++ sb ++ rb ++ be_bytes 8 ts ++ [u8 ttl_]
         ++ be_bytes 2 (len n) ++ n ++ be_bytes 2 (len t) ++ t
         ++ be_bytes 4 (len p) ++ p)
  = 50 + len n + len t + len p.
Proof.
  intros H1 H2 H3. unfold len.
  rewrite !length_app, !length_be_bytes, H1, H2, H3. cbn [length]. lia.
Qed.

Lemma deserialize_length (data : bytes) (e : MessageEnvelope) :
  deserializeEnvelope data = Ok e ->
  len data = 50 + len (nonce e) + len (tag e) + len (encryptedPayload e).
Proof.
  intros Hde.
  destruct (deserialize_inv _ _ Hde)
    as (idb & sb & rb & ts & Hid & Hsb & Hrb & _ & _ & _ & _ & _ & Hdata & _).
  rewrite Hdata at 1. apply wire_length; assumption.
Qed.

(** X2.  Whatever [deserializeEnvelope] accepts is well formed: the
    envelope passes [validateEnvelope], its message id is a lower-case
    hyphenated UUID, sender and recipient ids are sixteen lower-case
    hexadecimal digits, version is 1, ttl is a byte, the timestamp is
    positive, nonce and tag hold 1 to 1024 bytes, the payload 1 byte to
    10 MiB, and the input is exactly 50 bytes of fixed fields and
    length prefixes plus nonce, tag and payload. *)
Theorem deserialize_yields_canonical (data : bytes) (e : MessageEnvelope) :
  deserializeEnvelope data = Ok e ->
  validateEnvelope e = Ok true
  /\ is_canonical_uuid (messageId e) = true
  /\ is_lower_hex_id (senderId e) = true
  /\ is_lower_hex_id (recipientId e) = true
  /\ version e = 1 /\ 0 <= ttl e <= 255 /\ 0 < timestamp e
  /\ 1 <= len (nonce e) <= 1024 /\ 1 <= len (tag e) <= 1024
  /\ 1 <= len (encryptedPayload e) <= 10 * 1024 * 1024
  /\ len data
     = 50 + len (nonce e) + len (tag e) + len (encryptedPayload e).
Proof.
  intros Hde.
  pose proof (deserializeEnvelope_validates _ _ Hde) as Hval.
  pose proof (validateEnvelope_inv _ Hval)
    as (Hv & Httl & Hts & _ & _ & _ & Hn1 & Ht1 & Hp1).
  destruct (deserialize_inv _ _ Hde)
    as (idb & sb & rb & ts & Hid & Hsb & Hrb & Htsr & _ & Hn & Ht & Hp
        & Hdata & He).
  destruct (format_uuid_canonical (bytes_to_hex idb)) as [Hcan _].
  { rewrite length_bytes_to_hex, Hid. reflexivity. }
  { apply bytes_to_hex_lower. }
  assert (Hhex : forall bs : bytes, length bs = 8%nat ->
                   is_lower_hex_id (bytes_to_hex bs) = true).
  { intros bs Hl. unfold is_lower_hex_id.
    rewrite length_bytes_to_hex, Hl, bytes_to_hex_lower. reflexivity. }
  split; [assumption|].
  split; [rewrite He; exact Hcan|].
  split; [rewrite He; apply Hhex; assumption|].
  split; [rewrite He; apply Hhex; assumption|].
  split; [assumption|]. split; [assumption|]. split; [assumption|].
  split; [lia|]. split; [lia|]. split; [lia|].
  apply deserialize_length. assumption.
Qed.

Lemma deserialize_yields_canonical_witness :
  is_canonical_uuid (messageId Samples.testEnvelope) = true
  /\ len Samples.testWire = 50 + 12 + 16 + 5.
Proof.
  destruct (deserialize_yields_canonical Samples.testWire Samples.testEnvelope)
    as (_ & Hc & _ & _ & _ & _ & _ & _ & _ & _ & Hl).
  - vm_compute. reflexivity.
  - split; [exact Hc | exact Hl].
Defined.

Lemma be_bytes_inj (w : nat) (a b : Z) :
  0 <= a < 2 ^ (8 * Z.of_nat w) -> 0 <= b < 2 ^ (8 * Z.of_nat w) ->
  be_bytes w a = be_bytes w b -> a = b.
Proof.
  intros Ha Hb H. rewrite <- (be_value_be_bytes w a), <- (be_value_be_bytes w b)
    by assumption. rewrite H. reflexivity.
Qed.

Lemma len_nonneg {A} (l : list A) : 0 <= len l.
Proof. unfold len. lia. Qed.

(** X3.  The wire format admits no trailing bytes: a byte array that
    deserializes, followed by at least one more byte, is rejected. *)
Theorem deserialize_rejects_extension (data extra : bytes)
    (e : MessageEnvelope) :
  deserializeEnvelope data = Ok e -> extra <> [] ->
  exists err, deserializeEnvelope (data ++ extra) = Err err.
Proof.
  intros Hde Hne.
  destruct (deserializeEnvelope (data ++ extra)) as [e2|err] eqn:Hde2;
    [|exists err; reflexivity].
  exfalso. apply Hne.
  destruct (deserialize_inv _ _ Hde)
    as (idb & sb & rb & ts & Hid & Hsb & Hrb & Htsr & _ & Hn & Ht & Hp
        & Hdata & _).
  destruct (deserialize_inv _ _ Hde2)
    as (idb2 & sb2 & rb2 & ts2 & Hid2 & Hsb2 & Hrb2 & Htsr2 & _ & Hn2 & Ht2
        & Hp2 & Hdata2 & _).
  rewrite Hdata in Hdata2. rewrite <- !app_assoc in Hdata2.
  apply app_inj_1 in Hdata2; [|reflexivity]. destruct Hdata2 as [_ Heq].
  apply app_inj_1 in Heq; [|congruence]. destruct Heq as [_ Heq].
  apply app_inj_1 in Heq; [|congruence]. destruct Heq as [_ Heq].
  apply app_inj_1 in Heq; [|congruence]. destruct Heq as [_ Heq].
  apply app_inj_1 in Heq; [|rewrite !length_be_bytes; reflexivity].
  destruct Heq as [_ Heq].
  apply app_inj_1 in Heq; [|reflexivity]. destruct Heq as [_ Heq].
  apply app_inj_1 in Heq; [|rewrite !length_be_bytes; reflexivity].
  destruct Heq as [Hnl Heq].
  apply be_bytes_inj in Hnl;
    [|pose proof (len_nonneg (nonce e)); simpl; lia
     |pose proof (len_nonneg (nonce e2)); simpl; lia].
  apply app_inj_1 in Heq; [|unfold len in Hnl; lia].
  destruct Heq as [_ Heq].
  apply app_inj_1 in Heq; [|rewrite !length_be_bytes; reflexivity].
  destruct Heq as [Htl Heq].
  apply be_bytes_inj in Htl;
    [|pose proof (len_nonneg (tag e)); simpl; lia
     |pose proof (len_nonneg (tag e2)); simpl; lia].
  apply app_inj_1 in Heq; [|unfold len in Htl; lia].
  destruct Heq as [_ Heq].
  apply app_inj_1 in Heq; [|rewrite !length_be_bytes; reflexivity].
  destruct Heq as [Hpl Heq].
  apply be_bytes_inj in Hpl;
    [|pose proof (len_nonneg (encryptedPayload e)); simpl; lia
     |pose proof (len_nonneg (encryptedPayload e2)); simpl; lia].
  assert (Hlen : length (encryptedPayload e ++ extra)
                 = length (encryptedPayload e2)) by (rewrite Heq; reflexivity).
  rewrite length_app in Hlen. unfold len in Hpl.
  destruct extra; [reflexivity|]. cbn [length] in Hlen. lia.
Qed.

Lemma deserialize_rejects_extension_witness :
  exists err,
    deserializeEnvelope (Samples.testWire ++ [Byte.x00]) = Err err.
Proof.
  apply (deserialize_rejects_extension Samples.testWire [Byte.x00]
           Samples.testEnvelope).
  - vm_compute. reflexivity.
  - discriminate.
Defined.

Lemma getUint_in_range (w : nat) (data : bytes) (off : Z) :
  0 <= off -> off + Z.of_nat w <= len data ->
  exists z, getUint w data off = Some z /\ 0 <= z < 2 ^ (8 * Z.of_nat w).
Proof.
  intros H0 H1. unfold getUint.
  replace (off <? 0) with false by (symmetry; apply Z.ltb_ge; lia).
  replace (Z.of_nat (length data) <? off + Z.of_nat w) with false
    by (symmetry; apply Z.ltb_ge; unfold len in H1; lia).
  cbn [orb]. eexists. split; [reflexivity|].
  pose proof (be_value_range (firstn w (skipn (Z.to_nat off) data))) as Hr.
  unfold len in *. rewrite length_firstn, length_skipn in Hr.
  replace (Z.of_nat (Init.Nat.min w (length data - Z.to_nat off)))
    with (Z.of_nat w) in Hr by lia.
  exact Hr.
Qed.

Lemma format_uuid_nonempty (hex : jsstring) : is_empty (format_uuid hex) = false.
Proof.
  unfold format_uuid. destruct (substr hex 0 8); reflexivity.
Qed.

Lemma bytes_to_hex_nonempty (bs : bytes) :
  bs <> [] -> is_empty (bytes_to_hex bs) = false.
Proof. destruct bs; [contradiction|reflexivity]. Qed.

Lemma slice_nonempty {A} (data : list A) (a b : Z) :
  0 <= a -> a < b -> b <= len data -> slice data a b <> [].
Proof.
  intros H0 H1 H2 E. pose proof (length_slice data a b H0 ltac:(lia) H2) as Hl.
  rewrite E in Hl. unfold len in Hl. cbn [length] in Hl. lia.
Qed.

(** X4.  The errors of [deserializeEnvelope]: fewer than 50 bytes give
    the too-short error; 50 bytes or more with a first byte other than
    1 give the unsupported-version error; every rejection carries one
    of the fourteen specific envelope errors, never the generic
    deserialization-failed error of the catch-all handler. *)
Theorem deserialize_error_cases (data : bytes) :
  (len data < 50 -> deserializeEnvelope data = Err TooShort)
  /\ (forall b rest, data = b :: rest -> 50 <= len data -> b <> Byte.x01 ->
      deserializeEnvelope data = Err UnsupportedVersion)
  /\ (forall err, deserializeEnvelope data = Err err ->
      In err [TooShort; UnsupportedVersion; NonceTooLarge; NonceOverrun;
              MissingTagLength; TagTooLarge; TagOverrun; MissingPayloadLength;
              PayloadTooLarge; PayloadLengthMismatch; InvalidTimestamp;
              EmptyNonce; EmptyTag; EmptyPayload]).
Proof.
  split; [|split].
  - intros H. unfold deserializeEnvelope. apply Z.ltb_lt in H. rewrite H.
    reflexivity.
  - intros b rest -> Hlen Hb. unfold deserializeEnvelope.
    replace (len (b :: rest) <? 50) with false
      by (symmetry; apply Z.ltb_ge; assumption).
    cbn [negb]. cbv zeta.
    assert (Hg : getUint 1 (b :: rest) 0 = Some (byteZ b)).
    { unfold getUint, be_value. cbn [Z.ltb Z.compare orb].
      replace (Z.of_nat (length (b :: rest)) <? 0 + Z.of_nat 1) with false
        by (symmetry; apply Z.ltb_ge; cbn [length]; lia).
      change (Z.to_nat 0) with O. cbn [skipn firstn fold_left]. f_equal; lia. }
    rewrite Hg. cbn [view_read rbind].
    replace (byteZ b =? MESSAGE_ENVELOPE_VERSION) with false; [reflexivity|].
    symmetry. apply Z.eqb_neq. intros E. apply Hb.
    rewrite <- (u8_byteZ b), E. reflexivity.
  - intros err H. unfold deserializeEnvelope in H. cbv zeta in H.
    destruct (len data <? 50) eqn:Hlen;
      [injection H as <-; cbn; tauto|]. cbn [negb] in H.
    apply Z.ltb_ge in Hlen.
    destruct (getUint_in_range 1 data 0) as (v & Hv & Hvr); [lia|simpl; lia|].
    rewrite Hv in H. cbn [view_read rbind] in H.
    destruct (v =? MESSAGE_ENVELOPE_VERSION) eqn:Hver;
      [|injection H as <-; cbn; tauto].
    destruct (getUint_in_range 8 data (0 + 1 + 16 + 8 + 8))
      as (ts & Hts & Htsr); [lia|simpl; lia|].
    rewrite Hts in H. cbn [view_read rbind] in H.
    destruct (getUint_in_range 1 data (0 + 1 + 16 + 8 + 8 + 8))
      as (t & Ht & Htr); [lia|simpl; lia|].
    rewrite Ht in H. cbn [view_read rbind] in H.
    destruct (getUint_in_range 2 data (0 + 1 + 16 + 8 + 8 + 8 + 1))
      as (nl & Hnl & Hnlr); [lia|simpl; lia|].
    rewrite Hnl in H. cbn [view_read rbind] in H.
    destruct (1024 <? nl) eqn:Hn1; [injection H as <-; cbn; tauto|].
    cbn [negb] in H.
    destruct (len data <? _) eqn:Hn2 in H; [injection H as <-; cbn; tauto|].
    cbn [negb] in H.
    destruct (len data <? _) eqn:Hn3 in H; [injection H as <-; cbn; tauto|].
    cbn [negb] in H.
    apply Z.ltb_ge in Hn1, Hn2, Hn3.
    destruct (getUint_in_range 2 data (0 + 1 + 16 + 8 + 8 + 8 + 1 + 2 + nl))
      as (tl & Htl & Htlr); [lia|simpl; lia|].
    rewrite Htl in H. cbn [view_read rbind] in H.
    destruct (1024 <? tl) eqn:Ht1; [injection H as <-; cbn; tauto|].
    cbn [negb] in H.
    destruct (len data <? _) eqn:Ht2 in H; [injection H as <-; cbn; tauto|].
    cbn [negb] in H.
    destruct (len data <? _) eqn:Ht3 in H; [injection H as <-; cbn; tauto|].
    cbn [negb] in H.
    apply Z.ltb_ge in Ht1, Ht2, Ht3.
    destruct (getUint_in_range 4 data
                (0 + 1 + 16 + 8 + 8 + 8 + 1 + 2 + nl + 2 + tl))
      as (pl & Hpl & Hplr); [lia|simpl; lia|].
    rewrite Hpl in H. cbn [view_read rbind] in H.
    destruct (_ <? pl) eqn:Hp1 in H; [injection H as <-; cbn; tauto|].
    cbn [negb] in H.
    destruct (_ =? len data) eqn:Hp2 in H; [|injection H as <-; cbn; tauto].
    unfold validateEnvelope in H.
    cbn [version ttl messageId senderId recipientId timestamp nonce tag
         encryptedPayload] in H.
    rewrite Hver in H.
    replace ((0 <=? t) && (t <=? 255)) with true in H.
    2:{ symmetry. apply andb_true_iff. split; apply Z.leb_le; simpl in Htr; lia. }
    rewrite format_uuid_nonempty in H.
    rewrite !bytes_to_hex_nonempty in H by (apply slice_nonempty; lia).
    cbn [negb] in H.
    repeat match type of H with
           | context [if ?c then _ else _] =>
               destruct c; [|injection H as <-; cbn; tauto]
           end.
    discriminate H.
Qed.

Lemma sends_of_relay_if (env : Env) (e : MessageEnvelope) (x : jsstring) :
  sends_of (relay_if env e x)
  = if 0 <? ttl e then
      match serializeEnvelope (with_ttl e (ttl e - 1)) with
      | Ok sent => map (fun d => (d, sent)) (devicesToSend env (Some x))
      | Err _ => []
      end
    else [].
Proof.
  unfold relay_if. destruct (0 <? ttl e); [|reflexivity].
  unfold relay_events. cbv zeta.
  change (sends_of (EvRelayTrace ?i ?n :: ?l)) with (sends_of l).
  destruct (serializeEnvelope (with_ttl e (ttl e - 1))) as [sent|err];
    [|reflexivity].
  rewrite sends_of_app, sends_of_send_events. cbn [sends_of flat_map app].
  apply app_nil_r.
Qed.

Lemma handle_sends (crypto : CryptoService) (env : Env) (senderId : jsstring)
    (data : bytes) (peers : list (jsstring * Peer)) (s : Service)
    (e : MessageEnvelope) :
  deserializeEnvelope data = Ok e ->
  forall d sent,
    In (d, sent)
       (sends_of (trace_of
          (handleIncomingMessage crypto env senderId data peers s))) ->
    isDuplicate (cache s) (messageId e) = false
    /\ 0 < ttl e
    /\ In d (devicesToSend env (Some senderId))
    /\ serializeEnvelope (with_ttl e (ttl e - 1)) = Ok sent.
Proof.
  intros Hde d sent Hin.
  rewrite handleIncomingMessage_run in Hin. unfold handle_result in Hin.
  rewrite Hde in Hin.
  destruct (isDuplicate (cache s) (messageId e)) eqn:Hdup; [destruct Hin|].
  split; [reflexivity|].
  pose proof (handle_fresh_summary crypto env senderId e peers
                (set_cache (markAsProcessed (now env) (messageId e) (cache s)) s))
    as (_ & _ & _ & _ & _ & Hs).
  apply Hs in Hin. rewrite sends_of_relay_if in Hin.
  destruct (0 <? ttl e) eqn:Hpos; [|destruct Hin].
  apply Z.ltb_lt in Hpos. split; [assumption|].
  destruct (serializeEnvelope (with_ttl e (ttl e - 1))) as [sent'|err];
    [|destruct Hin].
  apply in_map_iff in Hin. destruct Hin as (d' & Heq & Hd).
  injection Heq as -> ->. split; [assumption|reflexivity].
Qed.

Lemma relay_bytes (data : bytes) (e : MessageEnvelope) (t : Z) :
  deserializeEnvelope data = Ok e -> timestamp e < 2 ^ 53 -> 0 <= t <= 255 ->
  serializeEnvelope (with_ttl e t)
  = Ok (firstn 41 data ++ [u8 t] ++ skipn 42 data)
  /\ deserializeEnvelope (firstn 41 data ++ [u8 t] ++ skipn 42 data)
     = Ok (with_ttl e t).
Proof.
  intros Hde Hts Ht.
  pose proof (deserializeEnvelope_validates _ _ Hde) as Hval.
  destruct (deserialize_inv _ _ Hde)
    as (idb & sb & rb & ts & Hid & Hsb & Hrb & Htsr & _ & Hn & Htg & Hp
        & Hdata & He).
  assert (Hm : messageId e = format_uuid (bytes_to_hex idb))
    by (rewrite He; reflexivity).
  assert (Hs : senderId e = bytes_to_hex sb) by (rewrite He; reflexivity).
  assert (Hr : recipientId e = bytes_to_hex rb) by (rewrite He; reflexivity).
  assert (Ht' : timestamp e = Number_of_BigInt ts) by (rewrite He; reflexivity).
  assert (Hts' : Number_of_BigInt ts = ts)
    by (apply Number_of_BigInt_small; rewrite <- Ht'; assumption).
  destruct (format_uuid_canonical (bytes_to_hex idb)) as [_ Hrm].
  { rewrite length_bytes_to_hex, Hid. reflexivity. }
  { apply bytes_to_hex_lower. }
  assert (Hpre : firstn 41 data
                 = [u8 1] ++ idb ++ sb ++ rb ++ be_bytes 8 ts).
  { rewrite Hdata. rewrite !(app_assoc _ _ ([u8 (ttl e)] ++ _)).
    apply take_app_length'. rewrite !length_app, length_be_bytes, Hid, Hsb, Hrb.
    reflexivity. }
  assert (Hpost : skipn 42 data
                  = be_bytes 2 (len (nonce e)) ++ nonce e
                      ++ be_bytes 2 (len (tag e)) ++ tag e
                      ++ be_bytes 4 (len (encryptedPayload e))
                      ++ encryptedPayload e).
  { rewrite Hdata at 1.
    rewrite !(app_assoc _ _ (be_bytes 2 (len (nonce e)) ++ _)).
    apply drop_app_length'. rewrite !length_app, length_be_bytes, Hid, Hsb, Hrb.
    reflexivity. }
  rewrite Hpre, Hpost, <- !app_assoc.
  assert (Hvalt : validateEnvelope (with_ttl e t) = Ok true)
    by (apply validateEnvelope_with_ttl; assumption).
  split.
  - rewrite serializeEnvelope_layout; cbn [with_ttl messageId senderId
      recipientId timestamp ttl nonce tag encryptedPayload]; try assumption.
    + rewrite Hm, Hrm, Hs, Hr.
      rewrite <- Hid at 1. rewrite hex_to_bytes_bytes_to_hex.
      rewrite <- Hsb at 1. rewrite hex_to_bytes_bytes_to_hex.
      rewrite <- Hrb at 1. rewrite hex_to_bytes_bytes_to_hex.
      rewrite Ht', Hts'. reflexivity.
    + rewrite Hm, Hrm. unfold len. rewrite length_bytes_to_hex, Hid.
      reflexivity.
    + rewrite Hs. unfold len. rewrite length_bytes_to_hex, Hsb. reflexivity.
    + rewrite Hr. unfold len. rewrite length_bytes_to_hex, Hrb. reflexivity.
  - apply deserialize_wire; try assumption; try lia.
    unfold with_ttl. rewrite Hm, Hs, Hr, Ht'.
    pose proof (validateEnvelope_inv _ Hval) as (Hv & _). rewrite Hv.
    reflexivity.
Qed.

(** X5.  Relaying rewrites one byte: whenever [handleIncomingMessage]
    transmits after receiving bytes that deserialize to an envelope
    with timestamp below 2^53, the bytes written are the received
    bytes with the byte at offset 41, the ttl, replaced by ttl - 1;
    they have the same length and deserialize to the same envelope
    with ttl - 1. *)
Theorem relay_rewrites_only_ttl_byte (crypto : CryptoService) (env : Env)
    (senderId : jsstring) (data : bytes) (peers : list (jsstring * Peer))
    (s : Service) (e : MessageEnvelope) :
  deserializeEnvelope data = Ok e -> timestamp e < 2 ^ 53 ->
  forall d sent,
    In (d, sent)
       (sends_of (trace_of
          (handleIncomingMessage crypto env senderId data peers s))) ->
    sent = firstn 41 data ++ [u8 (ttl e - 1)] ++ skipn 42 data
    /\ len sent = len data
    /\ deserializeEnvelope sent = Ok (with_ttl e (ttl e - 1)).
Proof.
  intros Hde Hts d sent Hin.
  destruct (handle_sends crypto env senderId data peers s e Hde d sent Hin)
    as (_ & Hpos & _ & Hser).
  pose proof (deserializeEnvelope_validates _ _ Hde) as Hval.
  pose proof (validateEnvelope_inv _ Hval) as (_ & Httl & _).
  destruct (relay_bytes data e (ttl e - 1) Hde Hts ltac:(lia)) as [Hs Hd].
  rewrite Hs in Hser. injection Hser as <-.
  split; [reflexivity|]. split; [|exact Hd].
  pose proof (deserialize_length _ _ Hde) as Hlen.
  unfold len in *. rewrite !length_app, length_firstn. cbn [length].
  rewrite length_skipn. lia.
Qed.

Lemma relay_rewrites_only_ttl_byte_witness :
  In (js "B", firstn 41 Samples.testWire ++ [u8 9] ++ skipn 42 Samples.testWire)
     (sends_of (trace_of
        (handleIncomingMessage Samples.mockCrypto
           (Samples.envAt 1700000000000 true true) (js "A") Samples.testWire
           Samples.peersOfNode initialService)))
  /\ deserializeEnvelope
       (firstn 41 Samples.testWire ++ [u8 9] ++ skipn 42 Samples.testWire)
     = Ok (with_ttl Samples.testEnvelope 9).
Proof.
  assert (Hin : In (js "B",
                    firstn 41 Samples.testWire ++ [u8 9]
                      ++ skipn 42 Samples.testWire)
                   (sends_of (trace_of
                      (handleIncomingMessage Samples.mockCrypto
                         (Samples.envAt 1700000000000 true true) (js "A")
                         Samples.testWire Samples.peersOfNode
                         initialService)))).
  { vm_compute. left. reflexivity. }
  split; [exact Hin|].
  apply (relay_rewrites_only_ttl_byte Samples.mockCrypto
           (Samples.envAt 1700000000000 true true) (js "A") Samples.testWire
           Samples.peersOfNode initialService Samples.testEnvelope
           ltac:(vm_compute; reflexivity) ltac:(reflexivity) (js "B") _ Hin).
Defined.

(* ===================================================================== *)
(** ** C2: the relay procedure                                            *)
(* ===================================================================== *)

Lemma Number_of_BigInt_shape (z : Z) :
  2 ^ 53 <= z ->
  exists q sh, 1 <= sh /\ 2 ^ 52 <= q <= 2 ^ 53
               /\ Number_of_BigInt z = q * 2 ^ sh.
Proof.
  intros Hz53. unfold Number_of_BigInt.
  replace (z <? 2 ^ 53) with false by (symmetry; apply Z.ltb_ge; lia).
  cbv zeta.
  assert (Hlog : 53 <= Z.log2 z) by (apply Z.log2_le_pow2; lia).
  set (sh := Z.log2 z - 52). assert (Hsh : 1 <= sh) by (subst sh; lia).
  destruct (Z.log2_spec z ltac:(lia)) as [Hlo Hhi].
  replace (Z.log2 z) with (52 + sh) in Hlo by (subst sh; lia).
  replace (Z.succ (Z.log2 z)) with (53 + sh) in Hhi by (subst sh; lia).
  rewrite Z.pow_add_r in Hlo, Hhi by lia.
  assert (Hp : 0 < 2 ^ sh) by (apply Z.pow_pos_nonneg; lia).
  rewrite Z.shiftr_div_pow2 by lia.
  assert (Hq1 : 2 ^ 52 <= z / 2 ^ sh)
    by (apply Z.div_le_lower_bound; lia).
  assert (Hq2 : z / 2 ^ sh < 2 ^ 53)
    by (apply Z.div_lt_upper_bound; lia).
  match goal with
  | |- context [Z.shiftl ?x sh] => exists x, sh
  end.
  split; [exact Hsh|]. split; [destruct (_ || _); lia|].
  apply Z.shiftl_mul_pow2. lia.
Qed.

Lemma Number_of_BigInt_fixed (q sh : Z) :
  1 <= sh -> 2 ^ 52 <= q <= 2 ^ 53 ->
  Number_of_BigInt (q * 2 ^ sh) = q * 2 ^ sh.
Proof.
  intros Hsh Hq.
  assert (Hp : 0 < 2 ^ sh) by (apply Z.pow_pos_nonneg; lia).
  assert (HN : 2 ^ 53 <= q * 2 ^ sh).
  { change (2 ^ 53) with (2 ^ 52 * 2 ^ 1).
    assert (2 ^ 1 <= 2 ^ sh) by (apply Z.pow_le_mono_r; lia). nia. }
  unfold Number_of_BigInt.
  replace (q * 2 ^ sh <? 2 ^ 53) with false
    by (symmetry; apply Z.ltb_ge; lia).
  cbv zeta.
  destruct (Z.eq_dec q (2 ^ 53)) as [E|E].
  - assert (HNeq : q * 2 ^ sh = 2 ^ 52 * 2 ^ (sh + 1)).
    { rewrite E, Z.pow_add_r by lia.
      change (2 ^ 53) with (2 ^ 52 * 2). change (2 ^ 1) with 2. ring. }
    rewrite HNeq.
    assert (Hp1 : 0 < 2 ^ (sh + 1)) by (apply Z.pow_pos_nonneg; lia).
    assert (HlogN : Z.log2 (2 ^ 52 * 2 ^ (sh + 1)) = 53 + sh).
    { apply Z.log2_unique; [lia|].
      replace (Z.succ (53 + sh)) with (54 + sh) by lia.
      rewrite !Z.pow_add_r by lia.
      change (2 ^ 54) with (2 * 2 ^ 53). change (2 ^ 53) with (2 * 2 ^ 52).
      change (2 ^ 1) with 2. nia. }
    rewrite HlogN. replace (53 + sh - 52) with (sh + 1) by lia.
    rewrite Z.shiftr_div_pow2 by lia. rewrite Z.div_mul by lia.
    replace (2 ^ (sh + 1) - 1) with (Z.ones (sh + 1))
      by (rewrite Z.ones_equiv; lia).
    rewrite Z.land_ones by lia. rewrite Z.mod_mul by lia.
    assert (Hh : 0 < 2 ^ (sh + 1 - 1)) by (apply Z.pow_pos_nonneg; lia).
    replace (2 ^ (sh + 1 - 1) <? 0) with false
      by (symmetry; apply Z.ltb_ge; lia).
    replace (0 =? 2 ^ (sh + 1 - 1)) with false
      by (symmetry; apply Z.eqb_neq; lia).
    cbn [orb andb]. rewrite Z.shiftl_mul_pow2 by lia. reflexivity.
  - assert (HlogN : Z.log2 (q * 2 ^ sh) = 52 + sh).
    { apply Z.log2_unique; [lia|].
      replace (Z.succ (52 + sh)) with (53 + sh) by lia.
      rewrite !Z.pow_add_r by lia. nia. }
    rewrite HlogN. replace (52 + sh - 52) with sh by lia.
    rewrite Z.shiftr_div_pow2 by lia. rewrite Z.div_mul by lia.
    replace (2 ^ sh - 1) with (Z.ones sh) by (rewrite Z.ones_equiv; lia).
    rewrite Z.land_ones by lia. rewrite Z.mod_mul by lia.
    assert (Hh : 0 < 2 ^ (sh - 1)) by (apply Z.pow_pos_nonneg; lia).
    replace (2 ^ (sh - 1) <? 0) with false
      by (symmetry; apply Z.ltb_ge; lia).
    replace (0 =? 2 ^ (sh - 1)) with false
      by (symmetry; apply Z.eqb_neq; lia).
    cbn [orb andb]. rewrite Z.shiftl_mul_pow2 by lia. reflexivity.
Qed.

Lemma Number_of_BigInt_idem (z : Z) :
  0 <= z -> Number_of_BigInt (Number_of_BigInt z) = Number_of_BigInt z.
Proof.
  intros Hz. destruct (Z_lt_dec z (2 ^ 53)) as [Hs|Hl].
  - unfold Number_of_BigInt. apply Z.ltb_lt in Hs. rewrite Hs, Hs. reflexivity.
  - destruct (Number_of_BigInt_shape z ltac:(lia)) as (q & sh & H1 & H2 & ->).
    apply Number_of_BigInt_fixed; assumption.
Qed.

(** A received envelope whose timestamp is below 2^64 is serialized
    without loss, whatever its ttl is set to. *)
Lemma relay_decodes (data : bytes) (e : MessageEnvelope) (t : Z) :
  deserializeEnvelope data = Ok e -> timestamp e < 2 ^ 64 -> 0 <= t <= 255 ->
  exists sent,
    serializeEnvelope (with_ttl e t) = Ok sent
    /\ deserializeEnvelope sent = Ok (with_ttl e t).
Proof.
  intros Hde Hts Ht.
  pose proof (deserializeEnvelope_validates _ _ Hde) as Hval.
  pose proof (validateEnvelope_inv _ Hval) as (_ & _ & Hpos & _).
  destruct (deserialize_inv _ _ Hde)
    as (idb & sb & rb & ts & Hid & Hsb & Hrb & Htsr & _ & Hn & Htg & Hp
        & _ & He).
  assert (Hm : messageId e = format_uuid (bytes_to_hex idb))
    by (rewrite He; reflexivity).
  assert (Hs : senderId e = bytes_to_hex sb) by (rewrite He; reflexivity).
  assert (Hr : recipientId e = bytes_to_hex rb) by (rewrite He; reflexivity).
  assert (Ht' : timestamp e = Number_of_BigInt ts) by (rewrite He; reflexivity).
  destruct (format_uuid_canonical (bytes_to_hex idb)) as [_ Hrm].
  { rewrite length_bytes_to_hex, Hid. reflexivity. }
  { apply bytes_to_hex_lower. }
  assert (Hvalt : validateEnvelope (with_ttl e t) = Ok true)
    by (apply validateEnvelope_with_ttl; assumption).
  exists ([u8 1] ++ idb ++ sb ++ rb ++ be_bytes 8 (timestamp e) ++ [u8 t]
            ++ be_bytes 2 (len (nonce e)) ++ nonce e
            ++ be_bytes 2 (len (tag e)) ++ tag e
            ++ be_bytes 4 (len (encryptedPayload e)) ++ encryptedPayload e).
  split.
  - rewrite serializeEnvelope_layout; cbn [with_ttl messageId senderId
      recipientId timestamp ttl nonce tag encryptedPayload]; try assumption.
    + rewrite Hm, Hrm, Hs, Hr.
      rewrite <- Hid at 1. rewrite hex_to_bytes_bytes_to_hex.
      rewrite <- Hsb at 1. rewrite hex_to_bytes_bytes_to_hex.
      rewrite <- Hrb at 1. rewrite hex_to_bytes_bytes_to_hex.
      reflexivity.
    + rewrite Hm, Hrm. unfold len. rewrite length_bytes_to_hex, Hid.
      reflexivity.
    + rewrite Hs. unfold len. rewrite length_bytes_to_hex, Hsb. reflexivity.
    + rewrite Hr. unfold len. rewrite length_bytes_to_hex, Hrb. reflexivity.
  - apply deserialize_wire; try assumption; try lia.
    unfold with_ttl. rewrite Hm, Hs, Hr.
    pose proof (validateEnvelope_inv _ Hval) as (Hv & _). rewrite Hv.
    f_equal. rewrite Ht'. symmetry. apply Number_of_BigInt_idem. lia.
Qed.

(** C2 (amended).  For every envelope that the node has received (the
    result of [deserializeEnvelope]) whose timestamp is below 2^64 and
    whose ttl is above 0, handed to [relayMessage] with an inbound peer
    id (a non-empty string): the bytes written deserialize to the
    envelope that equals the input in every field except ttl, which is
    the input ttl minus 1; they are written once to each connected
    device other than the inbound peer, in connection order, and to no
    other device; in particular never to the inbound peer. *)
Theorem relay_forwards_decremented_envelope (env : Env) (data : bytes)
    (e : MessageEnvelope) (inbound : jsstring) (s : Service) :
  deserializeEnvelope data = Ok e -> timestamp e < 2 ^ 64 ->
  0 < ttl e -> inbound <> [] ->
  let relayed := with_ttl e (ttl e - 1) in
  let t := trace_of (relayMessage env e inbound s) in
  exists sent,
    serializeEnvelope relayed = Ok sent
    /\ deserializeEnvelope sent = Ok relayed
    /\ ttl relayed = ttl e - 1
    /\ (version relayed, messageId relayed, senderId relayed,
         recipientId relayed, timestamp relayed, encryptedPayload relayed,
         nonce relayed, tag relayed)
        = (version e, messageId e, senderId e, recipientId e, timestamp e,
           encryptedPayload e, nonce e, tag e)
    /\ sends_of t
        = map (fun d => (d, sent))
            (List.filter (fun d => negb (bool_decide (d = inbound)))
               (connectedDevices env))
    /\ (forall d, In d (connectedDevices env) -> d <> inbound ->
         In (d, sent) (sends_of t))
    /\ (forall d x, In (d, x) (sends_of t) -> d <> inbound)
    /\ relays_of t = [(substring0 (messageId e) 8, ttl e - 1)].
Proof.
  intros Hde Hts Httl Hin relayed t. subst relayed.
  pose proof (deserializeEnvelope_validates _ _ Hde) as Hv.
  pose proof (validateEnvelope_inv _ Hv) as (_ & Hrange & _).
  destruct (relay_decodes data e (ttl e - 1) Hde Hts ltac:(lia))
    as (sent & Hser & Hback).
  exists sent.
  assert (Hdev : devicesToSend env (Some inbound)
                 = List.filter (fun d => negb (bool_decide (d = inbound)))
                     (connectedDevices env)).
  { unfold devicesToSend. destruct inbound; [contradiction|reflexivity]. }
  assert (Hsends : sends_of t
                   = map (fun d => (d, sent))
                       (List.filter (fun d => negb (bool_decide (d = inbound)))
                          (connectedDevices env))).
  { subst t. rewrite relayMessage_run. unfold trace_of, relay_events.
    cbn [snd]. rewrite Hser, Hdev.
    change (sends_of (?a :: ?l)) with (sends_of [a] ++ sends_of l).
    rewrite sends_of_app, sends_of_send_events. cbn [sends_of flat_map app].
    rewrite app_nil_r. reflexivity. }
  assert (Hrelays : relays_of t = [(substring0 (messageId e) 8, ttl e - 1)]).
  { subst t. rewrite relayMessage_run. unfold trace_of, relay_events.
    cbn [snd]. rewrite Hser. unfold relays_of. cbn [flat_map app].
    rewrite flat_map_app, project_send_events by reflexivity.
    reflexivity. }
  split; [exact Hser|]. split; [exact Hback|]. split; [reflexivity|].
  split; [reflexivity|]. split; [exact Hsends|].
  split; [|split; [|exact Hrelays]].
  - intros d Hd1 Hd2. rewrite Hsends. apply in_map_iff. exists d.
    split; [reflexivity|]. apply filter_In. split; [assumption|].
    apply negb_true_iff, bool_decide_eq_false. assumption.
  - intros d x Hds. rewrite Hsends in Hds. apply in_map_iff in Hds.
    destruct Hds as (d' & Heq & Hf). injection Heq as -> _.
    apply filter_In in Hf. destruct Hf as [_ Hf].
    apply negb_true_iff, bool_decide_eq_false in Hf. assumption.
Qed.

(** Witness for C2: the test envelope, received from peer A at a node
    whose connected peers are A, B and C. *)
Lemma relay_forwards_decremented_envelope_witness :
  exists sent,
    deserializeEnvelope sent = Ok (with_ttl Samples.testEnvelope 9)
    /\ sends_of (trace_of
          (relayMessage (Samples.envAt 1700000000000 true true)
             Samples.testEnvelope (js "A") initialService))
       = [(js "B", sent); (js "C", sent)].
Proof.
  destruct (relay_forwards_decremented_envelope
              (Samples.envAt 1700000000000 true true) Samples.testWire
              Samples.testEnvelope (js "A") initialService)
    as (sent & _ & Hd & _ & _ & Hs & _).
  - vm_compute. reflexivity.
  - reflexivity.
  - reflexivity.
  - discriminate.
  - exists sent. split; [exact Hd|]. rewrite Hs. reflexivity.
Defined.

(** C2 as stated fails for a received envelope whose timestamp field
    holds 2^64 - 1: [deserializeEnvelope] reads it as the number 2^64,
    the envelope passes [validateEnvelope], and [serializeEnvelope]
    writes that number back as 0, so the bytes relayed to B and C carry
    another timestamp than the envelope received (one that the next
    node rejects).  The same bytes leave the node when the envelope
    arrives from peer A through [handleIncomingMessage]. *)
Lemma relayed_timestamp_wraps_to_zero :
  deserializeEnvelope MoreSamples.farFutureWire
  = Ok MoreSamples.farFutureEnvelope
  /\ validateEnvelope MoreSamples.farFutureEnvelope = Ok true
  /\ 0 < ttl MoreSamples.farFutureEnvelope
  /\ timestamp MoreSamples.farFutureEnvelope = 2 ^ 64
  /\ sends_of (trace_of
        (relayMessage (Samples.envAt 1700000000000 true true)
           MoreSamples.farFutureEnvelope (js "A") initialService))
     = [(js "B", MoreSamples.wrappedWire); (js "C", MoreSamples.wrappedWire)]
  /\ sends_of (trace_of
        (handleIncomingMessage Samples.mockCrypto
           (Samples.envAt 1700000000000 true true) (js "A")
           MoreSamples.farFutureWire Samples.peersOfNode initialService))
     = [(js "B", MoreSamples.wrappedWire); (js "C", MoreSamples.wrappedWire)]
  /\ getUint 8 MoreSamples.farFutureWire 33 = Some (2 ^ 64 - 1)
  /\ getUint 8 MoreSamples.wrappedWire 33 = Some 0
  /\ deserializeEnvelope MoreSamples.wrappedWire = Err InvalidTimestamp.
Proof.
  split; [vm_compute; reflexivity|]. split; [reflexivity|].
  split; [reflexivity|]. split; [reflexivity|].
  split; [vm_compute; reflexivity|]. split; [vm_compute; reflexivity|].
  split; [vm_compute; reflexivity|]. split; vm_compute; reflexivity.
Qed.
(* ===================================================================== *)
(** ** The duplicate cache over time                                      *)
(* ===================================================================== *)

Lemma pruneCache_compose (now1 now2 : Z) (c : Cache) :
  pruneCache now2 (pruneCache now1 c) = pruneCache (Z.max now1 now2) c.
Proof.
  apply map_eq. intros k. apply option_eq. intros ts.
  rewrite !pruneCache_lookup. intuition lia.
Qed.

(** X6.  [pruneCache] only removes: the pruned cache is a sub-map of
    the cache and no larger; pruning twice at one clock reading is
    pruning once, and pruning at two readings is pruning at the later
    one.  [markAsProcessed] grows the cache by at most one entry, and
    every entry it leaves is the new one with the current reading or
    an entry of another id that was there before, timestamp unchanged. *)
Theorem pruneCache_only_removes (now1 now2 : Z) (messageId : jsstring)
    (c : Cache) :
  pruneCache now1 c ⊆ c
  /\ (getCacheSize (pruneCache now1 c) <= getCacheSize c)%nat
  /\ pruneCache now1 (pruneCache now1 c) = pruneCache now1 c
  /\ pruneCache now2 (pruneCache now1 c) = pruneCache (Z.max now1 now2) c
  /\ (getCacheSize (markAsProcessed now1 messageId c)
      <= S (getCacheSize c))%nat
  /\ (forall k ts, markAsProcessed now1 messageId c !! k = Some ts ->
      k = messageId /\ ts = now1 \/ k <> messageId /\ c !! k = Some ts).
Proof.
  assert (Hsub : forall n (m : Cache), pruneCache n m ⊆ m).
  { intros n m. unfold pruneCache. apply map_filter_subseteq. }
  split; [apply Hsub|].
  split; [unfold getCacheSize; apply map_subseteq_size, Hsub|].
  split; [rewrite pruneCache_compose, Z.max_id; reflexivity|].
  split; [apply pruneCache_compose|].
  split.
  - unfold getCacheSize, markAsProcessed.
    transitivity (size (<[messageId := now1]> c)).
    + apply map_subseteq_size, Hsub.
    + rewrite map_size_insert. destruct (_ !! _); cbv [Datatypes.id]; lia.
  - intros k ts H. unfold markAsProcessed in H.
    apply pruneCache_lookup in H. destruct H as [H _].
    destruct (decide (k = messageId)) as [->|Hne].
    + rewrite lookup_insert_eq in H. left. split; congruence.
    + rewrite lookup_insert_ne in H by congruence. right. tauto.
Qed.

Lemma markSeq_absent (later : list (Z * jsstring)) (i : jsstring) :
  forall c : Cache,
  Forall (fun m => m.2 <> i) later -> c !! i = None ->
  markSeq later c !! i = None.
Proof.
  induction later as [|[t' i'] later IH]; intros c Hne Hc; [exact Hc|].
  inversion Hne as [|? ? Hh Ht]; subst. cbn [snd] in Hh.
  unfold markSeq. cbn [fold_left fst snd].
  fold (markSeq later (markAsProcessed t' i' c)).
  apply IH; [assumption|].
  destruct (markAsProcessed t' i' c !! i) as [ts|] eqn:E; [|reflexivity].
  unfold markAsProcessed in E. apply pruneCache_lookup in E.
  destruct E as [E _]. rewrite lookup_insert_ne in E by congruence.
  congruence.
Qed.

Lemma markSeq_present (later : list (Z * jsstring)) (i : jsstring) (t : Z) :
  forall c : Cache,
  Forall (fun m => m.2 <> i) later -> c !! i = Some t ->
  markSeq later c !! i
  = if forallb (fun m => m.1 - t <=? CACHE_EXPIRATION_MS) later
    then Some t else None.
Proof.
  induction later as [|[t' i'] later IH]; intros c Hne Hc; [exact Hc|].
  inversion Hne as [|? ? Hh Ht]; subst. cbn [snd] in Hh.
  unfold markSeq. cbn [fold_left forallb fst snd].
  fold (markSeq later (markAsProcessed t' i' c)).
  destruct (t' - t <=? CACHE_EXPIRATION_MS) eqn:Hage.
  - apply Z.leb_le in Hage. cbn [andb]. apply IH; [assumption|].
    unfold markAsProcessed. apply pruneCache_lookup.
    rewrite lookup_insert_ne by congruence. split; [assumption|lia].
  - apply Z.leb_gt in Hage. cbn [andb]. apply markSeq_absent; [assumption|].
    destruct (markAsProcessed t' i' c !! i) as [ts|] eqn:E; [|reflexivity].
    unfold markAsProcessed in E. apply pruneCache_lookup in E.
    rewrite lookup_insert_ne in E by congruence. destruct E as [E1 E2].
    assert (ts = t) by congruence. lia.
Qed.

(** X7.  The lifetime of a marked id: after [markAsProcessed] of an id
    at reading t, followed by [markAsProcessed] calls of other ids, the
    id is still reported as duplicate exactly when every later call
    happened at a reading of at most t + CACHE_EXPIRATION_MS; while it
    is cached its timestamp stays t (marking others never refreshes
    it). *)
Theorem marked_id_lifetime (t : Z) (messageId : jsstring)
    (later : list (Z * jsstring)) (c : Cache) :
  Forall (fun m => m.2 <> messageId) later ->
  (isDuplicate (markSeq later (markAsProcessed t messageId c)) messageId = true
   <-> Forall (fun m => m.1 - t <= CACHE_EXPIRATION_MS) later)
  /\ (forall ts,
        markSeq later (markAsProcessed t messageId c) !! messageId = Some ts ->
        ts = t).
Proof.
  intros Hne.
  pose proof (markSeq_present later messageId t
                (markAsProcessed t messageId c) Hne
                (markAsProcessed_self t messageId c)) as H.
  split.
  - rewrite isDuplicate_true, H.
    destruct (forallb _ later) eqn:E.
    + split; [|intros _; eexists; reflexivity]. intros _.
      apply List.Forall_forall. intros m Hm.
      rewrite forallb_forall in E. specialize (E m Hm).
      apply Z.leb_le in E. exact E.
    + split; [intros [ts Hts]; discriminate|]. intros Hall. exfalso.
      assert (E' : forallb (fun m => m.1 - t <=? CACHE_EXPIRATION_MS) later
                   = true).
      { apply forallb_forall. intros m Hm. apply Z.leb_le.
        rewrite List.Forall_forall in Hall. apply Hall. assumption. }
      congruence.
  - intros ts Hts. rewrite H in Hts. destruct (forallb _ later); congruence.
Qed.

Lemma marked_id_lifetime_witness :
  isDuplicate
    (markSeq [(1700000100000, messageId Samples.otherEnvelope)]
       (markAsProcessed 1700000000000 (messageId Samples.testEnvelope) ∅))
    (messageId Samples.testEnvelope) = true.
Proof.
  destruct (marked_id_lifetime 1700000000000 (messageId Samples.testEnvelope)
              [(1700000100000, messageId Samples.otherEnvelope)] ∅)
    as [Hiff _].
  - repeat constructor. cbn. discriminate.
  - apply Hiff. repeat constructor. cbn. unfold CACHE_EXPIRATION_MS. lia.
Defined.
(* ===================================================================== *)
(** ** The message service: what a call can and cannot do                 *)
(* ===================================================================== *)

Lemma version_nibble (b : Byte.byte) :
  hex_char (byteZ (u8 (Z.lor (Z.land (byteZ b) 15) 64)) / 16) = 52%N.
Proof. destruct b; vm_compute; reflexivity. Qed.

Lemma variant_nibble (b : Byte.byte) :
  In (hex_char (byteZ (u8 (Z.lor (Z.land (byteZ b) 63) 128)) / 16))
     [56; 57; 97; 98]%N.
Proof. destruct b; vm_compute; tauto. Qed.

Lemma generateUUID_canonical (env : Env) :
  is_canonical_uuid (generateUUID env) = true.
Proof.
  unfold generateUUID. cbv zeta.
  set (bs := alter _ 8%nat (alter _ 6%nat (map (random env) (seq 0 16)))).
  destruct (format_uuid_canonical (bytes_to_hex bs)) as [Hc _];
    [| |exact Hc].
  - rewrite length_bytes_to_hex. subst bs.
    rewrite !length_alter, length_map, length_seq. reflexivity.
  - apply bytes_to_hex_lower.
Qed.

(** X8.  [generateUUID] always returns a version-4 UUID in the form the
    wire format needs: 36 characters, lower-case hexadecimal in the
    8-4-4-4-12 grouping (32 digits without the hyphens), the version
    digit 4 at position 14 and a variant digit 8, 9, a or b at
    position 19, whatever the random bytes are. *)
Theorem generateUUID_is_v4 (env : Env) :
  is_canonical_uuid (generateUUID env) = true
  /\ len (generateUUID env) = 36
  /\ len (remove_hyphens (generateUUID env)) = 32
  /\ nth 14 (generateUUID env) 0%N = 52%N
  /\ In (nth 19 (generateUUID env) 0%N) [56; 57; 97; 98]%N.
Proof.
  unfold generateUUID. cbv zeta.
  set (bs := alter _ 8%nat (alter _ 6%nat (map (random env) (seq 0 16)))).
  assert (Hl : length bs = 16%nat).
  { subst bs. rewrite !length_alter, length_map, length_seq. reflexivity. }
  destruct (format_uuid_canonical (bytes_to_hex bs)) as [Hc Hr].
  { rewrite length_bytes_to_hex, Hl. reflexivity. }
  { apply bytes_to_hex_lower. }
  split; [exact Hc|]. split.
  { unfold is_canonical_uuid in Hc. apply andb_true_iff in Hc.
    repeat (destruct Hc as [Hc _]; apply andb_true_iff in Hc).
    destruct Hc as [Hc _]. apply Nat.eqb_eq in Hc. unfold len. lia. }
  split; [rewrite Hr; unfold len; rewrite length_bytes_to_hex, Hl; reflexivity|].
  subst bs. cbn [seq map alter list_alter]. unfold bytes_to_hex.
  cbn [map concat hex2 app format_uuid substr skipn firstn nth].
  split; [apply version_nibble | apply variant_nibble].
Qed.

(** X9.  [relayMessage] never throws and never changes the service
    state; it stores nothing and invokes no callback.  Everything it
    writes is the serialization of the envelope with ttl - 1, written
    to a connected device, and then the received ttl was between 1 and
    256; with ttl <= 0 it writes nothing. *)
Theorem relayMessage_never_throws (env : Env) (e : MessageEnvelope)
    (excludePeerId : jsstring) (s : Service) :
  let r := relayMessage env e excludePeerId s in
  outcome_of r = Returned tt
  /\ state_of r = s
  /\ stores_of (trace_of r) = [] /\ received_of (trace_of r) = []
  /\ statuses_of (trace_of r) = []
  /\ (forall d sent, In (d, sent) (sends_of (trace_of r)) ->
      1 <= ttl e <= 256
      /\ serializeEnvelope (with_ttl e (ttl e - 1)) = Ok sent
      /\ In d (connectedDevices env))
  /\ (ttl e <= 0 -> sends_of (trace_of r) = []).
Proof.
  intros r. subst r. rewrite relayMessage_run.
  unfold outcome_of, state_of, trace_of. cbn [fst snd].
  split; [reflexivity|]. split; [reflexivity|].
  split; [apply project_relay_events; reflexivity|].
  split; [apply project_relay_events; reflexivity|].
  split; [apply project_relay_events; reflexivity|].
  assert (Hs : sends_of (relay_events env e excludePeerId)
               = match serializeEnvelope (with_ttl e (ttl e - 1)) with
                 | Ok sent => map (fun d => (d, sent))
                                (devicesToSend env (Some excludePeerId))
                 | Err _ => []
                 end).
  { unfold relay_events. cbv zeta.
    change (sends_of (EvRelayTrace ?i ?n :: ?l)) with (sends_of l).
    destruct (serializeEnvelope (with_ttl e (ttl e - 1))); [|reflexivity].
    rewrite sends_of_app, sends_of_send_events. apply app_nil_r. }
  assert (Hrange : forall sent,
            serializeEnvelope (with_ttl e (ttl e - 1)) = Ok sent ->
            1 <= ttl e <= 256).
  { intros sent H. apply serializeEnvelope_inv in H. destruct H as [Hv _].
    apply validateEnvelope_inv in Hv. destruct Hv as (_ & Hv & _).
    cbn [with_ttl ttl] in Hv. lia. }
  rewrite Hs. split.
  - intros d sent Hin.
    destruct (serializeEnvelope (with_ttl e (ttl e - 1))) as [sent'|] eqn:E;
      [|destruct Hin].
    pose proof (Hrange sent' eq_refl) as Hr.
    apply in_map_iff in Hin. destruct Hin as (d' & Heq & Hd).
    injection Heq as -> ->.
    split; [exact Hr|]. split; [reflexivity|].
    unfold devicesToSend in Hd. destruct (is_empty excludePeerId);
      [assumption|]. apply filter_In in Hd. tauto.
  - intros Httl.
    destruct (serializeEnvelope (with_ttl e (ttl e - 1))) as [sent'|] eqn:E;
      [|reflexivity].
    pose proof (Hrange sent' eq_refl). lia.
Qed.

Lemma relay_if_projections (env : Env) (e : MessageEnvelope) (x : jsstring) :
  stores_of (relay_if env e x) = [] /\ statuses_of (relay_if env e x) = []
  /\ encrypts_of (relay_if env e x) = [] /\ decrypts_of (relay_if env e x) = [].
Proof.
  unfold relay_if. destruct (0 <? ttl e); [|repeat split; reflexivity].
  repeat split; apply project_relay_events; reflexivity.
Qed.

(** X10.  [handleIncomingMessage] never throws, whatever the bytes, the
    peers and the crypto service do: it returns normally, leaves the
    retry queue and the registered callbacks alone, reports no status
    and encrypts nothing.  Bytes that do not deserialize are logged as
    an invalid envelope and change nothing.  At most one message is
    handed to storage, and storage is either unchanged or holds that
    message appended to its peer's list. *)
Theorem handleIncomingMessage_never_throws (crypto : CryptoService)
    (env : Env) (senderId : jsstring) (data : bytes)
    (peers : list (jsstring * Peer)) (s : Service) :
  let r := handleIncomingMessage crypto env senderId data peers s in
  outcome_of r = Returned tt
  /\ messageQueue (state_of r) = messageQueue s
  /\ messageReceivedCallback (state_of r) = messageReceivedCallback s
  /\ messageStatusCallback (state_of r) = messageStatusCallback s
  /\ statuses_of (trace_of r) = [] /\ encrypts_of (trace_of r) = []
  /\ (forall err, deserializeEnvelope data = Err err ->
      r = (Returned tt, s, [EvError (LogInvalidEnvelope err)]))
  /\ (storage (state_of r) = storage s /\ stores_of (trace_of r) = []
      \/ exists m, stores_of (trace_of r) = [m]
           /\ (storage (state_of r) = storage s
               \/ storage (state_of r)
                  = <[peerId m := default [] (storage s !! peerId m) ++ [m]]>
                      (storage s))).
Proof.
  intros r. subst r. rewrite handleIncomingMessage_run. unfold handle_result.
  destruct (deserializeEnvelope data) as [e|err].
  2:{ unfold outcome_of, state_of, trace_of. cbn [fst snd].
      repeat (split; [reflexivity|]). split.
      - intros err' H. injection H as <-. reflexivity.
      - left. split; reflexivity. }
  destruct (isDuplicate (cache s) (messageId e)).
  { unfold outcome_of, state_of, trace_of. cbn [fst snd].
    repeat (split; [reflexivity|]). split; [discriminate|].
    left. split; reflexivity. }
  set (s1 := set_cache (markAsProcessed (now env) (messageId e) (cache s)) s).
  destruct (relay_if_projections env e senderId) as (Hst & Hss & He & Hd).
  unfold handle_fresh.
  destruct (resolveSender crypto peers senderId e) as [[senderPeer|]|x].
  - destruct (sharedSecret senderPeer) as [secret|].
    + destruct (decryptMessage crypto (encrypted_part e) secret)
        as [[plaintext|]|x].
      * cbv zeta. destruct (storageWritable env).
        -- unfold outcome_of, state_of, trace_of. cbn [fst snd].
           split; [reflexivity|]. split; [reflexivity|].
           split; [reflexivity|]. split; [reflexivity|].
           split.
           { cbn [app]. change (statuses_of (EvDecrypt ?a ?b :: EvStore ?m :: ?l))
               with (statuses_of l). rewrite statuses_of_app, Hss.
             unfold received_events. destruct (messageReceivedCallback s1);
               reflexivity. }
           split.
           { cbn [app]. change (encrypts_of (EvDecrypt ?a ?b :: EvStore ?m :: ?l))
               with (encrypts_of l). unfold encrypts_of. rewrite flat_map_app.
             fold (encrypts_of (relay_if env e senderId)). rewrite He.
             unfold received_events. destruct (messageReceivedCallback s1);
               reflexivity. }
           split; [discriminate|].
           right. eexists. split.
           { cbn [app]. change (stores_of (EvDecrypt ?a ?b :: EvStore ?m :: ?l))
               with (m :: stores_of l). rewrite stores_of_app, Hst.
             unfold received_events. destruct (messageReceivedCallback s1);
               reflexivity. }
           right. reflexivity.
        -- unfold outcome_of, state_of, trace_of. cbn [fst snd].
           repeat (split; [reflexivity|]). split; [discriminate|].
           right. eexists. split; [reflexivity|]. left. reflexivity.
      * unfold outcome_of, state_of, trace_of. cbn [fst snd].
        split; [reflexivity|]. split; [reflexivity|].
        split; [reflexivity|]. split; [reflexivity|].
        split; [cbn [app]; exact Hss|]. split; [cbn [app]; exact He|].
        split; [discriminate|]. left. split; [reflexivity|]. cbn [app].
        exact Hst.
      * unfold outcome_of, state_of, trace_of. cbn [fst snd].
        repeat (split; [reflexivity|]). split; [discriminate|].
        left. split; reflexivity.
    + unfold outcome_of, state_of, trace_of. cbn [fst snd].
      split; [reflexivity|]. split; [reflexivity|].
      split; [reflexivity|]. split; [reflexivity|].
      split; [exact Hss|]. split; [exact He|].
      split; [discriminate|]. left. split; [reflexivity|]. exact Hst.
  - unfold outcome_of, state_of, trace_of. cbn [fst snd].
    split; [reflexivity|]. split; [reflexivity|].
    split; [reflexivity|]. split; [reflexivity|].
    split; [exact Hss|]. split; [exact He|].
    split; [discriminate|]. left. split; [reflexivity|]. exact Hst.
  - unfold outcome_of, state_of, trace_of. cbn [fst snd].
    repeat (split; [reflexivity|]). split; [discriminate|].
    left. split; reflexivity.
Qed.

Lemma sends_of_status_events (s : Service) (i : jsstring) (st : Status) :
  sends_of (status_events s i st) = [].
Proof. unfold status_events. destruct (messageStatusCallback s); reflexivity. Qed.

(** The state and the outcome of [sendMessage], by cases. *)
Lemma sendMessage_cases (crypto : CryptoService) (env : Env)
    (recipientId text : jsstring) (peers : list (jsstring * Peer))
    (s : Service) :
  let r := sendMessage crypto env recipientId text peers s in
  let m0 := outgoing env recipientId text in
  (exists x, outcome_of r = Thrown x /\ state_of r = s
             /\ sends_of (trace_of r) = []
             /\ statuses_of (trace_of r) = []
             /\ received_of (trace_of r) = []
             /\ relays_of (trace_of r) = []
             /\ decrypts_of (trace_of r) = []
             /\ (stores_of (trace_of r) = []
                 \/ storageWritable env = false /\ x = ExnStorage
                    /\ stores_of (trace_of r) = [m0]))
  \/ (exists envelope data,
        storageWritable env = true
        /\ serializeEnvelope envelope = Ok data
        /\ messageId envelope = generateUUID env
        /\ ttl envelope = INITIAL_MESSAGE_TTL
        /\ received_of (trace_of r) = []
        /\ relays_of (trace_of r) = []
        /\ decrypts_of (trace_of r) = []
        /\ sends_of (trace_of r)
           = map (fun d => (d, data)) (connectedDevices env)
        /\ (transmit_ok env data (connectedDevices env) = true
            /\ outcome_of r = Returned (mark_delivered m0)
            /\ state_of r = stored m0 s
            \/ transmit_ok env data (connectedDevices env) = false
               /\ outcome_of r = Returned m0
               /\ state_of r = queued env recipientId envelope data
                                 (stored m0 s))).
Proof.
  intros r m0. subst r.
  destruct (sendMessage_shape crypto env recipientId text peers s)
    as [(x & pre & -> & Hpre)
       |(secret & envelope & data & Hser & Hid & Httl & ->)].
  - left. exists x. unfold outcome_of, state_of, trace_of. cbn [fst snd].
    split; [reflexivity|]. split; [reflexivity|].
    destruct Hpre as [->|[secret ->]]; cbn;
      repeat (split; [reflexivity|]); left; reflexivity.
  - unfold send_result. fold m0. destruct (storageWritable env) eqn:Hw.
    + right. exists envelope, data.
      split; [reflexivity|]. split; [assumption|]. split; [assumption|].
      split; [assumption|].
      assert (Hp : forall {B} (f : Event -> list B) l,
                (forall d x, f (EvSend d x) = []) ->
                (forall l, f (EvError l) = []) ->
                (forall p k, f (EvEncrypt p k) = []) ->
                (forall m, f (EvStore m) = []) ->
                flat_map f l = [] ->
                flat_map f
                  ([EvEncrypt text secret; EvStore m0]
                     ++ send_events env data (connectedDevices env) ++ l)
                = []).
      { intros B f l Hs He Hen Hst Hl. cbn [app flat_map].
        rewrite Hen, Hst, flat_map_app, project_send_events, Hl by assumption.
        reflexivity. }
      destruct (transmit_ok env data (connectedDevices env)) eqn:Hok;
        unfold outcome_of, state_of, trace_of; cbn [fst snd].
      * split; [apply Hp; try reflexivity; unfold status_events;
                destruct (messageStatusCallback s); reflexivity|].
        split; [apply Hp; try reflexivity; unfold status_events;
                destruct (messageStatusCallback s); reflexivity|].
        split; [apply Hp; try reflexivity; unfold status_events;
                destruct (messageStatusCallback s); reflexivity|].
        split.
        { cbn [app].
          change (sends_of (EvEncrypt ?p ?k :: EvStore ?m :: ?l))
            with (sends_of l).
          rewrite sends_of_app, sends_of_send_events, sends_of_status_events.
          apply app_nil_r. }
        left. repeat split; reflexivity.
      * rewrite <- (app_nil_r (send_events env data (connectedDevices env))).
        split; [apply Hp; reflexivity|]. split; [apply Hp; reflexivity|].
        split; [apply Hp; reflexivity|].
        split.
        { cbn [app].
          change (sends_of (EvEncrypt ?p ?k :: EvStore ?m :: ?l))
            with (sends_of l).
          rewrite app_nil_r. apply sends_of_send_events. }
        right. repeat split; reflexivity.
    + left. exists ExnStorage. unfold outcome_of, state_of, trace_of.
      cbn [fst snd]. repeat (split; [reflexivity|]).
      right. repeat split; reflexivity.
Qed.

(** X11.  [sendMessage] never touches the duplicate cache or the
    callbacks, and it neither delivers nor relays nor decrypts: the id
    of the message it returns, a fresh [generateUUID], is as unknown to
    the node's duplicate detector after the call as it was before. *)
Theorem sendMessage_leaves_cache (crypto : CryptoService) (env : Env)
    (recipientId text : jsstring) (peers : list (jsstring * Peer))
    (s : Service) :
  let r := sendMessage crypto env recipientId text peers s in
  cache (state_of r) = cache s
  /\ messageReceivedCallback (state_of r) = messageReceivedCallback s
  /\ messageStatusCallback (state_of r) = messageStatusCallback s
  /\ received_of (trace_of r) = [] /\ relays_of (trace_of r) = []
  /\ decrypts_of (trace_of r) = []
  /\ (forall m, outcome_of r = Returned m ->
      id m = generateUUID env
      /\ isDuplicate (cache (state_of r)) (id m) = isDuplicate (cache s) (id m)).
Proof.
  intros r.
  destruct (sendMessage_cases crypto env recipientId text peers s)
    as [(x & Ho & Hs & _ & _ & Hr & Hrel & Hd & _)
       |(envelope & data & _ & _ & _ & _ & Hr & Hrel & Hd & _ & Hcase)];
    fold r in Ho || fold r in Hcase; fold r in Hr, Hrel, Hd.
  - fold r in Hs. rewrite Hs. repeat (split; [reflexivity || assumption|]).
    intros m Hm. rewrite Ho in Hm. discriminate.
  - destruct Hcase as [(_ & Ho & Hs)|(_ & Ho & Hs)]; rewrite Hs;
      repeat (split; [reflexivity || assumption|]);
      intros m Hm; rewrite Ho in Hm; injection Hm as <-;
      split; reflexivity.
Qed.

(** X12.  When the storage medium rejects writes, [sendMessage] always
    throws (the storage error, if it got as far as the write), leaves
    the service state unchanged, transmits nothing and reports no
    status: nothing is sent that was not persisted first. *)
Theorem sendMessage_storage_failure (crypto : CryptoService) (env : Env)
    (recipientId text : jsstring) (peers : list (jsstring * Peer))
    (s : Service) :
  storageWritable env = false ->
  let r := sendMessage crypto env recipientId text peers s in
  (exists x, outcome_of r = Thrown x
             /\ (stores_of (trace_of r) <> [] -> x = ExnStorage))
  /\ state_of r = s
  /\ sends_of (trace_of r) = [] /\ statuses_of (trace_of r) = [].
Proof.
  intros Hw r.
  destruct (sendMessage_cases crypto env recipientId text peers s)
    as [(x & Ho & Hs & Hsd & Hst & _ & _ & _ & Hstore)
       |(envelope & data & Hw' & _)]; [|congruence].
  fold r in Ho, Hs, Hsd, Hst, Hstore.
  split; [|repeat split; assumption].
  exists x. split; [assumption|]. intros Hne.
  destruct Hstore as [Hnil|(_ & -> & _)]; [contradiction|reflexivity].
Qed.

Lemma sendMessage_storage_failure_witness :
  state_of (sendMessage Samples.mockCrypto
              (Samples.envAt 1700000000000 true false) (js "B") (js "help")
              Samples.peersOfNode initialService)
  = initialService
  /\ sends_of (trace_of
        (sendMessage Samples.mockCrypto
           (Samples.envAt 1700000000000 true false) (js "B") (js "help")
           Samples.peersOfNode initialService))
     = [].
Proof.
  destruct (sendMessage_storage_failure Samples.mockCrypto
              (Samples.envAt 1700000000000 true false) (js "B") (js "help")
              Samples.peersOfNode initialService)
    as (_ & Hs & Hsd & _).
  - reflexivity.
  - split; [exact Hs | exact Hsd].
Defined.

Lemma handle_fresh_delivery (crypto : CryptoService) (env : Env)
    (senderId : jsstring) (e : MessageEnvelope)
    (peers : list (jsstring * Peer)) (s1 : Service) :
  let r := handle_fresh crypto env senderId e peers s1 in
  let found :=
    match resolveSender crypto peers senderId e with
    | Returned (Some p) =>
        match sharedSecret p with
        | Some secret =>
            match decryptMessage crypto (encrypted_part e) secret with
            | Returned (Some plaintext) => Some (incoming e p plaintext)
            | _ => None
            end
        | None => None
        end
    | _ => None
    end in
  stores_of (trace_of r) = match found with Some m => [m] | None => [] end
  /\ received_of (trace_of r)
     = match found with
       | Some m =>
           if storageWritable env && messageReceivedCallback s1 then [m]
           else []
       | None => []
       end
  /\ storage (state_of r)
     = match found with
       | Some m => if storageWritable env then storage (stored m s1)
                   else storage s1
       | None => storage s1
       end.
Proof.
  cbv zeta. unfold handle_fresh.
  destruct (relay_if_projections env e senderId) as (Hst & _).
  pose proof (received_of_relay_if env e senderId) as Hr.
  destruct (resolveSender crypto peers senderId e) as [[p|]|x].
  - destruct (sharedSecret p) as [secret|].
    + destruct (decryptMessage crypto (encrypted_part e) secret)
        as [[plaintext|]|x].
      * cbv zeta. destruct (storageWritable env);
          unfold state_of, trace_of; cbn [fst snd app].
        -- change (stores_of (EvDecrypt ?a ?b :: EvStore ?m :: ?l))
             with (m :: stores_of l).
           change (received_of (EvDecrypt ?a ?b :: EvStore ?m :: ?l))
             with (received_of l).
           rewrite stores_of_app, received_of_app, Hst, Hr, app_nil_r.
           unfold received_events. cbn [andb].
           destruct (messageReceivedCallback s1); repeat split; reflexivity.
        -- repeat split; reflexivity.
      * unfold state_of, trace_of; cbn [fst snd app].
        change (stores_of (EvDecrypt ?a ?b :: EvError ?m :: ?l))
          with (stores_of l).
        change (received_of (EvDecrypt ?a ?b :: EvError ?m :: ?l))
          with (received_of l).
        repeat split; assumption || reflexivity.
      * repeat split; reflexivity.
    + unfold state_of, trace_of; cbn [fst snd].
      change (stores_of (EvError ?m :: ?l)) with (stores_of l).
      change (received_of (EvError ?m :: ?l)) with (received_of l).
      repeat split; assumption || reflexivity.
  - unfold state_of, trace_of; cbn [fst snd].
    change (stores_of (EvError ?m :: ?l)) with (stores_of l).
    change (received_of (EvError ?m :: ?l)) with (received_of l).
    repeat split; assumption || reflexivity.
  - repeat split; reflexivity.
Qed.

(** X13.  Local delivery does not look at the recipient id or the ttl
    of an envelope: two byte arrays whose envelopes agree on message
    id, sender id, timestamp, payload, nonce and tag lead, from the
    same state, to the same delivered messages, the same storage and
    the same duplicate cache. *)
Theorem delivery_ignores_recipient_and_ttl (crypto : CryptoService) (env : Env)
    (senderId : jsstring) (data1 data2 : bytes)
    (peers : list (jsstring * Peer)) (s : Service) (e1 e2 : MessageEnvelope) :
  deserializeEnvelope data1 = Ok e1 -> deserializeEnvelope data2 = Ok e2 ->
  messageId e1 = messageId e2 -> Envelope.senderId e1 = Envelope.senderId e2 ->
  timestamp e1 = timestamp e2 ->
  encryptedPayload e1 = encryptedPayload e2 ->
  nonce e1 = nonce e2 -> tag e1 = tag e2 ->
  let r1 := handleIncomingMessage crypto env senderId data1 peers s in
  let r2 := handleIncomingMessage crypto env senderId data2 peers s in
  received_of (trace_of r1) = received_of (trace_of r2)
  /\ stores_of (trace_of r1) = stores_of (trace_of r2)
  /\ storage (state_of r1) = storage (state_of r2)
  /\ cache (state_of r1) = cache (state_of r2).
Proof.
  intros Hd1 Hd2 Hid Hsid Hts Hp Hn Ht r1 r2. subst r1 r2.
  rewrite !handleIncomingMessage_run. unfold handle_result.
  rewrite Hd1, Hd2, <- Hid.
  destruct (isDuplicate (cache s) (messageId e1)).
  { repeat split; reflexivity. }
  set (s1 := set_cache (markAsProcessed (now env) (messageId e1) (cache s)) s).
  pose proof (handle_fresh_delivery crypto env senderId e1 peers s1)
    as (Hs1 & Hr1 & Hst1).
  pose proof (handle_fresh_delivery crypto env senderId e2 peers s1)
    as (Hs2 & Hr2 & Hst2).
  pose proof (handle_fresh_summary crypto env senderId e1 peers s1)
    as (_ & Hc1 & _).
  pose proof (handle_fresh_summary crypto env senderId e2 peers s1)
    as (_ & Hc2 & _).
  assert (Hres : resolveSender crypto peers senderId e2
                 = resolveSender crypto peers senderId e1)
    by (unfold resolveSender; rewrite Hsid; reflexivity).
  assert (Henc : encrypted_part e2 = encrypted_part e1)
    by (unfold encrypted_part; rewrite Hp, Hn, Ht; reflexivity).
  assert (Hinc : forall p t, incoming e2 p t = incoming e1 p t)
    by (intros; unfold incoming; rewrite Hid, Hts; reflexivity).
  rewrite Hres, Henc in Hs2, Hr2, Hst2.
  rewrite Hs1, Hr1, Hst1, Hs2, Hr2, Hst2, Hc1, Hc2.
  destruct (resolveSender crypto peers senderId e1) as [[p|]|x];
    [|repeat split; reflexivity..].
  destruct (sharedSecret p) as [secret|]; [|repeat split; reflexivity].
  destruct (decryptMessage crypto (encrypted_part e1) secret)
    as [[plaintext|]|x]; [|repeat split; reflexivity..].
  rewrite Hinc. repeat split; reflexivity.
Qed.

Lemma delivery_ignores_recipient_and_ttl_witness :
  received_of (trace_of
    (handleIncomingMessage Samples.mockCrypto
       (Samples.envAt 1700000000000 true true) (js "A") Samples.testWire
       Samples.peersOfNode initialService))
  = received_of (trace_of
      (handleIncomingMessage Samples.mockCrypto
         (Samples.envAt 1700000000000 true true) (js "A")
         MoreSamples.redirectedWire Samples.peersOfNode initialService)).
Proof.
  apply (delivery_ignores_recipient_and_ttl Samples.mockCrypto
           (Samples.envAt 1700000000000 true true) (js "A") Samples.testWire
           MoreSamples.redirectedWire Samples.peersOfNode initialService
           Samples.testEnvelope MoreSamples.redirectedEnvelope).
  - vm_compute. reflexivity.
  - vm_compute. reflexivity.
  - reflexivity.
  - reflexivity.
  - reflexivity.
  - reflexivity.
  - reflexivity.
  - reflexivity.
Defined.

Lemma insertSettled_Permutation (env : Env) (data : bytes) (d : jsstring)
    (l : list jsstring) :
  Permutation (insertSettled env data d l) (d :: l).
Proof.
  induction l as [|x l IH]; cbn [insertSettled]; [reflexivity|].
  destruct (settleTime env d data <=? settleTime env x data)%nat;
    [reflexivity|].
  rewrite IH. apply perm_swap.
Qed.

Lemma settleOrder_Permutation (env : Env) (data : bytes) (l : list jsstring) :
  Permutation (settleOrder env data l) l.
Proof.
  induction l as [|d l IH]; [reflexivity|].
  unfold settleOrder. cbn [fold_right]. fold (settleOrder env data l).
  rewrite insertSettled_Permutation. apply perm_skip. exact IH.
Qed.

Lemma filter_Permutation_list {A} (p : A -> bool) (l1 l2 : list A) :
  Permutation l1 l2 -> Permutation (List.filter p l1) (List.filter p l2).
Proof.
  intros H. induction H as [|x l1 l2 _ IH|x y l|l1 l2 l3 _ IH1 _ IH2];
    cbn [List.filter].
  - reflexivity.
  - destruct (p x); [apply perm_skip|]; exact IH.
  - destruct (p x), (p y); try reflexivity. apply perm_swap.
  - etransitivity; eassumption.
Qed.

(** X15.  [transmitToAllPeers] attempts every target and stops at
    none: it starts one write of the data to each connected device
    other than the excluded one (to all of them when no id or the
    empty id is excluded), in connection order, before any failure is
    logged; it then logs each device whose write failed exactly once,
    in whatever order the writes settle; it leaves the service state
    unchanged and returns true exactly when at least one write
    succeeded. *)
Theorem transmitToAllPeers_attempts_every_peer (env : Env) (data : bytes)
    (excludePeerId : option jsstring) (s : Service) :
  let r := transmitToAllPeers env data excludePeerId s in
  let targets :=
    match excludePeerId with
    | Some x => if is_empty x then connectedDevices env
                else List.filter (fun d => negb (bool_decide (d = x)))
                       (connectedDevices env)
    | None => connectedDevices env
    end in
  state_of r = s
  /\ sends_of (trace_of r) = map (fun d => (d, data)) targets
  /\ (exists logged,
        trace_of r
        = map (fun d => EvSend d data) targets
          ++ map (fun d => EvError (LogSendFailedToPeer d)) logged
        /\ Permutation logged
             (List.filter (fun d => negb (sendData env d data)) targets))
  /\ exists ok,
       outcome_of r = Returned ok
       /\ (ok = true <-> exists d, In d targets /\ sendData env d data = true).
Proof.
  cbv zeta. rewrite transmitToAllPeers_run.
  unfold state_of, trace_of, outcome_of. cbn [fst snd].
  fold (devicesToSend env excludePeerId).
  split; [reflexivity|]. split; [apply sends_of_send_events|].
  split.
  - exists (rejected env data (devicesToSend env excludePeerId)).
    split; [reflexivity|]. unfold rejected.
    apply filter_Permutation_list, settleOrder_Permutation.
  - eexists. split; [reflexivity|]. unfold transmit_ok.
    rewrite existsb_exists. reflexivity.
Qed.
(* ===================================================================== *)
(** ** The application context: the conversation map                      *)
(* ===================================================================== *)

Lemma findIndex_first {A} (p : A -> bool) (l1 : list A) (x : A) (l2 : list A) :
  Forall (fun y => p y = false) l1 -> p x = true ->
  AppContext.findIndex p (l1 ++ x :: l2) = Some (length l1).
Proof.
  intros H Hx. induction H as [|y l1 Hy _ IH]; cbn.
  - rewrite Hx. reflexivity.
  - rewrite Hy, IH. reflexivity.
Qed.

Lemma findIndex_none {A} (p : A -> bool) (l : list A) :
  Forall (fun y => p y = false) l -> AppContext.findIndex p l = None.
Proof.
  intros H. induction H as [|y l Hy _ IH]; cbn; [reflexivity|].
  rewrite Hy, IH. reflexivity.
Qed.

Lemma alter_middle {A} (f : A -> A) (l1 : list A) (x : A) (l2 : list A) :
  alter f (length l1) (l1 ++ x :: l2) = l1 ++ f x :: l2.
Proof. induction l1 as [|y l1 IH]; cbn; [reflexivity|]. f_equal. exact IH. Qed.

Lemma map_set_middle {V} (pre : list (jsstring * V)) (k : jsstring) (v v' : V)
    (post : list (jsstring * V)) :
  ~ In k (map fst pre) ->
  map_set (pre ++ (k, v) :: post) k v' = pre ++ (k, v') :: post.
Proof.
  induction pre as [|[k0 v0] pre IH]; intros Hk; cbn.
  - rewrite bool_decide_eq_true_2 by reflexivity. reflexivity.
  - cbn in Hk. rewrite bool_decide_eq_false_2 by tauto.
    f_equal. apply IH. tauto.
Qed.

Lemma map_set_absent {V} (m : list (jsstring * V)) (k : jsstring) (v : V) :
  ~ In k (map fst m) -> map_set m k v = m ++ [(k, v)].
Proof.
  induction m as [|[k0 v0] m IH]; intros Hk; cbn; [reflexivity|].
  cbn in Hk. rewrite bool_decide_eq_false_2 by tauto.
  f_equal. apply IH. tauto.
Qed.

Lemma map_get_absent {V} (m : list (jsstring * V)) (k : jsstring) :
  ~ In k (map fst m) -> map_get m k = None.
Proof.
  induction m as [|[k0 v0] m IH]; intros Hk; cbn; [reflexivity|].
  cbn in Hk. rewrite bool_decide_eq_false_2 by tauto. apply IH. tauto.
Qed.

Lemma map_get_middle {V} (pre : list (jsstring * V)) (k : jsstring) (v : V)
    (post : list (jsstring * V)) :
  ~ In k (map fst pre) -> map_get (pre ++ (k, v) :: post) k = Some v.
Proof.
  induction pre as [|[k0 v0] pre IH]; intros Hk; cbn.
  - rewrite bool_decide_eq_true_2 by reflexivity. reflexivity.
  - cbn in Hk. rewrite bool_decide_eq_false_2 by tauto. apply IH. tauto.
Qed.

(** Every list of pairs splits at the first occurrence of a key. *)
Lemma first_key_split {V} (m : list (jsstring * V)) (k : jsstring) :
  In k (map fst m) ->
  exists pre v post, m = pre ++ (k, v) :: post /\ ~ In k (map fst pre).
Proof.
  induction m as [|[k0 v0] m IH]; intros Hk; [destruct Hk|].
  destruct (decide (k0 = k)) as [->|Hne].
  - exists [], v0, m. split; [reflexivity|]. intros [].
  - destruct Hk as [Hk|Hk]; [cbn in Hk; congruence|].
    destruct (IH Hk) as (pre & v & post & -> & Hpre).
    exists ((k0, v0) :: pre), v, post. split; [reflexivity|].
    cbn. intros [H|H]; [congruence|tauto].
Qed.

Lemma lacks_findIndex (messageId : jsstring) (ms : list Message) :
  Forall (fun x => id x <> messageId) ms ->
  AppContext.findIndex (fun m => bool_decide (id m = messageId)) ms = None.
Proof.
  intros H. apply findIndex_none. eapply List.Forall_impl; [|exact H].
  cbn. intros x Hx. apply bool_decide_eq_false_2. exact Hx.
Qed.

Lemma statusLoop_none (messageId : jsstring) (status : Status)
    (entries nm : AppContext.Messages) :
  Forall (fun e => Forall (fun x => id x <> messageId) e.2) entries ->
  AppContext.statusLoop entries messageId status nm = nm.
Proof.
  intros H. induction H as [|[k c] entries Hc _ IH]; cbn; [reflexivity|].
  rewrite lacks_findIndex by exact Hc. exact IH.
Qed.

Lemma statusLoop_first (messageId : jsstring) (status : Status)
    (pre : AppContext.Messages) (k : jsstring) (c1 : list Message)
    (m : Message) (c2 : list Message) (post nm : AppContext.Messages) :
  Forall (fun e => Forall (fun x => id x <> messageId) e.2) pre ->
  Forall (fun x => id x <> messageId) c1 -> id m = messageId ->
  AppContext.statusLoop (pre ++ (k, c1 ++ m :: c2) :: post) messageId status nm
  = map_set nm k (c1 ++ AppContext.with_status m status :: c2).
Proof.
  intros Hpre Hc1 Hm.
  induction Hpre as [|[k0 c0] pre Hc0 _ IH]; cbn.
  - rewrite findIndex_first.
    + rewrite alter_middle. reflexivity.
    + eapply List.Forall_impl; [|exact Hc1]. cbn. intros x Hx.
      apply bool_decide_eq_false_2. exact Hx.
    + apply bool_decide_eq_true_2. exact Hm.
  - rewrite lacks_findIndex by exact Hc0. exact IH.
Qed.

Lemma status_first_match (messageId : jsstring) (status : Status)
    (pre : AppContext.Messages) (k : jsstring) (c1 : list Message)
    (m : Message) (c2 : list Message) (post : AppContext.Messages) :
  Forall (fun e => Forall (fun x => id x <> messageId) e.2) pre ->
  ~ In k (map fst pre) ->
  Forall (fun x => id x <> messageId) c1 -> id m = messageId ->
  AppContext.handleMessageStatus messageId status
    (pre ++ (k, c1 ++ m :: c2) :: post)
  = pre ++ (k, c1 ++ AppContext.with_status m status :: c2) :: post.
Proof.
  intros Hpre Hk Hc1 Hm. unfold AppContext.handleMessageStatus.
  rewrite statusLoop_first by assumption.
  apply map_set_middle. exact Hk.
Qed.

(** X16.  [handleMessageStatus] rewrites one message and nothing else:
    in the first conversation (in map order) that holds a message with
    the given id, the first such message gets delivered = (status is
    'delivered') and failed = (status is 'failed'); its other fields,
    every other message, the keys and their order stay as they were.
    When no conversation holds the id the map is returned unchanged. *)
Theorem handleMessageStatus_first_match (messageId : jsstring)
    (status : Status) (pre : AppContext.Messages) (k : jsstring)
    (c1 : list Message) (m : Message) (c2 : list Message)
    (post : AppContext.Messages) :
  Forall (fun e => Forall (fun x => id x <> messageId) e.2) pre ->
  ~ In k (map fst pre) ->
  Forall (fun x => id x <> messageId) c1 ->
  id m = messageId ->
  AppContext.handleMessageStatus messageId status
    (pre ++ (k, c1 ++ m :: c2) :: post)
  = pre ++ (k, c1 ++ AppContext.with_status m status :: c2) :: post
  /\ (forall other : AppContext.Messages,
        Forall (fun e => Forall (fun x => id x <> messageId) e.2) other ->
        AppContext.handleMessageStatus messageId status other = other).
Proof.
  intros Hpre Hk Hc1 Hm. split.
  - apply status_first_match; assumption.
  - intros other H. apply statusLoop_none. exact H.
Qed.

Lemma handleMessageStatus_first_match_witness :
  AppContext.handleMessageStatus (js "m-4") StatusDelivered
    MoreSamples.conversations
  = [(js "A", [MoreSamples.messageOf "m-1" "A" false;
               MoreSamples.messageOf "m-2" "A" true]);
     (js "B", [MoreSamples.messageOf "m-3" "B" true;
               AppContext.with_status (MoreSamples.messageOf "m-4" "B" true)
                 StatusDelivered])].
Proof.
  apply (handleMessageStatus_first_match (js "m-4") StatusDelivered
           [(js "A", [MoreSamples.messageOf "m-1" "A" false;
                      MoreSamples.messageOf "m-2" "A" true])]
           (js "B") [MoreSamples.messageOf "m-3" "B" true]
           (MoreSamples.messageOf "m-4" "B" true) [] []).
  - repeat constructor; cbn; discriminate.
  - cbn. intros [H|[]]. discriminate H.
  - repeat constructor; cbn; discriminate.
  - reflexivity.
Defined.

(** X17.  A status report after the message was added updates it in
    place: for a message whose id occurs in no conversation yet,
    [addMessage] (or [handleMessageReceived]) followed by
    [handleMessageStatus] for its id gives the same map as adding the
    message with its flags already set. *)
Theorem status_after_addMessage (m : Message) (status : Status)
    (prev : AppContext.Messages) :
  Forall (fun e => Forall (fun x => id x <> id m) e.2) prev ->
  AppContext.handleMessageStatus (id m) status (AppContext.addMessage m prev)
  = AppContext.addMessage (AppContext.with_status m status) prev
  /\ AppContext.handleMessageStatus (id m) status
       (AppContext.handleMessageReceived m prev)
     = AppContext.handleMessageReceived (AppContext.with_status m status) prev.
Proof.
  intros Hfresh.
  assert (H : AppContext.handleMessageStatus (id m) status
                (AppContext.addMessage m prev)
              = AppContext.addMessage (AppContext.with_status m status) prev).
  { unfold AppContext.addMessage. cbn [AppContext.with_status peerId].
    destruct (in_dec (fun a b => decide (a = b)) (peerId m) (map fst prev))
      as [Hin|Hout].
    - destruct (first_key_split prev (peerId m) Hin)
        as (pre & v & post & -> & Hpre).
      rewrite map_get_middle by exact Hpre. cbn [default].
      rewrite !map_set_middle by exact Hpre.
      apply Forall_app in Hfresh. destruct Hfresh as [Hf1 Hf2].
      inversion Hf2 as [|? ? Hv _]; subst. cbn [snd] in Hv.
      apply (status_first_match (id m) status pre (peerId m) v m [] post);
        auto.
    - rewrite map_get_absent by exact Hout. cbn [default app].
      rewrite !map_set_absent by exact Hout.
      apply (status_first_match (id m) status prev (peerId m) [] m [] []);
        auto. }
  split; [exact H|exact H].
Qed.

Lemma status_after_addMessage_witness :
  AppContext.handleMessageStatus (js "m-5") StatusFailed
    (AppContext.addMessage (MoreSamples.messageOf "m-5" "B" true)
       MoreSamples.conversations)
  = AppContext.addMessage
      (AppContext.with_status (MoreSamples.messageOf "m-5" "B" true)
         StatusFailed)
      MoreSamples.conversations.
Proof.
  apply (status_after_addMessage (MoreSamples.messageOf "m-5" "B" true)
           StatusFailed MoreSamples.conversations).
  repeat constructor; cbn; discriminate.
Defined.

(* ===================================================================== *)
(** ** The application context: restoring the duplicate cache            *)
(* ===================================================================== *)

Lemma restoreDuplicates_lookup (clock : nat -> Z) (messageId : jsstring)
    (entries : list (jsstring * Z)) : forall (i : nat) (cache : Cache),
  (forall a b, (i <= a <= b)%nat -> (b < i + length entries)%nat ->
     clock b - clock a <= CACHE_EXPIRATION_MS) ->
  (forall k ts b, cache !! k = Some ts ->
     (i <= b < i + length entries)%nat -> clock b - ts <= CACHE_EXPIRATION_MS) ->
  AppContext.restoreDuplicates clock i entries cache !! messageId
  = match cache !! messageId with
    | Some ts => Some ts
    | None =>
        option_map (fun k => clock (i + k)%nat)
          (AppContext.findIndex (fun e => bool_decide (e.1 = messageId))
             entries)
    end.
Proof.
  induction entries as [|[id0 ts0] entries IH]; intros i cache Hclock Hcache.
  - cbn. destruct (cache !! messageId); reflexivity.
  - cbn [AppContext.restoreDuplicates AppContext.findIndex fst length] in *.
    destruct (isDuplicate cache id0) eqn:Hdup.
    + rewrite IH.
      * apply isDuplicate_true in Hdup. destruct Hdup as [t0 Ht0].
        destruct (cache !! messageId) as [ts|] eqn:E; [reflexivity|].
        rewrite bool_decide_eq_false_2 by congruence.
        destruct (AppContext.findIndex _ entries); cbn; [|reflexivity].
        do 2 f_equal. lia.
      * intros a b H1 H2. apply Hclock; lia.
      * intros k ts b H1 H2. apply (Hcache k ts b H1). lia.
    + assert (Hnone : cache !! id0 = None).
      { destruct (cache !! id0) eqn:E; [|reflexivity].
        assert (isDuplicate cache id0 = true)
          by (apply isDuplicate_true; eexists; exact E).
        congruence. }
      rewrite IH.
      * destruct (decide (id0 = messageId)) as [->|Hne].
        -- rewrite markAsProcessed_self, Hnone.
           rewrite bool_decide_eq_true_2 by reflexivity. cbn.
           do 2 f_equal. lia.
        -- rewrite bool_decide_eq_false_2 by exact Hne.
           assert (Hsame : markAsProcessed (clock i) id0 cache !! messageId
                           = cache !! messageId).
           { apply option_eq. intros ts. unfold markAsProcessed.
             rewrite pruneCache_lookup.
             rewrite lookup_insert_ne by exact Hne. split; [tauto|].
             intros E. split; [exact E|].
             pose proof (Hcache messageId ts i E ltac:(lia)). lia. }
           rewrite Hsame. destruct (cache !! messageId); [reflexivity|].
           destruct (AppContext.findIndex _ entries); cbn; [|reflexivity].
           do 2 f_equal. lia.
      * intros a b H1 H2. apply Hclock; lia.
      * intros k ts b H1 H2. unfold markAsProcessed in H1.
        apply pruneCache_lookup in H1. destruct H1 as [H1 _].
        destruct (decide (id0 = k)) as [->|Hne].
        -- rewrite lookup_insert_eq in H1. injection H1 as <-.
           apply Hclock; lia.
        -- rewrite lookup_insert_ne in H1 by exact Hne.
           apply (Hcache k ts b H1). lia.
Qed.

(** X18.  Restoring the persisted duplicate cache at start-up ignores
    the persisted timestamps: when the loop's clock readings lie within
    one expiry window, the detector (empty before) afterwards holds
    each persisted id with the clock reading of the iteration that
    first met it, so exactly the persisted ids are reported as
    duplicates and each starts a fresh lifetime of
    CACHE_EXPIRATION_MS. *)
Theorem restored_ids_restart_their_lifetime (clock : nat -> Z)
    (entries : list (jsstring * Z)) (messageId : jsstring) :
  (forall a b, (a <= b < length entries)%nat ->
     clock b - clock a <= CACHE_EXPIRATION_MS) ->
  AppContext.restoreDuplicates clock 0 entries ∅ !! messageId
  = option_map clock
      (AppContext.findIndex (fun e => bool_decide (e.1 = messageId)) entries)
  /\ (isDuplicate (AppContext.restoreDuplicates clock 0 entries ∅) messageId
      = true <-> In messageId (map fst entries)).
Proof.
  intros Hclock.
  assert (H : AppContext.restoreDuplicates clock 0 entries ∅ !! messageId
              = option_map clock
                  (AppContext.findIndex
                     (fun e => bool_decide (e.1 = messageId)) entries)).
  { rewrite restoreDuplicates_lookup.
    - rewrite lookup_empty. reflexivity.
    - intros a b H1 H2. apply Hclock. lia.
    - intros k ts b H1. rewrite lookup_empty in H1. discriminate. }
  split; [exact H|].
  rewrite isDuplicate_true, H.
  clear. induction entries as [|[k v] entries IH]; cbn.
  - split; [intros [? ?]; discriminate|intros []].
  - destruct (decide (k = messageId)) as [->|Hne].
    + rewrite bool_decide_eq_true_2 by reflexivity. cbn.
      split; [auto|eauto].
    + rewrite bool_decide_eq_false_2 by exact Hne.
      destruct (AppContext.findIndex _ entries) eqn:E; cbn in *.
      * split; [intros _; right; apply IH; eauto|eauto].
      * split; [intros [? ?]; discriminate|].
        intros [?|Hin]; [congruence|]. apply IH in Hin. exact Hin.
Qed.

Lemma restored_ids_restart_their_lifetime_witness :
  AppContext.restoreDuplicates (fun i => 1700000000000 + Z.of_nat i) 0
    [(messageId Samples.testEnvelope, 1600000000000);
     (messageId Samples.otherEnvelope, 1600000000001)] ∅
  !! messageId Samples.otherEnvelope
  = Some 1700000000001.
Proof.
  apply (restored_ids_restart_their_lifetime
           (fun i => 1700000000000 + Z.of_nat i)
           [(messageId Samples.testEnvelope, 1600000000000);
            (messageId Samples.otherEnvelope, 1600000000001)]
           (messageId Samples.otherEnvelope)).
  intros a b H. cbn [length] in H. unfold CACHE_EXPIRATION_MS. lia.
Defined.

(* ===================================================================== *)
(** ** The fallback crypto service                                        *)
(* ===================================================================== *)

Lemma lxor_byte_range (p q : Byte.byte) :
  0 <= Z.lxor (byteZ p) (byteZ q) < 256.
Proof.
  pose proof (byteZ_range p) as Hp. pose proof (byteZ_range q) as Hq.
  assert (H0 : 0 <= Z.lxor (byteZ p) (byteZ q))
    by (apply Z.lxor_nonneg; lia).
  split; [assumption|].
  destruct (Z.eq_dec (Z.lxor (byteZ p) (byteZ q)) 0) as [->|Hnz]; [lia|].
  change 256 with (2 ^ 8). apply Z.log2_lt_pow2; [lia|].
  pose proof (Z.log2_lxor (byteZ p) (byteZ q) ltac:(lia) ltac:(lia)) as Hl.
  assert (Z.log2 (byteZ p) < 8).
  { destruct (Z.eq_dec (byteZ p) 0) as [->|?]; [reflexivity|].
    apply Z.log2_lt_pow2; simpl; lia. }
  assert (Z.log2 (byteZ q) < 8).
  { destruct (Z.eq_dec (byteZ q) 0) as [->|?]; [reflexivity|].
    apply Z.log2_lt_pow2; simpl; lia. }
  lia.
Qed.

Lemma byteZ_xor (p q : Byte.byte) :
  byteZ (u8 (Z.lxor (byteZ p) (byteZ q))) = Z.lxor (byteZ p) (byteZ q).
Proof. rewrite byteZ_u8. apply Z.mod_small, lxor_byte_range. Qed.

Lemma lxor_swap (x y x' y' : Z) :
  Z.lxor x y' = Z.lxor y x' -> Z.lxor x x' = Z.lxor y y'.
Proof.
  intros H. apply Z.bits_inj'. intros n _.
  apply (f_equal (fun z => Z.testbit z n)) in H.
  rewrite !Z.lxor_spec in *.
  destruct (Z.testbit x n), (Z.testbit y n), (Z.testbit x' n),
    (Z.testbit y' n); cbn in *; congruence.
Qed.

Lemma u8_inj_range (a b : Z) :
  0 <= a < 256 -> 0 <= b < 256 -> u8 a = u8 b -> a = b.
Proof.
  intros Ha Hb H. apply (f_equal byteZ) in H. rewrite !byteZ_u8 in H.
  rewrite !Z.mod_small in H by assumption. exact H.
Qed.

Lemma xor_bytes_swap (a : bytes) : forall b a' b' : bytes,
  length b = length a -> length a' = length a -> length b' = length a ->
  xor_bytes a b' = xor_bytes b a' -> xor_bytes a a' = xor_bytes b b'.
Proof.
  unfold xor_bytes.
  induction a as [|x a IH]; intros [|y b] [|x' a'] [|y' b'] H1 H2 H3 H;
    try discriminate; [reflexivity|].
  cbn [combine map fst snd] in *. injection H as Hh Ht.
  cbn [length] in *. f_equal.
  - apply u8_inj_range in Hh; try apply lxor_byte_range.
    f_equal. apply lxor_swap. assumption.
  - apply IH; try lia. assumption.
Qed.

Lemma xor_bytes_cancel (a : bytes) : forall b : bytes,
  length b = length a -> xor_bytes (xor_bytes a b) b = a.
Proof.
  unfold xor_bytes. induction a as [|x a IH]; intros [|y b] H;
    try discriminate; [reflexivity|].
  cbn [combine map fst snd length] in *. f_equal.
  - rewrite byteZ_xor, Z.lxor_assoc, Z.lxor_nilpotent, Z.lxor_0_r.
    apply u8_byteZ.
  - apply IH. lia.
Qed.

Lemma exchange_is_xor (c : ExpoCrypto.State) (priv peer : bytes) :
  ExpoCrypto.initialized c = true -> ExpoCrypto.privateKey c = Some priv ->
  length priv = 32%nat -> length peer = 32%nat ->
  ExpoCrypto.performKeyExchange c peer = Returned (xor_bytes priv peer).
Proof.
  intros Hi Hp Hl1 Hl2. unfold ExpoCrypto.performKeyExchange.
  rewrite Hi, Hp. unfold len. rewrite Hl2. cbn [Z.of_nat Z.eqb negb].
  replace (Z.of_nat 32 =? 32) with true by reflexivity. cbn [negb].
  f_equal.
  do 32 (destruct priv as [|? priv]; [discriminate Hl1|]).
  destruct priv; [|discriminate Hl1].
  do 32 (destruct peer as [|? peer]; [discriminate Hl2|]).
  destruct peer; [|discriminate Hl2].
  reflexivity.
Qed.

(** X19.  The key exchange of [ExpoCryptoService] is a bytewise
    exclusive or: for initialised services with 32-byte keys the
    shared secret is the private key xor the peer's public key.
    Hence the secret xor the peer's public key is the private key
    itself, and the two sides of an exchange compute the same secret
    exactly when private xor public is the same on both sides. *)
Theorem expo_key_exchange_is_xor (cA cB : ExpoCrypto.State)
    (privA privB pubA pubB : bytes) :
  ExpoCrypto.initialized cA = true -> ExpoCrypto.privateKey cA = Some privA ->
  ExpoCrypto.initialized cB = true -> ExpoCrypto.privateKey cB = Some privB ->
  length privA = 32%nat -> length privB = 32%nat ->
  length pubA = 32%nat -> length pubB = 32%nat ->
  ExpoCrypto.performKeyExchange cA pubB = Returned (xor_bytes privA pubB)
  /\ xor_bytes (xor_bytes privA pubB) pubB = privA
  /\ (ExpoCrypto.performKeyExchange cA pubB
      = ExpoCrypto.performKeyExchange cB pubA
      <-> xor_bytes privA pubA = xor_bytes privB pubB).
Proof.
  intros HiA HpA HiB HpB HlA HlB HlpA HlpB.
  rewrite (exchange_is_xor cA privA pubB) by assumption.
  rewrite (exchange_is_xor cB privB pubA) by assumption.
  split; [reflexivity|]. split; [apply xor_bytes_cancel; congruence|].
  split.
  - intros H. injection H as H. apply xor_bytes_swap; congruence.
  - intros H. f_equal. apply xor_bytes_swap; congruence.
Qed.

Lemma expo_key_exchange_is_xor_witness :
  ExpoCrypto.performKeyExchange MoreSamples.expoOfA MoreSamples.keyOfB
  = Returned (xor_bytes (repeat Byte.x11 32) MoreSamples.keyOfB)
  /\ xor_bytes (xor_bytes (repeat Byte.x11 32) MoreSamples.keyOfB)
       MoreSamples.keyOfB
     = repeat Byte.x11 32.
Proof.
  destruct (expo_key_exchange_is_xor MoreSamples.expoOfA MoreSamples.expoOfB
              (repeat Byte.x11 32) (repeat Byte.x22 32)
              MoreSamples.keyOfA MoreSamples.keyOfB)
    as (H1 & H2 & _); try reflexivity.
  split; [exact H1 | exact H2].
Defined.
(* ===================================================================== *)
(** ** CryptoService: text coding, fingerprints, encryption               *)
(* ===================================================================== *)

Lemma land_mul_pow2_low (hi lo k : Z) :
  0 <= k -> 0 <= lo < 2 ^ k -> Z.land (hi * 2 ^ k) lo = 0.
Proof.
  intros Hk Hlo. apply Z.bits_inj'. intros n Hn.
  rewrite Z.land_spec, Z.bits_0.
  destruct (Z_lt_dec n k) as [Hlt|Hge].
  - rewrite Z.mul_pow2_bits_low by lia. reflexivity.
  - destruct (Z.eq_dec lo 0) as [->|Hnz].
    + rewrite Z.bits_0. apply andb_false_r.
    + rewrite (Z.bits_above_log2 lo n); [apply andb_false_r|lia|].
      assert (Z.log2 lo < k) by (apply Z.log2_lt_pow2; lia). lia.
Qed.

Lemma lor_mul_pow2 (hi lo k : Z) :
  0 <= k -> 0 <= lo < 2 ^ k -> Z.lor (hi * 2 ^ k) lo = hi * 2 ^ k + lo.
Proof.
  intros Hk Hlo. pose proof (Z.add_lor_land (hi * 2 ^ k) lo) as H.
  rewrite land_mul_pow2_low in H by assumption. lia.
Qed.

Lemma land_mask (a : Z) (n : Z) (m : Z) :
  0 <= n -> m = 2 ^ n - 1 -> Z.land a m = a mod 2 ^ n.
Proof.
  intros Hn ->. rewrite <- Z.land_ones by assumption.
  rewrite Z.ones_equiv. reflexivity.
Qed.

(** Bit operations of the two coders as arithmetic. *)
Ltac bits :=
  repeat first
    [ rewrite Z.shiftr_div_pow2 by lia
    | rewrite Z.shiftl_mul_pow2 by lia
    | rewrite (land_mask _ 10 1023) by (reflexivity || lia)
    | rewrite (land_mask _ 6 63) by (reflexivity || lia)
    | rewrite (land_mask _ 5 31) by (reflexivity || lia)
    | rewrite (land_mask _ 4 15) by (reflexivity || lia)
    | rewrite (land_mask _ 3 7) by (reflexivity || lia) ].

Lemma lor_const (c k v : Z) (hi : Z) :
  0 <= k -> c = hi * 2 ^ k -> 0 <= v < 2 ^ k -> Z.lor c v = c + v.
Proof. intros Hk -> Hv. apply lor_mul_pow2; assumption. Qed.

(** The run of [sendMessage] when every step before storage succeeds. *)
Lemma sendMessage_run (crypto : CryptoService) (env : Env)
    (recipientId text : jsstring) (peers : list (jsstring * Peer))
    (s : Service) (recipient : Peer) (secret ownPublicKey : bytes)
    (fp recipientIdHash : jsstring) (encrypted : EncryptedMessage)
    (envelope : MessageEnvelope) (data : bytes) :
  len text <= MAX_MESSAGE_LENGTH -> text <> [] ->
  map_get peers recipientId = Some recipient ->
  sharedSecret recipient = Some secret ->
  getPublicKey crypto = Returned ownPublicKey ->
  generateTrustFingerprint crypto ownPublicKey = Returned fp ->
  match publicKey recipient with
  | Some pk => exists fpr, generateTrustFingerprint crypto pk = Returned fpr
                           /\ recipientIdHash = substring0 fpr 16
  | None => recipientIdHash = substring0 recipientId 16
  end ->
  encryptMessage crypto text secret = Returned encrypted ->
  createEnvelope encrypted (generateUUID env) (substring0 fp 16)
    recipientIdHash (now env) INITIAL_MESSAGE_TTL = Ok envelope ->
  serializeEnvelope envelope = Ok data ->
  sendMessage crypto env recipientId text peers s
  = send_result env recipientId text secret envelope data s.
Proof.
  intros Hlen Hne Hpeer Hsec Hpk Hfp Hrid Henc Hcreate Hser.
  unfold sendMessage, try_catch.
  replace (MAX_MESSAGE_LENGTH <? len text) with false
    by (symmetry; apply Z.ltb_ge; assumption).
  replace (len text =? 0) with false.
  2:{ symmetry. apply Z.eqb_neq. unfold len. destruct text; [contradiction|].
      cbn [length]. lia. }
  rewrite Hpeer, Hsec. bind_step. rewrite Hpk. bind_step. rewrite Hfp.
  bind_step.
  assert (Hrid' : forall s0, (match publicKey recipient with
           | Some pk => deriveSenderId crypto pk
           | None => ret (substring0 recipientId 16)
           end) s0 = (Returned recipientIdHash, s0, [])).
  { destruct (publicKey recipient) as [pk|].
    - destruct Hrid as (fpr & Hfpr & ->). intros s0.
      rewrite deriveSenderId_run, Hfpr. reflexivity.
    - subst recipientIdHash. reflexivity. }
  rewrite Hrid'. bind_step. bind_step. rewrite Henc. bind_step.
  rewrite Hcreate. cbn [lift_result ret]. bind_step. rewrite Hser.
  cbn [lift_result ret]. unfold send_result. bind_step.
  fold (outgoing env recipientId text).
  destruct (storageWritable env) eqn:Hw; [|reflexivity].
  bind_step. change (devicesToSend env None) with (connectedDevices env).
  destruct (transmit_ok env data (connectedDevices env)) eqn:Hok.
  - cbn [negb]. unfold notifyStatus, status_events.
    bind_step. bind_step.
    change (messageStatusCallback (stored (outgoing env recipientId text) s))
      with (messageStatusCallback s).
    destruct (messageStatusCallback s); cbn [app emit ret];
      rewrite ?app_nil_r; reflexivity.
  - cbn [negb]. unfold queueMessageForRetry. bind_step. cbn [app].
    rewrite ?app_nil_r. reflexivity.
Qed.

Lemma serialize_decodes (e : MessageEnvelope) (data : bytes) :
  serializeEnvelope e = Ok data ->
  is_canonical_uuid (messageId e) = true ->
  is_lower_hex_id (senderId e) = true ->
  is_lower_hex_id (recipientId e) = true ->
  timestamp e < 2 ^ 53 ->
  len (nonce e) <= 1024 -> len (tag e) <= 1024 ->
  len (encryptedPayload e) <= 10 * 1024 * 1024 ->
  deserializeEnvelope data = Ok e.
Proof.
  intros Hser Hm Hs Hr Hts Hn Ht Hp.
  pose proof (serializeEnvelope_inv _ _ Hser) as (Hval & Hml & Hsl & Hrl).
  pose proof (validateEnvelope_inv e Hval) as (Hv & Httl & Hts0 & _).
  destruct (canonical_uuid_roundtrip _ Hm) as [_ Hmr].
  destruct (lower_hex_id_roundtrip _ Hs) as [_ Hsr].
  destruct (lower_hex_id_roundtrip _ Hr) as [_ Hrr].
  replace data
    with ([u8 1] ++ hex_to_bytes (remove_hyphens (messageId e)) 16
          ++ hex_to_bytes (senderId e) 8
          ++ hex_to_bytes (recipientId e) 8
          ++ be_bytes 8 (timestamp e) ++ [u8 (ttl e)]
          ++ be_bytes 2 (len (nonce e)) ++ nonce e
          ++ be_bytes 2 (len (tag e)) ++ tag e
          ++ be_bytes 4 (len (encryptedPayload e)) ++ encryptedPayload e)
    by (rewrite serializeEnvelope_layout in Hser by assumption; congruence).
  apply deserialize_wire;
    try (apply length_hex_to_bytes); try assumption; try lia.
  rewrite Hmr, Hsr, Hrr.
  replace (Number_of_BigInt (timestamp e)) with (timestamp e).
  2:{ symmetry. unfold Number_of_BigInt.
      replace (timestamp e <? 2 ^ 53) with true
        by (symmetry; apply Z.ltb_lt; assumption). reflexivity. }
  destruct e; cbn in *. subst. reflexivity.
Qed.

Lemma senderLookup_first (crypto : CryptoService)
    (before rest : list (jsstring * Peer)) (k : jsstring) (p : Peer)
    (pk : bytes) (fp : jsstring) :
  Forall (fun kp =>
            match publicKey kp.2 with
            | None => True
            | Some pk' =>
                exists fp',
                  generateTrustFingerprint crypto pk' = Returned fp'
                  /\ substring0 fp' 16 <> substring0 fp 16
            end) before ->
  publicKey p = Some pk ->
  generateTrustFingerprint crypto pk = Returned fp ->
  senderLookup crypto (before ++ (k, p) :: rest) (substring0 fp 16)
  = Returned (Some p).
Proof.
  intros Hb Hpk Hfp. unfold senderLookup.
  induction Hb as [|[k0 p0] before Hother _ IH].
  - cbn [app findSenderPeer]. rewrite Hpk. rewrite bind_unfold.
    rewrite deriveSenderId_run, Hfp.
    rewrite bool_decide_eq_true_2 by reflexivity. reflexivity.
  - cbn [app findSenderPeer]. cbn [snd] in Hother.
    destruct (publicKey p0) as [pk'|]; [|exact IH].
    destruct Hother as (fp' & Hfp' & Hne).
    rewrite bind_unfold, deriveSenderId_run, Hfp'.
    rewrite bool_decide_eq_false_2 by exact Hne.
    destruct (findSenderPeer crypto (before ++ (k, p) :: rest)
                (substring0 fp 16) initialService) as [[o s'] t'].
    exact IH.
Qed.

Import CryptoImpl CryptoObservations.

Lemma decode_one (c : Z) (r : bytes) :
  0 <= c < 128 ->
  uint8ArrayToString (u8 c :: r) = Z.to_N c :: uint8ArrayToString r.
Proof.
  intros Hc. cbn [uint8ArrayToString]. rewrite byteZ_u8.
  rewrite Z.mod_small by lia.
  replace (c <? 128) with true by (symmetry; apply Z.ltb_lt; lia).
  unfold fromCharCode. rewrite Z.mod_small by lia. reflexivity.
Qed.

Ltac side := first [ lia | reflexivity | simpl; lia ].

Lemma decode_two (c : Z) (r : bytes) :
  128 <= c < 2048 ->
  uint8ArrayToString
    (u8 (Z.lor 192 (Z.shiftr c 6)) :: u8 (Z.lor 128 (Z.land c 63)) :: r)
  = Z.to_N c :: uint8ArrayToString r.
Proof.
  intros Hc. cbn [uint8ArrayToString]. rewrite !byteZ_u8. bits.
  change (2 ^ 6) with 64.
  assert (H1 : 2 <= c / 64 < 32).
  { split; [apply Z.div_le_lower_bound; lia
           | apply Z.div_lt_upper_bound; lia]. }
  assert (H2 : 0 <= c mod 64 < 64) by (apply Z.mod_pos_bound; lia).
  rewrite (lor_const 192 6 (c / 64) 3) by side.
  rewrite (lor_const 128 6 (c mod 64) 2) by side.
  rewrite !(Z.mod_small (_ + _) 256) by lia.
  replace (192 + c / 64 <? 128) with false by (symmetry; apply Z.ltb_ge; lia).
  replace (192 + c / 64 <? 224) with true by (symmetry; apply Z.ltb_lt; lia).
  f_equal. unfold decode2, fromCharCode. bits.
  change (2 ^ 5) with 32. change (2 ^ 6) with 64.
  replace ((192 + c / 64) mod 32) with (c / 64)
    by (symmetry; replace (192 + c / 64) with (c / 64 + 6 * 32) by lia;
        rewrite Z.mod_add by lia; apply Z.mod_small; lia).
  replace ((128 + c mod 64) mod 64) with (c mod 64)
    by (symmetry; replace (128 + c mod 64) with (c mod 64 + 2 * 64) by lia;
        rewrite Z.mod_add by lia; apply Z.mod_small; lia).
  rewrite (lor_const (c / 64 * 64) 6 (c mod 64) (c / 64)) by side.
  replace (c / 64 * 64 + c mod 64) with c
    by (rewrite (Z.div_mod c 64) at 1 by lia; lia).
  rewrite Z.mod_small by lia. reflexivity.
Qed.

Lemma mod_add_const (v k m : Z) : 0 < m -> 0 <= v < m -> (k * m + v) mod m = v.
Proof.
  intros Hm Hv. rewrite Z.add_comm, Z.mod_add by lia. apply Z.mod_small. lia.
Qed.

Lemma decode_three (c : Z) (r : bytes) :
  2048 <= c < 65536 ->
  uint8ArrayToString
    (u8 (Z.lor 224 (Z.shiftr c 12))
     :: u8 (Z.lor 128 (Z.land (Z.shiftr c 6) 63))
     :: u8 (Z.lor 128 (Z.land c 63)) :: r)
  = Z.to_N c :: uint8ArrayToString r.
Proof.
  intros Hc. cbn [uint8ArrayToString]. rewrite !byteZ_u8. bits.
  set (h := c / 2 ^ 12). set (m := (c / 2 ^ 6) mod 2 ^ 6).
  set (l := c mod 2 ^ 6).
  assert (Hh : 0 <= h < 16) by (subst h; simpl; Z.div_mod_to_equations; lia).
  assert (Hm : 0 <= m < 64) by (subst m; simpl; Z.div_mod_to_equations; lia).
  assert (Hl : 0 <= l < 64) by (subst l; simpl; Z.div_mod_to_equations; lia).
  assert (Hsum : c = h * 4096 + m * 64 + l)
    by (subst h m l; simpl; Z.div_mod_to_equations; lia).
  rewrite (lor_const 224 4 h 14) by side.
  rewrite (lor_const 128 6 m 2) by side.
  rewrite (lor_const 128 6 l 2) by side.
  rewrite !(Z.mod_small (_ + _) 256) by lia.
  replace (224 + h <? 128) with false by (symmetry; apply Z.ltb_ge; lia).
  replace (224 + h <? 224) with false by (symmetry; apply Z.ltb_ge; lia).
  replace (224 + h <? 240) with true by (symmetry; apply Z.ltb_lt; lia).
  f_equal. unfold decode3, fromCharCode. bits.
  replace ((224 + h) mod 2 ^ 4) with h
    by (symmetry; apply (mod_add_const h 14 16); lia).
  replace ((128 + m) mod 2 ^ 6) with m
    by (symmetry; apply (mod_add_const m 2 64); lia).
  replace ((128 + l) mod 2 ^ 6) with l
    by (symmetry; apply (mod_add_const l 2 64); lia).
  rewrite (lor_const (h * 2 ^ 12) 12 (m * 2 ^ 6) h) by side.
  rewrite (lor_const (h * 2 ^ 12 + m * 2 ^ 6) 6 l (h * 64 + m)) by side.
  replace (h * 2 ^ 12 + m * 2 ^ 6 + l) with c by (simpl; lia).
  rewrite Z.mod_small by lia. reflexivity.
Qed.

Lemma decode_four (cp : Z) (r : bytes) :
  65536 <= cp < 1114112 ->
  uint8ArrayToString
    (u8 (Z.lor 240 (Z.shiftr cp 18))
     :: u8 (Z.lor 128 (Z.land (Z.shiftr cp 12) 63))
     :: u8 (Z.lor 128 (Z.land (Z.shiftr cp 6) 63))
     :: u8 (Z.lor 128 (Z.land cp 63)) :: r)
  = Z.to_N (55296 + (cp - 65536) / 1024)
    :: Z.to_N (56320 + (cp - 65536) mod 1024)
    :: uint8ArrayToString r.
Proof.
  intros Hc. cbn [uint8ArrayToString]. rewrite !byteZ_u8. bits.
  set (h := cp / 2 ^ 18). set (m1 := (cp / 2 ^ 12) mod 2 ^ 6).
  set (m2 := (cp / 2 ^ 6) mod 2 ^ 6). set (l := cp mod 2 ^ 6).
  assert (Hh : 0 <= h < 5) by (subst h; simpl; Z.div_mod_to_equations; lia).
  assert (Hm1 : 0 <= m1 < 64)
    by (subst m1; simpl; Z.div_mod_to_equations; lia).
  assert (Hm2 : 0 <= m2 < 64)
    by (subst m2; simpl; Z.div_mod_to_equations; lia).
  assert (Hl : 0 <= l < 64) by (subst l; simpl; Z.div_mod_to_equations; lia).
  assert (Hsum : cp = h * 262144 + m1 * 4096 + m2 * 64 + l)
    by (subst h m1 m2 l; simpl; Z.div_mod_to_equations; lia).
  rewrite (lor_const 240 3 h 30) by side.
  rewrite (lor_const 128 6 m1 2) by side.
  rewrite (lor_const 128 6 m2 2) by side.
  rewrite (lor_const 128 6 l 2) by side.
  rewrite !(Z.mod_small (_ + _) 256) by lia.
  replace (240 + h <? 128) with false by (symmetry; apply Z.ltb_ge; lia).
  replace (240 + h <? 224) with false by (symmetry; apply Z.ltb_ge; lia).
  replace (240 + h <? 240) with false by (symmetry; apply Z.ltb_ge; lia).
  unfold decode4, fromCharCode. cbv zeta. bits.
  replace ((240 + h) mod 2 ^ 3) with h
    by (symmetry; apply (mod_add_const h 30 8); lia).
  replace ((128 + m1) mod 2 ^ 6) with m1
    by (symmetry; apply (mod_add_const m1 2 64); lia).
  replace ((128 + m2) mod 2 ^ 6) with m2
    by (symmetry; apply (mod_add_const m2 2 64); lia).
  replace ((128 + l) mod 2 ^ 6) with l
    by (symmetry; apply (mod_add_const l 2 64); lia).
  rewrite (lor_const (h * 2 ^ 18) 18 (m1 * 2 ^ 12) h) by side.
  rewrite (lor_const (h * 2 ^ 18 + m1 * 2 ^ 12) 12 (m2 * 2 ^ 6) (h * 64 + m1))
    by side.
  rewrite (lor_const (h * 2 ^ 18 + m1 * 2 ^ 12 + m2 * 2 ^ 6) 6 l
             (h * 4096 + m1 * 64 + m2)) by side.
  replace (h * 2 ^ 18 + m1 * 2 ^ 12 + m2 * 2 ^ 6 + l) with cp by (simpl; lia).
  change (2 ^ 10) with 1024.
  assert (H1 : 0 <= (cp - 65536) / 1024 < 1024)
    by (Z.div_mod_to_equations; lia).
  assert (H2 : 0 <= (cp - 65536) mod 1024 < 1024)
    by (Z.div_mod_to_equations; lia).
  rewrite !(Z.mod_small (_ + _) 65536) by lia. reflexivity.
Qed.

Lemma surrogate_pair_code_point (c d : Z) :
  55296 <= c < 56320 -> 56320 <= d < 57344 ->
  let cp := 65536 + Z.lor (Z.shiftl (Z.land c 1023) 10) (Z.land d 1023) in
  65536 <= cp < 1114112
  /\ 55296 + (cp - 65536) / 1024 = c
  /\ 56320 + (cp - 65536) mod 1024 = d.
Proof.
  intros Hc Hd. cbv zeta. bits.
  set (a := c mod 2 ^ 10). set (b := d mod 2 ^ 10).
  assert (Ha : a = c - 55296)
    by (subst a; simpl; Z.div_mod_to_equations; lia).
  assert (Hb : b = d - 56320)
    by (subst b; simpl; Z.div_mod_to_equations; lia).
  rewrite (lor_const (a * 2 ^ 10) 10 b a) by side.
  change (2 ^ 10) with 1024.
  replace (65536 + (a * 1024 + b) - 65536) with (a * 1024 + b) by lia.
  split; [lia|]. split; Z.div_mod_to_equations; lia.
Qed.

Lemma utf8_decode_encode_upto (n : nat) : forall s : jsstring,
  (length s <= n)%nat -> well_formed_utf16 s = true ->
  uint8ArrayToString (stringToUint8Array s) = s.
Proof.
  induction n as [|n IH]; intros s Hn Hwf.
  - destruct s; [reflexivity | cbn [length] in Hn; lia].
  - destruct s as [|c rest]; [reflexivity|].
    cbn [length] in Hn.
    cbn [well_formed_utf16] in Hwf. cbn [stringToUint8Array]. cbv zeta.
    destruct ((c <? 55296)%N || ((57344 <=? c)%N && (c <? 65536)%N)) eqn:Hbmp.
    + assert (Hc : 0 <= Z.of_N c < 55296 \/ 57344 <= Z.of_N c < 65536).
      { apply orb_true_iff in Hbmp. destruct Hbmp as [Hb|Hb].
        - apply N.ltb_lt in Hb. lia.
        - apply andb_true_iff in Hb. destruct Hb as [Hb1 Hb2].
          apply N.leb_le in Hb1. apply N.ltb_lt in Hb2. lia. }
      specialize (IH rest ltac:(lia) Hwf).
      destruct (Z.of_N c <? 128) eqn:H1.
      { apply Z.ltb_lt in H1. rewrite decode_one by lia.
        rewrite IH, N2Z.id. reflexivity. }
      apply Z.ltb_ge in H1.
      destruct (Z.of_N c <? 2048) eqn:H2.
      { apply Z.ltb_lt in H2. rewrite decode_two by lia.
        rewrite IH, N2Z.id. reflexivity. }
      apply Z.ltb_ge in H2.
      replace ((Z.of_N c <? 55296) || (57344 <=? Z.of_N c)) with true.
      2:{ symmetry. apply orb_true_iff. destruct Hc as [Hc|Hc];
            [left; apply Z.ltb_lt | right; apply Z.leb_le]; lia. }
      rewrite decode_three by lia. rewrite IH, N2Z.id. reflexivity.
    + apply orb_false_iff in Hbmp. destruct Hbmp as [Hb1 Hb2].
      apply N.ltb_ge in Hb1.
      destruct (c <? 56320)%N eqn:Hhi; [|discriminate].
      apply N.ltb_lt in Hhi.
      destruct rest as [|d rest']; [discriminate|].
      apply andb_true_iff in Hwf. destruct Hwf as [Hd Hwf].
      apply andb_true_iff in Hd. destruct Hd as [Hd1 Hd2].
      apply N.leb_le in Hd1. apply N.ltb_lt in Hd2.
      replace (Z.of_N c <? 128) with false by (symmetry; apply Z.ltb_ge; lia).
      replace (Z.of_N c <? 2048) with false
        by (symmetry; apply Z.ltb_ge; lia).
      replace ((Z.of_N c <? 55296) || (57344 <=? Z.of_N c)) with false.
      2:{ symmetry. apply orb_false_iff. split;
            [apply Z.ltb_ge | apply Z.leb_gt]; lia. }
      destruct (surrogate_pair_code_point (Z.of_N c) (Z.of_N d))
        as (Hr & Hc' & Hd'); [lia|lia|].
      cbv zeta in Hr, Hc', Hd'.
      rewrite decode_four by exact Hr.
      rewrite Hc', Hd', !N2Z.id.
      cbn [length] in Hn. rewrite (IH rest') by (assumption || lia).
      reflexivity.
Qed.

(** X20.  The hand-written UTF-8 coders are inverse on well-formed
    text: for every string of UTF-16 code units in which each high
    surrogate is followed by a low surrogate and no other low
    surrogate occurs, [uint8ArrayToString (stringToUint8Array s)] is
    [s]. *)
Theorem utf8_roundtrip (s : jsstring) :
  well_formed_utf16 s = true ->
  uint8ArrayToString (stringToUint8Array s) = s.
Proof.
  intros Hwf. apply (utf8_decode_encode_upto (length s)); [|exact Hwf].
  apply le_n.
Qed.

Lemma utf8_roundtrip_witness :
  uint8ArrayToString
    (stringToUint8Array [72; 233; 8364; 55357; 56832]%N)
  = [72; 233; 8364; 55357; 56832]%N.
Proof. apply utf8_roundtrip. reflexivity. Defined.

Ltac boolprop :=
  repeat match goal with
  | H : (_ || _) = true |- _ => apply orb_true_iff in H
  | H : (_ || _) = false |- _ => apply orb_false_iff in H; destruct H
  | H : (_ && _) = true |- _ => apply andb_true_iff in H; destruct H
  | H : (_ && _) = false |- _ => apply andb_false_iff in H
  | H : (_ <? _)%N = true |- _ => apply N.ltb_lt in H
  | H : (_ <? _)%N = false |- _ => apply N.ltb_ge in H
  | H : (_ <=? _)%N = true |- _ => apply N.leb_le in H
  | H : (_ <=? _)%N = false |- _ => apply N.leb_gt in H
  | H : (_ <? _) = true |- _ => apply Z.ltb_lt in H
  | H : (_ <? _) = false |- _ => apply Z.ltb_ge in H
  | H : (_ <=? _) = true |- _ => apply Z.leb_le in H
  | H : (_ <=? _) = false |- _ => apply Z.leb_gt in H
  end.

Ltac arith_cases :=
  boolprop;
  repeat (match goal with H : _ \/ _ |- _ => destruct H end; boolprop);
  lia.

Lemma utf8_length_upto (n : nat) : forall s : jsstring,
  (length s <= n)%nat ->
  len s <= len (stringToUint8Array s) <= 3 * len s + 1
  /\ (well_formed_utf16 s = true ->
      len (stringToUint8Array s) <= 3 * len s).
Proof.
  induction n as [|n IH]; intros s Hn.
  - destruct s; [unfold len; simpl; split; [lia | intros; lia]
                | cbn [length] in Hn; lia].
  - destruct s as [|c rest]; [unfold len; simpl; split; [lia | intros; lia]|].
    cbn [length] in Hn.
    cbn [stringToUint8Array well_formed_utf16]. cbv zeta.
    destruct (IH rest ltac:(lia)) as [IH1 IH2].
    destruct (Z.of_N c <? 128) eqn:H1;
      [|destruct (Z.of_N c <? 2048) eqn:H2;
        [|destruct ((Z.of_N c <? 55296) || (57344 <=? Z.of_N c)) eqn:H3]].
    1-3: unfold len in *; cbn [length]; split; [lia|];
      destruct ((c <? 55296)%N || ((57344 <=? c)%N && (c <? 65536)%N))
        eqn:Hw1;
      [ intros Hw; specialize (IH2 Hw); lia
      | destruct (c <? 56320)%N eqn:Hw2; [|discriminate];
        exfalso; arith_cases ].
    destruct rest as [|d rest'].
    + unfold len. cbn [length]. split; [lia|].
      destruct ((c <? 55296)%N || ((57344 <=? c)%N && (c <? 65536)%N))
        eqn:Hw1; [|destruct (c <? 56320)%N; discriminate].
      exfalso. arith_cases.
    + cbn [length] in Hn. destruct (IH rest' ltac:(lia)) as [IH1' IH2'].
      unfold len in *. cbn [length] in *. split; [lia|].
      destruct ((c <? 55296)%N || ((57344 <=? c)%N && (c <? 65536)%N))
        eqn:Hw1.
      { exfalso. arith_cases. }
      destruct (c <? 56320)%N; [|discriminate]. intros Hw.
      apply andb_true_iff in Hw. destruct Hw as [_ Hw].
      specialize (IH2' Hw). lia.
Qed.

(** X21.  The size of the encoding: [stringToUint8Array] gives at
    least one byte per code unit and at most three per code unit plus
    one; at most three per code unit for well-formed text; and a
    non-empty string never encodes to the empty array. *)
Theorem utf8_length_bounds (s : jsstring) :
  len s <= len (stringToUint8Array s) <= 3 * len s + 1
  /\ (well_formed_utf16 s = true -> len (stringToUint8Array s) <= 3 * len s)
  /\ (s <> [] -> stringToUint8Array s <> []).
Proof.
  destruct (utf8_length_upto (length s) s (le_n _)) as [H1 H2].
  split; [exact H1|]. split; [exact H2|].
  intros Hne E. rewrite E in H1. destruct s; [contradiction|].
  unfold len in H1. cbn [length] in H1. lia.
Qed.

Lemma forallb_firstn {A} (p : A -> bool) (n : nat) (l : list A) :
  forallb p l = true -> forallb p (firstn n l) = true.
Proof.
  revert n. induction l as [|x l IH]; intros n H; destruct n; try reflexivity.
  cbn [forallb firstn] in *. apply andb_true_iff in H. destruct H as [H1 H2].
  rewrite H1, IH by assumption. reflexivity.
Qed.

(** X22.  The trust fingerprint: for an initialised service whose hash
    answers, [generateTrustFingerprint] returns the first 32
    characters of the lower-case hexadecimal print of the hash, so it
    consists of lower-case hexadecimal digits and has length
    min(32, 2 * hash length); when the hash has at least 8 bytes, the
    sender id that [MessageService] derives from it (its first 16
    characters) is a well-formed 16-digit id. *)
Theorem fingerprint_is_lower_hex (c : State) (sd : Sodium)
    (pk hash : bytes) :
  initialized c = true -> sodium c = Some sd ->
  crypto_hash sd pk = Some hash ->
  exists fp,
    generateTrustFingerprint c pk = Returned fp
    /\ fp = substring0 (bytes_to_hex hash) 32
    /\ forallb is_lower_hex fp = true
    /\ len fp = Z.min 32 (2 * len hash)
    /\ (8 <= len hash ->
        is_lower_hex_id (substring0 fp 16) = true
        /\ forall s, deriveSenderId (service c) pk s
                     = (Returned (substring0 fp 16), s, [])).
Proof.
  intros Hi Hs Hh. unfold generateTrustFingerprint. rewrite Hi, Hs, Hh.
  eexists. split; [reflexivity|]. split; [reflexivity|].
  unfold uint8ArrayToHex, substring0.
  change (Z.to_nat FINGERPRINT_LENGTH) with 32%nat.
  split; [apply forallb_firstn, bytes_to_hex_lower|].
  split.
  { unfold len. rewrite length_firstn, length_bytes_to_hex. lia. }
  intros Hlen. split.
  - unfold is_lower_hex_id. rewrite length_firstn, length_firstn,
      length_bytes_to_hex.
    apply andb_true_iff. split.
    + apply Nat.eqb_eq. unfold len in Hlen. lia.
    + apply forallb_firstn, forallb_firstn, bytes_to_hex_lower.
  - intros s. rewrite deriveSenderId_run. cbn [service
      MessageService.generateTrustFingerprint].
    unfold generateTrustFingerprint. rewrite Hi, Hs, Hh. reflexivity.
Qed.

Lemma fingerprint_is_lower_hex_witness :
  exists fp,
    generateTrustFingerprint MoreSamples.cryptoOfA MoreSamples.keyOfA
    = Returned fp
    /\ forallb is_lower_hex fp = true /\ len fp = 32.
Proof.
  destruct (fingerprint_is_lower_hex MoreSamples.cryptoOfA
              MoreSamples.toySodium MoreSamples.keyOfA MoreSamples.keyOfA)
    as (fp & H1 & _ & H2 & H3 & _); try reflexivity.
  exists fp. split; [exact H1|]. split; [exact H2 | exact H3].
Defined.

Lemma slice_rel_split {A} (l : list A) (k : Z) :
  0 < k <= len l ->
  slice_rel l 0 (- k) = firstn (Z.to_nat (len l - k)) l
  /\ slice_rel l (- k) (len l) = skipn (Z.to_nat (len l - k)) l.
Proof.
  intros Hk. unfold slice_rel, relative_index. cbv zeta.
  replace (0 <? 0) with false by reflexivity.
  replace (- k <? 0) with true by (symmetry; apply Z.ltb_lt; lia).
  replace (len l <? 0) with false
    by (symmetry; apply Z.ltb_ge; unfold len; lia).
  rewrite Z.min_l by (unfold len; lia).
  rewrite Z.max_l by lia. rewrite Z.min_id.
  split.
  - change (Z.to_nat 0) with O. cbn [skipn]. f_equal. lia.
  - replace (len l + - k) with (len l - k) by lia.
    apply firstn_all2. rewrite length_skipn. unfold len. lia.
Qed.

(** X23.  Encryption and decryption compose to the identity: when the
    services of both sides are initialised with the same library, the
    key has the key length, the random nonce has the nonce length, and
    the AEAD answers for the encoded text with ciphertext followed by
    a tag of the tag length which it decrypts back, then
    [encryptMessage] returns the ciphertext and the tag split at the
    right place together with the nonce, and [decryptMessage] of that
    result under the same key returns the original well-formed
    text. *)
Theorem encrypt_decrypt_roundtrip (c1 c2 : State) (sd : Sodium)
    (text : jsstring) (key cwt : bytes) :
  initialized c1 = true -> sodium c1 = Some sd ->
  initialized c2 = true -> sodium c2 = Some sd ->
  well_formed_utf16 text = true ->
  len key = crypto_aead_xchacha20poly1305_ietf_KEYBYTES sd ->
  0 < crypto_aead_xchacha20poly1305_ietf_ABYTES sd ->
  len (randombytes_buf sd (crypto_aead_xchacha20poly1305_ietf_NPUBBYTES sd))
  = crypto_aead_xchacha20poly1305_ietf_NPUBBYTES sd ->
  crypto_aead_xchacha20poly1305_ietf_encrypt sd (stringToUint8Array text)
    (randombytes_buf sd (crypto_aead_xchacha20poly1305_ietf_NPUBBYTES sd)) key
  = Some cwt ->
  len cwt = len (stringToUint8Array text)
            + crypto_aead_xchacha20poly1305_ietf_ABYTES sd ->
  crypto_aead_xchacha20poly1305_ietf_decrypt sd cwt
    (randombytes_buf sd (crypto_aead_xchacha20poly1305_ietf_NPUBBYTES sd)) key
  = Some (stringToUint8Array text) ->
  exists enc,
    encryptMessage c1 text key = Returned enc
    /\ ciphertext enc ++ enc_tag enc = cwt
    /\ len (ciphertext enc) = len (stringToUint8Array text)
    /\ len (enc_tag enc) = crypto_aead_xchacha20poly1305_ietf_ABYTES sd
    /\ len (enc_nonce enc) = crypto_aead_xchacha20poly1305_ietf_NPUBBYTES sd
    /\ decryptMessage c2 enc key = Returned (Some text).
Proof.
  intros Hi1 Hs1 Hi2 Hs2 Hwf Hkey Hab Hnonce Henc Hlen Hdec.
  unfold encryptMessage. rewrite Hi1, Hs1, Hkey, Z.eqb_refl. cbn [negb].
  cbv zeta. rewrite Henc.
  destruct (slice_rel_split cwt (crypto_aead_xchacha20poly1305_ietf_ABYTES sd))
    as [Hc Ht].
  { pose proof (len_nonneg (stringToUint8Array text)). lia. }
  eexists. split; [reflexivity|]. cbn [ciphertext enc_tag enc_nonce].
  rewrite Hc, Ht.
  assert (Hcl : len (firstn (Z.to_nat
                       (len cwt - crypto_aead_xchacha20poly1305_ietf_ABYTES sd))
                       cwt) = len (stringToUint8Array text)).
  { unfold len in *. rewrite length_firstn. lia. }
  assert (Htl : len (skipn (Z.to_nat
                       (len cwt - crypto_aead_xchacha20poly1305_ietf_ABYTES sd))
                       cwt) = crypto_aead_xchacha20poly1305_ietf_ABYTES sd).
  { unfold len in *. rewrite length_skipn. lia. }
  split; [apply firstn_skipn|]. split; [exact Hcl|]. split; [exact Htl|].
  split; [exact Hnonce|].
  unfold decryptMessage. rewrite Hi2, Hs2. cbn [ciphertext enc_tag enc_nonce].
  rewrite Hkey, Hnonce, Htl, !Z.eqb_refl. cbn [negb].
  rewrite firstn_skipn, Hdec.
  rewrite (utf8_decode_encode_upto (length text) text (le_n _) Hwf). reflexivity.
Qed.

Lemma encrypt_decrypt_roundtrip_witness :
  exists enc,
    encryptMessage MoreSamples.cryptoOfA MoreSamples.mixedText
      MoreSamples.secretAB = Returned enc
    /\ decryptMessage MoreSamples.cryptoOfB enc MoreSamples.secretAB
       = Returned (Some MoreSamples.mixedText).
Proof.
  destruct (encrypt_decrypt_roundtrip MoreSamples.cryptoOfA
              MoreSamples.cryptoOfB MoreSamples.toySodium
              MoreSamples.mixedText MoreSamples.secretAB
              (stringToUint8Array MoreSamples.mixedText
                 ++ repeat Byte.x09 16))
    as (enc & H1 & _ & _ & _ & _ & H2); try reflexivity.
  exists enc. split; [exact H1 | exact H2].
Defined.

(* ===================================================================== *)
(** ** From sendMessage on one node to the callback on another            *)
(* ===================================================================== *)

Lemma fingerprint_run (c : State) (sd : Sodium) (pk : bytes) :
  ready c sd -> hash_answers sd pk ->
  exists fp,
    generateTrustFingerprint c pk = Returned fp
    /\ is_lower_hex_id (substring0 fp 16) = true.
Proof.
  intros [Hi Hs] (hash & Hh & Hlen).
  unfold generateTrustFingerprint. rewrite Hi, Hs, Hh.
  eexists. split; [reflexivity|].
  unfold uint8ArrayToHex, substring0, is_lower_hex_id.
  change (Z.to_nat FINGERPRINT_LENGTH) with 32%nat.
  rewrite !length_firstn, length_bytes_to_hex.
  apply andb_true_iff. split.
  - apply Nat.eqb_eq. unfold len in Hlen. lia.
  - apply forallb_firstn, forallb_firstn, bytes_to_hex_lower.
Qed.

Lemma crypto_roundtrip (c1 c2 : State) (sd : Sodium) (text : jsstring)
    (key : bytes) :
  ready c1 sd -> ready c2 sd -> well_formed_utf16 text = true ->
  aead_answers sd text key ->
  exists enc,
    encryptMessage c1 text key = Returned enc
    /\ len (ciphertext enc) = len (stringToUint8Array text)
    /\ len (enc_tag enc) = crypto_aead_xchacha20poly1305_ietf_ABYTES sd
    /\ len (enc_nonce enc) = crypto_aead_xchacha20poly1305_ietf_NPUBBYTES sd
    /\ decryptMessage c2 enc key = Returned (Some text).
Proof.
  intros [Hi1 Hs1] [Hi2 Hs2] Hwf (Hkey & Hnonce & _ & Hab & cwt & Henc & Hlen
                                  & Hdec).
  cbv zeta in *.
  unfold encryptMessage. rewrite Hi1, Hs1, Hkey, Z.eqb_refl. cbn [negb].
  cbv zeta. rewrite Henc.
  destruct (slice_rel_split cwt (crypto_aead_xchacha20poly1305_ietf_ABYTES sd))
    as [Hc Ht].
  { pose proof (len_nonneg (stringToUint8Array text)). lia. }
  eexists. split; [reflexivity|]. cbn [ciphertext enc_tag enc_nonce].
  rewrite Hc, Ht.
  assert (Hcl : len (firstn (Z.to_nat
                       (len cwt - crypto_aead_xchacha20poly1305_ietf_ABYTES sd))
                       cwt) = len (stringToUint8Array text)).
  { unfold len in *. rewrite length_firstn. lia. }
  assert (Htl : len (skipn (Z.to_nat
                       (len cwt - crypto_aead_xchacha20poly1305_ietf_ABYTES sd))
                       cwt) = crypto_aead_xchacha20poly1305_ietf_ABYTES sd).
  { unfold len in *. rewrite length_skipn. lia. }
  split; [exact Hcl|]. split; [exact Htl|]. split; [exact Hnonce|].
  unfold decryptMessage. rewrite Hi2, Hs2. cbn [ciphertext enc_tag enc_nonce].
  rewrite Hkey, Hnonce, Htl, !Z.eqb_refl. cbn [negb].
  rewrite firstn_skipn, Hdec.
  rewrite (utf8_decode_encode_upto (length text) text (le_n _) Hwf). reflexivity.
Qed.

(** X24.  A message sent is the message received.  Node A and node B
    run initialised [CryptoService]s over the same library; A knows B
    under the recipient id with B's public key and a shared secret; B
    knows A with A's public key and the same secret, and A is the
    first peer of B's table whose key derives A's sender id: every
    peer listed before A has no public key or a key whose fingerprint
    starts with other 16 characters; the hash and the AEAD of the
    library answer; the text is non-empty well-formed UTF-16 of at
    most 500 code units; A's clock is positive and below 2^53 and both
    storages accept writes.  Then [sendMessage] on A returns a message
    and writes one byte array to every device connected to A, and
    [handleIncomingMessage] on B, given those bytes by any transport
    peer while the id is not in B's duplicate cache and a callback is
    registered, stores and delivers exactly one message: the same id,
    the same text, A as peer, A's timestamp, sent = false and
    delivered = true; and relays the envelope once with ttl
    INITIAL_MESSAGE_TTL - 1. *)
Theorem end_to_end_delivery (sd : Sodium) (cA cB : State) (envA envB : Env)
    (recipientId text transport kA : jsstring)
    (peersA before rest : list (jsstring * Peer)) (recipient pA : Peer)
    (key pkA pkB : bytes) (sA sB : Service) :
  ready cA sd -> ready cB sd -> CryptoImpl.publicKey cA = Some pkA ->
  hash_answers sd pkA -> hash_answers sd pkB -> aead_answers sd text key ->
  text <> [] -> len text <= MAX_MESSAGE_LENGTH ->
  well_formed_utf16 text = true ->
  map_get peersA recipientId = Some recipient ->
  sharedSecret recipient = Some key -> MessageService.publicKey recipient = Some pkB ->
  0 < now envA < 2 ^ 53 -> storageWritable envA = true ->
  Forall (fun kp => passed_over cB pkA kp.2) before ->
  MessageService.publicKey pA = Some pkA -> sharedSecret pA = Some key ->
  isDuplicate (cache sB) (generateUUID envA) = false ->
  storageWritable envB = true -> messageReceivedCallback sB = true ->
  let sent := sendMessage (service cA) envA recipientId text peersA sA in
  exists m data,
    outcome_of sent = Returned m
    /\ sends_of (trace_of sent)
       = map (fun d => (d, data)) (connectedDevices envA)
    /\ let got := handleIncomingMessage (service cB) envB transport data
                    (before ++ (kA, pA) :: rest) sB in
       received_of (trace_of got)
       = [ {| id := id m; peerId := peer_id pA; text := text;
              msg_timestamp := now envA; sent := false; delivered := true;
              failed := false |} ]
       /\ stores_of (trace_of got) = received_of (trace_of got)
       /\ relays_of (trace_of got)
          = [(substring0 (id m) 8, INITIAL_MESSAGE_TTL - 1)].
Proof.
  intros HrA HrB HpkA HhA HhB Haead Hne Hlen Hwf Hpeer Hsec HpkB Hnow HwA
    Hbefore HpA HsecA Hdup HwB Hcb sent.
  destruct (fingerprint_run cA sd pkA HrA HhA) as (fpA & HfpA & HidA).
  destruct (fingerprint_run cA sd pkB HrA HhB) as (fpB & HfpB & HidB).
  destruct (fingerprint_run cB sd pkA HrB HhA) as (fpA' & HfpA' & _).
  assert (Hsame : fpA' = fpA).
  { destruct HrA as [Hi1 Hs1]. destruct HrB as [Hi2 Hs2].
    unfold generateTrustFingerprint in HfpA, HfpA'.
    rewrite Hi1, Hs1 in HfpA. rewrite Hi2, Hs2 in HfpA'.
    destruct (crypto_hash sd pkA); congruence. }
  subst fpA'.
  destruct (crypto_roundtrip cA cB sd text key HrA HrB Hwf Haead)
    as (enc & Henc & Hcl & Htl & Hnl & Hdec).
  destruct Haead as (_ & _ & Hnp & Hab & _).
  destruct (utf8_length_upto (length text) text (le_n _)) as (Hb1 & Hb2).
  specialize (Hb2 Hwf). unfold MAX_MESSAGE_LENGTH in Hlen.
  assert (Htext : 1 <= len text).
  { unfold len. destruct text; [contradiction|]. cbn [length]. lia. }
  set (envelope :=
         {| version := 1; messageId := generateUUID envA;
            senderId := substring0 fpA 16; recipientId := substring0 fpB 16;
            timestamp := now envA; ttl := INITIAL_MESSAGE_TTL;
            encryptedPayload := ciphertext enc; nonce := enc_nonce enc;
            tag := enc_tag enc |}).
  assert (HlA : len (substring0 fpA 16) = 16).
  { apply lower_hex_id_roundtrip in HidA. tauto. }
  assert (HlB : len (substring0 fpB 16) = 16).
  { apply lower_hex_id_roundtrip in HidB. tauto. }
  pose proof (generateUUID_canonical envA) as Huuid.
  destruct (canonical_uuid_roundtrip _ Huuid) as [Hu32 _].
  assert (Hcreate : createEnvelope enc (generateUUID envA) (substring0 fpA 16)
                      (substring0 fpB 16) (now envA) INITIAL_MESSAGE_TTL
                    = Ok envelope).
  { unfold createEnvelope.
    replace (is_empty (generateUUID envA)) with false.
    2:{ symmetry. destruct (generateUUID envA); [discriminate Hu32|reflexivity]. }
    rewrite HlA, HlB. cbn [negb Z.eqb Pos.eqb].
    replace (0 <? now envA) with true by (symmetry; apply Z.ltb_lt; lia).
    reflexivity. }
  assert (Hval : validateEnvelope envelope = Ok true).
  { unfold validateEnvelope, envelope.
    cbn [Envelope.version Envelope.ttl Envelope.messageId Envelope.senderId
         Envelope.recipientId Envelope.timestamp Envelope.nonce Envelope.tag
         Envelope.encryptedPayload].
    replace (is_empty (generateUUID envA)) with false
      by (symmetry; destruct (generateUUID envA);
          [discriminate Hu32|reflexivity]).
    replace (is_empty (substring0 fpA 16)) with false
      by (symmetry; destruct (substring0 fpA 16);
          [discriminate HlA|reflexivity]).
    replace (is_empty (substring0 fpB 16)) with false
      by (symmetry; destruct (substring0 fpB 16);
          [discriminate HlB|reflexivity]).
    replace (0 <? now envA) with true by (symmetry; apply Z.ltb_lt; lia).
    replace (is_empty (enc_nonce enc)) with false
      by (symmetry; destruct (enc_nonce enc); [unfold len in Hnl; cbn in Hnl; lia
                                              |reflexivity]).
    replace (is_empty (enc_tag enc)) with false
      by (symmetry; destruct (enc_tag enc); [unfold len in Htl; cbn in Htl; lia
                                            |reflexivity]).
    replace (is_empty (ciphertext enc)) with false
      by (symmetry; destruct (ciphertext enc);
          [unfold len in Hcl; cbn in Hcl; unfold len in *; lia|reflexivity]).
    reflexivity. }
  assert (Hser : exists data, serializeEnvelope envelope = Ok data).
  { rewrite serializeEnvelope_layout by assumption. eexists. reflexivity. }
  destruct Hser as [data Hser].
  assert (Hrun : sent = send_result envA recipientId text key envelope data sA).
  { subst sent.
    apply (sendMessage_run (service cA) envA recipientId text peersA sA
             recipient key pkA fpA (substring0 fpB 16) enc envelope data);
      try assumption.
    - cbn [service MessageService.getPublicKey]. unfold getPublicKey.
      destruct HrA as [Hi _]. rewrite Hi, HpkA. reflexivity.
    - rewrite HpkB. exists fpB. split; [exact HfpB|reflexivity]. }
  assert (Hde : deserializeEnvelope data = Ok envelope).
  { apply serialize_decodes; try assumption; cbn [envelope timestamp nonce tag
      encryptedPayload]; lia. }
  unfold send_result in Hrun. rewrite HwA in Hrun.
  assert (Hout : exists m, outcome_of sent = Returned m
                           /\ id m = generateUUID envA
                           /\ sends_of (trace_of sent)
                              = map (fun d => (d, data)) (connectedDevices envA)).
  { rewrite Hrun.
    destruct (transmit_ok envA data (connectedDevices envA)).
    - eexists. split; [reflexivity|]. split; [reflexivity|].
      unfold trace_of. cbn [snd app].
      change (sends_of (EvEncrypt ?p ?k :: EvStore ?m :: ?l))
        with (sends_of l).
      rewrite sends_of_app, sends_of_send_events. unfold status_events.
      destruct (messageStatusCallback sA); cbn [sends_of flat_map app];
        apply app_nil_r.
    - eexists. split; [reflexivity|]. split; [reflexivity|].
      unfold trace_of. cbn [snd app].
      change (sends_of (EvEncrypt ?p ?k :: EvStore ?m :: ?l))
        with (sends_of l).
      apply sends_of_send_events. }
  destruct Hout as (m & Hm & Hid & Hsends).
  exists m, data. split; [exact Hm|]. split; [exact Hsends|].
  cbv zeta. rewrite handleIncomingMessage_run. unfold handle_result.
  rewrite Hde. cbn [envelope messageId]. rewrite Hdup.
  unfold handle_fresh, resolveSender. cbn [Envelope.senderId envelope].
  rewrite (senderLookup_first (service cB) before rest kA pA pkA fpA);
    [|
     |assumption|exact HfpA'].
  2:{ eapply List.Forall_impl; [|exact Hbefore]. intros [k0 p0] Hp.
      cbn [snd] in *. unfold passed_over in Hp.
      destruct (MessageService.publicKey p0) as [pk'|]; [|exact I].
      destruct Hp as (fp' & Hfp' & Hdiff). exists fp'.
      split; [exact Hfp'|]. apply Hdiff. exact HfpA'. }
  rewrite HsecA.
  change (MessageService.decryptMessage (service cB)) with (decryptMessage cB).
  replace (encrypted_part envelope) with enc by (destruct enc; reflexivity).
  rewrite Hdec. cbv zeta. rewrite HwB.
  unfold trace_of. cbn [snd app].
  change (received_of (EvDecrypt ?a ?b :: EvStore ?x :: ?l))
    with (received_of l).
  change (stores_of (EvDecrypt ?a ?b :: EvStore ?x :: ?l))
    with (x :: stores_of l).
  rewrite received_of_app, stores_of_app, received_of_relay_if.
  destruct (relay_if_projections envB envelope transport) as (Hst & _).
  rewrite Hst. unfold received_events. cbn [messageReceivedCallback set_cache].
  rewrite Hcb. cbn [received_of stores_of flat_map app].
  unfold incoming. cbn [envelope messageId timestamp]. rewrite Hid.
  split; [reflexivity|]. split; [reflexivity|].
  change (relays_of (EvDecrypt ?a ?b :: EvStore ?x :: EvMessageReceived ?y :: ?l))
    with (relays_of l).
  rewrite relays_of_relay_if. reflexivity.
Qed.

Lemma end_to_end_delivery_witness :
  exists m data,
    outcome_of
      (sendMessage (service MoreSamples.cryptoOfA)
         (Samples.envAt 1700000000000 true true) (js "B") (js "help")
         [(js "B", MoreSamples.nodeB)] initialService)
    = Returned m
    /\ sends_of (trace_of
         (sendMessage (service MoreSamples.cryptoOfA)
            (Samples.envAt 1700000000000 true true) (js "B") (js "help")
            [(js "B", MoreSamples.nodeB)] initialService))
       = map (fun d => (d, data))
           (connectedDevices (Samples.envAt 1700000000000 true true))
    /\ received_of (trace_of
         (handleIncomingMessage (service MoreSamples.cryptoOfB)
            (Samples.envAt 1700000000500 true true) (js "A") data
            ([(js "B", MoreSamples.nodeB)] ++ (js "A", MoreSamples.nodeA) :: [])
            initialService))
       = [ {| id := id m; peerId := js "A"; text := js "help";
              msg_timestamp := 1700000000000; sent := false;
              delivered := true; failed := false |} ].
Proof.
  destruct (end_to_end_delivery MoreSamples.toySodium MoreSamples.cryptoOfA
              MoreSamples.cryptoOfB (Samples.envAt 1700000000000 true true)
              (Samples.envAt 1700000000500 true true) (js "B") (js "help")
              (js "A") (js "A") [(js "B", MoreSamples.nodeB)]
              [(js "B", MoreSamples.nodeB)] []
              MoreSamples.nodeB MoreSamples.nodeA MoreSamples.secretAB
              MoreSamples.keyOfA MoreSamples.keyOfB initialService
              initialService)
    as (m & data & H1 & H2 & H3 & _).
  - split; reflexivity.
  - split; reflexivity.
  - reflexivity.
  - exists MoreSamples.keyOfA. split; [reflexivity | vm_compute; discriminate].
  - exists MoreSamples.keyOfB. split; [reflexivity | vm_compute; discriminate].
  - split; [reflexivity|]. split; [reflexivity|].
    split; [vm_compute; split; discriminate|].
    split; [vm_compute; split; discriminate|].
    exists (stringToUint8Array (js "help") ++ repeat Byte.x09 16).
    split; [reflexivity|]. split; reflexivity.
  - discriminate.
  - vm_compute. discriminate.
  - reflexivity.
  - reflexivity.
  - reflexivity.
  - reflexivity.
  - cbn. lia.
  - reflexivity.
  - constructor; [|constructor].
    exists (substring0 (bytes_to_hex MoreSamples.keyOfB) 32).
    split; [reflexivity|]. intros fpSender H. injection H as <-.
    vm_compute. discriminate.
  - reflexivity.
  - reflexivity.
  - vm_compute. reflexivity.
  - reflexivity.
  - reflexivity.
  - exists m, data. split; [exact H1|]. split; [exact H2 | exact H3].
Defined.

(* ===================================================================== *)
(** ** A call of the retry loop that nothing interrupts                   *)
(* ===================================================================== *)

Lemma map_delete_middle {V} (pre : list (jsstring * V)) (k : jsstring) (v : V)
    (post : list (jsstring * V)) :
  ~ In k (map fst pre) -> ~ In k (map fst post) ->
  map_delete (pre ++ (k, v) :: post) k = pre ++ post.
Proof.
  intros Hpre Hpost. unfold map_delete.
  rewrite List.filter_app. cbn [List.filter fst].
  rewrite bool_decide_eq_true_2 by reflexivity. cbn [negb].
  assert (Hkeep : forall m : list (jsstring * V), ~ In k (map fst m) ->
            List.filter (fun kv => negb (bool_decide (kv.1 = k))) m = m).
  { induction m as [|[k0 v0] m IH]; intros Hm; [reflexivity|].
    cbn [List.filter fst]. cbn in Hm.
    rewrite bool_decide_eq_false_2 by tauto. cbn [negb]. f_equal.
    apply IH. tauto. }
  rewrite !Hkeep by assumption. reflexivity.
Qed.

Lemma retryEntry_queue (env : Env) (k : jsstring) (q : QueuedMessage)
    (pre post : list (jsstring * QueuedMessage)) (s : Service) :
  messageQueue s = pre ++ (k, q) :: post ->
  ~ In k (map fst pre) -> ~ In k (map fst post) ->
  messageQueue (state_of (retryEntry env k q s))
  = pre ++ option_list (after_retry env (k, q)) ++ post.
Proof.
  intros Hq Hpre Hpost.
  unfold retryEntry, after_retry, retry_step. cbn [fst snd].
  destruct (nextRetryTime q <=? now env) eqn:Hdue; [|exact Hq].
  cbv beta iota zeta. bind_step. bind_step.
  cbn [serialized attempts q_messageId q_peerId q_envelope nextRetryTime].
  change (devicesToSend env None) with (connectedDevices env).
  rewrite Hq, map_set_middle by assumption.
  destruct (transmit_ok env (serialized q) (connectedDevices env)) eqn:Hok.
  - unfold notifyStatus. cbv beta iota. bind_step. bind_step.
    cbn [messageStatusCallback set_queue messageQueue].
    destruct (messageStatusCallback s); cbn [state_of fst snd messageQueue
      set_queue option_map option_list app];
      apply map_delete_middle; assumption.
  - destruct (MAX_SEND_RETRIES <=? attempts q + 1) eqn:Hmax.
    + unfold notifyStatus. cbv beta iota. bind_step. bind_step.
      cbn [messageStatusCallback set_queue messageQueue].
      destruct (messageStatusCallback s); cbn [state_of fst snd messageQueue
        set_queue option_map option_list app];
        apply map_delete_middle; assumption.
    + cbv beta iota. cbn [modify state_of fst snd messageQueue set_queue
        option_map option_list app].
      apply map_set_middle. assumption.
Qed.

Lemma forEntries_queue (env : Env) (rest : list (jsstring * QueuedMessage)) :
  forall (pre : list (jsstring * QueuedMessage)) (s : Service),
  messageQueue s = pre ++ rest ->
  NoDup (map fst rest) ->
  (forall k, In k (map fst pre) -> ~ In k (map fst rest)) ->
  messageQueue (state_of (forEntries env rest s))
  = pre ++ omap (after_retry env) rest.
Proof.
  induction rest as [|[k q] rest IH]; intros pre s Hq Hnd Hpre.
  - exact Hq.
  - cbn [map fst] in Hnd. apply NoDup_cons in Hnd. destruct Hnd as [Hni Hnd].
    assert (Hni' : ~ In k (map fst rest))
      by (intros H; apply Hni, list_elem_of_In; assumption).
    assert (Hkpre : ~ In k (map fst pre))
      by (intros H; apply (Hpre k H); left; reflexivity).
    pose proof (retryEntry_queue env k q pre rest s Hq Hkpre Hni') as Hq1.
    cbn [forEntries]. rewrite bind_unfold.
    destruct (retryEntry_run env k q s) as (s1 & Hrun & _).
    rewrite Hrun in Hq1 |- *. cbn [state_of fst snd] in Hq1.
    specialize (IH (pre ++ option_list (after_retry env (k, q))) s1).
    destruct (forEntries env rest s1) as [[o s2] t2] eqn:Hrest.
    cbn [state_of fst snd] in IH |- *.
    rewrite IH.
    + change (omap (after_retry env) ((k, q) :: rest))
        with (match after_retry env (k, q) with
              | Some y => y :: omap (after_retry env) rest
              | None => omap (after_retry env) rest
              end).
      destruct (after_retry env (k, q));
        cbn [option_list]; rewrite <- ?app_assoc; reflexivity.
    + rewrite Hq1, <- app_assoc. reflexivity.
    + exact Hnd.
    + intros k' Hin. rewrite map_app in Hin. apply in_app_or in Hin.
      destruct Hin as [Hin|Hin].
      * intros H. apply (Hpre k' Hin). right. exact H.
      * unfold after_retry in Hin. cbn [fst snd] in Hin.
        destruct (retry_step env q); cbn in Hin; [|destruct Hin].
        destruct Hin as [<-|[]]. exact Hni'.
Qed.

Lemma processRetryQueue_queue (env : Env) (s : Service) :
  NoDup (map fst (messageQueue s)) ->
  processRetryQueue env s
  = (Returned tt,
     set_queue (omap (after_retry env) (messageQueue s)) s,
     flat_map (fun kq => retry_events env s kq.1 kq.2) (messageQueue s)).
Proof.
  intros Hnd.
  pose proof (forEntries_queue env (messageQueue s) [] s eq_refl Hnd) as Hq.
  unfold processRetryQueue. rewrite bind_unfold. cbn [get].
  destruct (forEntries_run env (messageQueue s) s Hnd)
    as (s' & Hrun & Hc & Hst & Hcb & Hrc & _).
  { intros k q Hin. apply map_get_In; assumption. }
  rewrite Hrun in Hq |- *. cbn [state_of fst snd app] in Hq |- *.
  specialize (Hq (fun k (H : In k []) => match H with end)).
  f_equal. f_equal. destruct s, s'. cbn in *. subst. reflexivity.
Qed.

Lemma slotsFrom_cons (n : nat) (live : QueuedMessage -> bool)
    (kv : jsstring * QueuedMessage) (l : list (jsstring * QueuedMessage)) :
  slotsFrom n live (kv :: l)
  = mkSlot kv.1 n (live kv.2) :: slotsFrom (S n) live l.
Proof.
  unfold slotsFrom. rewrite imap_cons. f_equal.
  - f_equal. lia.
  - apply imap_ext. intros j x _. cbn. f_equal. lia.
Qed.

Lemma after_retry_object (env : Env) (k : jsstring) (q : QueuedMessage) :
  after_retry env (k, q)
  = if queued_after env q then Some (k, object_after env q) else None.
Proof.
  unfold after_retry, retry_step, queued_after, object_after. cbn [fst snd].
  destruct (nextRetryTime q <=? now env); [|reflexivity].
  destruct (transmit_ok env (serialized q) (connectedDevices env));
    [reflexivity|].
  destruct (MAX_SEND_RETRIES <=? attempts q + 1); reflexivity.
Qed.

Lemma deleteKey_other (k : jsstring) (records : list Slot) :
  (forall slot, In slot records -> slot_key slot <> k) ->
  deleteKey k records = records.
Proof.
  induction records as [|slot records IH]; intros H; [reflexivity|].
  unfold deleteKey in *. cbn [map]. rewrite IH by (intros x Hx; apply H; right; exact Hx).
  unfold holds. rewrite bool_decide_eq_false_2 by (apply H; left; reflexivity).
  rewrite andb_false_r. reflexivity.
Qed.

Lemma deleteKey_middle (k : jsstring) (pr : list Slot) (n : nat) (live : bool)
    (tail : list Slot) :
  (forall slot, In slot pr -> slot_key slot <> k) ->
  (forall slot, In slot tail -> slot_key slot <> k) ->
  deleteKey k (pr ++ mkSlot k n live :: tail)
  = pr ++ mkSlot k n false :: tail.
Proof.
  intros Hpr Htail.
  pose proof (deleteKey_other k pr Hpr) as H1.
  pose proof (deleteKey_other k tail Htail) as H2.
  unfold deleteKey in *. rewrite map_app. cbn [map]. rewrite H1, H2.
  unfold holds. cbn [slot_live slot_key slot_ref].
  rewrite bool_decide_eq_true_2 by reflexivity.
  destruct live; reflexivity.
Qed.

Lemma scan_at (env : Env) (t : Z) (po : list QueuedMessage)
    (q : QueuedMessage) (os : list QueuedMessage) (k : jsstring) (n : nat)
    (tail : list Slot) :
  length po = n ->
  scan env t (po ++ q :: os) n (mkSlot k n true :: tail)
  = if nextRetryTime q <=? t
    then (po ++ with_attempts q (attempts q + 1) :: os,
          map (fun d => EvSend d (serialized q)) (connectedDevices env),
          Some (mkTick t n k n (serialized q) env))
    else scan env t (po ++ q :: os) (S n) tail.
Proof.
  intros <-. cbn [scan slot_live slot_ref slot_key].
  rewrite list_lookup_middle by reflexivity.
  destruct (nextRetryTime q <=? t); [|reflexivity].
  rewrite alter_middle. reflexivity.
Qed.

Lemma resumeTick_at (env env0 : Env) (t : Z) (po : list QueuedMessage)
    (q : QueuedMessage) (os : list QueuedMessage) (pr : list Slot)
    (k : jsstring) (n : nat) (tail : list Slot) (cb : bool) (data : bytes) :
  length po = n -> length pr = n ->
  (forall slot, In slot pr -> slot_key slot <> k) ->
  (forall slot, In slot tail -> slot_key slot <> k) ->
  let ok := transmit_ok env0 data (connectedDevices env0) in
  let final := ok || (MAX_SEND_RETRIES <=? attempts q) in
  let objs :=
    po ++ (if final then q
           else with_nextRetryTime q
                  (t + RETRY_BASE_DELAY_MS * 2 ^ attempts q)) :: os in
  let records := pr ++ mkSlot k n (negb final) :: tail in
  resumeTick env 0
    (mkNode (po ++ q :: os) (pr ++ mkSlot k n true :: tail) cb
       [mkTick t n k n data env0])
  = match scan env t objs (S n) tail with
    | (objs', events', next) =>
        (mkNode objs' records cb (option_list next),
         map (fun d => EvError (LogSendFailedToPeer d))
           (rejected env0 data (connectedDevices env0))
         ++ (if ok then if cb then [EvMessageStatus k StatusDelivered] else []
             else if MAX_SEND_RETRIES <=? attempts q
                  then if cb then [EvMessageStatus k StatusFailed] else []
                  else [])
         ++ events')
    end.
Proof.
  intros Hpo Hpr Hk1 Hk2 ok final objs records.
  pose proof (deleteKey_middle k pr n true tail Hk1 Hk2) as Hdel.
  unfold resumeTick.
  cbn [suspended objects slots statusCallback lookup list_lookup
       tick_env tick_data tick_key tick_ref tick_index tick_now].
  rewrite list_lookup_middle by (symmetry; exact Hpo).
  fold ok. subst objs records final.
  assert (Hdrop : forall x, drop (S n) (pr ++ x :: tail) = tail).
  { intros x. change (pr ++ x :: tail) with (pr ++ [x] ++ tail).
    rewrite app_assoc. apply drop_app_length'.
    rewrite length_app, Hpr. cbn. lia. }
  destruct ok; cbn [orb negb].
  - rewrite Hdel, Hdrop.
    destruct (scan env t (po ++ q :: os) (S n) tail) as [[objs' ev'] next].
    cbn [take drop app]. rewrite app_nil_r. reflexivity.
  - destruct (MAX_SEND_RETRIES <=? attempts q); cbn [negb].
    + rewrite Hdel, Hdrop.
      destruct (scan env t (po ++ q :: os) (S n) tail) as [[objs' ev'] next].
      cbn [take drop app]. rewrite app_nil_r. reflexivity.
    + rewrite Hdrop. rewrite <- Hpo at 1. rewrite alter_middle.
      destruct (scan env t _ (S n) tail) as [[objs' ev'] next].
      cbn [take drop app]. rewrite app_nil_r. reflexivity.
Qed.

Lemma slotsFrom_keys (live : QueuedMessage -> bool)
    (l : list (jsstring * QueuedMessage)) :
  forall (n : nat) (slot : Slot),
  In slot (slotsFrom n live l) -> In (slot_key slot) (map fst l).
Proof.
  induction l as [|kv l IH]; intros n slot Hin.
  - destruct Hin.
  - rewrite slotsFrom_cons in Hin. destruct Hin as [<-|Hin].
    + left. reflexivity.
    + right. apply (IH (S n)). exact Hin.
Qed.

(** A call of [processRetryQueue] from its position in the queue to
    its end, when each write settles before anything else happens. *)
Lemma scan_settles (env : Env) (s : Service)
    (rest : list (jsstring * QueuedMessage)) :
  forall (po : list QueuedMessage) (pr : list Slot),
  length po = length pr ->
  NoDup (map fst rest) ->
  (forall slot, In slot pr -> ~ In (slot_key slot) (map fst rest)) ->
  forall objs1 ev1 tick1,
  scan env (now env) (po ++ map snd rest) (length pr)
    (slotsFrom (length pr) (fun _ => true) rest) = (objs1, ev1, tick1) ->
  exists tr,
    run (repeat (WritesSettle 0 env)
           (length (List.filter (fun kq => nextRetryTime kq.2 <=? now env)
                      rest)))
      (mkNode objs1 (pr ++ slotsFrom (length pr) (fun _ => true) rest)
         (messageStatusCallback s) (option_list tick1))
    = (mkNode (po ++ map (object_after env) (map snd rest))
         (pr ++ slotsFrom (length pr) (queued_after env) rest)
         (messageStatusCallback s) [],
       tr)
    /\ ev1 ++ tr = flat_map (fun kq => retry_events env s kq.1 kq.2) rest.
Proof.
  induction rest as [|[k q] rest IH]; intros po pr Hlen Hnd Hpr objs1 ev1 tick1.
  - cbn. intros [= <- <- <-]. exists []. split; reflexivity.
  - cbn [map fst snd] in Hnd |- *.
    apply NoDup_cons in Hnd. destruct Hnd as [Hni Hnd].
    assert (Hni' : ~ In k (map fst rest))
      by (intros H; apply Hni, list_elem_of_In; assumption).
    assert (Hk1 : forall slot, In slot pr -> slot_key slot <> k).
    { intros slot Hin Heq. apply (Hpr slot Hin). left. symmetry. exact Heq. }
    assert (Hk2 : forall slot,
              In slot (slotsFrom (S (length pr)) (fun _ => true) rest) ->
              slot_key slot <> k).
    { intros slot Hin Heq. apply Hni'. rewrite <- Heq.
      apply (slotsFrom_keys _ _ _ _ Hin). }
    assert (Hpr' : forall b slot, In slot (pr ++ [mkSlot k (length pr) b]) ->
              ~ In (slot_key slot) (map fst rest)).
    { intros b slot Hin. apply in_app_or in Hin. destruct Hin as [Hin|[<-|[]]].
      - intros H. apply (Hpr slot Hin). right. exact H.
      - exact Hni'. }
    assert (Hlen' : forall (x : QueuedMessage) (y : Slot),
              length (po ++ [x]) = length (pr ++ [y]))
      by (intros; rewrite !length_app, Hlen; reflexivity).
    assert (HS : forall y : Slot, length (pr ++ [y]) = S (length pr))
      by (intros; rewrite length_app; cbn; lia).
    rewrite !slotsFrom_cons. cbn [fst snd].
    rewrite scan_at by exact Hlen.
    cbn [List.filter fst snd flat_map].
    unfold retry_events at 1.
    destruct (nextRetryTime q <=? now env) eqn:Hdue.
    + intros [= <- <- <-]. cbn [length repeat run step option_list option_rect].
      rewrite (resumeTick_at env env (now env) po
                 (with_attempts q (attempts q + 1)) (map snd rest) pr k
                 (length pr) _ (messageStatusCallback s) (serialized q)
                 Hlen eq_refl Hk1 Hk2).
      cbn [attempts with_attempts].
      set (ok := transmit_ok env (serialized q) (connectedDevices env)).
      set (final := ok || (MAX_SEND_RETRIES <=? attempts q + 1)).
      assert (Hobj : (if final then with_attempts q (attempts q + 1)
                      else with_nextRetryTime
                             (with_attempts q (attempts q + 1))
                             (now env
                              + RETRY_BASE_DELAY_MS * 2 ^ (attempts q + 1)))
                     = object_after env q).
      { unfold object_after. rewrite Hdue. reflexivity. }
      assert (Hlive : negb final = queued_after env q).
      { unfold queued_after. rewrite Hdue. reflexivity. }
      rewrite Hobj, Hlive.
      destruct (scan env (now env) (po ++ object_after env q :: map snd rest)
                  (S (length pr))
                  (slotsFrom (S (length pr)) (fun _ => true) rest))
        as [[objs2 ev2] tick2] eqn:Hscan.
      destruct (IH (po ++ [object_after env q])
                  (pr ++ [mkSlot k (length pr) (queued_after env q)])
                  (Hlen' _ _) Hnd (Hpr' _) objs2 ev2 tick2) as (tr & Hrun & Htr).
      { rewrite HS, <- app_assoc. exact Hscan. }
      rewrite HS, <- !app_assoc in Hrun. cbn [app] in Hrun.
      rewrite Hrun. eexists. split; [reflexivity|].
      rewrite <- Htr. unfold send_events, status_events.
      rewrite <- !app_assoc. reflexivity.
    + intros Hscan.
      assert (Hobj : object_after env q = q)
        by (unfold object_after; rewrite Hdue; reflexivity).
      assert (Hlive : queued_after env q = true)
        by (unfold queued_after; rewrite Hdue; reflexivity).
      destruct (IH (po ++ [q]) (pr ++ [mkSlot k (length pr) true])
                  (Hlen' _ _) Hnd (Hpr' _) objs1 ev1 tick1) as (tr & Hrun & Htr).
      { rewrite HS, <- app_assoc. exact Hscan. }
      rewrite HS, <- !app_assoc in Hrun. cbn [app] in Hrun.
      exists tr. rewrite Hobj, Hlive. split; [exact Hrun | exact Htr].
Qed.

Lemma omap_cons_list {A B} (f : A -> option B) (x : A) (l : list A) :
  omap f (x :: l)
  = match f x with Some y => y :: omap f l | None => omap f l end.
Proof. reflexivity. Qed.

Lemma entries_settled (env : Env) (rest : list (jsstring * QueuedMessage)) :
  forall po : list QueuedMessage,
  omap (fun slot =>
          if slot_live slot
          then option_map (fun q => (slot_key slot, q))
                 ((po ++ map (object_after env) (map snd rest))
                    !! slot_ref slot)
          else None)
       (slotsFrom (length po) (queued_after env) rest)
  = omap (after_retry env) rest.
Proof.
  induction rest as [|[k q] rest IH]; intros po; [reflexivity|].
  rewrite slotsFrom_cons, !omap_cons_list, after_retry_object.
  cbn [fst snd map slot_live slot_key slot_ref].
  rewrite list_lookup_middle by reflexivity. cbn [option_map].
  specialize (IH (po ++ [object_after env q])).
  rewrite <- app_assoc, length_app in IH. cbn [app length] in IH.
  rewrite Nat.add_1_r in IH. rewrite IH.
  destruct (queued_after env q); reflexivity.
Qed.

(** X28.  A call of [processRetryQueue] that nothing interrupts, await
    by await.  For a queue with distinct keys, let the timer fire once
    and let the writes of each due entry settle before anything else
    happens.  Then the call taken await by await and the call taken as
    one step agree: it returns normally, the effects are the same in
    the same order, the queue afterwards holds the same entries in the
    same order, and no call is left suspended. *)
Theorem uninterrupted_call_agrees (env : Env) (s : Service) :
  NoDup (map fst (messageQueue s)) ->
  let r := processRetryQueue env s in
  let due :=
    List.filter (fun kq => nextRetryTime kq.2 <=? now env) (messageQueue s) in
  let settled :=
    run (TimerFires env :: repeat (WritesSettle 0 env) (length due))
      (load s) in
  outcome_of r = Returned tt
  /\ entries settled.1 = messageQueue (state_of r)
  /\ settled.2 = trace_of r
  /\ suspended settled.1 = []
  /\ statusCallback settled.1 = messageStatusCallback (state_of r).
Proof.
  intros Hnd r due settled. subst r due settled.
  rewrite (processRetryQueue_queue env s Hnd).
  unfold outcome_of, state_of, trace_of. cbn [fst snd messageQueue set_queue
    messageStatusCallback].
  split; [reflexivity|].
  cbn [run step]. unfold startTick, load.
  cbn [objects slots statusCallback suspended app].
  change (imap (fun i kv => mkSlot kv.1 i true) (messageQueue s))
    with (slotsFrom 0 (fun _ => true) (messageQueue s)).
  destruct (scan env (now env) (map snd (messageQueue s)) 0
              (slotsFrom 0 (fun _ => true) (messageQueue s)))
    as [[objs1 ev1] tick1] eqn:Hscan.
  destruct (scan_settles env s (messageQueue s) [] [] eq_refl Hnd
              (fun slot (H : In slot []) => match H with end)
              objs1 ev1 tick1 Hscan) as (tr & Hrun & Htr).
  cbn [app length] in Hrun. rewrite Hrun. cbn [fst snd].
  split; [|split; [exact Htr | split; reflexivity]].
  unfold entries. cbn [objects slots].
  apply (entries_settled env (messageQueue s) []).
Qed.

(** The message of the retry scenario, retried one second after it was
    queued with every link still down. *)
Lemma uninterrupted_call_agrees_witness :
  NoDup (map fst (messageQueue (state_of Samples.sendWhileLinkDown)))
  /\ entries
       (run (TimerFires (Samples.envAt 1700000001000 false true)
             :: repeat (WritesSettle 0 (Samples.envAt 1700000001000 false true))
                  (length
                     (List.filter
                        (fun kq => nextRetryTime kq.2
                                   <=? now (Samples.envAt 1700000001000
                                              false true))
                        (messageQueue (state_of Samples.sendWhileLinkDown)))))
          (load (state_of Samples.sendWhileLinkDown))).1
     = messageQueue
         (state_of
            (processRetryQueue (Samples.envAt 1700000001000 false true)
               (state_of Samples.sendWhileLinkDown))).
Proof.
  assert (Hnd : NoDup (map fst
                  (messageQueue (state_of Samples.sendWhileLinkDown)))).
  { vm_compute. apply NoDup_singleton. }
  split; [exact Hnd|].
  destruct (uninterrupted_call_agrees
              (Samples.envAt 1700000001000 false true)
              (state_of Samples.sendWhileLinkDown) Hnd) as (_ & H & _).
  exact H.
Defined.

(* ===================================================================== *)
(** ** What the retry timer never does, however its calls interleave      *)
(* ===================================================================== *)

Lemma started_quiet (data : bytes) (devices : list jsstring) :
  stores_of (map (fun d => EvSend d data) devices) = []
  /\ received_of (map (fun d => EvSend d data) devices) = [].
Proof.
  induction devices as [|d ds [IH1 IH2]]; [split; reflexivity|].
  split; [exact IH1 | exact IH2].
Qed.

Lemma logged_quiet (l : list jsstring) :
  stores_of (map (fun d => EvError (LogSendFailedToPeer d)) l) = []
  /\ received_of (map (fun d => EvError (LogSendFailedToPeer d)) l) = [].
Proof.
  induction l as [|d ds [IH1 IH2]]; [split; reflexivity|].
  split; [exact IH1 | exact IH2].
Qed.

Lemma scan_quiet (env : Env) (t : Z) (objs : list QueuedMessage)
    (todo : list Slot) :
  forall index : nat,
  stores_of (scan env t objs index todo).1.2 = []
  /\ received_of (scan env t objs index todo).1.2 = []
  /\ statuses_of (scan env t objs index todo).1.2 = [].
Proof.
  induction todo as [|slot todo IH]; intros index.
  - repeat split; reflexivity.
  - cbn [scan].
    destruct (if slot_live slot then objs !! slot_ref slot else None)
      as [q|]; [|apply IH].
    destruct (nextRetryTime q <=? t); [|apply IH].
    cbn [fst snd]. split; [apply started_quiet|].
    split; [apply started_quiet | apply statuses_of_started].
Qed.

Lemma step_quiet (a : Step) (n : Node) :
  stores_of (step a n).2 = []
  /\ received_of (step a n).2 = []
  /\ statusCallback (step a n).1 = statusCallback n
  /\ (statusCallback n = false -> statuses_of (step a n).2 = []).
Proof.
  destruct a as [env|i env]; cbn [step].
  - unfold startTick.
    pose proof (scan_quiet env (now env) (objects n) (slots n) 0)
      as (H1 & H2 & H3).
    destruct (scan env (now env) (objects n) 0 (slots n)) as [[objs ev] tick].
    cbn [fst snd statusCallback] in *. auto.
  - unfold resumeTick.
    destruct (suspended n !! i) as [tick|];
      [|cbn [fst snd]; repeat split; reflexivity].
    set (logged := map (fun d => EvError (LogSendFailedToPeer d)) _).
    set (st := fun x : Status =>
                 if statusCallback n then [EvMessageStatus (tick_key tick) x]
                 else []).
    assert (Hst : forall x, stores_of (st x) = [] /\ received_of (st x) = []
                            /\ (statusCallback n = false ->
                                statuses_of (st x) = [])).
    { intros x. subst st. cbv beta.
      destruct (statusCallback n); repeat split; try reflexivity.
      discriminate. }
    assert (Hlog : stores_of logged = [] /\ received_of logged = []
                   /\ statuses_of logged = []).
    { subst logged. split; [apply logged_quiet|].
      split; [apply logged_quiet | apply statuses_of_logged]. }
    destruct Hlog as (L1 & L2 & L3).
    destruct (transmit_ok _ _ _);
      [|destruct (MAX_SEND_RETRIES <=? _)];
      match goal with
      | |- context [scan ?e ?t ?o ?ix ?td] =>
          pose proof (scan_quiet e t o td ix) as (H1 & H2 & H3);
          destruct (scan e t o ix td) as [[objs' ev'] next]
      end;
      cbn [fst snd statusCallback] in *;
      rewrite !stores_of_app, !received_of_app, !statuses_of_app,
        L1, L2, L3, H1, H2, H3;
      try (destruct (Hst StatusDelivered) as (S1 & S2 & S3));
      try (destruct (Hst StatusFailed) as (F1 & F2 & F3));
      cbn [app]; rewrite ?app_nil_r; auto.
Qed.

(** X29.  Whatever the order in which the timer fires and the writes
    of suspended calls settle, the retry loop writes nothing to
    storage and hands nothing to the message-received callback; and a
    node without a status callback reports no status. *)
Theorem retry_timer_stores_nothing (steps : list Step) (n : Node) :
  stores_of (run steps n).2 = []
  /\ received_of (run steps n).2 = []
  /\ statusCallback (run steps n).1 = statusCallback n
  /\ (statusCallback n = false -> statuses_of (run steps n).2 = []).
Proof.
  revert n. induction steps as [|a steps IH]; intros n.
  - repeat split; reflexivity.
  - cbn [run].
    pose proof (step_quiet a n) as (H1 & H2 & H3 & H4).
    destruct (step a n) as [n1 t1]. cbn [fst snd] in *.
    pose proof (IH n1) as (I1 & I2 & I3 & I4).
    destruct (run steps n1) as [n2 t2]. cbn [fst snd] in *.
    rewrite stores_of_app, received_of_app, statuses_of_app, H1, H2, I1, I2.
    split; [reflexivity|]. split; [reflexivity|].
    split; [congruence|].
    intros Hcb. rewrite (H4 Hcb), I4 by congruence. reflexivity.
Qed.
